(** * icvcs: a shallow embedding of the snapshot-versioning tool

    The development follows [icvcs.py]: a file system with a working
    directory, the JSON documents the tool keeps under [.icvcs], and the
    commands [add], [remove], [version], [commit], [remove_commit], [push],
    [clear_commits], [status] and [compare_versions], each written as the
    Python function is, in a state-and-exception monad over the file system. *)

From stdpp Require Import gmap strings list fin_maps sorting pretty.
From Stdlib Require Import Ascii String NArith Lia.

Open Scope string_scope.
Open Scope list_scope.
Set Warnings "-notation-for-abbreviation".

(** ** Python strings and POSIX path strings *)

Module PyStr.

(** [s.startswith(pre)] *)
Definition startswith (s pre : string) : bool := String.prefix pre s.

(** [needle in hay] on strings: [needle] occurs at some position. *)
Fixpoint contains (hay needle : string) : bool :=
  String.prefix needle hay ||
  match hay with
  | EmptyString => false
  | String _ hay' => contains hay' needle
  end.

(** [s.endswith('/')] *)
Fixpoint endswith_slash (s : string) : bool :=
  match s with
  | EmptyString => false
  | String c EmptyString => Ascii.eqb c "/"
  | String _ s' => endswith_slash s'
  end.

(** ['/' in s] *)
Fixpoint has_slash (s : string) : bool :=
  match s with
  | EmptyString => false
  | String c s' => Ascii.eqb c "/" || has_slash s'
  end.

(** [s.split('/')]: never empty, [''.split('/') == ['']]. *)
Fixpoint split_slash (s : string) : list string :=
  match s with
  | EmptyString => [EmptyString]
  | String c s' =>
      if Ascii.eqb c "/" then EmptyString :: split_slash s'
      else match split_slash s' with
           | [] => [String c EmptyString]
           | h :: t => String c h :: t
           end
  end.

(** ['/'.join(parts)] *)
Fixpoint join_slash (parts : list string) : string :=
  match parts with
  | [] => ""
  | [p] => p
  | p :: rest => p +:+ "/" +:+ join_slash rest
  end.

(** [posixpath.join(a, b)] *)
Definition os_path_join (a b : string) : string :=
  if startswith b "/" then b
  else if String.eqb a "" || endswith_slash a then a +:+ b
  else a +:+ "/" +:+ b.

(** [posixpath.basename(p)]: [p[p.rfind('/') + 1:]]. *)
Fixpoint os_path_basename (p : string) : string :=
  match p with
  | EmptyString => EmptyString
  | String c p' =>
      if has_slash p' then os_path_basename p'
      else if Ascii.eqb c "/" then p'
      else p
  end.

(** A path component that names an entry: not empty, not [.] or [..],
    and without a separator. *)
Definition proper_name (c : string) : Prop :=
  c ≠ "" ∧ c ≠ "." ∧ c ≠ ".." ∧ has_slash c = false.

Definition proper_nameb (c : string) : bool :=
  negb (String.eqb c "") && negb (String.eqb c ".") &&
  negb (String.eqb c "..") && negb (has_slash c).

End PyStr.

Export PyStr.

(** ** The documents the tool keeps, and file contents *)

(** [repo_data.json]: the Repository Index. [directories] is a JSON object
    (a Python dict): insertion-ordered, keys unique. *)
Record repo_data := RepoData {
  repo_name : string;
  files : list string;
  directories : list (string * list string);
  versions : list string
}.

(** One record of [commit_history.json], also [commits/<id>/metadata.json]. *)
Record commit_meta := CommitMeta {
  commit_id : string;
  timestamp : string;
  message : string;
  author : string
}.

(** [versions/<name>/metadata.json]. Version 1.0 of the tool wrote no
    ["files"] key, hence the option. *)
Record version_meta := VersionMeta {
  version_name : string;
  created_at : string;
  vauthor : string;
  description : string;
  vfiles : option (list string)
}.

(** [icvcs_config.json] *)
Record config := Config {
  default_author : string;
  default_version_description : string;
  default_commit_message : string
}.

(** What a regular file holds: one of the JSON documents of the tool, kept
    as the value that [json.dump] wrote and [json.load] gives back, or raw
    bytes (a Rocq [string] is a sequence of 8-bit characters). A file of
    JSON text is held as its document: [Bytes] stands for a file whose
    bytes are not JSON text, on which [json.load] raises
    [JSONDecodeError]. JSON text of another shape than the five documents
    is not among the files of the model. *)
Inductive content :=
  | Bytes (b : string)
  | IndexDoc (r : repo_data)
  | HistoryDoc (h : list commit_meta)
  | CommitMetaDoc (m : commit_meta)
  | VersionMetaDoc (m : version_meta)
  | ConfigDoc (c : config).

Inductive node :=
  | File (c : content)
  | Dir.

Global Instance repo_data_eq_dec : EqDecision repo_data.
Proof. solve_decision. Defined.
Global Instance commit_meta_eq_dec : EqDecision commit_meta.
Proof. solve_decision. Defined.
Global Instance version_meta_eq_dec : EqDecision version_meta.
Proof. solve_decision. Defined.
Global Instance config_eq_dec : EqDecision config.
Proof. solve_decision. Defined.
Global Instance content_eq_dec : EqDecision content.
Proof. solve_decision. Defined.
Global Instance node_eq_dec : EqDecision node.
Proof. solve_decision. Defined.

(** ** The file system *)

(** A location is the list of names from the root [/] down; the file system
    maps the locations that exist to what is there. Symbolic links and
    permissions are not modelled. *)
Notation path := (list string).
Notation filesystem := (gmap (list string) node).

Inductive errno := ENOENT | ENOTDIR.

Definition parent (loc : path) : path := removelast loc.

(** [strip_prefix pre k = Some q] when [k = pre ++ q]. *)
Fixpoint strip_prefix (pre k : path) : option path :=
  match pre, k with
  | [], _ => Some k
  | a :: pre', b :: k' => if decide (a = b) then strip_prefix pre' k' else None
  | _ :: _, [] => None
  end.

(** One component of a path lookup, as the kernel does it: the place reached
    so far must be a directory; an empty component and [.] stay there, [..]
    goes to the parent (itself a directory in any real file system, which
    the lookup re-checks so that it is sound on every map), a name goes
    down. *)
Definition walk_step (fs : filesystem) (acc : errno + path) (c : string)
  : errno + path :=
  match acc with
  | inl e => inl e
  | inr loc =>
      match fs !! loc with
      | None => inl ENOENT
      | Some (File _) => inl ENOTDIR
      | Some Dir =>
          if decide (c = "" ∨ c = ".") then inr loc
          else if decide (c = "..") then
            match fs !! parent loc with
            | Some Dir => inr (parent loc)
            | _ => inl ENOENT
            end
          else inr (loc ++ [c])
      end
  end.

(** Where a path string leads from the working directory [wd]. The last
    component need not exist. *)
Definition resolve (fs : filesystem) (wd : path) (p : string) : errno + path :=
  if decide (p = "") then inl ENOENT
  else foldl (walk_step fs) (inr (if startswith p "/" then [] else wd))
             (split_slash p).

Definition node_of (fs : filesystem) (wd : path) (p : string) : option node :=
  match resolve fs wd p with
  | inr loc => fs !! loc
  | inl _ => None
  end.

(** [os.path.exists], [os.path.isfile], [os.path.isdir] *)
Definition path_exists (fs : filesystem) (wd : path) (p : string) : bool :=
  bool_decide (is_Some (node_of fs wd p)).
Definition path_isfile (fs : filesystem) (wd : path) (p : string) : bool :=
  match node_of fs wd p with Some (File _) => true | _ => false end.
Definition path_isdir (fs : filesystem) (wd : path) (p : string) : bool :=
  match node_of fs wd p with Some Dir => true | _ => false end.

(** The names directly under [loc]. A directory never lists an entry that
    is empty, [.], [..] or holds a separator; the listing says so for every
    map. *)
Definition child_names (fs : filesystem) (loc : path) : gset string :=
  map_fold (λ k _ acc,
              match strip_prefix loc k with
              | Some [c] => if proper_nameb c then {[ c ]} ∪ acc else acc
              | _ => acc
              end) ∅ fs.

(** [k] lies strictly below [loc]. *)
Definition below (loc k : path) : bool :=
  match strip_prefix loc k with
  | Some (_ :: _) => true
  | _ => false
  end.

(** [k] is [loc] or lies below it. *)
Definition within (loc k : path) : bool :=
  match strip_prefix loc k with
  | Some _ => true
  | None => false
  end.

(** Everything strictly below [loc] disappears. *)
Definition remove_below (loc : path) (fs : filesystem) : filesystem :=
  filter (λ kv, below loc kv.1 = false) fs.

(** A copy of everything strictly below [sloc] in [fs0] is put below [dloc]
    in [fs]. *)
Definition graft (fs0 : filesystem) (sloc dloc : path) (fs : filesystem)
  : filesystem :=
  map_fold (λ k n acc,
              match strip_prefix sloc k with
              | Some (c :: q) => <[dloc ++ c :: q := n]> acc
              | _ => acc
              end) fs fs0.

(** Every proper ancestor of [loc ++ q] from [loc] down is a directory. *)
Fixpoint dirs_down (fs : filesystem) (loc q : path) : bool :=
  match q with
  | [] => true
  | c :: q' =>
      match fs !! loc with
      | Some Dir => dirs_down fs (loc ++ [c]) q'
      | _ => false
      end
  end.

(** [os.walk(top)], flattened: for every regular file reachable from [loc]
    through directories, its directory chain and its name, relative to
    [loc]. The order of the listing is the operating system's; here it is
    the map's. *)
Definition walk_files (fs : filesystem) (loc : path) : list (path * string) :=
  omap (λ kv : path * node,
          match kv.2, strip_prefix loc kv.1 with
          | File _, Some q =>
              match last q with
              | Some name =>
                  if dirs_down fs loc q then Some (removelast q, name) else None
              | None => None
              end
          | _, _ => None
          end) (map_to_list fs).

(** ** The process: state, output, exceptions *)

Inductive exn :=
  | FileExistsError
  | FileNotFoundError
  | NotADirectoryError
  | IsADirectoryError
  | SameFileError
  | ShutilError
  | OSError
  | JSONDecodeError
  | KeyError
  | ValueError
  | UnicodeDecodeError
  | SystemExit.

Inductive result (A : Type) :=
  | Ok (a : A)
  | Raise (e : exn).
Arguments Ok {A} a.
Arguments Raise {A} e.

(** The file system, the working directory of the process, what was printed,
    and the locations written to so far (a ghost log: one entry for every
    call that changes the disk). *)
Record world := World {
  disk : filesystem;
  cwd : path;
  stdout : list string;
  writes : list path
}.

(** A command runs on a world and ends normally or with an uncaught
    exception; what it did before raising stays done. *)
Definition M (A : Type) : Type := world → result A * world.

Global Instance M_ret : MRet M := λ A a w, (Ok a, w).
Global Instance M_bind : MBind M := λ A B f m w,
  match m w with
  | (Ok a, w') => f a w'
  | (Raise e, w') => (Raise e, w')
  end.

Definition raise {A} (e : exn) : M A := λ w, (Raise e, w).

Definition print (s : string) : M unit :=
  λ w, (Ok (), World (disk w) (cwd w) (stdout w ++ [s]) (writes w)).

Definition ask {A} (f : filesystem → path → A) : M A :=
  λ w, (Ok (f (disk w) (cwd w)), w).

Definition change_disk (loc : path) (f : filesystem → filesystem) : M unit :=
  λ w, (Ok (), World (f (disk w)) (cwd w) (stdout w) (writes w ++ [loc])).

(** [for x in xs: body(x)] *)
Fixpoint for_each {A} (xs : list A) (body : A → M unit) : M unit :=
  match xs with
  | [] => mret ()
  | x :: xs' => body x ;; for_each xs' body
  end.

Fixpoint fold_each {A S} (xs : list A) (s : S) (body : S → A → M S) : M S :=
  match xs with
  | [] => mret s
  | x :: xs' => s' ← body s x; fold_each xs' s' body
  end.

(** ** [os], [os.path] and [shutil] *)

Definition os_path_exists (p : string) : M bool :=
  ask (λ fs wd, path_exists fs wd p).
Definition os_path_isfile (p : string) : M bool :=
  ask (λ fs wd, path_isfile fs wd p).
Definition os_path_isdir (p : string) : M bool :=
  ask (λ fs wd, path_isdir fs wd p).

(** A system call looks its path up and fails with the error of the lookup. *)
Definition locate (p : string) : M path :=
  r ← ask (λ fs wd, resolve fs wd p);
  match r with
  | inr loc => mret loc
  | inl ENOENT => raise FileNotFoundError
  | inl ENOTDIR => raise NotADirectoryError
  end.

Definition node_at (loc : path) : M (option node) :=
  ask (λ fs _, fs !! loc).

(** [open(p, 'rb').read()], and [json.load] of the typed documents. *)
Definition read_file (p : string) : M content :=
  loc ← locate p;
  n ← node_at loc;
  match n with
  | Some (File c) => mret c
  | Some Dir => raise IsADirectoryError
  | None => raise FileNotFoundError
  end.

(** [open(p, 'w')] followed by the write: creates or truncates. *)
Definition write_file (p : string) (c : content) : M unit :=
  loc ← locate p;
  n ← node_at loc;
  match n with
  | Some Dir => raise IsADirectoryError
  | _ => change_disk loc (insert loc (File c))
  end.

(** [os.listdir(p)], in the order of the set's enumeration. *)
Definition os_listdir (p : string) : M (list string) :=
  loc ← locate p;
  n ← node_at loc;
  match n with
  | Some Dir => ask (λ fs _, elements (child_names fs loc))
  | Some (File _) => raise NotADirectoryError
  | None => raise FileNotFoundError
  end.

(** One component of [os.makedirs]: the place reached so far and whether the
    last component made a new directory. *)
Definition makedirs_step (acc : path * bool) (c : string) : M (path * bool) :=
  n ← node_at acc.1;
  match n with
  | None => raise FileNotFoundError
  | Some (File _) => raise NotADirectoryError
  | Some Dir =>
      if decide (c = "" ∨ c = ".") then mret acc
      else if decide (c = "..") then mret (parent acc.1, false)
      else
        n' ← node_at (acc.1 ++ [c]);
        match n' with
        | None =>
            change_disk (acc.1 ++ [c]) (insert (acc.1 ++ [c]) Dir) ;;
            mret (acc.1 ++ [c], true)
        | Some _ => mret (acc.1 ++ [c], false)
        end
  end.

(** [os.makedirs(p)] with [exist_ok=False], read left to right as
    [mkdir -p] does: missing directories are made on the way, and the call
    fails with [FileExistsError] when its last step made nothing. On paths
    made of names this is what the recursion of [os.makedirs] does. The
    result is the location of [p]. *)
Definition makedirs_at (p : string) : M path :=
  if decide (p = "") then raise FileNotFoundError
  else
    wd ← ask (λ _ wd, wd);
    r ← fold_each (split_slash p)
                  ((if startswith p "/" then [] else wd), false)
                  makedirs_step;
    if snd (r : path * bool) then mret (fst r) else raise FileExistsError.

Definition os_makedirs (p : string) : M unit := makedirs_at p ;; mret ().

(** [shutil.rmtree(p)]: the contents go first, then [os.rmdir(p)], which the
    kernel refuses when [p] ends in [.] or [..]. *)
Definition shutil_rmtree (p : string) : M unit :=
  loc ← locate p;
  n ← node_at loc;
  match n with
  | None => raise FileNotFoundError
  | Some (File _) => raise NotADirectoryError
  | Some Dir =>
      change_disk loc (remove_below loc) ;;
      match last (split_slash p) with
      | Some c =>
          if decide (c = "." ∨ c = "..") then raise OSError
          else change_disk loc (delete loc)
      | None => raise OSError
      end
  end.

(** [os.path.samefile] as [shutil.copyfile] asks it: both exist and are the
    same place. *)
Definition samefile (fs : filesystem) (wd : path) (a b : string) : bool :=
  match resolve fs wd a, resolve fs wd b with
  | inr la, inr lb =>
      bool_decide (la = lb) && bool_decide (is_Some (fs !! la))
  | _, _ => false
  end.

(** [shutil.copy(src, dst)] *)
Definition shutil_copy (src dst : string) : M unit :=
  d ← os_path_isdir dst;
  let dst' := if (d : bool) then os_path_join dst (os_path_basename src) else dst in
  same ← ask (λ fs wd, samefile fs wd src dst');
  if (same : bool) then raise SameFileError
  else
    c ← read_file src;
    write_file dst' c.

(** [shutil.copytree(src, dst)]: [src] is listed, [dst] is made (it must not
    exist), and the tree below [src] is copied below [dst]. Copying a tree
    into itself does not end well in Python (it descends into its own copy
    until the kernel refuses the name); here it ends with an error after one
    round, all residue being below [dst] in both. *)
Definition shutil_copytree (src dst : string) : M unit :=
  sloc ← locate src;
  n ← node_at sloc;
  match n with
  | None => raise FileNotFoundError
  | Some (File _) => raise NotADirectoryError
  | Some Dir =>
      fs0 ← ask (λ fs _, fs);
      dloc ← makedirs_at dst;
      change_disk dloc (graft fs0 sloc dloc) ;;
      if within sloc dloc then raise ShutilError else mret ()
  end.

(** [try: ... except ...]: the exception becomes a value. *)
Definition try {A} (m : M A) : M (result A) :=
  λ w, let (r, w') := m w in (Ok r, w').

(** ** Text, time, lists and dicts *)

(** The state of a UTF-8 decoder between two bytes: how many continuation
    bytes are due and the range the next one must lie in. *)
Record utf8_state := Utf8State { due : nat; lo : nat; hi : nat }.

Definition utf8_step (st : option utf8_state) (c : ascii)
  : option utf8_state :=
  let b := nat_of_ascii c in
  match st with
  | None => None
  | Some (Utf8State 0 _ _) =>
      if Nat.leb b 127 then Some (Utf8State 0 0 0)
      else if Nat.leb 194 b && Nat.leb b 223 then Some (Utf8State 1 128 191)
      else if Nat.eqb b 224 then Some (Utf8State 2 160 191)
      else if Nat.eqb b 237 then Some (Utf8State 2 128 159)
      else if Nat.leb 225 b && Nat.leb b 239 then Some (Utf8State 2 128 191)
      else if Nat.eqb b 240 then Some (Utf8State 3 144 191)
      else if Nat.leb 241 b && Nat.leb b 243 then Some (Utf8State 3 128 191)
      else if Nat.eqb b 244 then Some (Utf8State 3 128 143)
      else None
  | Some (Utf8State (S k) l h) =>
      if Nat.leb l b && Nat.leb b h then Some (Utf8State k 128 191) else None
  end.

Definition utf8_valid (b : string) : bool :=
  match foldl utf8_step (Some (Utf8State 0 0 0)) (list_ascii_of_string b) with
  | Some (Utf8State 0 _ _) => true
  | _ => false
  end.

(** Universal newlines: [\r\n] and a lone [\r] are read as [\n]. *)
Fixpoint universal_newlines (s : string) : string :=
  match s with
  | EmptyString => EmptyString
  | String c s' =>
      if Ascii.eqb c "013" then
        match s' with
        | String c' s'' =>
            if Ascii.eqb c' "010" then String "010" (universal_newlines s'')
            else String "010" (universal_newlines s')
        | EmptyString => String "010" EmptyString
        end
      else String c (universal_newlines s')
  end.

(** What [f.read()] gives for a file opened with ["r"]: the decoded string
    of a file of bytes, or the text that [json.dump] wrote for a document
    (always decodable, and told apart from any string of bytes). *)
Inductive text :=
  | Str (s : string)
  | Dump (c : content).

Global Instance text_eq_dec : EqDecision text.
Proof. solve_decision. Defined.

Definition decode (c : content) : option text :=
  match c with
  | Bytes b => if utf8_valid b then Some (Str (universal_newlines b)) else None
  | doc => Some (Dump doc)
  end.

(** [datetime.now()] *)
Record datetime := DateTime {
  year : nat; month : nat; day : nat;
  hour : nat; minute : nat; second : nat;
  microsecond : nat
}.

Definition digit (n : nat) : ascii := ascii_of_nat (48 + n mod 10).
Global Arguments digit : simpl never.

(** [n] in decimal on [width] digits, zero-padded. *)
Fixpoint zero_pad (width n : nat) : string :=
  match width with
  | 0 => EmptyString
  | S w => zero_pad w (n / 10) +:+ String (digit n) EmptyString
  end.

(** [t.strftime('%Y%m%d%H%M%S')], for a year of four digits *)
Definition strftime_YmdHMS (t : datetime) : string :=
  zero_pad 4 (year t) +:+ zero_pad 2 (month t) +:+ zero_pad 2 (day t) +:+
  zero_pad 2 (hour t) +:+ zero_pad 2 (minute t) +:+ zero_pad 2 (second t).

(** [t.isoformat()] *)
Definition isoformat (t : datetime) : string :=
  zero_pad 4 (year t) +:+ "-" +:+ zero_pad 2 (month t) +:+ "-" +:+
  zero_pad 2 (day t) +:+ "T" +:+ zero_pad 2 (hour t) +:+ ":" +:+
  zero_pad 2 (minute t) +:+ ":" +:+ zero_pad 2 (second t) +:+
  (if Nat.eqb (microsecond t) 0 then EmptyString
   else "." +:+ zero_pad 6 (microsecond t)).

(** [xs.remove(x)]: the first occurrence goes; [None] stands for the
    [ValueError] of a missing [x]. *)
Fixpoint list_remove (x : string) (xs : list string) : option (list string) :=
  match xs with
  | [] => None
  | y :: ys =>
      if decide (x = y) then Some ys
      else cons y <$> list_remove x ys
  end.

(** Python dicts as insertion-ordered association lists. *)
Definition dict_keys {V} (d : list (string * V)) : list string := d.*1.

Fixpoint dict_get {V} (d : list (string * V)) (k : string) : option V :=
  match d with
  | [] => None
  | (k', v) :: d' => if decide (k = k') then Some v else dict_get d' k
  end.

(** [d[k] = v] *)
Fixpoint dict_set {V} (d : list (string * V)) (k : string) (v : V)
  : list (string * V) :=
  match d with
  | [] => [(k, v)]
  | (k', v') :: d' =>
      if decide (k = k') then (k, v) :: d' else (k', v') :: dict_set d' k v
  end.

(** [del d[k]] *)
Fixpoint dict_del {V} (d : list (string * V)) (k : string)
  : list (string * V) :=
  match d with
  | [] => []
  | (k', v') :: d' =>
      if decide (k = k') then d' else (k', v') :: dict_del d' k
  end.

(** The order of [sorted] on strings: code points, which on UTF-8 strings
    is the order of the bytes. *)
Definition str_le (a b : string) : Prop := String.leb a b = true.

Global Instance str_le_dec (a b : string) : Decision (str_le a b).
Proof. unfold str_le. apply _. Defined.

Definition sorted (xs : list string) : list string := merge_sort str_le xs.

Definition or_default (answer default : string) : string :=
  if decide (answer = EmptyString) then default else answer.

(** ** The tool *)

Module Icvcs.

Definition ICVCS_DIR : string := ".icvcs".
Definition COMMITS_DIR : string := os_path_join ICVCS_DIR "commits".
Definition LATEST_DIR : string := os_path_join COMMITS_DIR "latest".
Definition VERSIONS_DIR : string := os_path_join ICVCS_DIR "versions".

Definition with_files_of (r : repo_data) (fs : list string) : repo_data :=
  RepoData (repo_name r) fs (directories r) (versions r).
Definition with_directories (r : repo_data) (d : list (string * list string))
  : repo_data :=
  RepoData (repo_name r) (files r) d (versions r).
Definition with_versions (r : repo_data) (vs : list string) : repo_data :=
  RepoData (repo_name r) (files r) (directories r) vs.

(** [load_repo_data()]. A [repo_data.json] that holds something else than
    an index makes the first use of the loaded value fail; the model fails
    at the load. *)
Definition load_repo_data : M repo_data :=
  let icvcs_path := os_path_join ICVCS_DIR "repo_data.json" in
  e ← os_path_exists icvcs_path;
  if negb e then
    print "No repository found. Please run 'icvcs init <repo_name>' first." ;;
    raise SystemExit
  else
    c ← read_file icvcs_path;
    match c with
    | IndexDoc r => mret r
    | Bytes _ => raise JSONDecodeError
    | _ => raise KeyError
    end.

(** [save_repo_data(repo_data)] *)
Definition save_repo_data (r : repo_data) : M unit :=
  let icvcs_path := os_path_join ICVCS_DIR "repo_data.json" in
  write_file icvcs_path (IndexDoc r) ;;
  print "Repository data updated successfully.".

(** [load_config()] *)
Definition load_config : M config :=
  let config_path := os_path_join ICVCS_DIR "icvcs_config.json" in
  e ← os_path_exists config_path;
  if (e : bool) then
    c ← read_file config_path;
    match c with
    | ConfigDoc cfg => mret cfg
    | Bytes _ => raise JSONDecodeError
    | _ => raise KeyError
    end
  else
    mret (Config "Unknown" "No description provided"
                 "No commit message provided").

(** [init(repo_name)], with the three answers typed at its prompts. The
    third prompt has its default inside the call of [input], so an empty
    answer stays empty. *)
Definition init (repo_name : string)
    (author_in description_in message_in : string) : M unit :=
  e ← os_path_exists ICVCS_DIR;
  if (e : bool) then
    print ("Repository '" +:+ repo_name +:+ "' already initialized.")
  else
    os_makedirs ICVCS_DIR ;;
    os_makedirs VERSIONS_DIR ;;
    os_makedirs COMMITS_DIR ;;
    os_makedirs LATEST_DIR ;;
    save_repo_data (RepoData repo_name [] [] []) ;;
    write_file (os_path_join ICVCS_DIR "icvcs_config.json")
      (ConfigDoc (Config (or_default author_in "Unknown")
                         (or_default description_in "No description provided")
                         message_in)) ;;
    write_file (os_path_join ICVCS_DIR "commit_history.json") (HistoryDoc []) ;;
    print ("Repository '" +:+ repo_name +:+ "' initialized successfully.").

(** The paths [os.walk(path)] joins for the files it finds: [root] grows by
    one [os.path.join] per directory, the file name comes last. *)
Definition walked_paths (fs : filesystem) (wd : path) (top : string)
  : list string :=
  match resolve fs wd top with
  | inr loc =>
      (λ dn : path * string, os_path_join (foldl os_path_join top dn.1) dn.2)
        <$> walk_files fs loc
  | inl _ => []
  end.

(** [add(path, with_files)] *)
Definition add (path : string) (with_files : bool) : M unit :=
  repo_data ← load_repo_data;
  isf ← os_path_isfile path;
  repo_data' ←
    (if (isf : bool) then
       if bool_decide (path ∉ files repo_data) then
         print ("File '" +:+ path +:+ "' added to the repository.") ;;
         mret (with_files_of repo_data (files repo_data ++ [path]))
       else
         print ("File '" +:+ path +:+ "' is already tracked.") ;;
         mret repo_data
     else
       isd ← os_path_isdir path;
       if (isd : bool) then
         r1 ← (if bool_decide (path ∉ dict_keys (directories repo_data)) then
                 print ("Directory '" +:+ path +:+
                        "' added to the repository.") ;;
                 mret (with_directories repo_data
                         (dict_set (directories repo_data) path []))
               else mret repo_data);
         if with_files then
           found ← ask (λ fs wd, walked_paths fs wd path);
           let captured :=
             foldl (λ acc file_path,
                      if bool_decide (file_path ∈ acc) then acc
                      else acc ++ [file_path])
                   (default [] (dict_get (directories r1) path)) found in
           print ("Directory '" +:+ path +:+
                  "' and its contents added to the repository.") ;;
           mret (with_directories r1 (dict_set (directories r1) path captured))
         else mret r1
       else
         print ("Path '" +:+ path +:+ "' does not exist.") ;;
         mret repo_data);
  save_repo_data repo_data'.

(** [remove(path)] *)
Definition remove (path : string) : M unit :=
  repo_data ← load_repo_data;
  isf ← os_path_isfile path;
  repo_data' ←
    (if (isf : bool) then
       if bool_decide (path ∈ files repo_data) then
         match list_remove path (files repo_data) with
         | Some fs' =>
             print ("File '" +:+ path +:+ "' removed from the repository.") ;;
             mret (with_files_of repo_data fs')
         | None => raise ValueError
         end
       else
         print ("File '" +:+ path +:+ "' is not tracked.") ;;
         mret repo_data
     else
       isd ← os_path_isdir path;
       if (isd : bool) then
         if bool_decide (path ∈ dict_keys (directories repo_data)) then
           print ("Directory '" +:+ path +:+
                  "' removed from the repository.") ;;
           mret (with_directories repo_data
                   (dict_del (directories repo_data) path))
         else
           print ("Directory '" +:+ path +:+ "' is not tracked.") ;;
           mret repo_data
       else
         print ("Path '" +:+ path +:+ "' does not exist in the repository.") ;;
         mret repo_data);
  save_repo_data repo_data'.

(** The two loops that [version] and [commit] share word for word, but for
    the warnings of [commit]: every tracked file that exists is copied into
    [dest]; every tracked directory that exists is copied to its base name
    under [dest]. Only the keys of [directories] are read. *)
Definition copy_tracked_files (fs : list string) (dest : string)
    (warn : bool) : M unit :=
  for_each fs (λ file,
    e ← os_path_exists file;
    if (e : bool) then shutil_copy file dest
    else if warn then
      print ("Warning: Tracked file '" +:+ file +:+ "' does not exist.")
    else mret ()).

Definition copy_tracked_directories (ds : list (string * list string))
    (dest : string) (warn : bool) : M unit :=
  for_each ds (λ item,
    let directory := item.1 in
    e ← os_path_exists directory;
    if (e : bool) then
      shutil_copytree directory
        (os_path_join dest (os_path_basename directory))
    else if warn then
      print ("Warning: Tracked directory '" +:+ directory +:+
             "' does not exist.")
    else mret ()).

(** [version(command, version_name, force)] after its two loads. What the
    user types at the two prompts and the clock are arguments. *)
Definition version_with (repo_data : repo_data) (config : config)
    (command version_name : string) (force : bool)
    (now : datetime) (author_in description_in : string) : M unit :=
  if decide (command = "create") then
    if decide (version_name = EmptyString) then
      print "Version name is required for 'create'."
    else
      let version_path := os_path_join VERSIONS_DIR version_name in
      let version_metadata_path := os_path_join version_path "metadata.json" in
      e ← os_path_exists version_path;
      go ← (if (e : bool) then
              if negb force then
                print ("Version '" +:+ version_name +:+ "' already exists.") ;;
                mret None
              else
                print ("Version '" +:+ version_name +:+
                       "' exists but will be overwritten due to --force.") ;;
                shutil_rmtree version_path ;;
                match list_remove version_name (versions repo_data) with
                | Some vs => mret (Some (with_versions repo_data vs))
                | None => raise ValueError
                end
            else mret (Some repo_data));
      match go with
      | None => mret ()
      | Some repo_data =>
          os_makedirs version_path ;;
          copy_tracked_files (files repo_data) version_path false ;;
          copy_tracked_directories (directories repo_data) version_path false ;;
          let metadata :=
            VersionMeta version_name (isoformat now)
              (or_default author_in (default_author config))
              (or_default description_in (default_version_description config))
              (Some (files repo_data)) in
          write_file version_metadata_path (VersionMetaDoc metadata) ;;
          save_repo_data
            (with_versions repo_data (versions repo_data ++ [version_name])) ;;
          print ("Version '" +:+ version_name +:+ "' created successfully.")
      end
  else if decide (command = "delete") then
    if decide (version_name = EmptyString) then
      print "Version name is required for 'delete'."
    else
      let version_path := os_path_join VERSIONS_DIR version_name in
      e ← os_path_exists version_path;
      if (e : bool) then
        shutil_rmtree version_path ;;
        match list_remove version_name (versions repo_data) with
        | Some vs =>
            save_repo_data (with_versions repo_data vs) ;;
            print ("Version '" +:+ version_name +:+ "' deleted successfully.")
        | None => raise ValueError
        end
      else
        print ("Version '" +:+ version_name +:+ "' does not exist.")
  else
    print ("Unknown version command: " +:+ command) ;;
    print "Use 'create' or 'delete'.".

Definition version (command version_name : string) (force : bool)
    (now : datetime) (author_in description_in : string) : M unit :=
  repo_data ← load_repo_data;
  config ← load_config;
  version_with repo_data config command version_name force now
               author_in description_in.

(** [commit()] after its two loads. [now] is the clock at the first call of
    [datetime.now()], [stamp] at the second. *)
Definition commit_with (repo_data : repo_data) (config : config)
    (now stamp : datetime) (message_in author_in : string) : M unit :=
  let commit_id := strftime_YmdHMS now in
  let commit_dir := os_path_join COMMITS_DIR commit_id in
  os_makedirs commit_dir ;;
  copy_tracked_files (files repo_data) commit_dir true ;;
  copy_tracked_directories (directories repo_data) commit_dir true ;;
  let metadata :=
    CommitMeta commit_id (isoformat stamp)
      (or_default message_in (default_commit_message config))
      (or_default author_in (default_author config)) in
  let metadata_path := os_path_join commit_dir "metadata.json" in
  write_file metadata_path (CommitMetaDoc metadata) ;;
  let commit_history_path := os_path_join ICVCS_DIR "commit_history.json" in
  c ← read_file commit_history_path;
  match c with
  | HistoryDoc commit_history =>
      write_file commit_history_path (HistoryDoc (commit_history ++ [metadata])) ;;
      print ("Commit '" +:+ commit_id +:+ "' created successfully.")
  | Bytes _ => raise JSONDecodeError
  | _ => raise KeyError
  end.

Definition commit (now stamp : datetime) (message_in author_in : string)
  : M unit :=
  repo_data ← load_repo_data;
  config ← load_config;
  commit_with repo_data config now stamp message_in author_in.

(** [remove_commit(commit_id)] *)
Definition remove_commit (commit_id : string) : M unit :=
  let commit_dir := os_path_join COMMITS_DIR commit_id in
  e ← os_path_exists commit_dir;
  if (e : bool) then
    shutil_rmtree commit_dir ;;
    print ("Commit '" +:+ commit_id +:+ "' removed successfully.")
  else
    print ("Commit '" +:+ commit_id +:+ "' does not exist.").

(** [push(commit_id)]: [None] is the call without argument; an empty
    string is as false as [None]. *)
Definition push (commit_id : option string) : M unit :=
  listing ← os_listdir COMMITS_DIR;
  if bool_decide (listing = []) then print "No commits to push."
  else
    chosen ←
      (match commit_id with
       | Some (String a s) =>
           let commit_dir := os_path_join COMMITS_DIR (String a s) in
           e ← os_path_exists commit_dir;
           if (e : bool) then mret (Some (String a s, commit_dir))
           else
             print ("Commit '" +:+ String a s +:+ "' does not exist.") ;;
             mret None
       | _ =>
           listing' ← os_listdir COMMITS_DIR;
           let commits := sorted listing' in
           let commits :=
             if bool_decide ("latest" ∈ commits)
             then default commits (list_remove "latest" commits)
             else commits in
           match last commits with
           | None => print "No commits to push." ;; mret None
           | Some c => mret (Some (c, os_path_join COMMITS_DIR c))
           end
       end);
    match chosen with
    | None => mret ()
    | Some (commit_id, commit_dir) =>
        e ← os_path_exists LATEST_DIR;
        (if (e : bool) then shutil_rmtree LATEST_DIR else mret ()) ;;
        os_makedirs LATEST_DIR ;;
        items ← os_listdir commit_dir;
        for_each items (λ item,
          let src_path := os_path_join commit_dir item in
          let dest_path := os_path_join LATEST_DIR item in
          d ← os_path_isdir src_path;
          if (d : bool) then shutil_copytree src_path dest_path
          else shutil_copy src_path dest_path) ;;
        print ("Commit '" +:+ commit_id +:+ "' pushed to 'latest'.")
    end.

(** [clear_commits()] *)
Definition clear_commits : M unit :=
  listing ← os_listdir COMMITS_DIR;
  for_each listing (λ commit_id,
    if decide (commit_id ≠ "latest") then
      let commit_dir := os_path_join COMMITS_DIR commit_id in
      e ← os_path_exists commit_dir;
      if (e : bool) then shutil_rmtree commit_dir else mret ()
    else mret ()) ;;
  print "All commits cleared except the 'latest' commit.".

(** The entries [list_commit_history()] replays: the journal as loaded, or
    nothing when there is no journal file. *)
Definition history : M (list commit_meta) :=
  let commit_history_path := os_path_join ICVCS_DIR "commit_history.json" in
  e ← os_path_exists commit_history_path;
  if (e : bool) then
    c ← read_file commit_history_path;
    match c with
    | HistoryDoc h => mret h
    | Bytes _ => raise JSONDecodeError
    | _ => raise KeyError
    end
  else mret [].

(** [list_commit_history()] *)
Definition list_commit_history : M unit :=
  let commit_history_path := os_path_join ICVCS_DIR "commit_history.json" in
  e ← os_path_exists commit_history_path;
  if negb e then print "No commit history found."
  else
    commit_history ← history;
    if bool_decide (commit_history = []) then
      print "No commits found in the history."
    else
      print "Commit History:" ;;
      for_each commit_history (λ entry,
        print ("- Commit ID: " +:+ commit_id entry) ;;
        print ("  Author: " +:+ author entry) ;;
        print ("  Timestamp: " +:+ timestamp entry) ;;
        print ("  Message: " +:+ message entry) ;;
        print EmptyString).

(** [get_last_commit_info()] *)
Definition get_last_commit_info : M string :=
  let commit_history_path := os_path_join ICVCS_DIR "commit_history.json" in
  e ← os_path_exists commit_history_path;
  if negb e then mret "No commits yet."
  else
    commit_history ← history;
    match last commit_history with
    | None => mret "No commits yet."
    | Some last_commit =>
        mret ("ID: " +:+ commit_id last_commit +:+
              ", Author: " +:+ author last_commit +:+
              ", Message: " +:+ message last_commit +:+
              ", Timestamp: " +:+ timestamp last_commit)
    end.

(** The four collections [status()] prints. *)
Record status_report := StatusReport {
  untracked_files : gset string;
  modified_files : list string;
  deleted_files : list string;
  staged_files : gset string
}.

(** The set [status()] builds from [os.walk('.')]: a directory whose
    [root] contains [ICVCS_DIR] is skipped, the other files are entered
    under [os.path.relpath]. *)
Definition working_directory_files (fs : filesystem) (wd : path)
  : gset string :=
  match resolve fs wd "." with
  | inr loc =>
      list_to_set
        (omap (λ dn : path * string,
                 let root := foldl os_path_join "." dn.1 in
                 if contains root ICVCS_DIR then None
                 else Some (join_slash (dn.1 ++ [dn.2])))
              (walk_files fs loc))
  | inl _ => ∅
  end.

Definition print_lines (none : string) (xs : list string) : M unit :=
  if bool_decide (xs = []) then print none
  else for_each xs (λ file, print ("  " +:+ file)).

(** The body of the loop of [status()] over the tracked files; [acc] is
    the pair of [modified_files] and [deleted_files]. *)
Definition classify (latest_commit_path : string)
    (acc : list string * list string) (file : string)
  : M (list string * list string) :=
  let file_path := os_path_join latest_commit_path file in
  e ← os_path_exists file;
  if negb e then mret (acc.1, acc.2 ++ [file])
  else
    e' ← os_path_exists file_path;
    if negb e' then mret (acc.1 ++ [file], acc.2)
    else
      current_content ← read_file file;
      commit_content ← read_file file_path;
      if decide (current_content ≠ commit_content)
      then mret (acc.1 ++ [file], acc.2)
      else mret acc.

(** [status()]; the report is also its result. A set is gone through in
    the order of its enumeration. *)
Definition status : M status_report :=
  repo_data ← load_repo_data;
  let tracked_files : gset string := list_to_set (files repo_data) in
  let latest_commit_path :=
    os_path_join (os_path_join ICVCS_DIR "commits") "latest" in
  wdf ← ask working_directory_files;
  let untracked : gset string :=
    filter (λ file, startswith file ICVCS_DIR = false) (wdf ∖ tracked_files) in
  lists ← fold_each (elements tracked_files) ([], [])
            (classify latest_commit_path);
  let modified := fst (lists : list string * list string) in
  let deleted := snd lists in
  let staged : gset string :=
    (tracked_files ∩ wdf) ∖ list_to_set modified ∖ list_to_set deleted in
  print ("Repository: " +:+ repo_name repo_data) ;;
  print ("Tracked Files: " +:+ pretty (size tracked_files)) ;;
  print ("Total Versions: " +:+ pretty (List.length (versions repo_data))) ;;
  info ← get_last_commit_info;
  print ("Last Commit: " +:+ info) ;;
  print "
Untracked Files:" ;;
  print_lines "No untracked files" (elements untracked) ;;
  print "
Modified Files:" ;;
  print_lines "No modified files." modified ;;
  print "
Deleted Files:" ;;
  print_lines "No deleted files." deleted ;;
  print "
Staged Files:" ;;
  print_lines "No staged files." (elements staged) ;;
  mret (StatusReport untracked modified deleted staged).

(** [load_version_files(version_id)]. A metadata file that holds a JSON
    list takes the list branch, whose entries, the records of commits,
    have no ["files"] key; of the documents that are objects, the index
    has the key as the metadata of a version has it, and the other two
    have not. *)
Definition load_version_files (version_id : string)
  : M (option (list string)) :=
  let version_path := ".icvcs/versions/" +:+ version_id +:+ "/metadata.json" in
  r ← try (read_file version_path);
  match r with
  | Ok (VersionMetaDoc m) =>
      match vfiles m with
      | Some fs => mret (Some fs)
      | None =>
          print ("Invalid format in version file: " +:+ version_path) ;;
          mret None
      end
  | Ok (IndexDoc r) => mret (Some (files r))
  | Ok (HistoryDoc []) => mret (Some [])
  | Ok (Bytes _) => raise JSONDecodeError
  | Ok _ =>
      print ("Invalid format in version file: " +:+ version_path) ;;
      mret None
  | Raise FileNotFoundError =>
      print ("Version " +:+ version_id +:+ " does not exist.") ;;
      mret None
  | Raise e => raise e
  end.

(** [load_file_content(version_id, file_path)]: only a missing file is
    caught. *)
Definition load_file_content (version_id file_path : string)
  : M (option text) :=
  let file_version_path :=
    ".icvcs/versions/" +:+ version_id +:+ "/" +:+ file_path in
  r ← try (read_file file_version_path);
  match r with
  | Ok c =>
      match decode c with
      | Some t => mret (Some t)
      | None => raise UnicodeDecodeError
      end
  | Raise FileNotFoundError => mret None
  | Raise e => raise e
  end.

(** [x or ""] on what [load_file_content] returns *)
Definition or_empty (o : option text) : text :=
  match o with
  | Some t => t
  | None => Str EmptyString
  end.

Section Compare.

(** What [print] shows for a list of strings: Python's [repr] of the
    list, in which each string is quoted and escaped as [repr] does it
    (single quotes, or double quotes for a string that holds a single
    quote and no double one, with escapes for what does not print). *)
Variable repr_list : list string → string.

(** The lines [difflib.unified_diff] yields for two texts split into
    lines, with [lineterm=''] and the two labels. *)
Variable unified_diff : text → text → list string.

(** What [print] shows for the result of [load_version_files]. *)
Definition repr_files (o : option (list string)) : string :=
  match o with
  | None => "None"
  | Some xs => repr_list xs
  end.

(** [show_diff(content1, content2)] *)
Definition show_diff (content1 content2 : text) : M unit :=
  for_each (unified_diff content1 content2) print.

(** The body of the loop of [compare_versions]. *)
Definition compare_file (version1 version2 file : string) : M unit :=
  loaded1 ← load_file_content version1 file;
  let content1 := or_empty loaded1 in
  loaded2 ← load_file_content version2 file;
  let content2 := or_empty loaded2 in
  if decide (content1 ≠ content2) then
    print ("Changes in file: " +:+ file) ;;
    show_diff content1 content2 ;;
    print "----------------------------------------"
  else
    print ("No changes in file: " +:+ file).

(** [sorted(set(files1).union(files2))] *)
Definition all_files (files1 files2 : list string) : list string :=
  sorted (elements (list_to_set files1 ∪ list_to_set files2 : gset string)).

(** [compare_versions(version1, version2)] *)
Definition compare_versions (version1 version2 : string) : M unit :=
  files1 ← load_version_files version1;
  files2 ← load_version_files version2;
  print (repr_files files1 +:+ " " +:+ repr_files files2) ;;
  match files1, files2 with
  | Some files1, Some files2 =>
      print ("Comparing versions " +:+ version1 +:+ " and " +:+ version2 +:+
             "...
") ;;
      for_each (all_files files1 files2) (compare_file version1 version2)
  | _, _ => mret ()
  end.

End Compare.

Section Config.

(** What [json.load] of the file's content followed by
    [config_data[config_key] = new_value] leaves for [json.dump] to write,
    or the exception that one of the two raises. *)
Variable set_item : content → string → string → result content.

(** [update_icvcs_config(config_key, new_value)]: the file is looked for
    in the working directory. *)
Definition update_icvcs_config (config_key new_value : string) : M unit :=
  let config_file := "icvcs_config.json" in
  e ← os_path_exists config_file;
  if negb e then print "Config file does not exist."
  else
    c ← read_file config_file;
    match set_item c config_key new_value with
    | Ok config_data =>
        write_file config_file config_data ;;
        print (config_key +:+ " updated successfully.")
    | Raise e => raise e
    end.

(** [change_author()], [change_commit_message()] and
    [change_version_description()], with the answer typed at the prompt. *)
Definition change_author (new_author : string) : M unit :=
  update_icvcs_config "author" new_author.
Definition change_commit_message (new_commit_message : string) : M unit :=
  update_icvcs_config "commit_message" new_commit_message.
Definition change_version_description (new_version_description : string)
  : M unit :=
  update_icvcs_config "version_description" new_version_description.

End Config.

End Icvcs.

Import Icvcs.

(** ** Sessions: one command after the other *)

(** What the user can do between two prompts of the shell: one of the
    tool's commands, or a change to a file or directory of the working
    tree ([Some n] puts [n] at the location, [None] removes what is there). *)
Inductive command :=
  | CAdd (path : string) (with_files : bool)
  | CRemove (path : string)
  | CVersion (command version_name : string) (force : bool)
             (now : datetime) (author_in description_in : string)
  | CCommit (now stamp : datetime) (message_in author_in : string)
  | CRemoveCommit (commit_id : string)
  | CPush (commit_id : option string)
  | CClear
  | CStatus
  | CHistory
  | CEdit (loc : path) (n : option node).

Definition edit (loc : path) (n : option node) : M unit :=
  change_disk loc (λ fs, match n with
                         | Some x => <[loc := x]> fs
                         | None => delete loc fs
                         end).

Definition run_command (c : command) : M unit :=
  match c with
  | CAdd path with_files => add path with_files
  | CRemove path => remove path
  | CVersion cmd name force now a d => version cmd name force now a d
  | CCommit now stamp m a => commit now stamp m a
  | CRemoveCommit id => remove_commit id
  | CPush id => push id
  | CClear => clear_commits
  | CStatus => status ;; mret ()
  | CHistory => list_commit_history
  | CEdit loc n => edit loc n
  end.

(** Each command is a process of its own: an uncaught exception ends that
    command, and the next one starts from the disk it left. *)
Definition run_all (cs : list command) (w : world) : world :=
  foldl (λ w c, (run_command c w).2) w cs.

(** The places of the repository under the working directory [wd]. *)
Definition icvcs_loc (wd : path) : path := wd ++ [".icvcs"].
Definition commits_loc (wd : path) : path := wd ++ [".icvcs"; "commits"].
Definition versions_loc (wd : path) : path := wd ++ [".icvcs"; "versions"].
Definition latest_loc (wd : path) : path :=
  wd ++ [".icvcs"; "commits"; "latest"].
Definition index_loc (wd : path) : path := wd ++ [".icvcs"; "repo_data.json"].
Definition journal_loc (wd : path) : path :=
  wd ++ [".icvcs"; "commit_history.json"].

(** A snapshot is a version or a commit; its tree is stored at one place. *)
Inductive snapshot :=
  | SVersion (name : string)
  | SCommit (id : string).

Definition snapshot_cs (s : snapshot) : list string :=
  match s with
  | SVersion name => [".icvcs"; "versions"; name]
  | SCommit id => [".icvcs"; "commits"; id]
  end.

Definition snapshot_loc (wd : path) (s : snapshot) : path :=
  wd ++ snapshot_cs s.

(** ** Worlds of the examples *)

Definition t0 : datetime := DateTime 2024 1 2 3 4 5 0.
Definition t0_later : datetime := DateTime 2024 1 2 3 4 5 500.
Definition t1 : datetime := DateTime 2024 1 2 3 4 6 0.

(** A working directory [/w] with a file and a directory. *)
Definition bare_world : world :=
  World (<[ ["w"; "sub"; "b.txt"] := File (Bytes "bb") ]>
        (<[ ["w"; "sub"] := Dir ]>
        (<[ ["w"; "a.txt"] := File (Bytes "hello") ]>
        (<[ ["w"] := Dir ]> {[ [] := Dir ]}))))
        ["w"] [] [].

(** [icvcs init demo], then [icvcs add a.txt]. *)
Definition fresh_repo : world := (init "demo" "me" "" "" bare_world).2.
Definition tracking_a : world := run_all [CAdd "a.txt" false] fresh_repo.

(** ... then [icvcs commit] at [t0] and [icvcs version create v1]. *)
Definition committed : world :=
  run_all [CCommit t0 t0 "first" ""] tracking_a.
Definition with_v1 : world :=
  run_all [CVersion "create" "v1" false t0 "" ""] committed.

(** ... then [icvcs push]. *)
Definition pushed : world := run_all [CPush None] committed.

(** The tracked file [a.txt] has been deleted from the working tree. *)
Definition a_deleted : world := run_all [CEdit ["w"; "a.txt"] None] tracking_a.

(** Two index values for [a.txt] and [sub]: one as [add sub --with-files]
    leaves it, the other as [add sub] does. *)
Definition index_with_captures : repo_data :=
  RepoData "demo" ["a.txt"] [("sub", ["sub/b.txt"])] [].
Definition some_config : config := Config "me" "No description" "No message".

(** A repository that tracks [a.txt], [b.bin], which holds the single
    byte [0xFF], and [c.txt], with two versions [v1] and [v2] of them. *)
Definition two_versions : world :=
  run_all [CEdit ["w"; "b.bin"] (Some (File (Bytes (String "255" EmptyString))));
           CEdit ["w"; "c.txt"] (Some (File (Bytes "cc")));
           CAdd "a.txt" false; CAdd "b.bin" false; CAdd "c.txt" false;
           CVersion "create" "v1" false t0 "" "";
           CVersion "create" "v2" false t1 "" ""] fresh_repo.

(** [repr] of a list of names that hold no quote, no backslash and no
    character that does not print: each name between single quotes. *)
Definition quoted_list (xs : list string) : string :=
  "[" +:+ foldr (λ x acc, "'" +:+ x +:+ "'" +:+
                          (if decide (acc = EmptyString) then acc
                           else ", " +:+ acc)) EmptyString xs +:+ "]".

(** A differ that finds no line to report. *)
Definition no_lines : text → text → list string := λ _ _, [].

(** [icvcs add ./a.txt], then a commit and a push. *)
Definition dot_tracked : world :=
  run_all [CAdd "./a.txt" false; CCommit t0 t0 "first" ""; CPush None]
    fresh_repo.

(** ** Vocabulary of the statements *)

(** A plain path: relative, made of the names [cs], no trailing separator.
    The paths the tool builds for its own storage are plain. *)
Definition plain (p : string) (cs : list string) : Prop :=
  p ≠ EmptyString ∧ startswith p "/" = false ∧ endswith_slash p = false ∧
  split_slash p = cs ∧ Forall proper_name cs.

(** The three directories every storage path goes through. *)
Definition scaffold (wd k : path) : Prop :=
  k = icvcs_loc wd ∨ k = commits_loc wd ∨ k = versions_loc wd.

(** A command never changes its working directory, and what it does to a
    location of the disk is one of: nothing; anything, if [R] allows (it is
    given the working directory); making one of the scaffold directories
    where there was nothing. *)
Definition changes_within (R : path → path → Prop) {A} (m : M A) : Prop :=
  ∀ w r w', m w = (r, w') →
    cwd w' = cwd w ∧
    ∀ k, disk w' !! k = disk w !! k ∨ R (cwd w) k ∨
         (scaffold (cwd w) k ∧ disk w !! k = None ∧ disk w' !! k = Some Dir).

(** Everything from [wd ++ cs] down. *)
Definition region (cs : list string) (wd k : path) : Prop :=
  within (wd ++ cs) k = true.

Definition version_region (name : string) (wd k : path) : Prop :=
  region [".icvcs"; "versions"; name] wd k ∨ k = index_loc wd.

Definition commit_region (id : string) (wd k : path) : Prop :=
  region [".icvcs"; "commits"; id] wd k ∨ k = journal_loc wd.

Definition clear_region (wd k : path) : Prop :=
  ∃ c, proper_name c ∧ c ≠ "latest" ∧ within (commits_loc wd ++ [c]) k = true.

Global Instance snapshot_eq_dec : EqDecision snapshot.
Proof. solve_decision. Defined.

(** The snapshots the tool itself can make: the name is a name, and a
    commit is not the reserved [latest]. *)
Definition snapshot_ok (s : snapshot) : Prop :=
  match s with
  | SVersion name => proper_name name
  | SCommit id => proper_name id ∧ id ≠ "latest"
  end.

(** The commands that are not one of the sanctioned ways to destroy the
    snapshot [s]: names are names, the working tree ends where [.icvcs]
    starts, and [s] itself is not deleted, overwritten with force,
    removed or cleared. *)
Definition benign (wd : path) (s : snapshot) (c : command) : Prop :=
  match c with
  | CVersion cmd name force _ _ _ =>
      proper_name name ∧
      (s = SVersion name → cmd ≠ "delete" ∧ (cmd = "create" → force = false))
  | CRemoveCommit id => proper_name id ∧ s ≠ SCommit id
  | CClear => ∀ id, s ≠ SCommit id
  | CEdit loc _ => within (icvcs_loc wd) loc = false
  | _ => True
  end.

(** A command keeps the snapshot [s]: if its directory is there before,
    its whole tree is the same after. *)
Definition keeps (s : snapshot) {A} (m : M A) : Prop :=
  ∀ w r w', disk w !! snapshot_loc (cwd w) s = Some Dir → m w = (r, w') →
    cwd w' = cwd w ∧
    ∀ q, disk w' !! (snapshot_loc (cwd w) s ++ q) =
         disk w !! (snapshot_loc (cwd w) s ++ q).

(** The journal as [commit_history.json] holds it, when the file is there
    and holds a journal. *)
Definition journal_file (w : world) : option (list commit_meta) :=
  match node_of (disk w) (cwd w)
                (os_path_join ICVCS_DIR "commit_history.json") with
  | Some (File (HistoryDoc h)) => Some h
  | _ => None
  end.

(** The tool's own commands, given names that are names. *)
Definition tool_command (c : command) : Prop :=
  match c with
  | CVersion _ name _ _ _ _ => proper_name name
  | CRemoveCommit id => proper_name id
  | CEdit _ _ => False
  | _ => True
  end.

(** [commit clear], and [commit remove] of anything but [latest]. *)
Definition discards (c : command) : Prop :=
  match c with
  | CClear => True
  | CRemoveCommit id => id ≠ "latest"
  | _ => False
  end.

(** The index as [repo_data.json] holds it, when the file is there and
    holds an index. *)
Definition index_file (w : world) : option repo_data :=
  match node_of (disk w) (cwd w) (os_path_join ICVCS_DIR "repo_data.json") with
  | Some (File (IndexDoc r)) => Some r
  | _ => None
  end.

(** The early validation checks: [add] of a path that is neither a file
    nor a directory; [remove] of a path in neither set of the index;
    [version create] of a name that exists, without force; [push] with no
    commit to push, or of a commit that is not there. *)
Definition validation_fails (w : world) (c : command) : Prop :=
  match c with
  | CAdd path _ =>
      path_isfile (disk w) (cwd w) path = false ∧
      path_isdir (disk w) (cwd w) path = false
  | CRemove path =>
      ∀ rd, index_file w = Some rd →
            (path ∉ files rd) ∧ (path ∉ dict_keys (directories rd))
  | CVersion cmd name force _ _ _ =>
      cmd = "create" ∧ force = false ∧
      path_exists (disk w) (cwd w) (os_path_join VERSIONS_DIR name) = true
  | CPush id =>
      fst (os_listdir COMMITS_DIR w) = Ok [] ∨
      (∃ i, id = Some i ∧ i ≠ EmptyString ∧
            path_exists (disk w) (cwd w) (os_path_join COMMITS_DIR i) = false) ∨
      ((id = None ∨ id = Some EmptyString) ∧
       fst (os_listdir COMMITS_DIR w) = Ok ["latest"])
  | _ => False
  end.

(** A command that writes nothing. *)
Definition quiet {A} (m : M A) : Prop :=
  ∀ w r w', m w = (r, w') →
    disk w' = disk w ∧ cwd w' = cwd w ∧ writes w' = writes w.



(** What a version's directory holds under a file's name. *)
Definition stored (w : world) (version_id file : string) : result content :=
  (read_file (".icvcs/versions/" +:+ version_id +:+ "/" +:+ file) w).1.

(** The file is there and is not text. *)
Definition undecodable (w : world) (version_id file : string) : Prop :=
  ∃ c, stored w version_id file = Ok c ∧ decode c = None.

(** The file is missing, or it is there and is text. *)
Definition comparable (w : world) (version_id file : string) : Prop :=
  stored w version_id file = Raise FileNotFoundError ∨
  ∃ c t, stored w version_id file = Ok c ∧ decode c = Some t.

(** The two lines [compare_versions] prints before its loop. *)
Definition compare_header (repr_list : list string → string)
    (version1 version2 : string) (files1 files2 : list string) : M unit :=
  print (repr_files repr_list (Some files1) +:+ " "
         +:+ repr_files repr_list (Some files2)) ;;
  print ("Comparing versions " +:+ version1 +:+ " and " +:+ version2 +:+
         "...
").

(** The readings of the clock the model is written for: [strftime] puts
    the year on four digits from 1000 on. *)
Definition valid_datetime (t : datetime) : Prop :=
  (1000 ≤ year t < 10 ^ 4 ∧ 1 ≤ month t ≤ 12 ∧ 1 ≤ day t ≤ 31 ∧
   hour t ≤ 23 ∧ minute t ≤ 59 ∧ second t ≤ 59)%nat.

(** Two readings of the clock compared down to the second. *)
Definition clock_compare (t t' : datetime) : comparison :=
  match Nat.compare (year t) (year t') with
  | Eq =>
    match Nat.compare (month t) (month t') with
    | Eq =>
      match Nat.compare (day t) (day t') with
      | Eq =>
        match Nat.compare (hour t) (hour t') with
        | Eq =>
          match Nat.compare (minute t) (minute t') with
          | Eq => Nat.compare (second t) (second t')
          | c => c
          end
        | c => c
        end
      | c => c
      end
    | c => c
    end
  | c => c
  end.

(** ** Vocabulary of the further properties *)

(** The disk [init] leaves behind. *)
Definition initialized (repo_name author_in description_in message_in : string)
    (wd : path) (fs : filesystem) : filesystem :=
  <[journal_loc wd := File (HistoryDoc [])]>
  (<[wd ++ [".icvcs"; "icvcs_config.json"] :=
       File (ConfigDoc (Config (or_default author_in "Unknown")
                               (or_default description_in
                                  "No description provided")
                               message_in))]>
  (<[index_loc wd := File (IndexDoc (RepoData repo_name [] [] []))]>
  (<[latest_loc wd := Dir]>
  (<[commits_loc wd := Dir]>
  (<[versions_loc wd := Dir]>
  (<[icvcs_loc wd := Dir]> fs)))))).

(** The commands that begin by loading the index. *)
Definition loads_index (c : command) : Prop :=
  match c with
  | CAdd _ _ | CRemove _ | CVersion _ _ _ _ _ _ | CCommit _ _ _ _ | CStatus =>
      True
  | _ => False
  end.

(** What a location holds, up to the content of a file. *)
Definition kind (o : option node) : option bool :=
  match o with
  | Some Dir => Some true
  | Some (File _) => Some false
  | None => None
  end.

(** Two disks with the same files and directories, whatever the files
    hold. *)
Definition same_shape (fs fs' : filesystem) : Prop :=
  ∀ k, kind (fs !! k) = kind (fs' !! k).

(** The index [add(path, with_files)] writes back, from the index it
    loaded and the disk it ran on. *)
Definition index_after_add (fs : filesystem) (wd : path) (path : string)
    (with_files : bool) (rd : repo_data) : repo_data :=
  if path_isfile fs wd path then
    if bool_decide (path ∉ files rd)
    then with_files_of rd (files rd ++ [path]) else rd
  else if path_isdir fs wd path then
    let r1 := if bool_decide (path ∉ dict_keys (directories rd))
              then with_directories rd (dict_set (directories rd) path [])
              else rd in
    if with_files then
      with_directories r1
        (dict_set (directories r1) path
           (foldl (λ acc file_path,
                     if bool_decide (file_path ∈ acc) then acc
                     else acc ++ [file_path])
                  (default [] (dict_get (directories r1) path))
                  (walked_paths fs wd path)))
    else r1
  else rd.

(** The index [remove(path)] writes back. *)
Definition index_after_remove (fs : filesystem) (wd : path) (path : string)
    (rd : repo_data) : repo_data :=
  if path_isfile fs wd path then
    if bool_decide (path ∈ files rd)
    then with_files_of rd (default (files rd) (list_remove path (files rd)))
    else rd
  else if path_isdir fs wd path then
    if bool_decide (path ∈ dict_keys (directories rd))
    then with_directories rd (dict_del (directories rd) path)
    else rd
  else rd.


(** [k] is in the tree of one of the entries of [listing] under [loc],
    [latest] left aside. *)
Definition cleared (listing : list string) (loc k : path) : bool :=
  existsb (λ c, negb (String.eqb c "latest") && within (loc ++ [c]) k) listing.


(** What [push] puts at [i :: q] under the new [latest] for the entry [i]
    of the commit stored at [sloc]: the entry itself, and what lies below
    it when it is a directory. *)
Definition copied (fs : filesystem) (sloc : path) (i : string) (q : path)
  : option node :=
  match q with
  | [] => fs !! (sloc ++ [i])
  | _ => match fs !! (sloc ++ [i]) with
         | Some Dir => fs !! (sloc ++ i :: q)
         | _ => None
         end
  end.

(** The entries of [loc] are as a file system holds them: each has a
    proper name, and what lies deeper than an entry lies in a directory. *)
Definition tidy_below (fs : filesystem) (loc : path) : Prop :=
  ∀ c q, is_Some (fs !! (loc ++ c :: q)) →
    proper_name c ∧ (q = [] ∨ fs !! (loc ++ [c]) = Some Dir).

Definition tidy_belowb (fs : filesystem) (loc : path) : bool :=
  forallb (λ kv : path * node,
             match strip_prefix loc kv.1 with
             | Some (c :: q) =>
                 proper_nameb c &&
                 (bool_decide (q = []) ||
                  match fs !! (loc ++ [c]) with
                  | Some Dir => true
                  | _ => false
                  end)
             | _ => true
             end) (map_to_list fs).

(** [a.txt] and the directory [sub] are tracked and committed at [t0]. *)
Definition committed_tree : world :=
  run_all [CAdd "sub" false; CCommit t0 t0 "first" ""] tracking_a.

(** The tracked path [f] is a relative path of proper names that does not
    go through [.icvcs] and leads to a regular file. *)
Definition tracked_file_there (w : world) (f : string) : Prop :=
  ∃ cs x, plain f cs ∧ head cs ≠ Some ".icvcs" ∧
          dirs_down (disk w) (cwd w) cs = true ∧
          disk w !! (cwd w ++ cs) = Some (File x).

(** [a.txt] and [sub/b.txt] are tracked. *)
Definition tracking_nested : world :=
  run_all [CAdd "sub/b.txt" false] tracking_a.

(** What makes [status()] report an existing tracked file as modified:
    [latest] has nothing under the file's path as it is tracked, or what
    it has there reads differently. *)
Definition differs_from_latest (w : world) (file : string) : Prop :=
  let file_path :=
    os_path_join (os_path_join (os_path_join ICVCS_DIR "commits") "latest")
                 file in
  path_exists (disk w) (cwd w) file_path = false ∨
  (read_file file w).1 ≠ (read_file file_path w).1.

(** After the push, [a.txt] is edited in the working tree. *)
Definition a_modified : world :=
  run_all [CEdit ["w"; "a.txt"] (Some (File (Bytes "changed")))] pushed.

(** Two commits: [a.txt] alone at [t0]; then [a.txt] is edited, [sub] is
    tracked too, and both are committed at [t1]. *)
Definition two_commits : world :=
  run_all [CCommit t0 t0 "first" "";
           CEdit ["w"; "a.txt"] (Some (File (Bytes "changed")));
           CAdd "sub" false;
           CCommit t1 t1 "second" ""] tracking_a.


(** * Properties *)

(** ** Strings *)

Lemma split_slash_ne s : split_slash s ≠ [].
Proof.
  destruct s as [|c s]; simpl; [done|].
  destruct (Ascii.eqb c "/"); [done|]. by destruct (split_slash s).
Qed.

Lemma split_slash_noslash s : has_slash s = false → split_slash s = [s].
Proof.
  induction s as [|c s IH]; simpl; [done|].
  destruct (Ascii.eqb c "/"); simpl; [done|].
  intros H. by rewrite IH.
Qed.

Lemma split_slash_app a b :
  split_slash (a +:+ String "/" b) = split_slash a ++ split_slash b.
Proof.
  induction a as [|c a IH]; simpl; [done|].
  destruct (Ascii.eqb c "/"); simpl; [by rewrite IH|].
  rewrite IH. destruct (split_slash a) eqn:E; [by apply split_slash_ne in E|].
  done.
Qed.

Lemma has_slash_app a b : has_slash (a +:+ b) = has_slash a || has_slash b.
Proof.
  induction a as [|c a IH]; simpl; [done|]. rewrite IH. by rewrite orb_assoc.
Qed.

Lemma endswith_slash_app a b :
  b ≠ EmptyString → endswith_slash (a +:+ b) = endswith_slash b.
Proof.
  intros Hb. induction a as [|c a IH]; simpl; [done|].
  destruct (a +:+ b) eqn:E.
  - destruct a; simpl in E; [done|discriminate].
  - done.
Qed.

Lemma endswith_slash_noslash s : has_slash s = false → endswith_slash s = false.
Proof.
  induction s as [|c s IH]; simpl; [done|].
  intros [H1 H2]%orb_false_elim. destruct s; [done|]. by apply IH.
Qed.

Lemma startswith_slash_app a b :
  a ≠ EmptyString → startswith (a +:+ b) "/" = startswith a "/".
Proof.
  destruct a as [|c a]; [done|]. intros _. unfold startswith.
  change (String c a +:+ b) with (String c (a +:+ b)).
  cbn -[ascii_dec]. destruct (ascii_dec "/" c); [|done].
  by destruct (a +:+ b), a.
Qed.

Lemma startswith_slash_noslash s : has_slash s = false → startswith s "/" = false.
Proof.
  destruct s as [|c s]; [done|]. unfold startswith. cbn -[ascii_dec].
  intros [H1 H2]%orb_false_elim.
  destruct (ascii_dec "/" c) as [<-|]; [done|]. done.
Qed.

Lemma append_empty_inv a b : a +:+ b = EmptyString → a = EmptyString ∧ b = EmptyString.
Proof. destruct a; simpl; [done|discriminate]. Qed.

Lemma basename_noslash p : has_slash (os_path_basename p) = false.
Proof.
  induction p as [|c p IH]; simpl; [done|].
  destruct (has_slash p) eqn:E; [done|].
  destruct (Ascii.eqb c "/") eqn:E'; [done|]. simpl. by rewrite E', E.
Qed.

Lemma basename_last p : last (split_slash p) = Some (os_path_basename p).
Proof.
  induction p as [|c p IH]; simpl; [done|].
  destruct (has_slash p) eqn:E.
  - destruct (Ascii.eqb c "/").
    + rewrite <- IH. destruct (split_slash p) eqn:E2; [by apply split_slash_ne in E2|done].
    + destruct (split_slash p) as [|h t] eqn:E2; [by apply split_slash_ne in E2|].
      rewrite <- IH. destruct t as [|h' t'].
      * exfalso. clear IH.
        assert (∀ s, has_slash s = true → List.length (split_slash s) ≥ 2) as Hl.
        { clear. induction s as [|c s IH]; simpl; [done|].
          destruct (Ascii.eqb c "/"); simpl.
          - intros _. pose proof (split_slash_ne s). destruct (split_slash s); simpl; [done|lia].
          - intros H. specialize (IH H). destruct (split_slash s); simpl in *; lia. }
        apply Hl in E. rewrite E2 in E. simpl in E. lia.
      * done.
  - rewrite (split_slash_noslash p E). destruct (Ascii.eqb c "/"); done.
Qed.

Lemma proper_name_spec c : proper_nameb c = true ↔ proper_name c.
Proof.
  unfold proper_nameb, proper_name.
  rewrite !andb_true_iff, !negb_true_iff.
  rewrite <- !not_true_iff_false, !String.eqb_eq. tauto.
Qed.

Lemma plain_single c : proper_name c → plain c [c].
Proof.
  intros (H1 & H2 & H3 & H4). repeat split; auto.
  - by apply startswith_slash_noslash.
  - by apply endswith_slash_noslash.
  - by apply split_slash_noslash.
  - repeat constructor; auto.
Qed.

Lemma join_plain_eq D cs b :
  plain D cs → has_slash b = false →
  os_path_join D b = D +:+ String "/" b.
Proof.
  intros (H1 & H2 & H3 & H4 & H5) Hb. unfold os_path_join.
  rewrite (startswith_slash_noslash b Hb).
  destruct (String.eqb_spec D EmptyString) as [->|_]; [done|].
  simpl. by rewrite H3.
Qed.

Lemma join_split D cs b :
  plain D cs → has_slash b = false →
  os_path_join D b ≠ EmptyString ∧ startswith (os_path_join D b) "/" = false ∧
  split_slash (os_path_join D b) = cs ++ [b].
Proof.
  intros HD Hb. rewrite (join_plain_eq D cs b HD Hb).
  destruct HD as (H1 & H2 & H3 & H4 & H5). repeat split.
  - intros [? _]%append_empty_inv. done.
  - by rewrite startswith_slash_app.
  - rewrite split_slash_app, H4. by rewrite (split_slash_noslash b Hb).
Qed.

Lemma plain_join D cs b :
  plain D cs → proper_name b → plain (os_path_join D b) (cs ++ [b]).
Proof.
  intros HD Hb. pose proof Hb as (B1 & B2 & B3 & B4).
  destruct (join_split D cs b HD B4) as (J1 & J2 & J3).
  repeat split; auto.
  - rewrite (join_plain_eq D cs b HD B4).
    rewrite endswith_slash_app; [|done]. simpl.
    destruct b; [done|]. by apply (endswith_slash_noslash (String a b)).
  - destruct HD as (_ & _ & _ & _ & H5). apply Forall_app. split; [done|].
    by repeat constructor.
Qed.

(** ** Locations *)

Lemma strip_prefix_spec pre k q : strip_prefix pre k = Some q ↔ k = pre ++ q.
Proof.
  revert k. induction pre as [|a pre IH]; intros k; simpl.
  - split; congruence.
  - destruct k as [|b k]; [split; [done|discriminate]|].
    destruct (decide (a = b)) as [->|Hne].
    + rewrite IH. split; [by intros ->|by intros [= ->]].
    + split; [done|]. intros [= -> _]. done.
Qed.

Lemma strip_prefix_app pre q : strip_prefix pre (pre ++ q) = Some q.
Proof. by apply strip_prefix_spec. Qed.

Lemma within_spec loc k : within loc k = true ↔ ∃ q, k = loc ++ q.
Proof.
  unfold within. destruct (strip_prefix loc k) as [q|] eqn:E.
  - apply strip_prefix_spec in E. split; eauto.
  - split; [done|]. intros [q ->]. by rewrite strip_prefix_app in E.
Qed.

Lemma below_spec loc k : below loc k = true ↔ ∃ c q, k = loc ++ c :: q.
Proof.
  unfold below. destruct (strip_prefix loc k) as [[|c q]|] eqn:E.
  - apply strip_prefix_spec in E. split; [done|]. intros (c & q & ->).
    apply (f_equal List.length) in E. rewrite !length_app in E. simpl in E. lia.
  - apply strip_prefix_spec in E. split; eauto.
  - split; [done|]. intros (c & q & ->). by rewrite strip_prefix_app in E.
Qed.

Lemma within_app loc q : within loc (loc ++ q) = true.
Proof. apply within_spec. eauto. Qed.

Lemma below_within loc k : below loc k = true → within loc k = true.
Proof. rewrite below_spec, within_spec. intros (c & q & ->). eauto. Qed.

(** ** Path lookup *)

Lemma walk_inl fs e cs : foldl (walk_step fs) (inl e) cs = inl e.
Proof. induction cs; simpl; auto. Qed.

Lemma walk_step_proper fs loc c :
  proper_name c →
  walk_step fs (inr loc) c =
    match fs !! loc with
    | Some Dir => inr (loc ++ [c])
    | Some (File _) => inl ENOTDIR
    | None => inl ENOENT
    end.
Proof.
  intros (H1 & H2 & H3 & H4). unfold walk_step.
  destruct (fs !! loc) as [[|]|]; try done.
  destruct (decide (c = "" ∨ c = ".")) as [[|]|]; [done..|].
  destruct (decide (c = "..")); done.
Qed.

Lemma walk_proper fs cs :
  Forall proper_name cs → ∀ loc l,
  foldl (walk_step fs) (inr loc) cs = inr l →
  l = loc ++ cs ∧ dirs_down fs loc cs = true.
Proof.
  induction 1 as [|c cs Hc Hcs IH]; intros loc l; cbn [foldl dirs_down].
  - intros [= ->]. by rewrite app_nil_r.
  - rewrite (walk_step_proper fs loc c Hc).
    destruct (fs !! loc) as [[|]|]; try (rewrite walk_inl; done).
    intros [-> ?]%IH. by rewrite <- app_assoc.
Qed.

Lemma walk_proper_ok fs cs :
  Forall proper_name cs → ∀ loc,
  dirs_down fs loc cs = true →
  foldl (walk_step fs) (inr loc) cs = inr (loc ++ cs).
Proof.
  induction 1 as [|c cs Hc Hcs IH]; intros loc; cbn [foldl dirs_down].
  - by rewrite app_nil_r.
  - rewrite (walk_step_proper fs loc c Hc).
    destruct (fs !! loc) as [[|]|]; try done.
    intros H. rewrite IH; [|done]. by rewrite <- app_assoc.
Qed.

Lemma resolve_plain_walk fs wd p cs :
  plain p cs → resolve fs wd p = foldl (walk_step fs) (inr wd) cs.
Proof.
  intros (H1 & H2 & H3 & H4 & H5). unfold resolve.
  destruct (decide (p = "")); [done|]. by rewrite H2, H4.
Qed.

Lemma resolve_plain fs wd p cs l :
  plain p cs → resolve fs wd p = inr l →
  l = wd ++ cs ∧ dirs_down fs wd cs = true.
Proof.
  intros Hp. rewrite (resolve_plain_walk fs wd p cs Hp).
  apply walk_proper. by destruct Hp as (_ & _ & _ & _ & ?).
Qed.

Lemma resolve_plain_ok fs wd p cs :
  plain p cs → dirs_down fs wd cs = true → resolve fs wd p = inr (wd ++ cs).
Proof.
  intros Hp. rewrite (resolve_plain_walk fs wd p cs Hp).
  apply walk_proper_ok. by destruct Hp as (_ & _ & _ & _ & ?).
Qed.

Lemma resolve_join fs wd D cs b :
  plain D cs → has_slash b = false →
  resolve fs wd (os_path_join D b) =
    walk_step fs (foldl (walk_step fs) (inr wd) cs) b.
Proof.
  intros HD Hb. destruct (join_split D cs b HD Hb) as (J1 & J2 & J3).
  unfold resolve. destruct (decide (os_path_join D b = "")); [done|].
  by rewrite J2, J3, foldl_app.
Qed.

(** The last component decides where a joined path leads: a name leads
    below the directory, anything else to a directory that is there. *)
Lemma resolve_join_cases fs wd D cs b l :
  plain D cs → has_slash b = false →
  resolve fs wd (os_path_join D b) = inr l →
  (proper_name b ∧ l = wd ++ cs ++ [b] ∧ fs !! (wd ++ cs) = Some Dir) ∨
  (¬ proper_name b ∧ fs !! l = Some Dir ∧ (l = wd ++ cs ∨ l = parent (wd ++ cs))).
Proof.
  intros HD Hb. rewrite (resolve_join fs wd D cs b HD Hb).
  destruct (foldl (walk_step fs) (inr wd) cs) as [e|l0] eqn:E; [done|].
  apply walk_proper in E as [-> _]; [|by destruct HD as (_ & _ & _ & _ & ?)].
  unfold walk_step. destruct (fs !! (wd ++ cs)) as [[|]|] eqn:E1; try done.
  destruct (decide (b = "" ∨ b = ".")) as [Hs|Hs].
  - intros [= <-]. right. split; [|auto].
    intros (? & ? & ? & ?). by destruct Hs.
  - destruct (decide (b = "..")) as [->|Hs'].
    + destruct (fs !! parent (wd ++ cs)) as [[|]|] eqn:E2; try done.
      intros [= <-]. right. split; [|auto]. by intros (? & ? & ? & ?).
    + intros [= <-]. left. rewrite <- app_assoc. split; [|done].
      repeat split; auto.
Qed.

Lemma bind_run {A B} (m : M A) (f : A → M B) w :
  (m ≫= f) w = match m w with
               | (Ok a, w') => f a w'
               | (Raise e, w') => (Raise e, w')
               end.
Proof. reflexivity. Qed.

Lemma bind_inv {A B} (m : M A) (f : A → M B) w r w' :
  (m ≫= f) w = (r, w') →
  (∃ a w1, m w = (Ok a, w1) ∧ f a w1 = (r, w')) ∨
  (∃ e, m w = (Raise e, w') ∧ r = Raise e).
Proof.
  rewrite bind_run. destruct (m w) as [[a|e] w1]; [eauto|].
  intros [= <- <-]. eauto.
Qed.

Section Frames.
Context (R : path → path → Prop).

Lemma cw_ret {A} (a : A) : changes_within R (mret a).
Proof. intros w r w' [= <- <-]. auto. Qed.

Lemma cw_raise {A} e : changes_within R (raise e : M A).
Proof. intros w r w' [= <- <-]. auto. Qed.

Lemma cw_print s : changes_within R (print s).
Proof. intros w r w' [= <- <-]. auto. Qed.

Lemma cw_ask {A} (f : filesystem → path → A) : changes_within R (ask f).
Proof. intros w r w' [= <- <-]. auto. Qed.

Lemma cw_trans (w w1 w' : world) :
  cwd w1 = cwd w → cwd w' = cwd w1 →
  (∀ k, disk w1 !! k = disk w !! k ∨ R (cwd w) k ∨
        (scaffold (cwd w) k ∧ disk w !! k = None ∧ disk w1 !! k = Some Dir)) →
  (∀ k, disk w' !! k = disk w1 !! k ∨ R (cwd w1) k ∨
        (scaffold (cwd w1) k ∧ disk w1 !! k = None ∧ disk w' !! k = Some Dir)) →
  cwd w' = cwd w ∧
  ∀ k, disk w' !! k = disk w !! k ∨ R (cwd w) k ∨
       (scaffold (cwd w) k ∧ disk w !! k = None ∧ disk w' !! k = Some Dir).
Proof.
  intros C1 C2 D1 D2. split; [congruence|]. intros k. rewrite C1 in D2.
  destruct (D1 k) as [E1|[?|(S1 & N1 & M1)]]; [|auto|].
  - rewrite <- E1. apply D2.
  - destruct (D2 k) as [E2|[?|(_ & N2 & _)]]; [|auto|congruence].
    right. right. rewrite E2. auto.
Qed.

Lemma cw_bind {A B} (m : M A) (f : A → M B) :
  changes_within R m → (∀ a, changes_within R (f a)) →
  changes_within R (m ≫= f).
Proof.
  intros Hm Hf w r w' [(a & w1 & E1 & E2)|(e & E1 & ->)]%bind_inv.
  - destruct (Hm _ _ _ E1) as [C1 D1]. destruct (Hf a _ _ _ E2) as [C2 D2].
    by apply (cw_trans w w1 w').
  - apply (Hm _ _ _ E1).
Qed.

Lemma cw_bind_post {A B} (Q : A → Prop) (m : M A) (f : A → M B) :
  changes_within R m → (∀ w a w', m w = (Ok a, w') → Q a) →
  (∀ a, Q a → changes_within R (f a)) →
  changes_within R (m ≫= f).
Proof.
  intros Hm HQ Hf w r w' [(a & w1 & E1 & E2)|(e & E1 & ->)]%bind_inv.
  - destruct (Hm _ _ _ E1) as [C1 D1].
    destruct (Hf a (HQ _ _ _ E1) _ _ _ E2) as [C2 D2].
    by apply (cw_trans w w1 w').
  - apply (Hm _ _ _ E1).
Qed.

Lemma cw_try {A} (m : M A) : changes_within R m → changes_within R (try m).
Proof.
  intros Hm w r w'. unfold try. destruct (m w) as [r1 w1] eqn:E.
  intros [= <- <-]. apply (Hm _ _ _ E).
Qed.

Lemma cw_for_each {A} (xs : list A) (body : A → M unit) :
  (∀ x, changes_within R (body x)) → changes_within R (for_each xs body).
Proof.
  intros Hb. induction xs as [|x xs IH]; simpl; [apply cw_ret|].
  apply cw_bind; auto.
Qed.

Lemma cw_for_each_Forall {A} (P : A → Prop) (xs : list A)
    (body : A → M unit) :
  (∀ x, P x → changes_within R (body x)) → Forall P xs →
  changes_within R (for_each xs body).
Proof.
  intros Hb. induction 1 as [|x xs Hx Hxs IH]; simpl; [apply cw_ret|].
  apply cw_bind; auto.
Qed.

Lemma cw_fold_each {A S} (xs : list A) (s : S) (body : S → A → M S) :
  (∀ s x, changes_within R (body s x)) →
  changes_within R (fold_each xs s body).
Proof.
  intros Hb. revert s. induction xs as [|x xs IH]; intros s; simpl;
    [apply cw_ret|].
  apply cw_bind; auto.
Qed.

Lemma cw_change_disk loc f :
  (∀ fs wd k, f fs !! k = fs !! k ∨ R wd k) →
  changes_within R (change_disk loc f).
Proof.
  intros Hf w r w' [= <- <-]. simpl. split; [done|]. intros k.
  destruct (Hf (disk w) (cwd w) k); auto.
Qed.

End Frames.

Lemma cw_mono (R R' : path → path → Prop) {A} (m : M A) :
  (∀ wd k, R wd k → R' wd k) → changes_within R m → changes_within R' m.
Proof.
  intros HR Hm w r w' E. destruct (Hm _ _ _ E) as [C D]. split; [done|].
  intros k. destruct (D k) as [|[|]]; auto.
Qed.

(** ** The file system operations *)

Lemma lookup_remove_below (loc : path) (fs : filesystem) (k : path) :
  remove_below loc fs !! k = if below loc k then None else fs !! k.
Proof.
  unfold remove_below. rewrite map_lookup_filter.
  destruct (fs !! k) as [n|] eqn:E; simpl; [|by destruct (below loc k)].
  destruct (below loc k); by rewrite option_guard_decide; case_decide.
Qed.

Lemma lookup_graft (fs0 : filesystem) (sloc dloc : path) (fs : filesystem)
    (k : path) :
  graft fs0 sloc dloc fs !! k =
    match strip_prefix dloc k with
    | Some (c :: q) =>
        match fs0 !! (sloc ++ c :: q) with
        | Some n => Some n
        | None => fs !! k
        end
    | _ => fs !! k
    end.
Proof.
  unfold graft. revert k.
  apply (map_fold_weak_ind
           (λ r (m : filesystem), ∀ k, r !! k =
              match strip_prefix dloc k with
              | Some (c :: q) =>
                  match m !! (sloc ++ c :: q) with
                  | Some n => Some n
                  | None => fs !! k
                  end
              | _ => fs !! k
              end)).
  - intros k. destruct (strip_prefix dloc k) as [[|c q]|];
      rewrite ?lookup_empty; done.
  - intros i x m r Hi IH k.
    destruct (strip_prefix sloc i) as [[|c q]|] eqn:Ei.
    + rewrite IH. destruct (strip_prefix dloc k) as [[|c' q']|]; try done.
      rewrite lookup_insert_ne; [done|].
      intros ->. by rewrite strip_prefix_app in Ei.
    + apply strip_prefix_spec in Ei as ->.
      destruct (decide (k = dloc ++ c :: q)) as [->|Hk].
      * rewrite lookup_insert_eq, strip_prefix_app. by rewrite lookup_insert_eq.
      * rewrite lookup_insert_ne by done. rewrite IH.
        destruct (strip_prefix dloc k) as [[|c' q']|] eqn:Ek; try done.
        apply strip_prefix_spec in Ek as ->.
        rewrite lookup_insert_ne; [done|].
        intros [= -> ->]%app_inv_head. done.
    + rewrite IH. destruct (strip_prefix dloc k) as [[|c' q']|]; try done.
      rewrite lookup_insert_ne; [done|].
      intros ->. by rewrite strip_prefix_app in Ei.
Qed.

Lemma elem_of_child_names (fs : filesystem) (loc : path) (c : string) :
  c ∈ child_names fs loc ↔ proper_name c ∧ is_Some (fs !! (loc ++ [c])).
Proof.
  unfold child_names.
  apply (map_fold_weak_ind
           (λ (r : gset string) (m : filesystem),
              c ∈ r ↔ proper_name c ∧ is_Some (m !! (loc ++ [c])))).
  - rewrite lookup_empty. split; [set_solver|]. by intros [_ [? ?]].
  - intros i x m r Hi IH.
    assert (strip_prefix loc i ≠ Some [c] →
            <[i:=x]> m !! (loc ++ [c]) = m !! (loc ++ [c])) as Hother.
    { intros Hne. apply lookup_insert_ne. intros ->.
      by rewrite strip_prefix_app in Hne. }
    destruct (strip_prefix loc i) as [[|c' [|c2 q2]]|] eqn:Ei.
    + by rewrite IH, Hother.
    + apply strip_prefix_spec in Ei as ->.
      destruct (proper_nameb c') eqn:Ep.
      * rewrite elem_of_union, elem_of_singleton, IH.
        destruct (decide (c = c')) as [->|Hne].
        -- rewrite lookup_insert_eq. apply proper_name_spec in Ep.
           split; [eauto|auto].
        -- rewrite lookup_insert_ne; [|by intros [= ->]%app_inv_head]. tauto.
      * rewrite IH. destruct (decide (c = c')) as [->|Hne].
        -- rewrite lookup_insert_eq, Hi.
           assert (¬ proper_name c') by (rewrite <- proper_name_spec; congruence).
           split; [by intros [_ [? ?]]|tauto].
        -- rewrite lookup_insert_ne; [done|by intros [= ->]%app_inv_head].
    + by rewrite IH, Hother.
    + by rewrite IH, Hother.
Qed.

Ltac run_prim :=
  unfold locate, node_at, ask, change_disk, raise, print,
    os_path_exists, os_path_isfile, os_path_isdir in *;
  unfold mbind, M_bind, mret, M_ret in *; simpl in *.

Section PrimFrames.
Context (R : path → path → Prop).

Lemma cw_read_file p : changes_within R (read_file p).
Proof.
  intros w r w'. unfold read_file. run_prim.
  destruct (resolve _ _ _) as [[|]|l]; simpl; try (intros [= <- <-]; by auto).
  destruct (disk w !! l) as [[|]|]; intros [= <- <-]; auto.
Qed.

Lemma cw_write_file p c :
  (∀ fs wd l, resolve fs wd p = inr l → R wd l ∨ fs !! l = Some Dir) →
  changes_within R (write_file p c).
Proof.
  intros HR w r w'. unfold write_file. run_prim.
  destruct (resolve _ _ _) as [[|]|l] eqn:E; simpl;
    try (intros [= <- <-]; by auto).
  destruct (HR _ _ _ E) as [Hl|Hl].
  - destruct (disk w !! l) as [[|]|]; intros [= <- <-]; simpl; auto;
      (split; [done|]); intros k;
      (destruct (decide (k = l)) as [->|];
       [auto|left; by apply lookup_insert_ne]).
  - rewrite Hl. intros [= <- <-]. auto.
Qed.

Lemma cw_listdir p : changes_within R (os_listdir p).
Proof.
  intros w r w'. unfold os_listdir. run_prim.
  destruct (resolve _ _ _) as [[|]|l]; simpl; try (intros [= <- <-]; by auto).
  destruct (disk w !! l) as [[|]|]; intros [= <- <-]; auto.
Qed.

Lemma cw_rmtree p :
  (∀ fs wd l k, resolve fs wd p = inr l → within l k = true → R wd k) →
  changes_within R (shutil_rmtree p).
Proof.
  intros HR w r w'. unfold shutil_rmtree. run_prim.
  destruct (resolve _ _ _) as [[|]|l] eqn:E; simpl;
    try (intros [= <- <-]; by auto).
  destruct (disk w !! l) as [[|]|]; try (intros [= <- <-]; by auto).
  assert (∀ k, remove_below l (disk w) !! k = disk w !! k ∨ R (cwd w) k) as Hb.
  { intros k. rewrite lookup_remove_below. destruct (below l k) eqn:Eb; [|auto].
    right. eapply HR; [done|]. by apply below_within. }
  destruct (last (split_slash p)) as [c0|];
    [|intros [= <- <-]; simpl; split; [done|]; intros k;
      destruct (Hb k); auto].
  destruct (decide _); intros [= <- <-]; simpl;
    (split; [done|]); intros k; [destruct (Hb k); auto|].
  destruct (decide (k = l)) as [->|].
  - right. left. eapply HR; [done|]. rewrite <- (app_nil_r l) at 2.
    apply within_app.
  - rewrite lookup_delete_ne by done. destruct (Hb k); auto.
Qed.

End PrimFrames.

(** ** [os.makedirs] *)

Lemma fold_each_app {A S} (xs ys : list A) (s : S) (body : S → A → M S) w :
  fold_each (xs ++ ys) s body w =
  (s' ← fold_each xs s body; fold_each ys s' body) w.
Proof.
  revert s w. induction xs as [|x xs IH]; intros s w; simpl; [done|].
  rewrite !bind_run. destruct (body s x w) as [[s1|e] w1]; [|done].
  by rewrite IH.
Qed.

Lemma makedirs_step_proper c loc fr w :
  proper_name c →
  makedirs_step (loc, fr) c w =
    match disk w !! loc with
    | None => (Raise FileNotFoundError, w)
    | Some (File _) => (Raise NotADirectoryError, w)
    | Some Dir =>
        match disk w !! (loc ++ [c]) with
        | None =>
            (Ok (loc ++ [c], true),
             World (<[loc ++ [c] := Dir]> (disk w)) (cwd w) (stdout w)
                   (writes w ++ [loc ++ [c]]))
        | Some _ => (Ok (loc ++ [c], false), w)
        end
    end.
Proof.
  intros (H1 & H2 & H3 & H4). unfold makedirs_step. run_prim.
  destruct (disk w !! loc) as [[|]|]; try done.
  destruct (decide (c = "" ∨ c = ".")) as [[|]|]; [done..|].
  destruct (decide (c = "..")); [done|].
  by destruct (disk w !! (loc ++ [c])).
Qed.

(** Directories are made only where nothing was, along the way down. *)
Lemma makedirs_fold ps :
  Forall proper_name ps → ∀ loc fr w r w',
  fold_each ps (loc, fr) makedirs_step w = (r, w') →
  cwd w' = cwd w ∧
  (∀ k, disk w' !! k = disk w !! k ∨
        (disk w !! k = None ∧ disk w' !! k = Some Dir ∧
         ∃ i, 0 < i ≤ List.length ps ∧ k = loc ++ take i ps)) ∧
  (∀ l fr', r = Ok (l, fr') →
     l = loc ++ ps ∧
     (ps = [] → fr' = fr) ∧
     (ps ≠ [] → fr' = true → disk w !! l = None ∧ disk w' !! l = Some Dir)).
Proof.
  induction 1 as [|c ps Hc Hps IH]; intros loc fr w r w'; cbn [fold_each].
  - intros [= <- <-]. split; [done|]. split; [auto|].
    intros l fr' [= <- <-]. by rewrite app_nil_r.
  - rewrite bind_run, (makedirs_step_proper c loc fr w Hc).
    destruct (disk w !! loc) as [[|]|] eqn:El;
      try (intros [= <- <-]; split; [done|]; split; [auto|done]).
    destruct (disk w !! (loc ++ [c])) as [n|] eqn:Ec.
    + intros E. destruct (IH _ _ _ _ _ E) as (C & D & O).
      split; [done|]. split.
      * intros k. destruct (D k) as [?|(? & ? & i & ? & ->)]; [auto|].
        right. split; [done|]. split; [done|]. exists (S i). simpl.
        split; [lia|]. by rewrite <- app_assoc.
      * intros l fr' ->. destruct (O _ _ eq_refl) as (-> & O1 & O2).
        split; [by rewrite <- app_assoc|]. split; [done|]. intros _ ->.
        destruct ps as [|c2 ps'].
        -- by specialize (O1 eq_refl).
        -- by apply O2.
    + intros E. destruct (IH _ _ _ _ _ E) as (C & D & O). simpl in *.
      split; [done|]. split.
      * intros k. destruct (decide (k = loc ++ [c])) as [->|Hk].
        -- destruct (D (loc ++ [c])) as [Hu|(Hn & _)].
           ++ rewrite lookup_insert_eq in Hu. right. split; [done|].
              split; [done|]. exists 1. simpl. split; [lia|]. by rewrite take_0.
           ++ by rewrite lookup_insert_eq in Hn.
        -- destruct (D k) as [Hu|(Hn & Hd & i & ? & ->)].
           ++ left. by rewrite Hu, lookup_insert_ne.
           ++ right. rewrite lookup_insert_ne in Hn by done. split; [done|].
              split; [done|]. exists (S i). simpl. split; [lia|].
              by rewrite <- app_assoc.
      * intros l fr' ->. destruct (O _ _ eq_refl) as (-> & O1 & O2).
        split; [by rewrite <- app_assoc|]. split; [done|]. intros _ ->.
        destruct ps as [|c2 ps'].
        -- rewrite app_nil_r in *.
           split; [done|]. destruct (D (loc ++ [c])) as [->|(? & ? & _)]; [|done].
           by rewrite lookup_insert_eq.
        -- destruct (O2 ltac:(done) eq_refl) as [N1 N2]. split; [|done].
           rewrite lookup_insert_ne in N1; [done|].
           rewrite <- app_assoc. intros [=]%app_inv_head.
Qed.

Lemma plain_nonempty p cs : plain p cs → cs ≠ [].
Proof. intros (_ & _ & _ & <- & _). apply split_slash_ne. Qed.

Lemma makedirs_at_plain p cs w r w' :
  plain p cs → makedirs_at p w = (r, w') →
  cwd w' = cwd w ∧
  (∀ k, disk w' !! k = disk w !! k ∨
        (disk w !! k = None ∧ disk w' !! k = Some Dir ∧
         ∃ i, 0 < i ≤ List.length cs ∧ k = cwd w ++ take i cs)) ∧
  (∀ l, r = Ok l →
        l = cwd w ++ cs ∧ disk w !! l = None ∧ disk w' !! l = Some Dir).
Proof.
  intros Hp. pose proof (plain_nonempty _ _ Hp) as Hne.
  destruct Hp as (H1 & H2 & H3 & H4 & H5). unfold makedirs_at.
  destruct (decide (p = "")); [done|]. rewrite H2, H4.
  rewrite bind_run. unfold ask at 1. cbn [fst snd]. rewrite bind_run.
  destruct (fold_each cs (cwd w, false) makedirs_step w) as [[[l fr]|e] w1] eqn:E;
    destruct (makedirs_fold cs H5 _ _ _ _ _ E) as (C & D & O).
  - destruct (O _ _ eq_refl) as (-> & O1 & O2). simpl.
    destruct fr; intros [= <- <-]; (split; [done|]); (split; [done|]); [|done].
    intros l [= <-]. split; [done|]. by apply O2.
  - intros [= <- <-]. done.
Qed.

Lemma makedirs_at_join D cs b w r w' :
  plain D cs → has_slash b = false →
  makedirs_at (os_path_join D b) w = (r, w') →
  cwd w' = cwd w ∧
  (∀ k, disk w' !! k = disk w !! k ∨
        (disk w !! k = None ∧ disk w' !! k = Some Dir ∧
         ((∃ i, 0 < i ≤ List.length cs ∧ k = cwd w ++ take i cs) ∨
          (proper_name b ∧ k = cwd w ++ cs ++ [b])))) ∧
  (∀ l, r = Ok l →
        disk w !! l = None ∧ disk w' !! l = Some Dir ∧
        within (cwd w ++ cs) l = true ∧
        (proper_name b → l = cwd w ++ cs ++ [b])).
Proof.
  intros HD Hb. pose proof (plain_nonempty _ _ HD) as Hne.
  destruct (join_split D cs b HD Hb) as (J1 & J2 & J3).
  destruct HD as (H1 & H2 & H3 & H4 & H5). unfold makedirs_at.
  destruct (decide (os_path_join D b = "")); [done|]. rewrite J2, J3.
  rewrite bind_run. unfold ask at 1. cbn [fst snd]. rewrite bind_run.
  rewrite fold_each_app, bind_run.
  destruct (fold_each cs (cwd w, false) makedirs_step w) as [[[l fr]|e] w1] eqn:E;
    destruct (makedirs_fold cs H5 _ _ _ _ _ E) as (C & Dk & O);
    [|intros [= <- <-]; split; [done|]; split; [|done];
      intros k; destruct (Dk k) as [|(?&?&?)]; auto].
  destruct (O _ _ eq_refl) as (-> & O1 & O2). cbn [fold_each]. rewrite bind_run.
  assert (∀ k, disk w1 !! k = disk w !! k ∨
               (disk w !! k = None ∧ disk w1 !! k = Some Dir ∧
                ((∃ i, 0 < i ≤ List.length cs ∧ k = cwd w ++ take i cs) ∨
                 (proper_name b ∧ k = cwd w ++ cs ++ [b])))) as Dk'.
  { intros k. destruct (Dk k) as [|(?&?&?)]; auto. }
  destruct (decide (proper_name b)) as [Hpb|Hnb].
  - rewrite (makedirs_step_proper b _ _ _ Hpb).
    destruct (disk w1 !! (cwd w ++ cs)) as [[|]|] eqn:El;
      try (intros [= <- <-]; split; [done|]; split; [done|done]).
    destruct (disk w1 !! ((cwd w ++ cs) ++ [b])) as [nd|] eqn:Ec; simpl.
    + intros [= <- <-]. done.
    + intros [= <- <-]. simpl. split; [done|]. split.
      * intros k. destruct (decide (k = (cwd w ++ cs) ++ [b])) as [->|Hk].
        -- rewrite lookup_insert_eq. right.
           destruct (Dk ((cwd w ++ cs) ++ [b])) as [Hu|(_ & Hd & _)];
             [|congruence].
           split; [by rewrite <- Hu|]. split; [done|]. right.
           split; [done|]. by rewrite <- app_assoc.
        -- rewrite lookup_insert_ne by done. apply Dk'.
      * intros l [= <-]. rewrite lookup_insert_eq.
        destruct (Dk ((cwd w ++ cs) ++ [b])) as [Hu|(_ & Hd & _)]; [|congruence].
        split; [by rewrite <- Hu|]. split; [done|]. split; [apply within_app|].
        intros _. by rewrite <- app_assoc.
  - unfold makedirs_step. run_prim.
    destruct (disk w1 !! (cwd w ++ cs)) as [[|]|] eqn:El;
      try (intros [= <- <-]; split; [done|]; split; [done|done]).
    destruct (decide (b = "" ∨ b = ".")) as [Hs|Hs]; simpl.
    + destruct fr; intros [= <- <-]; (split; [done|]); (split; [done|]);
        [|done].
      intros l [= <-]. destruct (O2 Hne eq_refl) as [N1 N2].
      split; [done|]. split; [done|]. split; [|done].
      rewrite <- (app_nil_r (cwd w ++ cs)) at 2. apply within_app.
    + destruct (decide (b = "..")) as [->|Hs']; simpl.
      * intros [= <- <-]. done.
      * exfalso. apply Hnb. repeat split; auto.
Qed.

Lemma within_trans a b c :
  within a b = true → within b c = true → within a c = true.
Proof.
  rewrite !within_spec. intros [q ->] [q' ->]. exists (q ++ q').
  by rewrite app_assoc.
Qed.

Lemma within_refl a : within a a = true.
Proof. apply within_spec. exists []. by rewrite app_nil_r. Qed.

Lemma region_snoc cs c wd k : region (cs ++ [c]) wd k → region cs wd k.
Proof.
  unfold region. intros Hw. eapply within_trans; [|done].
  rewrite app_assoc. apply within_app.
Qed.

Lemma storage_take X y wd i :
  X = "commits" ∨ X = "versions" → 0 < i < 3 →
  scaffold wd (wd ++ take i [".icvcs"; X; y]).
Proof.
  intros HX Hi. unfold scaffold, icvcs_loc, commits_loc, versions_loc.
  destruct i as [|[|[|i]]]; simpl; [lia|auto| |lia].
  destruct HX as [-> | ->]; auto.
Qed.

Lemma os_listdir_proper p w l w' :
  os_listdir p w = (Ok l, w') → Forall proper_name l.
Proof.
  unfold os_listdir. run_prim.
  destruct (resolve _ _ _) as [[|]|loc]; simpl; try done.
  destruct (disk w !! loc) as [[|]|]; try done. intros [= <- <-].
  apply Forall_forall. intros c Hc. apply elem_of_elements in Hc.
  by apply elem_of_child_names in Hc as [? _].
Qed.

Lemma cw_makedirs_storage p X y :
  plain p [".icvcs"; X; y] → X = "commits" ∨ X = "versions" →
  changes_within (region [".icvcs"; X; y]) (os_makedirs p).
Proof.
  intros Hp HX w r w'. unfold os_makedirs. rewrite bind_run.
  destruct (makedirs_at p w) as [r1 w1] eqn:E.
  destruct (makedirs_at_plain p _ w r1 w1 Hp E) as (C & Dk & _).
  assert (cwd w1 = cwd w ∧
          ∀ k, disk w1 !! k = disk w !! k ∨ region [".icvcs"; X; y] (cwd w) k ∨
               (scaffold (cwd w) k ∧ disk w !! k = None ∧
                disk w1 !! k = Some Dir)).
  { split; [done|]. intros k.
    destruct (Dk k) as [|(N & M & i & Hi & ->)]; [auto|]. simpl in Hi.
    destruct (decide (i = 3)) as [->|].
    - right. left. apply within_refl.
    - right. right. split; [|done]. apply storage_take; [done|lia]. }
  destruct r1; intros [= <- <-]; done.
Qed.

Lemma cw_copy src p cs :
  plain p cs → changes_within (region cs) (shutil_copy src p).
Proof.
  intros Hp. unfold shutil_copy.
  apply cw_bind; [apply cw_ask|]. intros d.
  apply cw_bind; [apply cw_ask|]. intros [|]; [apply cw_raise|].
  apply cw_bind; [apply cw_read_file|]. intros c.
  apply cw_write_file. intros fs wd l. destruct d.
  - intros Hl.
    destruct (resolve_join_cases fs wd p cs _ l Hp (basename_noslash src) Hl)
      as [(_ & -> & _)|(_ & ? & _)]; [|auto].
    left. unfold region. rewrite app_assoc. apply within_app.
  - intros [-> _]%(resolve_plain _ _ _ cs); [|done]. left. apply within_refl.
Qed.

Lemma cw_copytree src D X y b :
  plain D [".icvcs"; X; y] → X = "commits" ∨ X = "versions" →
  has_slash b = false →
  changes_within (region [".icvcs"; X; y])
    (shutil_copytree src (os_path_join D b)).
Proof.
  intros HD HX Hb w r w'. unfold shutil_copytree. run_prim.
  destruct (resolve _ _ src) as [[|]|sloc]; simpl;
    try (intros [= <- <-]; by auto).
  destruct (disk w !! sloc) as [[|]|]; try (intros [= <- <-]; by auto).
  destruct (makedirs_at (os_path_join D b) w) as [r1 w1] eqn:E.
  destruct (makedirs_at_join D _ b w r1 w1 HD Hb E) as (C & Dk & O).
  assert (∀ k, disk w1 !! k = disk w !! k ∨
               region [".icvcs"; X; y] (cwd w) k ∨
               (scaffold (cwd w) k ∧ disk w !! k = None ∧
                disk w1 !! k = Some Dir)) as Hk.
  { intros k.
    destruct (Dk k) as [|(N & M & [(i & Hi & ->)|[_ ->]])]; [auto|..].
    - simpl in Hi. destruct (decide (i = 3)) as [->|].
      + right. left. apply within_refl.
      + right. right. split; [|done]. apply storage_take; [done|lia].
    - right. left. unfold region. rewrite app_assoc. apply within_app. }
  destruct r1 as [dloc|e]; [|intros [= <- <-]; by auto].
  destruct (O _ eq_refl) as (_ & _ & Hw & _).
  assert (∀ k, graft (disk w) sloc dloc (disk w1) !! k = disk w !! k ∨
               region [".icvcs"; X; y] (cwd w) k ∨
               (scaffold (cwd w) k ∧ disk w !! k = None ∧
                graft (disk w) sloc dloc (disk w1) !! k = Some Dir)) as Hg.
  { intros k. rewrite lookup_graft.
    destruct (strip_prefix dloc k) as [[|c q]|] eqn:Ek; [apply Hk| |apply Hk].
    right. left. eapply within_trans; [done|].
    apply strip_prefix_spec in Ek as ->. apply within_app. }
  destruct (within sloc dloc); intros [= <- <-]; simpl; auto.
Qed.

Ltac cw_step :=
  match goal with
  | |- changes_within _ (mret _) => apply cw_ret
  | |- changes_within _ (raise _) => apply cw_raise
  | |- changes_within _ (print _) => apply cw_print
  | |- changes_within _ (ask _) => apply cw_ask
  | |- changes_within _ (os_path_exists _) => apply cw_ask
  | |- changes_within _ (os_path_isfile _) => apply cw_ask
  | |- changes_within _ (os_path_isdir _) => apply cw_ask
  | |- changes_within _ (read_file _) => apply cw_read_file
  | |- changes_within _ (os_listdir _) => apply cw_listdir
  | |- changes_within _ (try _) => apply cw_try
  | |- changes_within _ (for_each _ _) => apply cw_for_each; intros ?
  | |- changes_within _ (fold_each _ _ _) => apply cw_fold_each; intros ? ?
  | |- changes_within _ (_ ≫= _) => apply cw_bind; [|intros ?]
  | |- changes_within _ (if ?b then _ else _) => destruct b
  | |- changes_within _ (match ?x with _ => _ end) => destruct x
  end.

Lemma proper_name_dec_true c : proper_nameb c = true → proper_name c.
Proof. apply proper_name_spec. Qed.

Ltac proper_const := apply proper_name_dec_true; reflexivity.

Lemma plain_icvcs : plain ICVCS_DIR [".icvcs"].
Proof. apply plain_single. proper_const. Qed.

Lemma plain_commits : plain COMMITS_DIR [".icvcs"; "commits"].
Proof. apply (plain_join _ [_]); [apply plain_icvcs|proper_const]. Qed.

Lemma plain_versions : plain VERSIONS_DIR [".icvcs"; "versions"].
Proof. apply (plain_join _ [_]); [apply plain_icvcs|proper_const]. Qed.

Lemma plain_latest : plain LATEST_DIR [".icvcs"; "commits"; "latest"].
Proof. apply (plain_join _ [_; _]); [apply plain_commits|proper_const]. Qed.

Lemma plain_index :
  plain (os_path_join ICVCS_DIR "repo_data.json") [".icvcs"; "repo_data.json"].
Proof. apply (plain_join _ [_]); [apply plain_icvcs|proper_const]. Qed.

Lemma plain_journal :
  plain (os_path_join ICVCS_DIR "commit_history.json")
        [".icvcs"; "commit_history.json"].
Proof. apply (plain_join _ [_]); [apply plain_icvcs|proper_const]. Qed.

Lemma plain_commit_dir id :
  proper_name id → plain (os_path_join COMMITS_DIR id) [".icvcs"; "commits"; id].
Proof. intros. by apply (plain_join _ [_; _]); [apply plain_commits|]. Qed.

Lemma plain_version_dir name :
  proper_name name →
  plain (os_path_join VERSIONS_DIR name) [".icvcs"; "versions"; name].
Proof. intros. by apply (plain_join _ [_; _]); [apply plain_versions|]. Qed.

Section CommandFrames.
Context (R : path → path → Prop).

Lemma cw_load_repo_data : changes_within R load_repo_data.
Proof. unfold load_repo_data. repeat cw_step. Qed.

Lemma cw_load_config : changes_within R load_config.
Proof. unfold load_config. repeat cw_step. Qed.

Lemma cw_history : changes_within R history.
Proof. unfold history. repeat cw_step. Qed.

Lemma cw_list_commit_history : changes_within R list_commit_history.
Proof.
  unfold list_commit_history. cw_step; [cw_step|]. cw_step; [cw_step|].
  cw_step; [apply cw_history|]. repeat cw_step.
Qed.

Lemma cw_get_last_commit_info : changes_within R get_last_commit_info.
Proof.
  unfold get_last_commit_info. cw_step; [cw_step|]. cw_step; [cw_step|].
  cw_step; [apply cw_history|]. repeat cw_step.
Qed.

Lemma cw_status : changes_within R status.
Proof.
  unfold status, classify, print_lines. cw_step; [apply cw_load_repo_data|].
  cw_step; [cw_step|]. cw_step; [repeat cw_step|].
  do 3 (cw_step; [cw_step|]). cw_step; [apply cw_get_last_commit_info|].
  repeat cw_step.
Qed.

Lemma cw_save_repo_data r :
  (∀ wd, R wd (index_loc wd)) → changes_within R (save_repo_data r).
Proof.
  intros HR. unfold save_repo_data. cw_step; [|cw_step].
  apply cw_write_file. intros fs wd l [-> _]%(resolve_plain _ _ _ _ _ plain_index).
  left. apply HR.
Qed.

Lemma cw_add path with_files :
  (∀ wd, R wd (index_loc wd)) → changes_within R (add path with_files).
Proof.
  intros HR. unfold add. cw_step; [apply cw_load_repo_data|].
  cw_step; [cw_step|]. cw_step; [|by apply cw_save_repo_data].
  repeat cw_step.
Qed.

Lemma cw_remove path :
  (∀ wd, R wd (index_loc wd)) → changes_within R (remove path).
Proof.
  intros HR. unfold remove. cw_step; [apply cw_load_repo_data|].
  cw_step; [cw_step|]. cw_step; [|by apply cw_save_repo_data].
  repeat cw_step.
Qed.

Lemma cw_edit loc n : (∀ wd, R wd loc) → changes_within R (edit loc n).
Proof.
  intros HR. apply cw_change_disk. intros fs wd k.
  destruct (decide (k = loc)) as [->|]; [by right|left].
  destruct n; [by rewrite lookup_insert_ne|by rewrite lookup_delete_ne].
Qed.

End CommandFrames.

Lemma cw_version_region name {A} (m : M A) :
  changes_within (region [".icvcs"; "versions"; name]) m →
  changes_within (version_region name) m.
Proof. apply cw_mono. intros wd k ?. by left. Qed.

Lemma cw_commit_region id {A} (m : M A) :
  changes_within (region [".icvcs"; "commits"; id]) m →
  changes_within (commit_region id) m.
Proof. apply cw_mono. intros wd k ?. by left. Qed.

Lemma cw_copy_tracked_files fs D cs warn :
  plain D cs →
  changes_within (region cs) (copy_tracked_files fs D warn).
Proof.
  intros HD. unfold copy_tracked_files. cw_step. cw_step; [cw_step|].
  cw_step; [by apply (cw_copy _ _ cs)|]. repeat cw_step.
Qed.

Lemma cw_copy_tracked_directories ds D X y warn :
  plain D [".icvcs"; X; y] → X = "commits" ∨ X = "versions" →
  changes_within (region [".icvcs"; X; y])
    (copy_tracked_directories ds D warn).
Proof.
  intros HD HX. unfold copy_tracked_directories. cw_step. cw_step; [cw_step|].
  cw_step; [apply cw_copytree; [done|done|apply basename_noslash]|].
  repeat cw_step.
Qed.

Lemma cw_version_with rd cfg cmd name force now a d :
  proper_name name →
  changes_within (version_region name)
    (version_with rd cfg cmd name force now a d).
Proof.
  intros Hn. pose proof (plain_version_dir name Hn) as Hp.
  assert (∀ r, changes_within (version_region name) (save_repo_data r)) as Hsave.
  { intros r. apply cw_save_repo_data. intros wd. by right. }
  assert (changes_within (version_region name)
            (shutil_rmtree (os_path_join VERSIONS_DIR name))) as Hrm.
  { apply cw_rmtree. intros fs wd l k [-> _]%(resolve_plain _ _ _ _ _ Hp) Hk.
    by left. }
  unfold version_with.
  destruct (decide (cmd = "create")); [|destruct (decide (cmd = "delete"))].
  - destruct (decide (name = "")); [cw_step|].
    cw_step; [cw_step|]. cw_step.
    + destruct a0; [destruct force; simpl|]; repeat cw_step; try apply Hrm.
    + destruct a1; [|cw_step].
      cw_step; [apply cw_version_region, cw_makedirs_storage; auto|].
      cw_step; [apply cw_version_region, (cw_copy_tracked_files _ _ _ _ Hp)|].
      cw_step; [apply cw_version_region, cw_copy_tracked_directories; auto|].
      cw_step; [|cw_step; [apply Hsave|cw_step]].
      apply cw_write_file. intros fs wd l Hl.
      apply (resolve_plain _ _ _ ([".icvcs"; "versions"; name] ++ ["metadata.json"]))
        in Hl as [-> _]; [|apply plain_join; [done|proper_const]].
      left. left. unfold region. rewrite app_assoc. apply within_app.
  - destruct (decide (name = "")); [cw_step|].
    cw_step; [cw_step|]. destruct a0; [|cw_step].
    cw_step; [apply Hrm|]. destruct (list_remove _ _); [|cw_step].
    cw_step; [apply Hsave|cw_step].
  - repeat cw_step.
Qed.

Lemma cw_version cmd name force now a d :
  proper_name name →
  changes_within (version_region name) (version cmd name force now a d).
Proof.
  intros Hn. unfold version. cw_step; [apply cw_load_repo_data|].
  cw_step; [apply cw_load_config|]. by apply cw_version_with.
Qed.

Lemma cw_commit_with rd cfg now stamp m a :
  proper_name (strftime_YmdHMS now) →
  changes_within (commit_region (strftime_YmdHMS now))
    (commit_with rd cfg now stamp m a).
Proof.
  intros Hn. pose proof (plain_commit_dir _ Hn) as Hp.
  unfold commit_with.
  cw_step; [apply cw_commit_region, cw_makedirs_storage; auto|].
  cw_step; [apply cw_commit_region, (cw_copy_tracked_files _ _ _ _ Hp)|].
  cw_step; [apply cw_commit_region, cw_copy_tracked_directories; auto|].
  cw_step.
  { apply cw_write_file. intros fs wd l Hl.
    apply (resolve_plain _ _ _ ([".icvcs"; "commits"; strftime_YmdHMS now] ++
                                ["metadata.json"]))
      in Hl as [-> _]; [|apply plain_join; [done|proper_const]].
    left. left. unfold region. rewrite app_assoc. apply within_app. }
  apply cw_bind; [cw_step|intros c]. destruct c; try (by cw_step).
  cw_step; [|cw_step].
  apply cw_write_file. intros fs wd l [-> _]%(resolve_plain _ _ _ _ _ plain_journal).
  left. by right.
Qed.

Lemma cw_remove_commit id :
  proper_name id →
  changes_within (region [".icvcs"; "commits"; id]) (remove_commit id).
Proof.
  intros Hn. pose proof (plain_commit_dir _ Hn) as Hp. unfold remove_commit.
  cw_step; [cw_step|]. destruct a; [|cw_step]. cw_step; [|cw_step].
  apply cw_rmtree. intros fs wd l k [-> _]%(resolve_plain _ _ _ _ _ Hp) Hk.
  done.
Qed.

Lemma cw_push id :
  changes_within (region [".icvcs"; "commits"; "latest"]) (push id).
Proof.
  unfold push. cw_step; [cw_step|]. cw_step; [cw_step|].
  cw_step. { repeat cw_step. }
  destruct a0 as [[cid cdir]|]; [|cw_step].
  cw_step; [cw_step|].
  cw_step.
  { destruct a0; [|cw_step]. apply cw_rmtree.
    intros fs wd l k [-> _]%(resolve_plain _ _ _ _ _ plain_latest) Hk. done. }
  cw_step; [apply cw_makedirs_storage; [apply plain_latest|auto]|].
  eapply (cw_bind_post _ (Forall proper_name)); [cw_step|apply os_listdir_proper|].
  intros items Hitems. cw_step; [|cw_step].
  eapply cw_for_each_Forall; [|exact Hitems]. intros item Hitem. simpl.
  cw_step; [cw_step|]. destruct a3.
  - apply cw_copytree; [apply plain_latest|auto|].
    by destruct Hitem as (_ & _ & _ & ?).
  - eapply cw_mono; [|apply (cw_copy _ _ ([".icvcs"; "commits"; "latest"] ++ [item]))].
    + intros wd k Hk. by apply region_snoc in Hk.
    + by apply plain_join; [apply plain_latest|].
Qed.

Lemma cw_clear_commits : changes_within clear_region clear_commits.
Proof.
  unfold clear_commits.
  eapply (cw_bind_post _ (Forall proper_name)); [cw_step|apply os_listdir_proper|].
  intros items Hitems. cw_step; [|cw_step].
  eapply cw_for_each_Forall; [|exact Hitems]. intros item Hitem. simpl.
  destruct (decide (item ≠ "latest")); [|cw_step].
  cw_step; [cw_step|]. destruct a; [|cw_step].
  apply cw_rmtree.
  intros fs wd l k [-> _]%(resolve_plain _ _ _ _ _ (plain_commit_dir _ Hitem)) Hk.
  exists item. split; [done|]. split; [done|]. unfold commits_loc.
  by rewrite <- app_assoc.
Qed.

(** ** Commit identifiers are names *)

Lemma string_length_app a b :
  String.length (a +:+ b) = String.length a + String.length b.
Proof. induction a as [|c a IH]; simpl; [done|]. by rewrite IH. Qed.

Lemma zero_pad_length w n : String.length (zero_pad w n) = w.
Proof.
  revert n. induction w as [|w IH]; intros n; cbn [zero_pad]; [done|].
  rewrite string_length_app, IH. cbn [String.length]. lia.
Qed.

Lemma digit_not_slash n : Ascii.eqb (digit n) "/" = false.
Proof.
  unfold digit. pose proof (Nat.mod_upper_bound n 10 ltac:(lia)) as H.
  destruct (n mod 10) as [|[|[|[|[|[|[|[|[|[|k]]]]]]]]]]; try reflexivity. lia.
Qed.

Lemma zero_pad_noslash w n : has_slash (zero_pad w n) = false.
Proof.
  revert n. induction w as [|w IH]; intros n; cbn [zero_pad]; [done|].
  rewrite has_slash_app, IH. cbn [has_slash orb]. by rewrite digit_not_slash.
Qed.

Lemma strftime_length t : String.length (strftime_YmdHMS t) = 14.
Proof.
  unfold strftime_YmdHMS. by rewrite !string_length_app, !zero_pad_length.
Qed.

Lemma strftime_proper t : proper_name (strftime_YmdHMS t).
Proof.
  pose proof (strftime_length t) as Hl. unfold proper_name. split; [|split; [|split]].
  - intros E. rewrite E in Hl. simpl in Hl. lia.
  - intros E. rewrite E in Hl. simpl in Hl. lia.
  - intros E. rewrite E in Hl. simpl in Hl. lia.
  - unfold strftime_YmdHMS. rewrite !has_slash_app, !zero_pad_noslash. reflexivity.
Qed.

Lemma strftime_not_latest t : strftime_YmdHMS t ≠ "latest".
Proof.
  intros E. pose proof (strftime_length t) as Hl. rewrite E in Hl.
  simpl in Hl. lia.
Qed.

Lemma region_snapshot cs wd s q :
  List.length cs = 3 →
  region cs wd (snapshot_loc wd s ++ q) → cs = snapshot_cs s.
Proof.
  intros Hlen. unfold snapshot_loc, region. rewrite <- (app_assoc wd).
  intros Hw. apply within_spec in Hw as [q' E]. rewrite <- app_assoc in E.
  apply app_inv_head in E.
  destruct cs as [|a [|b [|c [|]]]]; try done.
  destruct s; simpl in E; injection E; intros; by subst.
Qed.

Lemma snapshot_not_scaffold wd s q : ¬ scaffold wd (snapshot_loc wd s ++ q).
Proof.
  unfold scaffold, snapshot_loc, icvcs_loc, commits_loc, versions_loc.
  rewrite <- (app_assoc wd).
  intros [E|[E|E]]; apply app_inv_head in E; destruct s; done.
Qed.

Lemma snapshot_not_doc wd s q name :
  name ≠ "versions" → name ≠ "commits" →
  snapshot_loc wd s ++ q ≠ wd ++ [".icvcs"; name].
Proof.
  intros H1 H2. unfold snapshot_loc. rewrite <- (app_assoc wd).
  intros E%app_inv_head. destruct s; simpl in E; congruence.
Qed.

Lemma keeps_bind s {A B} (m : M A) (f : A → M B) :
  keeps s m → (∀ a, keeps s (f a)) → keeps s (m ≫= f).
Proof.
  intros Hm Hf w r w' HS [(a & w1 & E1 & E2)|(e & E1 & ->)]%bind_inv.
  - destruct (Hm _ _ _ HS E1) as [C1 D1].
    assert (disk w1 !! snapshot_loc (cwd w1) s = Some Dir) as HS1.
    { rewrite C1. specialize (D1 []). rewrite app_nil_r in D1. by rewrite D1. }
    destruct (Hf a _ _ _ HS1 E2) as [C2 D2]. split; [congruence|].
    intros q. rewrite <- D1, <- C1. apply D2.
  - apply (Hm _ _ _ HS E1).
Qed.

Lemma keeps_of_cw s (R : path → path → Prop) {A} (m : M A) :
  (∀ wd q, ¬ R wd (snapshot_loc wd s ++ q)) → changes_within R m → keeps s m.
Proof.
  intros HR Hm w r w' _ E. destruct (Hm _ _ _ E) as [C D]. split; [done|].
  intros q. destruct (D (snapshot_loc (cwd w) s ++ q)) as [|[HRk|[Hs _]]];
    [done|by apply HR in HRk|by apply snapshot_not_scaffold in Hs].
Qed.

Lemma keeps_reader s {A} (m : M A) :
  changes_within (λ _ _, False) m → keeps s m.
Proof. apply keeps_of_cw. auto. Qed.

(** [os.makedirs] on a directory that exists raises, and what was there
    stays. *)
Lemma makedirs_blocked p cs w r w' :
  plain p cs → is_Some (disk w !! (cwd w ++ cs)) →
  makedirs_at p w = (r, w') →
  (∃ e, r = Raise e) ∧ cwd w' = cwd w ∧
  ∀ q, disk w' !! ((cwd w ++ cs) ++ q) = disk w !! ((cwd w ++ cs) ++ q).
Proof.
  intros Hp [n Hn] E.
  destruct (makedirs_at_plain p cs w r w' Hp E) as (C & Dk & O).
  split; [|split; [done|]].
  - destruct r as [l|e]; [|eauto]. destruct (O l eq_refl) as (-> & N & _).
    congruence.
  - intros q. destruct (Dk ((cwd w ++ cs) ++ q)) as [|(N & _ & i & Hi & E')];
      [done|].
    rewrite <- app_assoc in E'. apply app_inv_head in E'.
    assert (q = []) as ->.
    { apply (f_equal List.length) in E'. rewrite length_app, length_take in E'.
      destruct q; [done|]. simpl in E'. lia. }
    rewrite app_nil_r in N. congruence.
Qed.

Lemma keeps_makedirs_blocked s p {B} (f : unit → M B) :
  plain p (snapshot_cs s) → keeps s (os_makedirs p ≫= f).
Proof.
  intros Hp w r w' HS. unfold os_makedirs. rewrite !bind_run.
  destruct (makedirs_at p w) as [r1 w1] eqn:E.
  destruct (makedirs_blocked p _ w r1 w1 Hp ltac:(by eexists) E)
    as ([e ->] & C & D).
  intros [= <- <-]. done.
Qed.

Lemma keeps_version_same cmd name force now a d :
  proper_name name → cmd ≠ "delete" → (cmd = "create" → force = false) →
  keeps (SVersion name) (version cmd name force now a d).
Proof.
  intros Hn Hd Hf. unfold version.
  apply keeps_bind; [apply keeps_reader, cw_load_repo_data|]. intros rd.
  apply keeps_bind; [apply keeps_reader, cw_load_config|]. intros cfg.
  unfold version_with.
  destruct (decide (cmd = "create")) as [Hc|Hc];
    [|destruct (decide (cmd = "delete")); [done|]].
  - rewrite (Hf Hc). destruct (decide (name = ""));
      [apply keeps_reader; cw_step|].
    apply keeps_bind; [apply keeps_reader; cw_step|]. intros e.
    apply keeps_bind; [apply keeps_reader; destruct e; simpl; repeat cw_step|].
    intros [rd'|]; [|apply keeps_reader; cw_step].
    apply keeps_makedirs_blocked. by apply plain_version_dir.
  - apply keeps_reader. repeat cw_step.
Qed.

Lemma keeps_commit_same now stamp m a :
  keeps (SCommit (strftime_YmdHMS now)) (commit now stamp m a).
Proof.
  unfold commit.
  apply keeps_bind; [apply keeps_reader, cw_load_repo_data|]. intros rd.
  apply keeps_bind; [apply keeps_reader, cw_load_config|]. intros cfg.
  unfold commit_with. apply keeps_makedirs_blocked.
  apply plain_commit_dir, strftime_proper.
Qed.

Lemma snapshot_within_icvcs wd s q :
  within (icvcs_loc wd) (snapshot_loc wd s ++ q) = true.
Proof.
  apply within_spec. unfold icvcs_loc, snapshot_loc.
  destruct s; simpl; eexists; rewrite <- !app_assoc; simpl; done.
Qed.

Lemma benign_keeps s c w r w' :
  snapshot_ok s → benign (cwd w) s c →
  disk w !! snapshot_loc (cwd w) s = Some Dir →
  run_command c w = (r, w') →
  cwd w' = cwd w ∧
  ∀ q, disk w' !! (snapshot_loc (cwd w) s ++ q) =
       disk w !! (snapshot_loc (cwd w) s ++ q).
Proof.
  intros Hs Hb.
  destruct c as [p wf|p|cmd name force now a d|now stamp m a|id|id| | | |loc n];
    simpl in *.
  - apply (keeps_of_cw s (λ wd k, k = index_loc wd));
      [|by apply cw_add].
    intros wd' q. by apply snapshot_not_doc.
  - apply (keeps_of_cw s (λ wd k, k = index_loc wd));
      [|by apply cw_remove].
    intros wd' q. by apply snapshot_not_doc.
  - destruct Hb as [Hn Hsame].
    destruct (decide (s = SVersion name)) as [->|Hne].
    + destruct (Hsame eq_refl). by apply keeps_version_same.
    + apply (keeps_of_cw s (version_region name));
        [|by apply cw_version].
      intros wd' q [Hr|Hi].
      * apply region_snapshot in Hr; [|done]. destruct s; simpl in Hr; congruence.
      * by apply snapshot_not_doc in Hi.
  - destruct (decide (s = SCommit (strftime_YmdHMS now))) as [->|Hne].
    + apply keeps_commit_same.
    + apply (keeps_of_cw s (commit_region (strftime_YmdHMS now))).
      * intros wd' q [Hr|Hi].
        -- apply region_snapshot in Hr; [|done].
           destruct s; simpl in Hr; congruence.
        -- by apply snapshot_not_doc in Hi.
      * unfold commit. cw_step; [apply cw_load_repo_data|].
        cw_step; [apply cw_load_config|].
        apply cw_commit_with, strftime_proper.
  - destruct Hb as [Hn Hne].
    apply (keeps_of_cw s (region [".icvcs"; "commits"; id]));
      [|by apply cw_remove_commit].
    intros wd' q Hr. apply region_snapshot in Hr; [|done].
    destruct s; simpl in Hr; congruence.
  - apply (keeps_of_cw s (region [".icvcs"; "commits"; "latest"]));
      [|by apply cw_push].
    intros wd' q Hr. apply region_snapshot in Hr; [|done].
    destruct s; simpl in Hr, Hs; [congruence|]. destruct Hs. congruence.
  - apply (keeps_of_cw s clear_region); [|apply cw_clear_commits].
    intros wd' q (c & Hc & Hl & Hw). unfold commits_loc in Hw.
    assert (region [".icvcs"; "commits"; c] wd' (snapshot_loc wd' s ++ q)) as Hr.
    { unfold region. by rewrite <- app_assoc in Hw. }
    apply region_snapshot in Hr; [|done].
    destruct s; simpl in Hr; [congruence|]. injection Hr as <-. by apply (Hb c).
  - apply keeps_reader. cw_step; [apply cw_status|cw_step].
  - apply keeps_reader, cw_list_commit_history.
  - intros _ [= <- <-]. simpl. split; [done|]. intros q.
    assert (snapshot_loc (cwd w) s ++ q ≠ loc) as Hne.
    { intros <-. by rewrite snapshot_within_icvcs in Hb. }
    destruct n; [by rewrite lookup_insert_ne|by rewrite lookup_delete_ne].
Qed.

(** ** C1: snapshot isolation *)

Lemma run_all_cons c cs w :
  run_all (c :: cs) w = run_all cs (run_command c w).2.
Proof. reflexivity. Qed.

(** C1, as stated, fails: a version name is joined into a path, so
    [version create v1/x] stores the new version inside the tree of the
    version [v1], which is neither deleted nor overwritten with force. Here
    [v1] gains the entry [x/a.txt]. *)
Lemma snapshot_isolation_counterexample :
  disk with_v1 !! snapshot_loc (cwd with_v1) (SVersion "v1") = Some Dir ∧
  disk with_v1 !! (snapshot_loc (cwd with_v1) (SVersion "v1") ++ ["x"; "a.txt"])
    = None ∧
  disk (run_all [CVersion "create" "v1/x" false t1 "" ""] with_v1)
    !! (snapshot_loc (cwd with_v1) (SVersion "v1") ++ ["x"; "a.txt"])
    = Some (File (Bytes "hello")).
Proof. vm_compute. done. Qed.

(** C1, amended: once the directory of a commit or version snapshot is
    there, its stored tree stays the same, location by location, through
    every sequence of commands whose version names and commit identifiers
    are single path components, whose edits of the working tree stay out
    of [.icvcs], and which does not delete that version, overwrite it with
    force, remove that commit or clear the commits. A second [commit] in
    the same second, or [version create] of the same name without force,
    fails and leaves the tree as it is. *)
Theorem snapshot_isolation (s : snapshot) (cs : list command) (w : world) :
  snapshot_ok s →
  disk w !! snapshot_loc (cwd w) s = Some Dir →
  Forall (benign (cwd w) s) cs →
  cwd (run_all cs w) = cwd w ∧
  ∀ q, disk (run_all cs w) !! (snapshot_loc (cwd w) s ++ q) =
       disk w !! (snapshot_loc (cwd w) s ++ q).
Proof.
  intros Hs. revert w. induction cs as [|c cs IH]; intros w HS Hb; [done|].
  apply Forall_cons in Hb as [Hc Hcs]. rewrite run_all_cons.
  destruct (run_command c w) as [r w1] eqn:E. simpl.
  destruct (benign_keeps s c w r w1 Hs Hc HS E) as [C1 D1].
  destruct (IH w1) as [C2 D2].
  - rewrite C1. specialize (D1 []). rewrite app_nil_r in D1. by rewrite D1.
  - by rewrite C1.
  - split; [congruence|]. intros q. rewrite <- D1, <- C1. apply D2.
Qed.

(** The commit of [t0] through a session that edits and deletes the source
    file, changes the index, commits again (once in the same second),
    pushes, and makes and deletes another version. *)
Lemma snapshot_isolation_witness :
  disk (run_all [CEdit ["w"; "a.txt"] (Some (File (Bytes "world")));
                 CCommit t0_later t0_later "" "";
                 CCommit t1 t1 "second" "";
                 CPush None;
                 CRemove "a.txt";
                 CEdit ["w"; "a.txt"] None;
                 CVersion "create" "v2" true t1 "" "";
                 CVersion "delete" "v2" false t1 "" "";
                 CAdd "sub" true;
                 CRemoveCommit "20240102030406"] with_v1)
    !! (snapshot_loc (cwd with_v1) (SCommit "20240102030405") ++ ["a.txt"])
  = Some (File (Bytes "hello")).
Proof.
  etransitivity;
    [apply (snapshot_isolation (SCommit "20240102030405"))|by vm_compute].
  - split; [proper_const|done].
  - by vm_compute.
  - repeat constructor; try proper_const; try done.
Defined.

(** ** C8: the journal only grows *)

Lemma frame_of_cw (R : path → path → Prop) {A} (m : M A) w r w' k :
  changes_within R m → m w = (r, w') →
  ¬ R (cwd w) k → ¬ scaffold (cwd w) k → disk w' !! k = disk w !! k.
Proof.
  intros Hm E HR Hs. destruct (Hm _ _ _ E) as [_ D].
  destruct (D k) as [|[|[? _]]]; done.
Qed.

Lemma journal_file_inv w h :
  journal_file w = Some h →
  disk w !! cwd w = Some Dir ∧ disk w !! icvcs_loc (cwd w) = Some Dir ∧
  disk w !! journal_loc (cwd w) = Some (File (HistoryDoc h)).
Proof.
  unfold journal_file, node_of.
  destruct (resolve _ _ _) as [e|l] eqn:E; [done|].
  apply (resolve_plain _ _ _ _ _ plain_journal) in E as [-> Hd].
  simpl in Hd. unfold icvcs_loc, journal_loc.
  destruct (disk w !! cwd w) as [[|]|]; try done.
  destruct (disk w !! (cwd w ++ [".icvcs"])) as [[|]|]; try done.
  destruct (disk w !! (cwd w ++ _)) as [[[]|]|]; try done. by intros [= ->].
Qed.

Lemma journal_file_intro w h :
  disk w !! cwd w = Some Dir → disk w !! icvcs_loc (cwd w) = Some Dir →
  disk w !! journal_loc (cwd w) = Some (File (HistoryDoc h)) →
  journal_file w = Some h.
Proof.
  intros H1 H2 H3. unfold journal_file, node_of.
  rewrite (resolve_plain_ok _ _ _ _ plain_journal).
  - unfold journal_loc in H3. by rewrite H3.
  - simpl. unfold icvcs_loc in H2. by rewrite H1, H2.
Qed.

Lemma journal_file_history w h :
  journal_file w = Some h → history w = (Ok h, w).
Proof.
  intros Hj. unfold history. run_prim. unfold path_exists.
  unfold journal_file in Hj.
  destruct (node_of _ _ _) as [[[]|]|] eqn:E; try done.
  injection Hj as ->. simpl. unfold read_file. run_prim.
  unfold node_of in E. destruct (resolve _ _ _) as [e|l]; [done|]. simpl.
  by rewrite E.
Qed.

(** A command that writes neither the working directory itself, nor
    [.icvcs], nor the journal file leaves the journal as it was. *)
Lemma journal_kept (R : path → path → Prop) {A} (m : M A) w r w' h :
  changes_within R m →
  (∀ wd, ¬ R wd wd ∧ ¬ R wd (icvcs_loc wd) ∧ ¬ R wd (journal_loc wd)) →
  m w = (r, w') → journal_file w = Some h →
  cwd w' = cwd w ∧ journal_file w' = Some h.
Proof.
  intros Hm HR E Hj. destruct (journal_file_inv _ _ Hj) as (H1 & H2 & H3).
  destruct (Hm _ _ _ E) as [C D]. destruct (HR (cwd w)) as (R1 & R2 & R3).
  split; [done|]. apply journal_file_intro; rewrite C.
  - destruct (D (cwd w)) as [->|[?|[Hs _]]]; [done|done|].
    unfold scaffold, icvcs_loc, commits_loc, versions_loc in Hs.
    destruct Hs as [Hs|[Hs|Hs]];
      apply (f_equal List.length) in Hs; rewrite length_app in Hs;
      simpl in Hs; lia.
  - destruct (D (icvcs_loc (cwd w))) as [->|[?|(_ & N & _)]];
      [done|done|congruence].
  - destruct (D (journal_loc (cwd w))) as [->|[?|(_ & N & _)]];
      [done|done|congruence].
Qed.

Lemma region_not_top cs wd : cs ≠ [] → ¬ region cs wd wd.
Proof.
  intros Hne [q E]%within_spec. rewrite <- app_assoc in E.
  rewrite <- (app_nil_r wd) in E at 1. apply app_inv_head in E.
  by destruct cs.
Qed.

Lemma region_not_short cs wd c :
  (2 ≤ List.length cs)%nat → ¬ region cs wd (wd ++ [c]).
Proof.
  intros Hl [q E]%within_spec. rewrite <- app_assoc in E.
  apply app_inv_head in E. apply (f_equal List.length) in E.
  rewrite length_app in E. simpl in E. lia.
Qed.

Lemma region_not_doc X y wd name :
  name ≠ X → ¬ region [".icvcs"; X; y] wd (wd ++ [".icvcs"; name]).
Proof.
  intros Hne [q E]%within_spec. rewrite <- app_assoc in E.
  apply app_inv_head in E. simpl in E. congruence.
Qed.

Lemma storage_region_spares X y wd :
  X = "commits" ∨ X = "versions" →
  ¬ region [".icvcs"; X; y] wd wd ∧
  ¬ region [".icvcs"; X; y] wd (icvcs_loc wd) ∧
  ¬ region [".icvcs"; X; y] wd (journal_loc wd) ∧
  ¬ region [".icvcs"; X; y] wd (index_loc wd).
Proof.
  intros HX. split; [by apply region_not_top|].
  split; [apply region_not_short; simpl; lia|].
  split; apply region_not_doc; destruct HX as [-> | ->]; done.
Qed.

Lemma docs_differ wd :
  wd ≠ index_loc wd ∧ icvcs_loc wd ≠ index_loc wd ∧
  journal_loc wd ≠ index_loc wd ∧ wd ≠ journal_loc wd ∧
  icvcs_loc wd ≠ journal_loc wd.
Proof.
  unfold index_loc, icvcs_loc, journal_loc.
  repeat split; intros E;
    try (apply app_inv_head in E; done);
    apply (f_equal List.length) in E; rewrite length_app in E; simpl in E; lia.
Qed.

(** What [commit] does to the journal: it appends one record, or (when it
    fails on the way) nothing. *)
Lemma commit_journal now stamp m a w r w' h :
  commit now stamp m a w = (r, w') → journal_file w = Some h →
  cwd w' = cwd w ∧
  ∃ h', journal_file w' = Some h' ∧ (h' = h ∨ ∃ e, h' = h ++ [e]).
Proof.
  unfold commit. intros E Hj.
  apply bind_inv in E as [(rd & w1 & E1 & E)|(e & E1 & ->)]; cycle 1.
  { destruct (journal_kept (λ _ _, False) _ _ _ _ h
                (cw_load_repo_data _) ltac:(auto) E1 Hj); eauto. }
  destruct (journal_kept (λ _ _, False) _ _ _ _ h
              (cw_load_repo_data _) ltac:(auto) E1 Hj) as [C1 Hj1].
  apply bind_inv in E as [(cfg & w2 & E2 & E)|(e & E2 & ->)]; cycle 1.
  { destruct (journal_kept (λ _ _, False) _ _ _ _ h
                (cw_load_config _) ltac:(auto) E2 Hj1) as [C2 Hj2].
    split; [congruence|eauto]. }
  destruct (journal_kept (λ _ _, False) _ _ _ _ h
              (cw_load_config _) ltac:(auto) E2 Hj1) as [C2 Hj2].
  rewrite <- C1, <- C2. clear E1 E2 C1 C2 Hj Hj1 w w1. revert E.
  pose proof (strftime_proper now) as Hn.
  pose proof (plain_commit_dir _ Hn) as Hp.
  set (id := strftime_YmdHMS now) in *.
  assert (∀ {A} (m0 : M A) w r w',
            changes_within (region [".icvcs"; "commits"; id]) m0 →
            m0 w = (r, w') → journal_file w = Some h →
            cwd w' = cwd w ∧ journal_file w' = Some h) as Hkeep.
  { intros A m0 w r0 w0 Hm. apply (journal_kept _ _ _ _ _ _ Hm).
    intros wd.
    destruct (storage_region_spares "commits" id wd) as (? & ? & ? & _);
      auto. }
  unfold commit_with. fold id. intros E.
  apply bind_inv in E as [(u1 & w3 & E3 & E)|(e & E3 & ->)]; cycle 1.
  { destruct (Hkeep _ _ _ _ _ (cw_makedirs_storage _ _ _ Hp ltac:(auto)) E3 Hj2).
    eauto. }
  destruct (Hkeep _ _ _ _ _ (cw_makedirs_storage _ _ _ Hp ltac:(auto)) E3 Hj2)
    as [C3 Hj3].
  apply bind_inv in E as [(u2 & w4 & E4 & E)|(e & E4 & ->)]; cycle 1.
  { destruct (Hkeep _ _ _ _ _ (cw_copy_tracked_files _ _ _ _ Hp) E4 Hj3).
    split; [congruence|eauto]. }
  destruct (Hkeep _ _ _ _ _ (cw_copy_tracked_files _ _ _ _ Hp) E4 Hj3)
    as [C4 Hj4].
  apply bind_inv in E as [(u3 & w5 & E5 & E)|(e & E5 & ->)]; cycle 1.
  { destruct (Hkeep _ _ _ _ _
                (cw_copy_tracked_directories _ _ _ _ _ Hp ltac:(auto)) E5 Hj4).
    split; [congruence|eauto]. }
  destruct (Hkeep _ _ _ _ _
              (cw_copy_tracked_directories _ _ _ _ _ Hp ltac:(auto)) E5 Hj4)
    as [C5 Hj5].
  assert (changes_within (region [".icvcs"; "commits"; id])
            (write_file (os_path_join (os_path_join COMMITS_DIR id)
                                      "metadata.json")
               (CommitMetaDoc
                  (CommitMeta id (isoformat stamp)
                     (or_default m (default_commit_message cfg))
                     (or_default a (default_author cfg)))))) as Hmeta.
  { apply cw_write_file. intros fs wd l Hl.
    apply (resolve_plain _ _ _ ([".icvcs"; "commits"; id] ++ ["metadata.json"]))
      in Hl as [-> _]; [|apply plain_join; [done|proper_const]].
    left. unfold region. rewrite app_assoc. apply within_app. }
  apply bind_inv in E as [(u4 & w6 & E6 & E)|(e & E6 & ->)]; cycle 1.
  { destruct (Hkeep _ _ _ _ _ Hmeta E6 Hj5). split; [congruence|eauto]. }
  destruct (Hkeep _ _ _ _ _ Hmeta E6 Hj5) as [C6 Hj6].
  assert (cwd w6 = cwd w2) as C by congruence.
  rewrite <- C. clear -E Hj6.
  destruct (journal_file_inv _ _ Hj6) as (H1 & H2 & H3).
  assert (resolve (disk w6) (cwd w6)
            (os_path_join ICVCS_DIR "commit_history.json")
          = inr (journal_loc (cwd w6))) as Hres.
  { apply (resolve_plain_ok _ _ _ _ plain_journal). simpl.
    unfold icvcs_loc in H2. by rewrite H1, H2. }
  revert E. unfold read_file, write_file. run_prim. rewrite Hres. simpl.
  rewrite H3. rewrite Hres. simpl. rewrite H3.
  intros [= <- <-]. simpl. split; [done|]. eexists. split; [|eauto].
  destruct (docs_differ (cwd w6)) as (_ & _ & _ & D4 & D5).
  apply journal_file_intro; simpl.
  - rewrite lookup_insert_ne; [done|congruence].
  - rewrite lookup_insert_ne; [done|congruence].
  - by rewrite lookup_insert_eq.
Qed.

Lemma clear_region_spares wd :
  ¬ clear_region wd wd ∧ ¬ clear_region wd (icvcs_loc wd) ∧
  ¬ clear_region wd (journal_loc wd).
Proof.
  assert (∀ k, clear_region wd k →
               ∃ c, region [".icvcs"; "commits"; c] wd k) as Hr.
  { intros k (c & _ & _ & Hw). exists c. unfold region, commits_loc in *.
    by rewrite <- app_assoc in Hw. }
  repeat split; intros [c Hc]%Hr;
    by destruct (storage_region_spares "commits" c wd) as (? & ? & ? & ?);
      [auto|].
Qed.

Lemma latest_not_region id wd q :
  id ≠ "latest" →
  ¬ region [".icvcs"; "commits"; id] wd (latest_loc wd ++ q).
Proof.
  intros Hne Hr.
  apply (region_snapshot _ wd (SCommit "latest") q) in Hr; [|done].
  simpl in Hr. congruence.
Qed.

Lemma latest_not_scaffold wd q : ¬ scaffold wd (latest_loc wd ++ q).
Proof. apply (snapshot_not_scaffold wd (SCommit "latest")). Qed.

Lemma tool_step c w r w' h :
  tool_command c → run_command c w = (r, w') → journal_file w = Some h →
  cwd w' = cwd w ∧
  ∃ h', journal_file w' = Some h' ∧ (h' = h ∨ ∃ e, h' = h ++ [e]) ∧
        (discards c →
         h' = h ∧ ∀ q, disk w' !! (latest_loc (cwd w) ++ q) =
                       disk w !! (latest_loc (cwd w) ++ q)).
Proof.
  intros Hc E Hj.
  assert (∀ (R : path → path → Prop),
            changes_within R (run_command c) →
            (∀ wd, ¬ R wd wd ∧ ¬ R wd (icvcs_loc wd) ∧ ¬ R wd (journal_loc wd)) →
            (discards c → ∀ wd q, ¬ R wd (latest_loc wd ++ q)) →
            cwd w' = cwd w ∧
            ∃ h', journal_file w' = Some h' ∧ (h' = h ∨ ∃ e, h' = h ++ [e]) ∧
                  (discards c →
                   h' = h ∧ ∀ q, disk w' !! (latest_loc (cwd w) ++ q) =
                                 disk w !! (latest_loc (cwd w) ++ q))) as Hgen.
  { intros R Hm HR Hl. destruct (journal_kept R _ _ _ _ h Hm HR E Hj) as [C Hj'].
    split; [done|]. exists h. split; [done|]. split; [auto|].
    intros Hd. split; [done|]. intros q.
    apply (frame_of_cw R _ _ _ _ _ Hm E); [by apply Hl|].
    apply latest_not_scaffold. }
  destruct c as [p wf|p|cmd name force now a d|now stamp m a|id|id| | | |loc n];
    simpl in *; try done.
  - apply (Hgen (λ wd k, k = index_loc wd)); [by apply cw_add| |done].
    intros wd. destruct (docs_differ wd) as (? & ? & ? & _). auto.
  - apply (Hgen (λ wd k, k = index_loc wd)); [by apply cw_remove| |done].
    intros wd. destruct (docs_differ wd) as (? & ? & ? & _). auto.
  - apply (Hgen (version_region name)); [by apply cw_version| |done].
    intros wd. destruct (docs_differ wd) as (? & ? & ? & _).
    destruct (storage_region_spares "versions" name wd) as (? & ? & ? & ?);
      [auto|].
    unfold version_region. tauto.
  - destruct (commit_journal _ _ _ _ _ _ _ _ E Hj) as [C (h' & Hj' & Hh)].
    split; [done|]. exists h'. done.
  - apply (Hgen (region [".icvcs"; "commits"; id])); [by apply cw_remove_commit| |].
    + intros wd.
      destruct (storage_region_spares "commits" id wd) as (? & ? & ? & ?); auto.
    + intros Hne wd q. by apply latest_not_region.
  - apply (Hgen (region [".icvcs"; "commits"; "latest"])); [by apply cw_push| |done].
    intros wd.
    destruct (storage_region_spares "commits" "latest" wd) as (? & ? & ? & ?); auto.
  - apply (Hgen clear_region); [apply cw_clear_commits| |].
    + apply clear_region_spares.
    + intros _ wd q (c & _ & Hne & Hw). apply (latest_not_region c wd q Hne).
      unfold region, commits_loc in *. by rewrite <- app_assoc in Hw.
  - apply (Hgen (λ _ _, False)); [|auto|auto].
    cw_step; [apply cw_status|cw_step].
  - apply (Hgen (λ _ _, False)); [apply cw_list_commit_history|auto|auto].
Qed.

(** C8, as stated, fails: [commit remove latest] removes the Latest
    Pointer; [remove_commit] has no guard for the reserved name, which
    [clear_commits] has. *)
Lemma journal_monotone_counterexample :
  disk pushed !! (latest_loc (cwd pushed) ++ ["a.txt"])
    = Some (File (Bytes "hello")) ∧
  disk (run_all [CRemoveCommit "latest"] pushed)
    !! (latest_loc (cwd pushed) ++ ["a.txt"]) = None ∧
  disk (run_all [CRemoveCommit "latest"] pushed) !! latest_loc (cwd pushed)
    = None.
Proof. vm_compute. done. Qed.

(** C8, amended: in a repository whose journal file is there, the journal
    after any sequence of the tool's commands, given version names and
    commit identifiers that are single path components, starts with the
    journal before: [history()] never loses an entry. A sequence made of
    [clear_commits] and of [remove_commit] of identifiers other than
    [latest] leaves every journal entry and the whole Latest Pointer as
    they were. *)
Theorem journal_monotone (cs : list command) (w : world)
    (h : list commit_meta) :
  Forall tool_command cs → journal_file w = Some h →
  ∃ h', history (run_all cs w) = (Ok h', run_all cs w) ∧
        h `prefix_of` h' ∧ (List.length h ≤ List.length h')%nat ∧
        (Forall discards cs →
         h' = h ∧ ∀ q, disk (run_all cs w) !! (latest_loc (cwd w) ++ q) =
                       disk w !! (latest_loc (cwd w) ++ q)).
Proof.
  intros Hcs Hj.
  assert (cwd (run_all cs w) = cwd w ∧
          ∃ h', journal_file (run_all cs w) = Some h' ∧ h `prefix_of` h' ∧
                (Forall discards cs →
                 h' = h ∧ ∀ q, disk (run_all cs w) !! (latest_loc (cwd w) ++ q) =
                               disk w !! (latest_loc (cwd w) ++ q))) as H.
  { revert w h Hj. induction Hcs as [|c cs Hc Hcs IH]; intros w h Hj.
    - split; [done|]. exists h. done.
    - rewrite run_all_cons. destruct (run_command c w) as [r w1] eqn:E. simpl.
      destruct (tool_step c w r w1 h Hc E Hj) as [C1 (h1 & Hj1 & Hh1 & Hd1)].
      destruct (IH w1 h1 Hj1) as [C2 (h2 & Hj2 & Hp2 & Hd2)].
      split; [congruence|]. exists h2. split; [done|]. split.
      + etransitivity; [|done]. destruct Hh1 as [->|[e ->]]; [done|].
        by apply prefix_app_r.
      + intros [Hdc Hdcs]%Forall_cons. destruct (Hd1 Hdc) as [-> Hl1].
        destruct (Hd2 Hdcs) as [-> Hl2]. split; [done|]. intros q.
        rewrite <- Hl1, <- C1. apply Hl2. }
  destruct H as [C (h' & Hj' & Hp & Hd)]. exists h'.
  split; [by apply journal_file_history|]. split; [done|].
  split; [by apply prefix_length|done].
Qed.

(** After one commit: add, commit again, push, make and delete a version,
    remove the first commit, clear. The journal has two entries, and
    still starts with the first. *)
Lemma journal_monotone_witness :
  ∃ h', history (run_all [CAdd "sub" true; CCommit t1 t1 "second" "";
                          CPush None;
                          CVersion "create" "v2" false t1 "" "";
                          CVersion "delete" "v2" false t1 "" "";
                          CRemoveCommit "20240102030405"; CClear] committed)
        = (Ok h', run_all [CAdd "sub" true; CCommit t1 t1 "second" "";
                           CPush None;
                           CVersion "create" "v2" false t1 "" "";
                           CVersion "delete" "v2" false t1 "" "";
                           CRemoveCommit "20240102030405"; CClear] committed) ∧
        [CommitMeta "20240102030405" "2024-01-02T03:04:05" "first" "me"]
          `prefix_of` h'.
Proof.
  destruct (journal_monotone
              [CAdd "sub" true; CCommit t1 t1 "second" "";
               CPush None;
               CVersion "create" "v2" false t1 "" "";
               CVersion "delete" "v2" false t1 "" "";
               CRemoveCommit "20240102030405"; CClear] committed
              [CommitMeta "20240102030405" "2024-01-02T03:04:05" "first" "me"])
    as (h' & H1 & H2 & _).
  - repeat constructor; try proper_const; try done.
  - by vm_compute.
  - exists h'. exact (conj H1 H2).
Defined.

(** ** The index document *)

Lemma index_file_inv w rd :
  index_file w = Some rd →
  resolve (disk w) (cwd w) (os_path_join ICVCS_DIR "repo_data.json")
    = inr (index_loc (cwd w)) ∧
  disk w !! index_loc (cwd w) = Some (File (IndexDoc rd)).
Proof.
  unfold index_file, node_of.
  destruct (resolve _ _ _) as [e|l] eqn:E; [done|].
  apply (resolve_plain _ _ _ _ _ plain_index) in E as [-> Hd].
  unfold index_loc. destruct (disk w !! (cwd w ++ _)) as [[[]|]|]; try done.
  by intros [= ->].
Qed.

Lemma load_repo_data_spec w :
  match index_file w with
  | Some rd => load_repo_data w = (Ok rd, w)
  | None => ∃ e w', load_repo_data w = (Raise e, w') ∧
                    disk w' = disk w ∧ cwd w' = cwd w ∧ writes w' = writes w
  end.
Proof.
  unfold load_repo_data, index_file, read_file. run_prim. unfold path_exists.
  unfold node_of. destruct (resolve _ _ _) as [e|l] eqn:E; simpl.
  { do 2 eexists. split; [reflexivity|done]. }
  destruct (disk w !! l) as [[[]|]|] eqn:El; simpl; rewrite ?E; simpl;
    rewrite ?El; simpl; try done; do 2 eexists; (split; [reflexivity|done]).
Qed.

Lemma save_repo_data_spec w rd0 rd :
  index_file w = Some rd0 →
  save_repo_data rd w =
    (Ok (), World (<[index_loc (cwd w) := File (IndexDoc rd)]> (disk w)) (cwd w)
                  (stdout w ++ ["Repository data updated successfully."])
                  (writes w ++ [index_loc (cwd w)])).
Proof.
  intros [Hr Hl]%index_file_inv. unfold save_repo_data, write_file. run_prim.
  by rewrite Hr, Hl.
Qed.

Lemma index_file_after_save w rd0 rd :
  index_file w = Some rd0 →
  index_file (save_repo_data rd w).2 = Some rd.
Proof.
  intros Hi. rewrite (save_repo_data_spec w rd0 rd Hi). simpl.
  destruct (index_file_inv _ _ Hi) as [Hr Hl].
  unfold index_file, node_of. simpl.
  apply (resolve_plain _ _ _ _ _ plain_index) in Hr as [_ Hd].
  rewrite (resolve_plain_ok _ _ _ _ plain_index).
  - unfold index_loc. by rewrite lookup_insert_eq.
  - simpl in *. destruct (disk w !! cwd w) as [[|]|] eqn:E1; try done.
    destruct (disk w !! (cwd w ++ [".icvcs"])) as [[|]|] eqn:E2; try done.
    rewrite !lookup_insert_ne, E1, E2; [done|..]; unfold index_loc.
    + intros E. by apply app_inv_head in E.
    + intros E. apply (f_equal List.length) in E. rewrite length_app in E.
      simpl in E. lia.
Qed.

Lemma save_repo_data_result w rd0 rd :
  index_file w = Some rd0 →
  (save_repo_data rd w).1 = Ok () ∧
  index_file (save_repo_data rd w).2 = Some rd ∧
  ∀ k, k ≠ index_loc (cwd w) → disk (save_repo_data rd w).2 !! k = disk w !! k.
Proof.
  intros Hi. split; [by rewrite (save_repo_data_spec w rd0 rd Hi)|].
  split; [by apply (index_file_after_save w rd0)|].
  intros k Hk. rewrite (save_repo_data_spec w rd0 rd Hi). simpl.
  by rewrite lookup_insert_ne.
Qed.

Lemma print_run s w :
  print s w = (Ok (), World (disk w) (cwd w) (stdout w ++ [s]) (writes w)).
Proof. reflexivity. Qed.

Lemma list_remove_elem x xs : x ∈ xs → is_Some (list_remove x xs).
Proof.
  induction xs as [|y ys IH]; [by intros ?%elem_of_nil|]. simpl.
  destruct (decide (x = y)); [eauto|].
  intros [?|Hin]%elem_of_cons; [done|]. destruct (IH Hin) as [l ->]. eauto.
Qed.

Lemma list_remove_NoDup x xs ys :
  list_remove x xs = Some ys → NoDup xs → x ∉ ys.
Proof.
  revert ys. induction xs as [|y xs IH]; intros ys; simpl; [done|].
  destruct (decide (x = y)) as [->|Hne].
  - intros [= ->] [? _]%NoDup_cons. done.
  - destruct (list_remove x xs) as [l|] eqn:E; [|done].
    intros [= <-] [_ Hnd]%NoDup_cons. rewrite elem_of_cons.
    intros [?|?]; [done|]. by eapply IH.
Qed.

Lemma dict_del_NoDup {V} (d : list (string * V)) k :
  NoDup (dict_keys d) → k ∉ dict_keys (dict_del d k).
Proof.
  unfold dict_keys. induction d as [|[k' v] d IH]; simpl.
  - intros _. apply not_elem_of_nil.
  - intros [Hk Hnd]%NoDup_cons. destruct (decide (k = k')) as [->|Hne]; [done|].
    simpl. rewrite elem_of_cons. intros [?|?]; [done|]. by apply IH.
Qed.

(** ** C7: what [remove] removes *)

(** C7: [remove] asks the disk what [path] is before it looks at the
    index, so a tracked path that is gone from the working tree falls to
    the last branch. Here [a.txt] is tracked and has been deleted;
    [remove a.txt] returns normally, prints that the path does not exist
    in the repository, and writes the index back with [a.txt] still
    tracked. *)
Lemma remove_keeps_deleted_file :
  index_file a_deleted = Some (RepoData "demo" ["a.txt"] [] []) ∧
  path_exists (disk a_deleted) (cwd a_deleted) "a.txt" = false ∧
  (remove "a.txt" a_deleted).1 = Ok () ∧
  index_file (remove "a.txt" a_deleted).2
    = Some (RepoData "demo" ["a.txt"] [] []) ∧
  stdout (remove "a.txt" (World (disk a_deleted) (cwd a_deleted) [] [])).2
    = ["Path 'a.txt' does not exist in the repository.";
       "Repository data updated successfully."].
Proof. vm_compute. done. Qed.

(** What [remove(path)] does to the tracking lists when the index loads:
    it returns normally and writes the index back. [path] leaves the
    tracked files when it is one of them and is a regular file on disk,
    and leaves the tracked directories when it is a key of them and is a
    directory on disk; in the other cases the index is written back as
    it was loaded. Nothing else on the disk changes. *)
Theorem remove_follows_disk (path : string) (w : world) (rd : repo_data) :
  index_file w = Some rd →
  ∃ rd', (remove path w).1 = Ok () ∧
    index_file (remove path w).2 = Some rd' ∧
    (∀ k, k ≠ index_loc (cwd w) →
          disk (remove path w).2 !! k = disk w !! k) ∧
    (path_isfile (disk w) (cwd w) path = true → path ∈ files rd →
       list_remove path (files rd) = Some (files rd') ∧
       (NoDup (files rd) → path ∉ files rd') ∧
       directories rd' = directories rd) ∧
    (path_isfile (disk w) (cwd w) path = false →
     path_isdir (disk w) (cwd w) path = true →
     path ∈ dict_keys (directories rd) →
       directories rd' = dict_del (directories rd) path ∧
       (NoDup (dict_keys (directories rd)) →
        path ∉ dict_keys (directories rd')) ∧
       files rd' = files rd) ∧
    ((path_isfile (disk w) (cwd w) path = true ∧ path ∉ files rd) ∨
     (path_isfile (disk w) (cwd w) path = false ∧
      path_isdir (disk w) (cwd w) path = true ∧
      path ∉ dict_keys (directories rd)) ∨
     (path_isfile (disk w) (cwd w) path = false ∧
      path_isdir (disk w) (cwd w) path = false) →
     rd' = rd).
Proof.
  intros Hi. pose proof (load_repo_data_spec w) as Hload. rewrite Hi in Hload.
  unfold remove. rewrite bind_run, Hload. run_prim.
  destruct (path_isfile (disk w) (cwd w) path) eqn:Ef;
    [destruct (bool_decide (path ∈ files rd)) eqn:Eb
    |destruct (path_isdir (disk w) (cwd w) path) eqn:Ed;
      [destruct (bool_decide (path ∈ dict_keys (directories rd))) eqn:Eb|]];
    try apply bool_decide_eq_true in Eb; try apply bool_decide_eq_false in Eb.
  - destruct (list_remove_elem _ _ Eb) as [fs' Hfs]. rewrite Hfs. simpl.
    match goal with
    | |- context [save_repo_data ?r ?w0] =>
        destruct (save_repo_data_result w0 rd r Hi) as (S1 & S2 & S3)
    end.
    exists (with_files_of rd fs'). split; [done|]. split; [done|].
    split; [done|].
    split; [intros _ _; split; [done|]; split; [|done];
            by apply list_remove_NoDup|].
    split; [done|]. intros [[_ ?]|[[? _]|[? _]]]; done.
  - simpl.
    match goal with
    | |- context [save_repo_data ?r ?w0] =>
        destruct (save_repo_data_result w0 rd r Hi) as (S1 & S2 & S3)
    end.
    exists rd. split; [done|]. split; [done|]. split; [done|].
    split; [done|]. split; [done|]. done.
  - simpl.
    match goal with
    | |- context [save_repo_data ?r ?w0] =>
        destruct (save_repo_data_result w0 rd r Hi) as (S1 & S2 & S3)
    end.
    exists (with_directories rd (dict_del (directories rd) path)).
    split; [done|]. split; [done|]. split; [done|]. split; [done|].
    split; [intros _ _ _; split; [done|]; split; [|done];
            apply dict_del_NoDup|].
    intros [[? _]|[(_ & _ & ?)|[_ ?]]]; done.
  - simpl.
    match goal with
    | |- context [save_repo_data ?r ?w0] =>
        destruct (save_repo_data_result w0 rd r Hi) as (S1 & S2 & S3)
    end.
    exists rd. split; [done|]. split; [done|]. split; [done|].
    split; [done|]. split; [done|]. done.
  - simpl.
    match goal with
    | |- context [save_repo_data ?r ?w0] =>
        destruct (save_repo_data_result w0 rd r Hi) as (S1 & S2 & S3)
    end.
    exists rd. split; [done|]. split; [done|]. split; [done|].
    split; [done|]. split; [done|]. done.
Qed.

(** The path is tracked and is a file: it goes. *)
Lemma remove_follows_disk_witness :
  ∃ rd', (remove "a.txt" tracking_a).1 = Ok () ∧
         index_file (remove "a.txt" tracking_a).2 = Some rd' ∧
         files rd' = [].
Proof.
  destruct (remove_follows_disk "a.txt" tracking_a
              (RepoData "demo" ["a.txt"] [] []))
    as (rd' & H1 & H2 & _ & H4 & _); [by vm_compute|].
  exists rd'. split; [exact H1|]. split; [exact H2|].
  destruct H4 as [H4 _]; [by vm_compute|by constructor|].
  clear -H4. cbn in H4. destruct (decide ("a.txt" = "a.txt")); [|done].
  by injection H4 as <-.
Defined.

(** ** C5: validation failures *)

Lemma quiet_bind {A B} (m : M A) (f : A → M B) :
  quiet m → (∀ a, quiet (f a)) → quiet (m ≫= f).
Proof.
  intros Hm Hf w r w' [(a & w1 & E1 & E2)|(e & E1 & ->)]%bind_inv.
  - destruct (Hm _ _ _ E1) as (D1 & C1 & W1).
    destruct (Hf a _ _ _ E2) as (D2 & C2 & W2). repeat split; congruence.
  - apply (Hm _ _ _ E1).
Qed.

Lemma quiet_ret {A} (a : A) : quiet (mret a).
Proof. by intros w r w' [= <- <-]. Qed.

Lemma quiet_raise {A} e : quiet (raise e : M A).
Proof. by intros w r w' [= <- <-]. Qed.

Lemma quiet_print s : quiet (print s).
Proof. by intros w r w' [= <- <-]. Qed.

Lemma quiet_ask {A} (f : filesystem → path → A) : quiet (ask f).
Proof. by intros w r w' [= <- <-]. Qed.

Lemma quiet_read_file p : quiet (read_file p).
Proof.
  intros w r w'. unfold read_file. run_prim.
  destruct (resolve _ _ _) as [[|]|l]; simpl; try by intros [= <- <-].
  destruct (disk w !! l) as [[|]|]; by intros [= <- <-].
Qed.

Lemma quiet_listdir p : quiet (os_listdir p).
Proof.
  intros w r w'. unfold os_listdir. run_prim.
  destruct (resolve _ _ _) as [[|]|l]; simpl; try by intros [= <- <-].
  destruct (disk w !! l) as [[|]|]; by intros [= <- <-].
Qed.

Lemma os_listdir_world p w r w1 : os_listdir p w = (r, w1) → w1 = w.
Proof.
  unfold os_listdir. run_prim.
  destruct (resolve _ _ _) as [[|]|l]; simpl; try by intros [= <- <-].
  destruct (disk w !! l) as [[|]|]; by intros [= <- <-].
Qed.

Ltac quiet_step :=
  match goal with
  | |- quiet (mret _) => apply quiet_ret
  | |- quiet (raise _) => apply quiet_raise
  | |- quiet (print _) => apply quiet_print
  | |- quiet (ask _) => apply quiet_ask
  | |- quiet (os_path_exists _) => apply quiet_ask
  | |- quiet (os_path_isfile _) => apply quiet_ask
  | |- quiet (os_path_isdir _) => apply quiet_ask
  | |- quiet (read_file _) => apply quiet_read_file
  | |- quiet (os_listdir _) => apply quiet_listdir
  | |- quiet (_ ≫= _) => apply quiet_bind; [|intros ?]
  | |- quiet (if ?b then _ else _) => destruct b
  | |- quiet (match ?x with _ => _ end) => destruct x
  end.

Lemma quiet_load_repo_data : quiet load_repo_data.
Proof. unfold load_repo_data. repeat quiet_step. Qed.

Lemma quiet_load_config : quiet load_config.
Proof. unfold load_config. repeat quiet_step. Qed.

Lemma ask_run {A} (f : filesystem → path → A) w :
  ask f w = (Ok (f (disk w) (cwd w)), w).
Proof. reflexivity. Qed.

(** Writing the index back as it was loaded changes nothing on disk. *)
Lemma save_same w rd :
  index_file w = Some rd →
  disk (save_repo_data rd w).2 = disk w ∧ cwd (save_repo_data rd w).2 = cwd w ∧
  writes (save_repo_data rd w).2 = writes w ++ [index_loc (cwd w)].
Proof.
  intros Hi. rewrite (save_repo_data_spec w rd rd Hi). simpl.
  split; [|done]. apply insert_id. by apply index_file_inv.
Qed.

(** C5, as stated, fails: [add] and [remove] do not abort; they end with
    [save_repo_data] whatever they found. [add] of a path that does not
    exist writes the index document. *)
Lemma validation_counterexample :
  path_isfile (disk fresh_repo) (cwd fresh_repo) "nope.txt" = false ∧
  path_isdir (disk fresh_repo) (cwd fresh_repo) "nope.txt" = false ∧
  writes (add "nope.txt" false fresh_repo).2
    = writes fresh_repo ++ [["w"; ".icvcs"; "repo_data.json"]] ∧
  stdout (add "nope.txt" false
            (World (disk fresh_repo) (cwd fresh_repo) [] [])).2
    = ["Path 'nope.txt' does not exist."; "Repository data updated successfully."].
Proof. vm_compute. done. Qed.

(** C5, amended: when [add], [remove], [version create] or [push] fails
    its early validation check, the disk after the command is the disk
    before it: index document, journal and snapshot directories are
    unchanged. [version create] and [push] return before any write;
    [add] and [remove] do not return early: they print the failure and
    still write the index document back, with the content they loaded. *)
Theorem validation_failure_atomic (c : command) (w : world) :
  validation_fails w c →
  disk (run_command c w).2 = disk w ∧ cwd (run_command c w).2 = cwd w ∧
  match c with
  | CAdd _ _ | CRemove _ =>
      writes (run_command c w).2 = writes w ∨
      writes (run_command c w).2 = writes w ++ [index_loc (cwd w)]
  | _ => writes (run_command c w).2 = writes w
  end.
Proof.
  destruct c as [p wf|p|cmd name force now a d|now stamp m a|id|id| | | |loc n];
    simpl; try done.
  - (* add *)
    intros [Hf Hd]. unfold add. rewrite bind_run.
    pose proof (load_repo_data_spec w) as Hl.
    destruct (index_file w) as [rd|] eqn:Hi.
    + rewrite Hl. run_prim. rewrite Hf, Hd. simpl.
      destruct (save_same (World (disk w) (cwd w)
                  (stdout w ++ ["Path '" +:+ p +:+ "' does not exist."])
                  (writes w)) rd Hi) as (D & C & W).
      simpl in *. rewrite D, C, W. auto.
    + destruct Hl as (e & w' & -> & D & C & W). simpl. auto.
  - (* remove *)
    intros Hn. unfold remove. rewrite bind_run.
    pose proof (load_repo_data_spec w) as Hl.
    destruct (index_file w) as [rd|] eqn:Hi.
    + rewrite Hl. destruct (Hn rd eq_refl) as [Hnf Hnd]. run_prim.
      rewrite (bool_decide_eq_false_2 _ Hnf), (bool_decide_eq_false_2 _ Hnd).
      destruct (path_isfile _ _ _); [|destruct (path_isdir _ _ _)]; simpl;
        match goal with
        | |- context [save_repo_data rd ?w0] =>
            destruct (save_same w0 rd Hi) as (D & C & W)
        end; simpl in *; rewrite D, C, W; auto.
    + destruct Hl as (e & w' & -> & D & C & W). simpl. auto.
  - (* version create *)
    intros (-> & -> & He).
    destruct (version "create" name false now a d w) as [r w'] eqn:E. simpl.
    revert E. unfold version.
    intros [(rd & w1 & E1 & E)|(e & E1 & ->)]%bind_inv;
      [|by apply quiet_load_repo_data in E1].
    apply quiet_load_repo_data in E1 as (D1 & C1 & W1).
    apply bind_inv in E as [(cfg & w2 & E2 & E)|(e & E2 & ->)];
      [|apply quiet_load_config in E2 as (D2 & C2 & W2);
        repeat split; congruence].
    apply quiet_load_config in E2 as (D2 & C2 & W2).
    revert E. unfold version_with. simpl.
    destruct (decide (name = "")); [intros [= <- <-]; simpl;
                                    repeat split; congruence|].
    run_prim. rewrite D2, C2, D1, C1, He. simpl.
    intros [= <- <-]. simpl. repeat split; congruence.
  - (* push *)
    unfold push. intros Hv. rewrite bind_run.
    destruct (os_listdir COMMITS_DIR w) as [[l|e] w1] eqn:El;
      [|apply quiet_listdir in El; simpl; tauto].
    pose proof El as (D1 & C1 & W1)%quiet_listdir. simpl in Hv.
    destruct l as [|c0 l]; [simpl; tauto|].
    rewrite bool_decide_eq_false_2 by done.
    destruct Hv as [Hv|[(i & -> & Hi & He)|[Hid Hv]]]; [done| |].
    + destruct i as [|a0 i]; [done|]. run_prim. rewrite D1, C1, He. simpl.
      tauto.
    + injection Hv as -> ->.
      assert (w1 = w) as -> by (by eapply os_listdir_world).
      destruct Hid as [-> | ->]; rewrite bind_run, bind_run, El; simpl; tauto.
Qed.

(** [version create v1] once more, without force: nothing is written. *)
Lemma validation_failure_atomic_witness :
  disk (run_command (CVersion "create" "v1" false t1 "" "") with_v1).2
    = disk with_v1 ∧
  writes (run_command (CVersion "create" "v1" false t1 "" "") with_v1).2
    = writes with_v1.
Proof.
  destruct (validation_failure_atomic
              (CVersion "create" "v1" false t1 "" "") with_v1)
    as (D & _ & W); [by vm_compute|exact (conj D W)].
Defined.

(** ** C10: the capture lists are not read *)

Lemma bind_ext {A B} (m m' : M A) (f g : A → M B) w :
  m w = m' w → (∀ a w', f a w' = g a w') → (m ≫= f) w = (m' ≫= g) w.
Proof.
  intros Hm Hf. rewrite !bind_run, Hm. destruct (m' w) as [[a|e] w1]; auto.
Qed.

Lemma for_each_ext {A} (xs : list A) (f g : A → M unit) w :
  (∀ x w', f x w' = g x w') → for_each xs f w = for_each xs g w.
Proof.
  intros H. revert w. induction xs as [|x xs IH]; intros w; simpl; [done|].
  apply bind_ext; auto.
Qed.









(** ** C6: a file that is not text *)

Lemma read_file_world p w : read_file p w = ((read_file p w).1, w).
Proof.
  unfold read_file. run_prim.
  destruct (resolve _ _ _) as [[|]|l]; simpl; try done.
  by destruct (disk w !! l) as [[|]|].
Qed.

Lemma stored_ext w w' v f :
  disk w' = disk w → cwd w' = cwd w → stored w' v f = stored w v f.
Proof.
  intros Hd Hc. unfold stored, read_file. run_prim. rewrite Hd, Hc.
  destruct (resolve _ _ _) as [[|]|l]; simpl; try done.
  rewrite Hd. by destruct (disk w !! l) as [[|]|].
Qed.

Lemma load_file_content_run v f w :
  load_file_content v f w =
  (match stored w v f with
   | Ok c => match decode c with
             | Some t => Ok (Some t)
             | None => Raise UnicodeDecodeError
             end
   | Raise FileNotFoundError => Ok None
   | Raise e => Raise e
   end, w).
Proof.
  unfold load_file_content, stored, try. rewrite bind_run.
  rewrite (read_file_world _ w).
  destruct (read_file _ w).1 as [c|e]; simpl.
  - by destruct (decode c).
  - by destruct e.
Qed.

Lemma load_file_content_comparable v f w :
  comparable w v f → ∃ o, load_file_content v f w = (Ok o, w).
Proof.
  rewrite load_file_content_run. intros [->|(c & t & -> & ->)]; eauto.
Qed.

Lemma load_file_content_undecodable v f w :
  undecodable w v f → load_file_content v f w = (Raise UnicodeDecodeError, w).
Proof. rewrite load_file_content_run. by intros (c & -> & ->). Qed.

Lemma for_each_print ls w :
  for_each ls print w =
  (Ok (), World (disk w) (cwd w) (stdout w ++ ls) (writes w)).
Proof.
  revert w. induction ls as [|l ls IH]; intros w; simpl.
  - rewrite app_nil_r. by destruct w.
  - rewrite bind_run, print_run, IH. simpl. by rewrite <- app_assoc.
Qed.

Lemma load_version_files_some v w fs w' :
  load_version_files v w = (Ok (Some fs), w') → w' = w.
Proof.
  unfold load_version_files, try. rewrite bind_run, (read_file_world _ w).
  destruct (read_file _ w).1 as [c|e]; simpl; [|by destruct e].
  destruct c as [b|rd|h|cm|vm|cf]; simpl; try done.
  - by intros [= <- <-].
  - destruct h; simpl; [by intros [= <- <-]|done].
  - destruct (vfiles vm); simpl; [by intros [= <- <-]|done].
Qed.

Section CompareLemmas.
Variable unified_diff : text → text → list string.

Lemma compare_file_comparable v1 v2 f w w0 :
  disk w = disk w0 → cwd w = cwd w0 →
  comparable w0 v1 f → comparable w0 v2 f →
  ∃ w', compare_file unified_diff v1 v2 f w = (Ok (), w') ∧
        disk w' = disk w0 ∧ cwd w' = cwd w0.
Proof.
  intros Hd Hc H1 H2. unfold comparable in *.
  rewrite <- (stored_ext w0 w v1 f) in H1 by done.
  rewrite <- (stored_ext w0 w v2 f) in H2 by done.
  destruct (load_file_content_comparable _ _ _ H1) as [o1 E1].
  destruct (load_file_content_comparable _ _ _ H2) as [o2 E2].
  unfold compare_file. rewrite bind_run, E1, bind_run, E2.
  destruct (decide _).
  - rewrite bind_run, print_run, bind_run. unfold show_diff.
    rewrite for_each_print, print_run. simpl. eauto.
  - rewrite print_run. simpl. eauto.
Qed.

Lemma compare_file_undecodable v1 v2 f w w0 :
  disk w = disk w0 → cwd w = cwd w0 →
  undecodable w0 v1 f ∨ (comparable w0 v1 f ∧ undecodable w0 v2 f) →
  compare_file unified_diff v1 v2 f w = (Raise UnicodeDecodeError, w).
Proof.
  intros Hd Hc H. unfold compare_file, undecodable, comparable in *.
  rewrite <- (stored_ext w0 w v1 f) in H by done.
  rewrite <- (stored_ext w0 w v2 f) in H by done.
  rewrite bind_run. destruct H as [H1|[H1 H2]].
  - by rewrite (load_file_content_undecodable _ _ _ H1).
  - destruct (load_file_content_comparable _ _ _ H1) as [o1 ->].
    by rewrite bind_run, (load_file_content_undecodable _ _ _ H2).
Qed.

Lemma compare_files_comparable v1 v2 fs w w0 :
  disk w = disk w0 → cwd w = cwd w0 →
  Forall (λ g, comparable w0 v1 g ∧ comparable w0 v2 g) fs →
  ∃ w', for_each fs (compare_file unified_diff v1 v2) w = (Ok (), w') ∧
        disk w' = disk w0 ∧ cwd w' = cwd w0.
Proof.
  intros Hd Hc H. revert w Hd Hc.
  induction H as [|g fs [H1 H2] _ IH]; intros w Hd Hc; simpl; [eauto|].
  destruct (compare_file_comparable v1 v2 g w w0 Hd Hc H1 H2)
    as (w1 & E & Hd1 & Hc1).
  rewrite bind_run, E. by apply IH.
Qed.

Lemma for_each_app {A} (xs ys : list A) (body : A → M unit) w :
  for_each (xs ++ ys) body w = (for_each xs body ;; for_each ys body) w.
Proof.
  revert w. induction xs as [|x xs IH]; intros w; simpl; [done|].
  rewrite !bind_run. destruct (body x w) as [[[]|e] w1]; [|done].
  by rewrite IH.
Qed.

End CompareLemmas.

(** C6: [load_file_content] catches a missing file and no other failure
    of the read. Here the versions [v1] and [v2] list [a.txt], [b.bin]
    and [c.txt], and [b.bin] holds the byte [0xFF] in both: the
    comparison ends with [UnicodeDecodeError] once it has reported
    [a.txt], and prints nothing about [b.bin] or about [c.txt], which
    comes after it. *)
Lemma compare_aborts_at_binary :
  (compare_versions quoted_list no_lines "v1" "v2" two_versions).1 =
    Raise UnicodeDecodeError ∧
  all_files ["a.txt"; "b.bin"; "c.txt"] ["a.txt"; "b.bin"; "c.txt"] =
    ["a.txt"; "b.bin"; "c.txt"] ∧
  stdout (compare_versions quoted_list no_lines "v1" "v2" two_versions).2 =
    stdout two_versions ++
    ["['a.txt', 'b.bin', 'c.txt'] ['a.txt', 'b.bin', 'c.txt']";
     "Comparing versions v1 and v2...
";
     "No changes in file: a.txt"].
Proof. by vm_compute. Qed.

(** [compare_versions] stops at the first file that is not text. When
    the two file lists load and a file of their sorted union is stored
    in one of the versions with content that does not decode, while
    every file before it is text or missing, [compare_versions] raises
    [UnicodeDecodeError] at that file: the files before it have been
    compared, and the world it ends in is the one their comparison left,
    so nothing is reported for that file or for any file after it, and
    the disk is as it was. *)
Theorem compare_stops_at_undecodable (repr_list : list string → string)
    (unified_diff : text → text → list string)
    (version1 version2 : string) (files1 files2 pre post : list string)
    (f : string) (w : world) :
  (load_version_files version1 w).1 = Ok (Some files1) →
  (load_version_files version2 w).1 = Ok (Some files2) →
  all_files files1 files2 = pre ++ f :: post →
  Forall (λ g, comparable w version1 g ∧ comparable w version2 g) pre →
  undecodable w version1 f ∨
    (comparable w version1 f ∧ undecodable w version2 f) →
  ∃ w', (compare_header repr_list version1 version2 files1 files2 ;;
         for_each pre (compare_file unified_diff version1 version2)) w
          = (Ok (), w') ∧
        compare_versions repr_list unified_diff version1 version2 w
          = (Raise UnicodeDecodeError, w') ∧
        disk w' = disk w.
Proof.
  intros L1 L2 Hall Hpre Hf.
  destruct (load_version_files version1 w) as [r1 w1] eqn:E1.
  simpl in L1. subst r1. pose proof (load_version_files_some _ _ _ _ E1) as ->.
  destruct (load_version_files version2 w) as [r2 w2] eqn:E2.
  simpl in L2. subst r2. pose proof (load_version_files_some _ _ _ _ E2) as ->.
  unfold compare_versions, compare_header.
  rewrite (bind_run (load_version_files version1)), E1.
  rewrite (bind_run (load_version_files version2)), E2.
  rewrite Hall.
  rewrite (bind_run (_ ≫= _)), !(bind_run (print _)), !print_run.
  cbv beta iota. rewrite !(bind_run (print _)), !print_run. cbv beta iota.
  rewrite for_each_app, bind_run.
  set (w3 := World _ _ _ _).
  destruct (compare_files_comparable unified_diff version1 version2 pre w3 w)
    as (w4 & E & Hd & Hc); [done..|].
  rewrite E. exists w4. split; [done|]. split; [|done].
  simpl. rewrite bind_run.
  by rewrite (compare_file_undecodable unified_diff _ _ f w4 w Hd Hc Hf).
Qed.

Lemma compare_stops_at_undecodable_witness :
  (load_version_files "v1" two_versions).1 =
    Ok (Some ["a.txt"; "b.bin"; "c.txt"]) ∧
  all_files ["a.txt"; "b.bin"; "c.txt"] ["a.txt"; "b.bin"; "c.txt"] =
    ["a.txt"] ++ "b.bin" :: ["c.txt"] ∧
  undecodable two_versions "v1" "b.bin" ∧
  ∃ w', (compare_header quoted_list "v1" "v2" ["a.txt"; "b.bin"; "c.txt"]
           ["a.txt"; "b.bin"; "c.txt"] ;;
         for_each ["a.txt"] (compare_file no_lines "v1" "v2")) two_versions
          = (Ok (), w') ∧
        compare_versions quoted_list no_lines "v1" "v2" two_versions
          = (Raise UnicodeDecodeError, w') ∧
        disk w' = disk two_versions.
Proof.
  assert (L1 : (load_version_files "v1" two_versions).1 =
               Ok (Some ["a.txt"; "b.bin"; "c.txt"])) by (by vm_compute).
  assert (L2 : (load_version_files "v2" two_versions).1 =
               Ok (Some ["a.txt"; "b.bin"; "c.txt"])) by (by vm_compute).
  assert (Ha : all_files ["a.txt"; "b.bin"; "c.txt"]
                 ["a.txt"; "b.bin"; "c.txt"] =
               ["a.txt"] ++ "b.bin" :: ["c.txt"]) by (by vm_compute).
  assert (Hu : undecodable two_versions "v1" "b.bin").
  { exists (Bytes (String "255" EmptyString)). split; by vm_compute. }
  assert (Hp : Forall (λ g, comparable two_versions "v1" g ∧
                            comparable two_versions "v2" g) ["a.txt"]).
  { constructor; [|constructor].
    split; right; exists (Bytes "hello"), (Str "hello"); split; by vm_compute. }
  exact (conj L1 (conj Ha (conj Hu
    (compare_stops_at_undecodable quoted_list no_lines "v1" "v2" _ _
       ["a.txt"] ["c.txt"]
       "b.bin" two_versions L1 L2 Ha Hp (or_introl Hu))))).
Defined.

(** ** C2: the sets of [status] *)

Lemma bind_ok_inv {A B} (m : M A) (f : A → M B) w b w' :
  (m ≫= f) w = (Ok b, w') → ∃ a w1, m w = (Ok a, w1) ∧ f a w1 = (Ok b, w').
Proof. intros [H|(e & _ & [=])]%bind_inv; exact H. Qed.

(** One turn of the loop: the world is left as it was, and the file goes
    to the deleted ones when it is missing and otherwise to the modified
    ones or to neither list. *)
Lemma classify_run latest acc file w acc' w' :
  classify latest acc file w = (Ok acc', w') →
  w' = w ∧
  ((path_exists (disk w) (cwd w) file = false ∧
    acc' = (acc.1, acc.2 ++ [file])) ∨
   (path_exists (disk w) (cwd w) file = true ∧
    (acc' = (acc.1 ++ [file], acc.2) ∨ acc' = acc))).
Proof.
  unfold classify. rewrite bind_run. unfold os_path_exists at 1.
  rewrite ask_run. destruct (path_exists _ _ file) eqn:Ex;
    cbv beta iota delta [negb].
  - rewrite bind_run. unfold os_path_exists. rewrite ask_run.
    destruct (path_exists _ _ (os_path_join latest file));
      cbv beta iota delta [negb].
    + rewrite bind_run, (read_file_world file w).
      destruct (read_file file w).1; [|done].
      rewrite bind_run, (read_file_world _ w).
      destruct (read_file _ w).1; [|done].
      destruct (decide _); intros [= <- <-]; auto.
    + intros [= <- <-]; auto.
  - intros [= <- <-]; auto.
Qed.

(** The loop over the tracked files, gone through without a repetition. *)
Lemma classify_all latest xs w lists w' :
  NoDup xs →
  fold_each xs ([], []) (classify latest) w = (Ok lists, w') →
  w' = w ∧ NoDup lists.1 ∧ NoDup lists.2 ∧
  (∀ f, f ∈ lists.1 → f ∈ xs ∧ path_exists (disk w) (cwd w) f = true) ∧
  (∀ f, f ∈ lists.2 ↔ f ∈ xs ∧ path_exists (disk w) (cwd w) f = false).
Proof.
  intros Hnd.
  assert (Hgen : ∀ ys acc w1,
    NoDup ys →
    fold_each ys acc (classify latest) w = (Ok lists, w1) →
    ∀ seen, (∀ f, f ∈ ys → f ∉ seen) →
    NoDup acc.1 → NoDup acc.2 →
    (∀ f, f ∈ acc.1 → f ∈ seen ∧ path_exists (disk w) (cwd w) f = true) →
    (∀ f, f ∈ acc.2 ↔ f ∈ seen ∧ path_exists (disk w) (cwd w) f = false) →
    w1 = w ∧ NoDup lists.1 ∧ NoDup lists.2 ∧
    (∀ f, f ∈ lists.1 →
          f ∈ seen ++ ys ∧ path_exists (disk w) (cwd w) f = true) ∧
    (∀ f, f ∈ lists.2 ↔
          f ∈ seen ++ ys ∧ path_exists (disk w) (cwd w) f = false)).
  { induction ys as [|y ys IH]; intros acc w1 Hys Hrun seen Hfresh N1 N2 H1 H2.
    - simpl in Hrun. injection Hrun as <- <-. by rewrite app_nil_r.
    - simpl in Hrun. apply bind_ok_inv in Hrun as (acc' & w2 & Hstep & Hrun).
      apply classify_run in Hstep as [-> Hstep].
      apply NoDup_cons in Hys as [Hy Hys].
      assert (Hyseen : y ∉ seen) by (apply Hfresh; by left).
      assert (Hfresh' : ∀ f, f ∈ ys → f ∉ seen ++ [y]).
      { intros f Hf [Hs| ->%list_elem_of_singleton]%elem_of_app; [|done].
        apply (Hfresh f); [by right|done]. }
      replace (seen ++ y :: ys) with ((seen ++ [y]) ++ ys)
        by (by rewrite <- app_assoc).
      assert (Hy1 : y ∉ acc.1) by (by intros [? _]%H1).
      assert (Hy2 : y ∉ acc.2) by (by intros [? _]%H2).
      assert (K1 : ∀ f, f ∈ acc.1 →
                f ∈ seen ++ [y] ∧ path_exists (disk w) (cwd w) f = true).
      { intros f [Hf ?]%H1. split; [|done]. apply elem_of_app. by left. }
      assert (N1' : NoDup (acc.1 ++ [y])).
      { apply NoDup_app. split; [done|]. split; [|apply NoDup_singleton].
        by intros f Hf ->%list_elem_of_singleton. }
      assert (N2' : NoDup (acc.2 ++ [y])).
      { apply NoDup_app. split; [done|]. split; [|apply NoDup_singleton].
        by intros f Hf ->%list_elem_of_singleton. }
      destruct Hstep as [[Ex ->]|[Ex [->| ->]]];
        apply (IH _ _ Hys Hrun (seen ++ [y]) Hfresh'); simpl;
        [exact N1|exact N2'|exact K1| |exact N1'|exact N2| | |
         exact N1|exact N2|exact K1| ].
      + intros f. rewrite !elem_of_app, list_elem_of_singleton, H2.
        split; [intros [[? ?]| ->]; auto|].
        intros [[?| ->] ?]; auto.
      + intros f [[Hf ?]%H1| ->%list_elem_of_singleton]%elem_of_app;
          (split; [|done]); apply elem_of_app; [by left|right; by constructor].
      + intros f. rewrite H2, elem_of_app, list_elem_of_singleton.
        split; [intros [? ?]; auto|]. intros [[?| ->] ?]; [done|congruence].
      + intros f. rewrite H2, elem_of_app, list_elem_of_singleton.
        split; [intros [? ?]; auto|]. intros [[?| ->] ?]; [done|congruence]. }
  intros Hrun.
  apply (Hgen xs ([], []) w' Hnd Hrun []); simpl;
    try apply NoDup_nil_2; try done.
  - intros f _ Hf. by apply elem_of_nil in Hf.
  - intros f Hf. by apply elem_of_nil in Hf.
  - intros f. split; [intros Hf; by apply elem_of_nil in Hf|].
    intros [Hf _]. by apply elem_of_nil in Hf.
Qed.

(** What [status] returns is built from the loaded index, the walk of the
    working tree and the two lists of the loop. *)
Lemma status_inv w rep w' :
  status w = (Ok rep, w') →
  ∃ rd lists,
    index_file w = Some rd ∧
    fold_each (elements (list_to_set (files rd) : gset string)) ([], [])
      (classify (os_path_join (os_path_join ICVCS_DIR "commits") "latest")) w
      = (Ok lists, w) ∧
    modified_files rep = lists.1 ∧ deleted_files rep = lists.2 ∧
    staged_files rep =
      ((list_to_set (files rd) ∩ working_directory_files (disk w) (cwd w))
         ∖ list_to_set lists.1) ∖ list_to_set lists.2.
Proof.
  unfold status. intros H.
  apply bind_ok_inv in H as (rd & w1 & Hload & H).
  pose proof (load_repo_data_spec w) as Hspec.
  destruct (index_file w) as [rd'|] eqn:Hi;
    [|destruct Hspec as (e & w2 & Hspec & _); congruence].
  rewrite Hspec in Hload. injection Hload as <- <-.
  apply bind_ok_inv in H as (wdf & w1 & Hask & H).
  rewrite ask_run in Hask. injection Hask as <- <-.
  apply bind_ok_inv in H as (lists & w1 & Hloop & H).
  pose proof (classify_all _ _ _ _ _ (NoDup_elements _) Hloop) as [-> _].
  exists rd', lists. split; [done|]. split; [done|].
  repeat (apply bind_ok_inv in H as (? & ? & _ & H)).
  by injection H as <- _.
Qed.

(** C2, as stated, fails: after [icvcs add ./a.txt], a commit and a
    push, [./a.txt] is tracked, present and unchanged, and [status] puts
    it in none of Modified, Deleted and Staged (and reports [a.txt] as
    untracked): the walk of the working tree enters the file as [a.txt]. *)
Lemma status_partition_counterexample :
  option_map files (index_file dot_tracked) = Some ["./a.txt"] ∧
  path_exists (disk dot_tracked) (cwd dot_tracked) "./a.txt" = true ∧
  (status dot_tracked).1 =
    Ok (StatusReport {[ "a.txt"; "sub/b.txt" ]} [] [] ∅).
Proof. by vm_compute. Qed.

(** C2, amended: when [status] returns, Modified, Deleted and Staged are
    pairwise disjoint, hold no file twice and hold tracked files only;
    Deleted is exactly the tracked files that are missing; and a tracked
    file is in one of the three as soon as it is missing or is one of the
    paths that the walk of the working tree yields. A tracked file that
    is present under another spelling than the walk's, or below a
    directory whose path contains [.icvcs], can be in none of them. *)
Theorem status_partition (w : world) (rep : status_report) :
  (status w).1 = Ok rep →
  ∃ rd, index_file w = Some rd ∧
    NoDup (modified_files rep) ∧ NoDup (deleted_files rep) ∧
    (∀ f, f ∈ modified_files rep → f ∉ deleted_files rep) ∧
    (∀ f, f ∈ staged_files rep →
          (f ∉ modified_files rep) ∧ (f ∉ deleted_files rep)) ∧
    (∀ f, (f ∈ modified_files rep ∨ f ∈ deleted_files rep ∨
           f ∈ staged_files rep) → f ∈ files rd) ∧
    (∀ f, f ∈ deleted_files rep ↔
          f ∈ files rd ∧ path_exists (disk w) (cwd w) f = false) ∧
    (∀ f, f ∈ files rd →
          f ∈ working_directory_files (disk w) (cwd w) ∨
          path_exists (disk w) (cwd w) f = false →
          f ∈ modified_files rep ∨ f ∈ deleted_files rep ∨
          f ∈ staged_files rep).
Proof.
  destruct (status w) as [r w'] eqn:E. simpl. intros ->.
  apply status_inv in E as (rd & lists & Hi & Hloop & -> & -> & ->).
  apply classify_all in Hloop as (_ & N1 & N2 & H1 & H2);
    [|apply NoDup_elements].
  exists rd. split; [done|].
  assert (Hel : ∀ f, f ∈ elements (list_to_set (files rd) : gset string)
                     ↔ f ∈ files rd).
  { intros f. by rewrite elem_of_elements, elem_of_list_to_set. }
  split; [done|]. split; [done|].
  split. { intros f [_ Ht]%H1 [_ Hf]%H2. congruence. }
  split.
  { intros f Hf. apply elem_of_difference in Hf as [Hf Hd].
    apply elem_of_difference in Hf as [_ Hm].
    by rewrite elem_of_list_to_set in Hd, Hm. }
  split.
  { intros f [[Hf _]%H1|[[Hf _]%H2|Hf]]; [by apply Hel..|].
    apply elem_of_difference in Hf as [Hf _].
    apply elem_of_difference in Hf as [Hf _].
    apply elem_of_intersection in Hf as [Hf _].
    by rewrite elem_of_list_to_set in Hf. }
  split. { intros f. by rewrite H2, Hel. }
  intros f Hf [Hw|Hx].
  - destruct (decide (f ∈ lists.1)); [auto|].
    destruct (decide (f ∈ lists.2)); [auto|].
    right. right. by rewrite !elem_of_difference, elem_of_intersection,
      !elem_of_list_to_set.
  - right. left. apply H2. split; [by apply Hel|done].
Qed.

Lemma status_partition_witness :
  (status pushed).1 =
    Ok (StatusReport {[ "sub/b.txt" ]} [] [] {[ "a.txt" ]}) ∧
  ∃ rd, index_file pushed = Some rd ∧
    NoDup ([] : list string) ∧ NoDup ([] : list string) ∧
    (∀ f, f ∈ ([] : list string) → f ∉ ([] : list string)) ∧
    (∀ f, f ∈ ({[ "a.txt" ]} : gset string) →
          (f ∉ ([] : list string)) ∧ (f ∉ ([] : list string))) ∧
    (∀ f, (f ∈ ([] : list string) ∨ f ∈ ([] : list string) ∨
           f ∈ ({[ "a.txt" ]} : gset string)) → f ∈ files rd) ∧
    (∀ f, f ∈ ([] : list string) ↔
          f ∈ files rd ∧ path_exists (disk pushed) (cwd pushed) f = false) ∧
    (∀ f, f ∈ files rd →
          f ∈ working_directory_files (disk pushed) (cwd pushed) ∨
          path_exists (disk pushed) (cwd pushed) f = false →
          f ∈ ([] : list string) ∨ f ∈ ([] : list string) ∨
          f ∈ ({[ "a.txt" ]} : gset string)).
Proof.
  assert (H : (status pushed).1 =
              Ok (StatusReport {[ "sub/b.txt" ]} [] [] {[ "a.txt" ]}))
    by (by vm_compute).
  exact (conj H (status_partition pushed _ H)).
Defined.

(** ** C4: the identifiers of commits *)

Lemma compare_app a a' b b' :
  String.length a = String.length a' →
  String.compare (a +:+ b) (a' +:+ b') =
  match String.compare a a' with
  | Eq => String.compare b b'
  | c => c
  end.
Proof.
  revert a'. induction a as [|x a IH]; intros [|x' a'];
    cbn [String.length String.append String.compare]; try done.
  intros [= Hl].
  change (String x a +:+ b) with (String x (a +:+ b)).
  change (String x' a' +:+ b') with (String x' (a' +:+ b')).
  cbn [String.compare].
  destruct (Ascii.compare x x'); auto.
Qed.

Lemma compare_refl s : String.compare s s = Eq.
Proof.
  induction s as [|x s IH]; [done|]. cbn [String.compare].
  unfold Ascii.compare. by rewrite N.compare_refl.
Qed.

Lemma digit_compare n n' :
  Ascii.compare (digit n) (digit n') = Nat.compare (n mod 10) (n' mod 10).
Proof.
  unfold Ascii.compare, digit.
  pose proof (Nat.mod_upper_bound n 10 ltac:(lia)) as H.
  pose proof (Nat.mod_upper_bound n' 10 ltac:(lia)) as H'.
  assert (E : ∀ k, (k < 10)%nat →
              N_of_ascii (ascii_of_nat (48 + k)) = N.of_nat (48 + k)).
  { intros k Hk. rewrite <- (nat_ascii_embedding (48 + k)) at 2 by lia.
    unfold nat_of_ascii. by rewrite N2Nat.id. }
  rewrite !E by done. rewrite <- Nat2N.inj_compare.
  destruct (Nat.compare_spec (n mod 10) (n' mod 10)).
  - apply Nat.compare_eq_iff. lia.
  - apply Nat.compare_lt_iff. lia.
  - apply Nat.compare_gt_iff. lia.
Qed.

Lemma compare_digits n n' :
  match Nat.compare (n / 10) (n' / 10) with
  | Eq => Nat.compare (n mod 10) (n' mod 10)
  | c => c
  end = Nat.compare n n'.
Proof.
  pose proof (Nat.div_mod_eq n 10). pose proof (Nat.div_mod_eq n' 10).
  pose proof (Nat.mod_upper_bound n 10 ltac:(lia)).
  pose proof (Nat.mod_upper_bound n' 10 ltac:(lia)).
  symmetry.
  destruct (Nat.compare_spec (n / 10) (n' / 10));
    [destruct (Nat.compare_spec (n mod 10) (n' mod 10))| |].
  - apply Nat.compare_eq_iff. lia.
  - apply Nat.compare_lt_iff. lia.
  - apply Nat.compare_gt_iff. lia.
  - apply Nat.compare_lt_iff. lia.
  - apply Nat.compare_gt_iff. lia.
Qed.

(** On numbers that fit the width, zero-padded decimals compare as the
    numbers do. *)
Lemma zero_pad_compare w n n' :
  (n < 10 ^ w)%nat → (n' < 10 ^ w)%nat →
  String.compare (zero_pad w n) (zero_pad w n') = Nat.compare n n'.
Proof.
  revert n n'. induction w as [|w IH]; intros n n' Hn Hn'.
  - simpl in Hn, Hn'. assert (n = 0%nat) as -> by lia.
    by assert (n' = 0%nat) as -> by lia.
  - cbn [zero_pad]. rewrite compare_app by (by rewrite !zero_pad_length).
    rewrite Nat.pow_succ_r' in Hn, Hn'.
    rewrite IH by (apply Nat.Div0.div_lt_upper_bound; lia).
    cbn [String.compare]. rewrite digit_compare, <- (compare_digits n n').
    destruct (Nat.compare (n / 10) (n' / 10)); [|done..].
    by destruct (Nat.compare (n mod 10) (n' mod 10)).
Qed.

(** The identifiers are ordered as the readings of the clock cut at the
    second. *)
Lemma strftime_compare t t' :
  valid_datetime t → valid_datetime t' →
  String.compare (strftime_YmdHMS t) (strftime_YmdHMS t') = clock_compare t t'.
Proof.
  intros V V'. unfold valid_datetime in *. unfold strftime_YmdHMS, clock_compare.
  rewrite !compare_app by (by rewrite !zero_pad_length).
  rewrite !zero_pad_compare by (first [apply V|apply V'|simpl; lia]). done.
Qed.

(** [os.makedirs] of a storage directory that is there. *)
Lemma makedirs_at_exists p a b c w :
  plain p [a; b; c] →
  disk w !! cwd w = Some Dir → disk w !! (cwd w ++ [a]) = Some Dir →
  disk w !! (cwd w ++ [a; b]) = Some Dir →
  is_Some (disk w !! (cwd w ++ [a; b; c])) →
  makedirs_at p w = (Raise FileExistsError, w).
Proof.
  intros (H1 & H2 & H3 & H4 & H5) D0 D1 D2 [n D3]. unfold makedirs_at.
  destruct (decide (p = "")); [done|]. rewrite H2, H4.
  rewrite bind_run. unfold ask at 1. cbn [fst snd]. rewrite bind_run.
  apply Forall_cons in H5 as [Ha H5]. apply Forall_cons in H5 as [Hb H5].
  apply Forall_cons in H5 as [Hc _].
  cbn [fold_each]. rewrite bind_run, (makedirs_step_proper a) by done.
  rewrite D0, D1. rewrite bind_run, (makedirs_step_proper b) by done.
  rewrite D1, <- app_assoc. cbn [app]. rewrite D2.
  rewrite bind_run, (makedirs_step_proper c) by done.
  rewrite D2, <- app_assoc. cbn [app]. rewrite D3. done.
Qed.

(** C4, as stated, fails: two commits within the same second, at [t0] and
    half a millisecond later, get the same identifier, and the second one
    ends with [FileExistsError]. *)
Lemma commit_identifiers_counterexample :
  microsecond t0 = 0%nat ∧ microsecond t0_later = 500%nat ∧
  strftime_YmdHMS t0 = "20240102030405" ∧
  strftime_YmdHMS t0_later = "20240102030405" ∧
  committed = (run_command (CCommit t0 t0 "first" "") tracking_a).2 ∧
  (run_command (CCommit t0 t0 "first" "") tracking_a).1 = Ok () ∧
  (run_command (CCommit t0_later t0_later "second" "") committed).1 =
    Raise FileExistsError.
Proof. by vm_compute. Qed.

(** C4, amended: the identifier is the reading of the clock cut at the
    second. With the commit made at [t] in store, a commit at [t']
    gets an identifier that compares with the one of [t] as the two
    readings do down to the second: distinct and in the order of the
    clock when they differ there, the same when they do not. In that
    case the second commit raises [FileExistsError] and leaves the disk
    as it was; and in every case the tree of the commit of [t] is the
    same afterwards. *)
Theorem commit_identifiers (rd : repo_data) (cfg : config)
    (t t' stamp : datetime) (m a : string) (w : world) :
  valid_datetime t → valid_datetime t' →
  disk w !! cwd w = Some Dir →
  disk w !! icvcs_loc (cwd w) = Some Dir →
  disk w !! commits_loc (cwd w) = Some Dir →
  disk w !! snapshot_loc (cwd w) (SCommit (strftime_YmdHMS t)) = Some Dir →
  String.compare (strftime_YmdHMS t) (strftime_YmdHMS t') = clock_compare t t' ∧
  (strftime_YmdHMS t = strftime_YmdHMS t' ↔ clock_compare t t' = Eq) ∧
  (clock_compare t t' = Eq →
   commit_with rd cfg t' stamp m a w = (Raise FileExistsError, w)) ∧
  (∀ q, disk (commit_with rd cfg t' stamp m a w).2
          !! (snapshot_loc (cwd w) (SCommit (strftime_YmdHMS t)) ++ q) =
        disk w !! (snapshot_loc (cwd w) (SCommit (strftime_YmdHMS t)) ++ q)).
Proof.
  intros V V' D0 D1 D2 D3.
  pose proof (strftime_compare t t' V V') as Hc.
  assert (Heq : strftime_YmdHMS t = strftime_YmdHMS t' ↔ clock_compare t t' = Eq).
  { rewrite <- Hc. split; [intros ->; apply compare_refl|].
    apply String.compare_eq_iff. }
  assert (Hsame : clock_compare t t' = Eq →
            commit_with rd cfg t' stamp m a w = (Raise FileExistsError, w)).
  { intros E%Heq. unfold commit_with, os_makedirs. rewrite !bind_run.
    rewrite (makedirs_at_exists _ ".icvcs" "commits" (strftime_YmdHMS t') w);
      [done|apply plain_commit_dir, strftime_proper|done..|].
    rewrite <- E. by eexists. }
  split; [done|]. split; [done|]. split; [done|]. intros q.
  destruct (decide (strftime_YmdHMS t = strftime_YmdHMS t')) as [Hid|Hid].
  - by rewrite (Hsame (proj1 Heq Hid)).
  - destruct (commit_with rd cfg t' stamp m a w) as [r w'] eqn:E.
    simpl. apply (frame_of_cw _ _ _ _ _ _
             (cw_commit_with rd cfg t' stamp m a (strftime_proper t')) E).
    + intros [Hr|Hj].
      * apply region_snapshot in Hr; [|done]. simpl in Hr. congruence.
      * by apply snapshot_not_doc in Hj.
    + apply snapshot_not_scaffold.
Qed.

Lemma commit_identifiers_witness :
  valid_datetime t0 ∧ valid_datetime t0_later ∧
  disk committed !! snapshot_loc (cwd committed) (SCommit (strftime_YmdHMS t0))
    = Some Dir ∧
  String.compare (strftime_YmdHMS t0) (strftime_YmdHMS t0_later) = clock_compare t0 t0_later ∧
  (strftime_YmdHMS t0 = strftime_YmdHMS t0_later ↔ clock_compare t0 t0_later = Eq) ∧
  (clock_compare t0 t0_later = Eq →
   commit_with index_with_captures some_config t0_later t0_later "second" "" committed =
     (Raise FileExistsError, committed)) ∧
  (∀ q, disk (commit_with index_with_captures some_config t0_later t0_later "second" ""
                committed).2
          !! (snapshot_loc (cwd committed) (SCommit (strftime_YmdHMS t0)) ++ q) =
        disk committed
          !! (snapshot_loc (cwd committed) (SCommit (strftime_YmdHMS t0)) ++ q)).
Proof.
  assert (V : valid_datetime t0) by (unfold valid_datetime; simpl; lia).
  assert (V' : valid_datetime t0_later) by (unfold valid_datetime; simpl; lia).
  assert (D0 : disk committed !! cwd committed = Some Dir) by (by vm_compute).
  assert (D1 : disk committed !! icvcs_loc (cwd committed) = Some Dir)
    by (by vm_compute).
  assert (D2 : disk committed !! commits_loc (cwd committed) = Some Dir)
    by (by vm_compute).
  assert (D3 : disk committed
                 !! snapshot_loc (cwd committed) (SCommit (strftime_YmdHMS t0))
               = Some Dir) by (by vm_compute).
  exact (conj V (conj V' (conj D3
    (commit_identifiers index_with_captures some_config t0 t0_later t0_later "second" ""
       committed V V' D0 D1 D2 D3)))).
Defined.

(** * Further properties of the code *)

(** ** What single calls do on a disk that is in order *)

Lemma node_of_plain p cs fs wd :
  plain p cs → dirs_down fs wd cs = true → node_of fs wd p = fs !! (wd ++ cs).
Proof. intros Hp Hd. unfold node_of. by rewrite (resolve_plain_ok _ _ _ _ Hp Hd). Qed.

Lemma read_file_run p cs c w :
  plain p cs → dirs_down (disk w) (cwd w) cs = true →
  disk w !! (cwd w ++ cs) = Some (File c) →
  read_file p w = (Ok c, w).
Proof.
  intros Hp Hd Hl. unfold read_file. run_prim.
  by rewrite (resolve_plain_ok _ _ _ _ Hp Hd), Hl.
Qed.

Lemma write_file_run p cs c w :
  plain p cs → dirs_down (disk w) (cwd w) cs = true →
  disk w !! (cwd w ++ cs) ≠ Some Dir →
  write_file p c w =
    (Ok (), World (<[cwd w ++ cs := File c]> (disk w)) (cwd w) (stdout w)
                  (writes w ++ [cwd w ++ cs])).
Proof.
  intros Hp Hd Hl. unfold write_file. run_prim.
  rewrite (resolve_plain_ok _ _ _ _ Hp Hd).
  by destruct (disk w !! (cwd w ++ cs)) as [[|]|].
Qed.

Lemma dirs_down_snoc fs loc q c :
  dirs_down fs loc (q ++ [c]) = true ↔
  dirs_down fs loc q = true ∧ fs !! (loc ++ q) = Some Dir.
Proof.
  revert loc. induction q as [|x q IH]; intros loc; simpl.
  - rewrite app_nil_r. destruct (fs !! loc) as [[|]|]; split; try done;
      by intros [_ ?].
  - destruct (fs !! loc) as [[|]|]; [split; [done|by intros [? _]]| |
                                     split; [done|by intros [? _]]].
    rewrite IH, <- app_assoc. done.
Qed.

(** The directories on the way are there: nothing is made. *)
Lemma makedirs_fold_there ps :
  Forall proper_name ps → ∀ loc fr w,
  dirs_down (disk w) loc ps = true → disk w !! (loc ++ ps) = Some Dir →
  fold_each ps (loc, fr) makedirs_step w =
    (Ok (loc ++ ps, if bool_decide (ps = []) then fr else false), w).
Proof.
  induction 1 as [|c ps Hc Hps IH]; intros loc fr w Hd Hl; cbn [fold_each].
  - by rewrite app_nil_r.
  - simpl in Hd. destruct (disk w !! loc) as [[|]|] eqn:E; try done.
    rewrite bind_run, (makedirs_step_proper c) by done. rewrite E.
    assert (is_Some (disk w !! (loc ++ [c]))) as [n Hn].
    { destruct ps as [|x ps]; [by rewrite Hl|]. simpl in Hd.
      destruct (disk w !! (loc ++ [c])); [by eexists|done]. }
    rewrite Hn, IH; rewrite <- ?app_assoc; try done.
    simpl. by destruct ps.
Qed.

(** The last directory of the path is missing, the ones before it are
    there: it is the only one made. *)
Lemma makedirs_at_fresh p pre c w :
  plain p (pre ++ [c]) →
  dirs_down (disk w) (cwd w) (pre ++ [c]) = true →
  disk w !! (cwd w ++ pre ++ [c]) = None →
  makedirs_at p w =
    (Ok (cwd w ++ pre ++ [c]),
     World (<[cwd w ++ pre ++ [c] := Dir]> (disk w)) (cwd w) (stdout w)
           (writes w ++ [cwd w ++ pre ++ [c]])).
Proof.
  intros (H1 & H2 & H3 & H4 & H5) Hd Hn. unfold makedirs_at.
  destruct (decide (p = "")); [done|]. rewrite H2, H4.
  rewrite bind_run. unfold ask at 1. cbn [fst snd]. rewrite bind_run.
  apply Forall_app in H5 as [Hpre Hc]. apply Forall_cons in Hc as [Hc _].
  apply dirs_down_snoc in Hd as [Hd Hl].
  rewrite fold_each_app, bind_run, (makedirs_fold_there pre Hpre) by done.
  cbn [fold_each]. rewrite bind_run, (makedirs_step_proper c) by done.
  rewrite Hl, <- app_assoc, Hn. done.
Qed.

Lemma os_makedirs_fresh p pre c w :
  plain p (pre ++ [c]) →
  dirs_down (disk w) (cwd w) (pre ++ [c]) = true →
  disk w !! (cwd w ++ pre ++ [c]) = None →
  os_makedirs p w =
    (Ok (), World (<[cwd w ++ pre ++ [c] := Dir]> (disk w)) (cwd w) (stdout w)
                  (writes w ++ [cwd w ++ pre ++ [c]])).
Proof.
  intros Hp Hd Hn. unfold os_makedirs.
  by rewrite bind_run, (makedirs_at_fresh p pre c w Hp Hd Hn).
Qed.

(** Two places under the same directory differ when their names do. *)
Ltac loc_neq :=
  let E := fresh in
  intros E;
  first [ apply app_inv_head in E; congruence
        | apply (f_equal List.length) in E;
          rewrite ?length_app in E; simpl in E; lia ].

Ltac look :=
  cbn [disk cwd stdout writes app];
  repeat first [ rewrite lookup_insert_eq
               | rewrite lookup_insert_ne by loc_neq ].

Lemma dirs_down_1 fs wd a : dirs_down fs wd [a] = true ↔ fs !! wd = Some Dir.
Proof. simpl. destruct (fs !! wd) as [[|]|]; split; done. Qed.

Lemma dirs_down_2 fs wd a b :
  dirs_down fs wd [a; b] = true ↔
  fs !! wd = Some Dir ∧ fs !! (wd ++ [a]) = Some Dir.
Proof.
  rewrite (dirs_down_snoc fs wd [a] b), dirs_down_1. done.
Qed.

Lemma dirs_down_3 fs wd a b c :
  dirs_down fs wd [a; b; c] = true ↔
  fs !! wd = Some Dir ∧ fs !! (wd ++ [a]) = Some Dir ∧
  fs !! (wd ++ [a; b]) = Some Dir.
Proof.
  rewrite (dirs_down_snoc fs wd [a; b] c), dirs_down_2. tauto.
Qed.

(** The directories above a place of the repository are there. *)
Ltac dirs :=
  first [ apply dirs_down_1 | apply dirs_down_2 | apply dirs_down_3 ];
  look; repeat split; done.

(** ** [init] *)

Lemma plain_config :
  plain (os_path_join ICVCS_DIR "icvcs_config.json")
        [".icvcs"; "icvcs_config.json"].
Proof. apply (plain_join _ [_]); [apply plain_icvcs|proper_const]. Qed.

Lemma init_run repo_name a d m w :
  disk w !! cwd w = Some Dir →
  (∀ q, disk w !! (icvcs_loc (cwd w) ++ q) = None) →
  init repo_name a d m w =
    (Ok (),
     World (initialized repo_name a d m (cwd w) (disk w)) (cwd w)
           (stdout w ++ ["Repository data updated successfully.";
                         "Repository '" +:+ repo_name +:+
                         "' initialized successfully."])
           (writes w ++ [icvcs_loc (cwd w); versions_loc (cwd w);
                         commits_loc (cwd w); latest_loc (cwd w);
                         index_loc (cwd w);
                         cwd w ++ [".icvcs"; "icvcs_config.json"];
                         journal_loc (cwd w)])).
Proof.
  intros Hwd Hnone.
  assert (N1 : disk w !! (cwd w ++ [".icvcs"]) = None).
  { specialize (Hnone []). by rewrite app_nil_r in Hnone. }
  assert (N2 : ∀ x, disk w !! (cwd w ++ [".icvcs"; x]) = None).
  { intros x. specialize (Hnone [x]). unfold icvcs_loc in Hnone.
    by rewrite <- app_assoc in Hnone. }
  assert (N3 : ∀ x y, disk w !! (cwd w ++ [".icvcs"; x; y]) = None).
  { intros x y. specialize (Hnone [x; y]). unfold icvcs_loc in Hnone.
    by rewrite <- app_assoc in Hnone. }
  unfold init, initialized, icvcs_loc, versions_loc, commits_loc, latest_loc,
    index_loc, journal_loc.
  rewrite bind_run. unfold os_path_exists at 1. rewrite ask_run.
  unfold path_exists.
  rewrite (node_of_plain _ [".icvcs"] _ _ plain_icvcs) by dirs.
  rewrite N1. rewrite bool_decide_eq_false_2 by (by intros [? ?]).
  rewrite bind_run, (os_makedirs_fresh _ [] ".icvcs" _ plain_icvcs)
    by first [dirs|done].
  look.
  rewrite bind_run, (os_makedirs_fresh _ [".icvcs"] "versions" _ plain_versions)
    by first [dirs|by look].
  look.
  rewrite bind_run, (os_makedirs_fresh _ [".icvcs"] "commits" _ plain_commits)
    by first [dirs|by look].
  look.
  rewrite bind_run,
    (os_makedirs_fresh _ [".icvcs"; "commits"] "latest" _ plain_latest)
    by first [dirs|by look].
  look.
  unfold save_repo_data. rewrite !bind_run.
  rewrite (write_file_run _ [".icvcs"; "repo_data.json"] _ _ plain_index)
    by first [dirs|look; by rewrite N2].
  rewrite print_run. look. rewrite !bind_run.
  rewrite (write_file_run _ [".icvcs"; "icvcs_config.json"] _ _ plain_config)
    by first [dirs|look; by rewrite N2].
  look. rewrite bind_run.
  rewrite (write_file_run _ [".icvcs"; "commit_history.json"] _ _ plain_journal)
    by first [dirs|look; by rewrite N2].
  rewrite print_run. look.
  by rewrite <- !app_assoc.
Qed.

Lemma index_file_intro w rd :
  disk w !! cwd w = Some Dir → disk w !! icvcs_loc (cwd w) = Some Dir →
  disk w !! index_loc (cwd w) = Some (File (IndexDoc rd)) →
  index_file w = Some rd.
Proof.
  intros H0 H1 H2. unfold index_file.
  rewrite (node_of_plain _ _ _ _ plain_index) by (by apply dirs_down_2).
  unfold index_loc in H2. by rewrite H2.
Qed.

Lemma load_config_run w cfg :
  disk w !! cwd w = Some Dir → disk w !! icvcs_loc (cwd w) = Some Dir →
  disk w !! (cwd w ++ [".icvcs"; "icvcs_config.json"])
    = Some (File (ConfigDoc cfg)) →
  load_config w = (Ok cfg, w).
Proof.
  intros H0 H1 H2. unfold load_config.
  rewrite bind_run. unfold os_path_exists. rewrite ask_run. unfold path_exists.
  rewrite (node_of_plain _ _ _ _ plain_config) by (by apply dirs_down_2).
  rewrite H2, bool_decide_eq_true_2 by (by eexists).
  by rewrite bind_run, (read_file_run _ _ _ _ plain_config)
    by first [by apply dirs_down_2|done].
Qed.

Lemma within_icvcs wd q : within (wd ++ [".icvcs"]) (wd ++ ".icvcs" :: q) = true.
Proof. apply within_spec. exists q. by rewrite <- app_assoc. Qed.

(** [init] in a directory that holds no [.icvcs]: the call succeeds and
    touches nothing outside [.icvcs]; the repository it leaves loads, with
    the name given, nothing tracked, no version and an empty journal; the
    configuration holds the first two answers, or their defaults when they
    are empty, and the third answer as it was typed, empty or not; and a
    second [init], whatever its arguments, says that the repository is
    initialized and changes nothing. *)
Theorem init_makes_repository (repo_name a d m : string) (w : world) :
  disk w !! cwd w = Some Dir →
  (∀ q, disk w !! (icvcs_loc (cwd w) ++ q) = None) →
  ∃ w', init repo_name a d m w = (Ok (), w') ∧ cwd w' = cwd w ∧
    (∀ k, within (icvcs_loc (cwd w)) k = false → disk w' !! k = disk w !! k) ∧
    load_repo_data w' = (Ok (RepoData repo_name [] [] []), w') ∧
    history w' = (Ok [], w') ∧
    load_config w' =
      (Ok (Config (or_default a "Unknown")
                  (or_default d "No description provided") m), w') ∧
    ∀ repo_name' a' d' m',
      init repo_name' a' d' m' w' =
        (Ok (), World (disk w') (cwd w')
                      (stdout w' ++ ["Repository '" +:+ repo_name' +:+
                                     "' already initialized."])
                      (writes w')).
Proof.
  intros Hwd Hnone. rewrite (init_run _ _ _ _ _ Hwd Hnone).
  eexists. split; [reflexivity|]. cbn [disk cwd stdout writes].
  set (fs' := initialized repo_name a d m (cwd w) (disk w)).
  assert (F0 : fs' !! cwd w = Some Dir).
  { unfold fs', initialized, journal_loc, index_loc, latest_loc, commits_loc,
      versions_loc, icvcs_loc. by look. }
  assert (F1 : fs' !! icvcs_loc (cwd w) = Some Dir).
  { unfold fs', initialized, journal_loc, index_loc, latest_loc, commits_loc,
      versions_loc, icvcs_loc. by look. }
  split; [done|]. split.
  { intros k Hk. unfold fs', initialized, journal_loc, index_loc, latest_loc,
      commits_loc, versions_loc, icvcs_loc in *.
    rewrite !lookup_insert_ne; [done|..]; intros <-;
      by rewrite within_icvcs in Hk. }
  split.
  { pose proof (load_repo_data_spec
      (World fs' (cwd w)
         (stdout w ++ ["Repository data updated successfully.";
                       "Repository '" +:+ repo_name +:+
                       "' initialized successfully."])
         (writes w ++ [icvcs_loc (cwd w); versions_loc (cwd w);
                       commits_loc (cwd w); latest_loc (cwd w);
                       index_loc (cwd w);
                       cwd w ++ [".icvcs"; "icvcs_config.json"];
                       journal_loc (cwd w)]))) as Hl.
    rewrite (index_file_intro _ (RepoData repo_name [] [] [])) in Hl;
      [done|done|done|].
    cbn [disk cwd]. unfold fs', initialized, journal_loc, index_loc,
      latest_loc, commits_loc, versions_loc, icvcs_loc. by look. }
  split.
  { apply journal_file_history, journal_file_intro; [done|done|].
    cbn [disk cwd]. unfold fs', initialized. by look. }
  split.
  { apply load_config_run; [done|done|]. cbn [disk cwd].
    unfold fs', initialized, journal_loc. by look. }
  intros repo_name' a' d' m'. unfold init.
  rewrite bind_run. unfold os_path_exists. rewrite ask_run. unfold path_exists.
  cbn [disk cwd].
  rewrite (node_of_plain _ [".icvcs"] _ _ plain_icvcs) by (by apply dirs_down_1).
  unfold icvcs_loc in F1. rewrite F1, bool_decide_eq_true_2 by (by eexists).
  by rewrite print_run.
Qed.

Lemma bare_world_no_icvcs q :
  disk bare_world !! (icvcs_loc (cwd bare_world) ++ q) = None.
Proof.
  unfold bare_world, icvcs_loc. cbn [disk cwd app].
  rewrite !lookup_insert_ne by (by intros [=]).
  by apply lookup_singleton_ne.
Qed.

Lemma init_makes_repository_witness :
  disk bare_world !! cwd bare_world = Some Dir ∧
  ∃ w', init "demo" "me" "" "" bare_world = (Ok (), w') ∧
        load_config w' = (Ok (Config "me" "No description provided" ""), w').
Proof.
  assert (H1 : disk bare_world !! cwd bare_world = Some Dir) by (by vm_compute).
  destruct (init_makes_repository "demo" "me" "" "" bare_world H1
              bare_world_no_icvcs) as (w' & E & _ & _ & _ & _ & C & _).
  exact (conj H1 (ex_intro _ w' (conj E C))).
Defined.

(** ** Outside a repository *)

Lemma load_repo_data_missing w :
  path_exists (disk w) (cwd w) (os_path_join ICVCS_DIR "repo_data.json") = false →
  load_repo_data w =
    (Raise SystemExit,
     World (disk w) (cwd w)
       (stdout w ++
        ["No repository found. Please run 'icvcs init <repo_name>' first."])
       (writes w)).
Proof.
  intros H. unfold load_repo_data. rewrite bind_run.
  unfold os_path_exists. rewrite ask_run, H. done.
Qed.

(** [add], [remove], [version], [commit] and [status] where there is no
    [.icvcs/repo_data.json]: the command prints where to start and ends
    with [SystemExit], and the disk is what it was. *)
Theorem no_repository_exit (c : command) (w : world) :
  loads_index c →
  path_exists (disk w) (cwd w) (os_path_join ICVCS_DIR "repo_data.json") = false →
  run_command c w =
    (Raise SystemExit,
     World (disk w) (cwd w)
       (stdout w ++
        ["No repository found. Please run 'icvcs init <repo_name>' first."])
       (writes w)).
Proof.
  intros Hc H. pose proof (load_repo_data_missing w H) as Hl.
  destruct c as [p wf|p|cmd name force now a d|now stamp m a|id|id| | | |loc n];
    try done; simpl.
  - unfold add. by rewrite bind_run, Hl.
  - unfold remove. by rewrite bind_run, Hl.
  - unfold version. by rewrite bind_run, Hl.
  - unfold commit. by rewrite bind_run, Hl.
  - unfold status. by rewrite !bind_run, Hl.
Qed.

Lemma no_repository_exit_witness :
  run_command (CCommit t0 t0 "first" "") bare_world =
    (Raise SystemExit,
     World (disk bare_world) (cwd bare_world)
       (stdout bare_world ++
        ["No repository found. Please run 'icvcs init <repo_name>' first."])
       (writes bare_world)).
Proof.
  apply (no_repository_exit (CCommit t0 t0 "first" "") bare_world I).
  by vm_compute.
Defined.

(** ** The index document *)

Lemma write_file_ok p cs c w w' :
  plain p cs → write_file p c w = (Ok (), w') →
  dirs_down (disk w) (cwd w) cs = true ∧ disk w !! (cwd w ++ cs) ≠ Some Dir ∧
  w' = World (<[cwd w ++ cs := File c]> (disk w)) (cwd w) (stdout w)
             (writes w ++ [cwd w ++ cs]).
Proof.
  intros Hp. unfold write_file. run_prim.
  destruct (resolve _ _ _) as [[|]|l] eqn:E; simpl; try done.
  apply (resolve_plain _ _ _ _ _ Hp) in E as [-> Hd].
  destruct (disk w !! (cwd w ++ cs)) as [[|]|] eqn:El; simpl; try done;
    by intros [= <-].
Qed.

(** What [save_repo_data] wrote is what [load_repo_data] reads: when the
    save succeeds, the load that follows returns the value saved and
    prints nothing. *)
Theorem save_then_load (rd : repo_data) (w : world) :
  (save_repo_data rd w).1 = Ok () →
  load_repo_data (save_repo_data rd w).2 = (Ok rd, (save_repo_data rd w).2).
Proof.
  unfold save_repo_data. rewrite bind_run.
  destruct (write_file _ _ w) as [[[]|e] w1] eqn:E; [|done]. intros _.
  apply (write_file_ok _ _ _ _ _ plain_index) in E as (Hd & Hn & ->).
  rewrite print_run. cbn [snd disk cwd stdout writes].
  apply dirs_down_2 in Hd as [H0 H1].
  pose proof (load_repo_data_spec
    (World (<[cwd w ++ [".icvcs"; "repo_data.json"] := File (IndexDoc rd)]>
              (disk w)) (cwd w)
           (stdout w ++ ["Repository data updated successfully."])
           (writes w ++ [cwd w ++ [".icvcs"; "repo_data.json"]]))) as Hl.
  rewrite (index_file_intro _ rd) in Hl; [done|..]; unfold icvcs_loc, index_loc;
    by look.
Qed.

Lemma save_then_load_witness :
  load_repo_data (save_repo_data index_with_captures fresh_repo).2 =
    (Ok index_with_captures, (save_repo_data index_with_captures fresh_repo).2).
Proof.
  apply (save_then_load index_with_captures fresh_repo). by vm_compute.
Defined.

(** One step of a run: a bind, a print, a lookup of the disk. *)
Ltac run1 :=
  first [ rewrite bind_run | rewrite print_run | rewrite ask_run
        | progress (unfold mret, M_ret)
        | progress cbv beta iota zeta
        | progress cbn [disk cwd stdout writes fst snd] ].

(** ** [add] *)

Lemma index_file_insert w rd rd' out wr :
  index_file w = Some rd →
  index_file (World (<[index_loc (cwd w) := File (IndexDoc rd')]> (disk w))
                    (cwd w) out wr) = Some rd'.
Proof.
  intros Hi. pose proof (index_file_after_save w rd rd' Hi) as H.
  rewrite (save_repo_data_spec w rd rd' Hi) in H. exact H.
Qed.

Lemma add_run path wf w rd :
  index_file w = Some rd →
  ∃ out,
    add path wf w =
      (Ok (),
       World (<[index_loc (cwd w) :=
                  File (IndexDoc (index_after_add (disk w) (cwd w) path wf rd))]>
                (disk w))
             (cwd w) (stdout w ++ out) (writes w ++ [index_loc (cwd w)])).
Proof.
  destruct w as [fs wd so wr]. cbn [disk cwd stdout writes]. intros Hi.
  pose proof (load_repo_data_spec (World fs wd so wr)) as Hl. rewrite Hi in Hl.
  assert (Hsave : ∀ r so',
    save_repo_data r (World fs wd so' wr) =
      (Ok (), World (<[index_loc wd := File (IndexDoc r)]> fs) wd
                    (so' ++ ["Repository data updated successfully."])
                    (wr ++ [index_loc wd]))).
  { intros r so'. apply (save_repo_data_spec (World fs wd so' wr) rd r).
    exact Hi. }
  unfold add, index_after_add, os_path_isfile, os_path_isdir.
  rewrite bind_run, Hl. rewrite bind_run, ask_run. cbn [disk cwd].
  destruct (path_isfile fs wd path).
  - destruct (bool_decide (path ∉ files rd)); repeat run1;
      rewrite Hsave, <- ?app_assoc; by eexists.
  - repeat run1. destruct (path_isdir fs wd path).
    + destruct (bool_decide (path ∉ dict_keys (directories rd))); destruct wf;
        repeat run1; rewrite Hsave, <- ?app_assoc; by eexists.
    + repeat run1. rewrite Hsave, <- ?app_assoc. by eexists.
Qed.

(** *** Lookups see the shape of the disk only *)

Lemma same_shape_insert fs l c c' :
  fs !! l = Some (File c) → same_shape fs (<[l := File c']> fs).
Proof.
  intros Hl k. destruct (decide (k = l)) as [->|Hk].
  - by rewrite lookup_insert_eq, Hl.
  - by rewrite lookup_insert_ne.
Qed.

Lemma same_shape_dir fs fs' k :
  same_shape fs fs' → fs !! k = Some Dir ↔ fs' !! k = Some Dir.
Proof.
  intros H. specialize (H k).
  destruct (fs !! k) as [[|]|], (fs' !! k) as [[|]|]; by split.
Qed.

Lemma walk_step_shape fs fs' acc c :
  same_shape fs fs' → walk_step fs acc c = walk_step fs' acc c.
Proof.
  intros H. destruct acc as [e|loc]; [done|]. unfold walk_step.
  pose proof (H loc) as Hl. pose proof (H (parent loc)) as Hp.
  destruct (fs !! loc) as [[|]|], (fs' !! loc) as [[|]|]; try done.
  destruct (decide (c = "" ∨ c = ".")); [done|].
  destruct (decide (c = "..")); [|done].
  by destruct (fs !! parent loc) as [[|]|], (fs' !! parent loc) as [[|]|].
Qed.

Lemma resolve_shape fs fs' wd p :
  same_shape fs fs' → resolve fs wd p = resolve fs' wd p.
Proof.
  intros H. unfold resolve. destruct (decide (p = "")); [done|].
  generalize (inr (if startswith p "/" then [] else wd) : errno + path).
  induction (split_slash p) as [|c cs IH]; intros acc; simpl; [done|].
  by rewrite (walk_step_shape fs fs' acc c H).
Qed.

Lemma node_of_shape fs fs' wd p :
  same_shape fs fs' → kind (node_of fs wd p) = kind (node_of fs' wd p).
Proof.
  intros H. unfold node_of. rewrite (resolve_shape fs fs' wd p H).
  destruct (resolve fs' wd p); [done|apply H].
Qed.

Lemma path_isfile_shape fs fs' wd p :
  same_shape fs fs' → path_isfile fs wd p = path_isfile fs' wd p.
Proof.
  intros H. unfold path_isfile. pose proof (node_of_shape fs fs' wd p H) as E.
  by destruct (node_of fs wd p) as [[|]|], (node_of fs' wd p) as [[|]|].
Qed.

Lemma path_isdir_shape fs fs' wd p :
  same_shape fs fs' → path_isdir fs wd p = path_isdir fs' wd p.
Proof.
  intros H. unfold path_isdir. pose proof (node_of_shape fs fs' wd p H) as E.
  by destruct (node_of fs wd p) as [[|]|], (node_of fs' wd p) as [[|]|].
Qed.

Lemma dirs_down_shape fs fs' loc q :
  same_shape fs fs' → dirs_down fs loc q = dirs_down fs' loc q.
Proof.
  intros H. revert loc. induction q as [|c q IH]; intros loc; simpl; [done|].
  pose proof (H loc) as Hl.
  destruct (fs !! loc) as [[|]|], (fs' !! loc) as [[|]|]; done.
Qed.

(** The files [os.walk] finds: the regular files below the top whose
    directories are all there. *)
Lemma elem_of_walk_files fs loc dn :
  dn ∈ walk_files fs loc ↔
  ∃ q name, kind (fs !! (loc ++ q)) = Some false ∧ last q = Some name ∧
            dirs_down fs loc q = true ∧ dn = (removelast q, name).
Proof.
  unfold walk_files. rewrite list_elem_of_omap. split.
  - intros ([k n] & Hin & Hsome). apply elem_of_map_to_list in Hin.
    simpl in Hsome. destruct n as [c|]; [|done].
    destruct (strip_prefix loc k) as [q|] eqn:Hq; [|done].
    apply strip_prefix_spec in Hq as ->.
    destruct (last q) as [name|] eqn:Hlast; [|done].
    destruct (dirs_down fs loc q) eqn:Hd; [|done].
    injection Hsome as <-. exists q, name. by rewrite Hin.
  - intros (q & name & Hk & Hlast & Hd & ->).
    destruct (fs !! (loc ++ q)) as [[c|]|] eqn:E; try done.
    exists (loc ++ q, File c). split; [by apply elem_of_map_to_list|].
    simpl. by rewrite strip_prefix_app, Hlast, Hd.
Qed.

Lemma walk_files_shape fs fs' loc dn :
  same_shape fs fs' → dn ∈ walk_files fs loc ↔ dn ∈ walk_files fs' loc.
Proof.
  intros H. rewrite !elem_of_walk_files.
  split; intros (q & name & Hk & Hlast & Hd & ->); exists q, name.
  - by rewrite <- (H (loc ++ q)), <- (dirs_down_shape fs fs' loc q H).
  - by rewrite (H (loc ++ q)), (dirs_down_shape fs fs' loc q H).
Qed.

Lemma walked_paths_shape fs fs' wd top x :
  same_shape fs fs' → x ∈ walked_paths fs wd top ↔ x ∈ walked_paths fs' wd top.
Proof.
  intros H. unfold walked_paths. rewrite (resolve_shape fs fs' wd top H).
  destruct (resolve fs' wd top) as [|loc]; [done|].
  rewrite !list_elem_of_fmap.
  split; intros (dn & -> & Hdn); exists dn; (split; [done|]);
    by apply (walk_files_shape fs fs' loc dn H).
Qed.

(** *** The capture list and the dict of directories *)

Section Capture.

Let step (acc : list string) (file_path : string) : list string :=
  if bool_decide (file_path ∈ acc) then acc else acc ++ [file_path].

Lemma capture_incl found acc x : x ∈ acc → x ∈ foldl step acc found.
Proof.
  revert acc. induction found as [|y found IH]; intros acc Hx; simpl; [done|].
  apply IH. unfold step. destruct (bool_decide (y ∈ acc)); [done|].
  apply elem_of_app. by left.
Qed.

Lemma capture_found found acc x : x ∈ found → x ∈ foldl step acc found.
Proof.
  revert acc. induction found as [|y found IH]; intros acc Hx; simpl;
    [by apply elem_of_nil in Hx|].
  apply elem_of_cons in Hx as [->|Hx]; [|by apply IH].
  apply capture_incl. unfold step.
  destruct (bool_decide (y ∈ acc)) eqn:E; [by apply bool_decide_eq_true in E|].
  apply elem_of_app. right. by constructor.
Qed.

Lemma capture_absorb found acc :
  (∀ x, x ∈ found → x ∈ acc) → foldl step acc found = acc.
Proof.
  induction found as [|y found IH]; intros H; simpl; [done|].
  unfold step at 2. rewrite bool_decide_eq_true_2 by (apply H; by left).
  apply IH. intros x Hx. apply H. by right.
Qed.

Lemma capture_NoDup found acc : NoDup acc → NoDup (foldl step acc found).
Proof.
  revert acc. induction found as [|y found IH]; intros acc Hnd; simpl; [done|].
  apply IH. unfold step.
  destruct (bool_decide (y ∈ acc)) eqn:E; [done|].
  apply bool_decide_eq_false in E. apply NoDup_app.
  split; [done|]. split; [|apply NoDup_singleton].
  by intros x Hx ->%list_elem_of_singleton.
Qed.

End Capture.

Lemma dict_get_set {V} (d : list (string * V)) k v :
  dict_get (dict_set d k v) k = Some v.
Proof.
  induction d as [|[k' v'] d IH]; simpl.
  - by rewrite decide_True.
  - destruct (decide (k = k')) as [->|Hk]; simpl.
    + by rewrite decide_True.
    + by rewrite decide_False.
Qed.

Lemma dict_set_set {V} (d : list (string * V)) k v v' :
  dict_set (dict_set d k v) k v' = dict_set d k v'.
Proof.
  induction d as [|[k' v''] d IH]; simpl.
  - by rewrite decide_True.
  - destruct (decide (k = k')) as [->|Hk]; simpl.
    + by rewrite decide_True.
    + by rewrite decide_False, IH.
Qed.

Lemma dict_keys_set {V} (d : list (string * V)) k v :
  dict_keys (dict_set d k v) =
  if bool_decide (k ∈ dict_keys d) then dict_keys d else dict_keys d ++ [k].
Proof.
  unfold dict_keys. induction d as [|[k' v'] d IH]; [done|].
  cbn [dict_set]. destruct (decide (k = k')) as [->|Hk];
    rewrite !fmap_cons; cbn [fst].
  - rewrite bool_decide_eq_true_2; [done|by left].
  - rewrite IH. destruct (bool_decide (k ∈ d.*1)) eqn:E.
    + apply bool_decide_eq_true in E.
      rewrite bool_decide_eq_true_2; [done|by right].
    + apply bool_decide_eq_false in E.
      rewrite bool_decide_eq_false_2; [done|].
      by intros [?|?]%elem_of_cons.
Qed.

Lemma dict_keys_set_elem {V} (d : list (string * V)) k v :
  k ∈ dict_keys (dict_set d k v).
Proof.
  rewrite dict_keys_set. destruct (bool_decide (k ∈ dict_keys d)) eqn:E.
  - by apply bool_decide_eq_true in E.
  - apply elem_of_app. right. by constructor.
Qed.

Lemma dict_keys_set_incl {V} (d : list (string * V)) k v x :
  x ∈ dict_keys d → x ∈ dict_keys (dict_set d k v).
Proof.
  rewrite dict_keys_set. destruct (bool_decide (k ∈ dict_keys d)); [done|].
  intros. apply elem_of_app. by left.
Qed.

Lemma dict_keys_set_NoDup {V} (d : list (string * V)) k v :
  NoDup (dict_keys d) → NoDup (dict_keys (dict_set d k v)).
Proof.
  rewrite dict_keys_set. destruct (bool_decide (k ∈ dict_keys d)) eqn:E; [done|].
  apply bool_decide_eq_false in E. intros Hnd. apply NoDup_app.
  split; [done|]. split; [|apply NoDup_singleton].
  by intros x Hx ->%list_elem_of_singleton.
Qed.

(** *** What [add] does to the index *)

Lemma index_after_add_again fs fs' wd path wf rd :
  same_shape fs fs' →
  index_after_add fs' wd path wf (index_after_add fs wd path wf rd) =
  index_after_add fs wd path wf rd.
Proof.
  intros H. unfold index_after_add.
  rewrite <- (path_isfile_shape fs fs' wd path H),
          <- (path_isdir_shape fs fs' wd path H).
  destruct (path_isfile fs wd path).
  { destruct (bool_decide (path ∉ files rd)) eqn:E.
    - simpl. rewrite bool_decide_eq_false_2; [done|].
      intros Hn. apply Hn, elem_of_app. right. by constructor.
    - by rewrite E. }
  destruct (path_isdir fs wd path); [|done].
  set (r1 := if bool_decide (path ∉ dict_keys (directories rd))
             then with_directories rd (dict_set (directories rd) path [])
             else rd).
  assert (Hr1 : path ∈ dict_keys (directories r1)).
  { unfold r1. destruct (bool_decide (path ∉ dict_keys (directories rd))) eqn:E.
    - simpl. apply dict_keys_set_elem.
    - apply bool_decide_eq_false in E. by apply dec_stable in E. }
  destruct wf.
  - set (cap := foldl _ (default [] (dict_get (directories r1) path))
                  (walked_paths fs wd path)).
    cbn [directories with_directories].
    rewrite bool_decide_eq_false_2
      by (intros Hn; apply Hn, dict_keys_set_elem).
    cbn [directories with_directories]. rewrite dict_get_set.
    cbn [default from_option]. unfold id.
    rewrite (capture_absorb (walked_paths fs' wd path) cap).
    + by rewrite dict_set_set.
    + intros x Hx%(walked_paths_shape fs fs' wd path x H).
      by apply capture_found.
  - rewrite bool_decide_eq_false_2; [done|]. by intros Hn.
Qed.

(** Running the same [add] a second time leaves the index, and the disk,
    as the first run left them: a file is not entered twice, a directory
    keeps its entry, and with [-wf] the second walk finds nothing that
    the first has not captured. *)
Theorem add_idempotent (path : string) (with_files : bool) (w : world)
    (rd : repo_data) :
  index_file w = Some rd →
  (add path with_files w).1 = Ok () ∧
  (add path with_files (add path with_files w).2).1 = Ok () ∧
  index_file (add path with_files (add path with_files w).2).2 =
    index_file (add path with_files w).2 ∧
  disk (add path with_files (add path with_files w).2).2 =
    disk (add path with_files w).2.
Proof.
  intros Hi. destruct (add_run path with_files w rd Hi) as [out E].
  rewrite E. cbn [fst snd].
  pose proof (index_file_insert w rd
                (index_after_add (disk w) (cwd w) path with_files rd)
                (stdout w ++ out) (writes w ++ [index_loc (cwd w)]) Hi) as Hi1.
  destruct (add_run path with_files _ _ Hi1) as [out' E'].
  rewrite E'. cbn [fst snd disk cwd].
  assert (Hsh : same_shape (disk w)
                  (<[index_loc (cwd w) :=
                       File (IndexDoc (index_after_add (disk w) (cwd w) path
                                         with_files rd))]> (disk w))).
  { apply index_file_inv in Hi as [_ Hl].
    apply (same_shape_insert _ _ _ _ Hl). }
  rewrite (index_after_add_again _ _ _ _ _ _ Hsh), insert_insert_eq.
  split; [done|]. split; [done|]. split; [|done].
  rewrite Hi1. by apply (index_file_insert w rd).
Qed.

Lemma add_idempotent_witness :
  (add "sub" true fresh_repo).1 = Ok () ∧
  (add "sub" true (add "sub" true fresh_repo).2).1 = Ok () ∧
  index_file (add "sub" true (add "sub" true fresh_repo).2).2 =
    index_file (add "sub" true fresh_repo).2 ∧
  disk (add "sub" true (add "sub" true fresh_repo).2).2 =
    disk (add "sub" true fresh_repo).2.
Proof.
  apply (add_idempotent "sub" true fresh_repo (RepoData "demo" [] [] [])).
  by vm_compute.
Defined.

(** [add] never untracks and never enters a path twice: what was tracked
    stays tracked, lists without repetition stay so, the name of the
    repository and its versions are kept; a path that is a file ends up
    among the files, a path that is a directory among the directories,
    with every file the walk finds in its capture list when [-wf] is
    given; and a path that is neither leaves the index as it was. *)
Theorem add_tracks (path : string) (with_files : bool) (w : world)
    (rd : repo_data) :
  index_file w = Some rd →
  ∃ rd', index_file (add path with_files w).2 = Some rd' ∧
    repo_name rd' = repo_name rd ∧ versions rd' = versions rd ∧
    (∀ x, x ∈ files rd → x ∈ files rd') ∧
    (∀ x, x ∈ dict_keys (directories rd) → x ∈ dict_keys (directories rd')) ∧
    (NoDup (files rd) → NoDup (files rd')) ∧
    (NoDup (dict_keys (directories rd)) →
     NoDup (dict_keys (directories rd'))) ∧
    (path_isfile (disk w) (cwd w) path = true → path ∈ files rd') ∧
    (path_isfile (disk w) (cwd w) path = false →
     path_isdir (disk w) (cwd w) path = true →
     path ∈ dict_keys (directories rd') ∧
     (with_files = true →
      ∀ x, x ∈ walked_paths (disk w) (cwd w) path →
           x ∈ default [] (dict_get (directories rd') path))) ∧
    (path_isfile (disk w) (cwd w) path = false →
     path_isdir (disk w) (cwd w) path = false → rd' = rd).
Proof.
  intros Hi. destruct (add_run path with_files w rd Hi) as [out E].
  rewrite E. cbn [snd]. eexists. split; [by apply (index_file_insert w rd)|].
  unfold index_after_add.
  destruct (path_isfile (disk w) (cwd w) path).
  { destruct (bool_decide (path ∉ files rd)) eqn:Ef.
    - apply bool_decide_eq_true in Ef.
      cbn [with_files_of repo_name versions files directories].
      split_and!; try done.
      + intros x Hx. apply elem_of_app. by left.
      + intros Hnd. apply NoDup_app. split; [done|].
        split; [|apply NoDup_singleton].
        by intros x Hx ->%list_elem_of_singleton.
      + intros _. apply elem_of_app. right. by constructor.
    - apply bool_decide_eq_false in Ef. apply dec_stable in Ef.
      split_and!; done. }
  destruct (path_isdir (disk w) (cwd w) path); [|split_and!; done].
  set (r1 := if bool_decide (path ∉ dict_keys (directories rd))
             then with_directories rd (dict_set (directories rd) path [])
             else rd).
  assert (R1 : repo_name r1 = repo_name rd ∧ versions r1 = versions rd ∧
               files r1 = files rd ∧
               path ∈ dict_keys (directories r1) ∧
               (∀ x, x ∈ dict_keys (directories rd) →
                     x ∈ dict_keys (directories r1)) ∧
               (NoDup (dict_keys (directories rd)) →
                NoDup (dict_keys (directories r1)))).
  { unfold r1. destruct (bool_decide (path ∉ dict_keys (directories rd))) eqn:Ed.
    - cbn [with_directories repo_name versions files directories].
      split_and!; try done.
      + apply dict_keys_set_elem.
      + intros x. apply dict_keys_set_incl.
      + apply dict_keys_set_NoDup.
    - apply bool_decide_eq_false in Ed. apply dec_stable in Ed. done. }
  destruct R1 as (Rn & Rv & Rf & Rp & Rk & Rnd).
  destruct with_files.
  - cbn [with_directories repo_name versions files directories].
    split_and!; try done; rewrite ?Rf; try done.
    + intros x Hx. by apply dict_keys_set_incl, Rk.
    + intros Hnd. by apply dict_keys_set_NoDup, Rnd.
    + intros _ _. split; [apply dict_keys_set_elem|].
      intros _ x Hx. rewrite dict_get_set. cbn [default from_option]. unfold id.
      by apply capture_found.
  - split_and!; try done; rewrite ?Rf; done.
Qed.

Lemma add_tracks_witness :
  index_file tracking_a = Some (RepoData "demo" ["a.txt"] [] []) ∧
  ∃ rd', index_file (add "sub" true tracking_a).2 = Some rd' ∧
         ∀ x, x ∈ ["a.txt"] → x ∈ files rd'.
Proof.
  assert (H : index_file tracking_a = Some (RepoData "demo" ["a.txt"] [] []))
    by (by vm_compute).
  destruct (add_tracks "sub" true tracking_a _ H) as (rd' & E & _ & _ & Hf & _).
  exact (conj H (ex_intro _ rd' (conj E Hf))).
Defined.

(** ** [remove] after [add] *)

Lemma remove_run path w rd :
  index_file w = Some rd →
  ∃ out,
    remove path w =
      (Ok (),
       World (<[index_loc (cwd w) :=
                  File (IndexDoc (index_after_remove (disk w) (cwd w) path rd))]>
                (disk w))
             (cwd w) (stdout w ++ out) (writes w ++ [index_loc (cwd w)])).
Proof.
  destruct w as [fs wd so wr]. cbn [disk cwd stdout writes]. intros Hi.
  pose proof (load_repo_data_spec (World fs wd so wr)) as Hl. rewrite Hi in Hl.
  assert (Hsave : ∀ r so',
    save_repo_data r (World fs wd so' wr) =
      (Ok (), World (<[index_loc wd := File (IndexDoc r)]> fs) wd
                    (so' ++ ["Repository data updated successfully."])
                    (wr ++ [index_loc wd]))).
  { intros r so'. apply (save_repo_data_spec (World fs wd so' wr) rd r).
    exact Hi. }
  unfold remove, index_after_remove, os_path_isfile, os_path_isdir.
  rewrite bind_run, Hl. rewrite bind_run, ask_run. cbn [disk cwd].
  destruct (path_isfile fs wd path).
  - destruct (bool_decide (path ∈ files rd)) eqn:Ef.
    + apply bool_decide_eq_true in Ef.
      destruct (list_remove_elem _ _ Ef) as [fs' ->]. cbn [default from_option].
      repeat run1. rewrite Hsave, <- ?app_assoc. by eexists.
    + repeat run1. rewrite Hsave, <- ?app_assoc. by eexists.
  - repeat run1. destruct (path_isdir fs wd path).
    + destruct (bool_decide (path ∈ dict_keys (directories rd)));
        repeat run1; rewrite Hsave, <- ?app_assoc; by eexists.
    + repeat run1. rewrite Hsave, <- ?app_assoc. by eexists.
Qed.

Lemma list_remove_snoc x xs : x ∉ xs → list_remove x (xs ++ [x]) = Some xs.
Proof.
  induction xs as [|y xs IH]; intros Hx; simpl.
  - by rewrite decide_True.
  - apply not_elem_of_cons in Hx as [Hxy Hx].
    rewrite decide_False by done. by rewrite IH.
Qed.

Lemma dict_del_set {V} (d : list (string * V)) k v :
  k ∉ dict_keys d → dict_del (dict_set d k v) k = d.
Proof.
  unfold dict_keys. induction d as [|[k' v'] d IH]; intros Hk; simpl.
  - by rewrite decide_True.
  - rewrite fmap_cons in Hk. apply not_elem_of_cons in Hk as [Hkk' Hk].
    cbn [fst] in Hkk'. rewrite decide_False by done. simpl.
    rewrite decide_False by done. by rewrite IH.
Qed.

Lemma index_after_remove_add fs fs' wd path wf rd :
  same_shape fs fs' →
  path ∉ files rd → path ∉ dict_keys (directories rd) →
  index_after_remove fs' wd path (index_after_add fs wd path wf rd) = rd.
Proof.
  intros H Hf Hd. unfold index_after_remove, index_after_add.
  rewrite <- (path_isfile_shape fs fs' wd path H),
          <- (path_isdir_shape fs fs' wd path H).
  destruct (path_isfile fs wd path).
  { rewrite (bool_decide_eq_true_2 (path ∉ files rd)) by done.
    cbn [with_files_of files].
    rewrite bool_decide_eq_true_2
      by (apply elem_of_app; right; by constructor).
    rewrite list_remove_snoc by done. by destruct rd. }
  destruct (path_isdir fs wd path); [|done].
  rewrite (bool_decide_eq_true_2 (path ∉ dict_keys (directories rd))) by done.
  destruct wf; cbn [with_directories directories].
  - rewrite bool_decide_eq_true_2 by apply dict_keys_set_elem.
    rewrite dict_set_set, dict_del_set by done. by destruct rd.
  - rewrite bool_decide_eq_true_2 by apply dict_keys_set_elem.
    rewrite dict_del_set by done. by destruct rd.
Qed.

(** [remove] undoes [add]: for a path that is not tracked, [add] followed
    by [remove] of the same path leaves the index as it was before the
    two, whether the path is a file, a directory (with [-wf] or without)
    or nothing at all. *)
Theorem remove_undoes_add (path : string) (with_files : bool) (w : world)
    (rd : repo_data) :
  index_file w = Some rd →
  path ∉ files rd → path ∉ dict_keys (directories rd) →
  (remove path (add path with_files w).2).1 = Ok () ∧
  index_file (remove path (add path with_files w).2).2 = Some rd ∧
  disk (remove path (add path with_files w).2).2 = disk w.
Proof.
  intros Hi Hf Hd. destruct (add_run path with_files w rd Hi) as [out E].
  rewrite E. cbn [fst snd].
  pose proof (index_file_insert w rd
                (index_after_add (disk w) (cwd w) path with_files rd)
                (stdout w ++ out) (writes w ++ [index_loc (cwd w)]) Hi) as Hi1.
  destruct (remove_run path _ _ Hi1) as [out' E'].
  rewrite E'. cbn [fst snd disk cwd].
  assert (Hsh : same_shape (disk w)
                  (<[index_loc (cwd w) :=
                       File (IndexDoc (index_after_add (disk w) (cwd w) path
                                         with_files rd))]> (disk w))).
  { apply index_file_inv in Hi as [_ Hl].
    apply (same_shape_insert _ _ _ _ Hl). }
  rewrite (index_after_remove_add _ _ _ _ _ _ Hsh Hf Hd), insert_insert_eq.
  split; [done|]. split; [by apply (index_file_insert w rd)|].
  apply insert_id. by apply index_file_inv in Hi as [_ Hl].
Qed.

Lemma remove_undoes_add_witness :
  index_file fresh_repo = Some (RepoData "demo" [] [] []) ∧
  (remove "sub" (add "sub" true fresh_repo).2).1 = Ok () ∧
  index_file (remove "sub" (add "sub" true fresh_repo).2).2 =
    Some (RepoData "demo" [] [] []) ∧
  disk (remove "sub" (add "sub" true fresh_repo).2).2 = disk fresh_repo.
Proof.
  assert (H : index_file fresh_repo = Some (RepoData "demo" [] [] []))
    by (by vm_compute).
  exact (conj H (remove_undoes_add "sub" true fresh_repo _ H
                   (not_elem_of_nil _) (not_elem_of_nil _))).
Defined.

(** ** The commands of [config] *)

Lemma plain_config_file : plain "icvcs_config.json" ["icvcs_config.json"].
Proof. apply plain_single. proper_const. Qed.

(** A lookup of a path of two names reads three places of the disk. *)
Lemma resolve_plain2_ext fs fs' wd p a b :
  plain p [a; b] →
  fs' !! wd = fs !! wd → fs' !! (wd ++ [a]) = fs !! (wd ++ [a]) →
  resolve fs' wd p = resolve fs wd p.
Proof.
  intros Hp H0 H1. rewrite !(resolve_plain_walk _ _ _ _ Hp).
  destruct Hp as (_ & _ & _ & _ & Hn).
  apply Forall_cons in Hn as [Ha Hn]. apply Forall_cons in Hn as [Hb _].
  cbn [foldl]. rewrite !(walk_step_proper _ _ a) by done. rewrite H0.
  destruct (fs !! wd) as [[|]|]; try done.
  rewrite !(walk_step_proper _ _ b) by done. by rewrite H1.
Qed.

Lemma node_of_plain2_ext fs fs' wd p a b :
  plain p [a; b] →
  fs' !! wd = fs !! wd → fs' !! (wd ++ [a]) = fs !! (wd ++ [a]) →
  fs' !! (wd ++ [a; b]) = fs !! (wd ++ [a; b]) →
  node_of fs' wd p = node_of fs wd p.
Proof.
  intros Hp H0 H1 H2. unfold node_of.
  rewrite (resolve_plain2_ext fs fs' wd p a b Hp H0 H1).
  destruct (resolve fs wd p) as [|l] eqn:E; [done|].
  by apply (resolve_plain _ _ _ _ _ Hp) in E as [-> _].
Qed.

Lemma read_file_node p w :
  (read_file p w).1 =
  match resolve (disk w) (cwd w) p with
  | inl ENOENT => Raise FileNotFoundError
  | inl ENOTDIR => Raise NotADirectoryError
  | inr _ =>
      match node_of (disk w) (cwd w) p with
      | Some (File c) => Ok c
      | Some Dir => Raise IsADirectoryError
      | None => Raise FileNotFoundError
      end
  end.
Proof.
  unfold read_file, node_of. run_prim.
  destruct (resolve _ _ _) as [[|]|l]; simpl; try done.
  by destruct (disk w !! l) as [[|]|].
Qed.

Lemma load_config_result w :
  (load_config w).1 =
  if path_exists (disk w) (cwd w) (os_path_join ICVCS_DIR "icvcs_config.json")
  then match (read_file (os_path_join ICVCS_DIR "icvcs_config.json") w).1 with
       | Ok (ConfigDoc cfg) => Ok cfg
       | Ok (Bytes _) => Raise JSONDecodeError
       | Ok _ => Raise KeyError
       | Raise e => Raise e
       end
  else Ok (Config "Unknown" "No description provided"
                  "No commit message provided").
Proof.
  unfold load_config. rewrite bind_run. unfold os_path_exists. rewrite ask_run.
  destruct (path_exists _ _ _); [|done].
  rewrite bind_run, (read_file_world _ w).
  destruct (read_file _ w).1 as [[]|]; done.
Qed.

(** [load_config] reads three places of the disk. *)
Lemma load_config_ext w w' :
  cwd w' = cwd w →
  disk w' !! cwd w = disk w !! cwd w →
  disk w' !! icvcs_loc (cwd w) = disk w !! icvcs_loc (cwd w) →
  disk w' !! (cwd w ++ [".icvcs"; "icvcs_config.json"]) =
    disk w !! (cwd w ++ [".icvcs"; "icvcs_config.json"]) →
  (load_config w').1 = (load_config w).1.
Proof.
  intros Hc H0 H1 H2. rewrite !load_config_result, !read_file_node.
  unfold path_exists. rewrite Hc.
  rewrite (node_of_plain2_ext _ _ _ _ _ _ plain_config H0 H1 H2).
  by rewrite (resolve_plain2_ext _ _ _ _ _ _ plain_config H0 H1).
Qed.

Lemma write_file_raise p c w e w' :
  write_file p c w = (Raise e, w') → w' = w.
Proof.
  unfold write_file. run_prim.
  destruct (resolve _ _ _) as [[|]|l]; simpl; [by intros [= _ <-]..|].
  destruct (disk w !! l) as [[|]|]; simpl; try done. by intros [= _ <-].
Qed.

Section ConfigProperties.
Variable set_item : content → string → string → result content.

Lemma update_icvcs_config_run key v w :
  (update_icvcs_config set_item key v w).2 =
    World (disk w) (cwd w)
          (stdout (update_icvcs_config set_item key v w).2) (writes w) ∨
  ∃ c c', disk w !! (cwd w ++ ["icvcs_config.json"]) = Some (File c) ∧
          (update_icvcs_config set_item key v w).2 =
            World (<[cwd w ++ ["icvcs_config.json"] := File c']> (disk w))
                  (cwd w)
                  (stdout w ++ [key +:+ " updated successfully."])
                  (writes w ++ [cwd w ++ ["icvcs_config.json"]]).
Proof.
  unfold update_icvcs_config. rewrite bind_run.
  unfold os_path_exists. rewrite ask_run.
  destruct (path_exists (disk w) (cwd w) "icvcs_config.json");
    cbn [negb]; cbv beta iota; [|left; by rewrite print_run].
  rewrite bind_run, (read_file_world _ w).
  destruct (read_file "icvcs_config.json" w).1 as [c|e] eqn:Er;
    [|left; by destruct w].
  destruct (set_item c key v) as [c'|e]; [|left; by destruct w].
  rewrite bind_run.
  destruct (write_file "icvcs_config.json" c' w) as [[[]|e] w1] eqn:Ew.
  - apply (write_file_ok _ _ _ _ _ plain_config_file) in Ew as (Hd & Hn & ->).
    rewrite print_run. right.
    destruct (disk w !! (cwd w ++ ["icvcs_config.json"])) as [[c0|]|] eqn:El.
    + by exists c0, c'.
    + done.
    + exfalso. unfold read_file in Er. revert Er. run_prim.
      rewrite (resolve_plain_ok _ _ _ _ plain_config_file Hd). simpl.
      by rewrite El.
  - left. cbn [snd]. apply write_file_raise in Ew as ->. by destruct w.
Qed.

(** The commands [config author], [config commit_message] and
    [config version_description] work on [icvcs_config.json] in the
    working directory, not on the one in [.icvcs]: whatever the key and
    the value, they change no other place of the disk, and [load_config]
    returns afterwards what it returned before, so the defaults of
    [commit] and [version] stay what they were. *)
Theorem config_commands_spare_defaults (key v : string) (w : world) :
  cwd (update_icvcs_config set_item key v w).2 = cwd w ∧
  (∀ k, k ≠ cwd w ++ ["icvcs_config.json"] →
        disk (update_icvcs_config set_item key v w).2 !! k = disk w !! k) ∧
  (load_config (update_icvcs_config set_item key v w).2).1 = (load_config w).1.
Proof.
  assert (H : cwd (update_icvcs_config set_item key v w).2 = cwd w ∧
              ∀ k, k ≠ cwd w ++ ["icvcs_config.json"] →
                disk (update_icvcs_config set_item key v w).2 !! k
                  = disk w !! k).
  { destruct (update_icvcs_config_run key v w) as [->|(c & c' & _ & ->)];
      cbn [disk cwd]; [done|].
    split; [done|]. intros k Hk. by rewrite lookup_insert_ne. }
  destruct H as [Hc Hd]. split; [done|]. split; [done|].
  apply load_config_ext; [done|apply Hd..]; unfold icvcs_loc; loc_neq.
Qed.

(** Right after [init], in a directory that has no [icvcs_config.json] of
    its own, the three commands find no file to change: each prints
    [Config file does not exist.] and leaves the disk as [init] left it. *)
Theorem config_commands_after_init (key v repo_name a d m : string)
    (w : world) :
  disk w !! cwd w = Some Dir →
  (∀ q, disk w !! (icvcs_loc (cwd w) ++ q) = None) →
  disk w !! (cwd w ++ ["icvcs_config.json"]) = None →
  update_icvcs_config set_item key v (init repo_name a d m w).2 =
    (Ok (), World (disk (init repo_name a d m w).2)
                  (cwd (init repo_name a d m w).2)
                  (stdout (init repo_name a d m w).2 ++
                   ["Config file does not exist."])
                  (writes (init repo_name a d m w).2)).
Proof.
  intros Hwd Hnone Hcfg. rewrite (init_run _ _ _ _ _ Hwd Hnone).
  cbn [snd disk cwd stdout writes].
  unfold update_icvcs_config. rewrite bind_run.
  unfold os_path_exists. rewrite ask_run. cbn [disk cwd].
  unfold path_exists.
  rewrite (node_of_plain _ ["icvcs_config.json"] _ _ plain_config_file).
  - unfold initialized, journal_loc, index_loc, latest_loc, commits_loc,
      versions_loc, icvcs_loc. look. rewrite Hcfg.
    rewrite bool_decide_eq_false_2 by (by intros [? ?]).
    cbn [negb]. by rewrite print_run.
  - apply dirs_down_1. unfold initialized, journal_loc, index_loc, latest_loc,
      commits_loc, versions_loc, icvcs_loc. by look.
Qed.

End ConfigProperties.

Lemma config_commands_after_init_witness :
  disk bare_world !! (cwd bare_world ++ ["icvcs_config.json"]) = None ∧
  change_author (λ c _ _, Ok c) "you" (init "demo" "me" "" "" bare_world).2 =
    (Ok (), World (disk (init "demo" "me" "" "" bare_world).2)
                  (cwd (init "demo" "me" "" "" bare_world).2)
                  (stdout (init "demo" "me" "" "" bare_world).2 ++
                   ["Config file does not exist."])
                  (writes (init "demo" "me" "" "" bare_world).2)).
Proof.
  assert (H0 : disk bare_world !! cwd bare_world = Some Dir) by (by vm_compute).
  assert (H2 : disk bare_world !! (cwd bare_world ++ ["icvcs_config.json"])
               = None) by (by vm_compute).
  exact (conj H2 (config_commands_after_init (λ c _ _, Ok c) "author" "you"
                    "demo" "me" "" "" bare_world H0 bare_world_no_icvcs H2)).
Defined.

(** ** [commit] and the journal *)

Lemma load_config_world w : load_config w = ((load_config w).1, w).
Proof.
  unfold load_config. rewrite bind_run. unfold os_path_exists. rewrite ask_run.
  destruct (path_exists _ _ _); [|done].
  rewrite bind_run, (read_file_world _ w).
  destruct (read_file _ w).1 as [[]|]; done.
Qed.

Lemma load_repo_data_ok w rd w' :
  load_repo_data w = (Ok rd, w') → w' = w ∧ index_file w = Some rd.
Proof.
  pose proof (load_repo_data_spec w) as H.
  destruct (index_file w) as [rd0|].
  - rewrite H. by intros [= <- <-].
  - destruct H as (e & w1 & -> & _). done.
Qed.

Lemma plain_commit_metadata id :
  proper_name id →
  plain (os_path_join (os_path_join COMMITS_DIR id) "metadata.json")
        [".icvcs"; "commits"; id; "metadata.json"].
Proof.
  intros Hid. apply (plain_join _ [_; _; _]); [by apply plain_commit_dir|].
  proper_const.
Qed.

Lemma commit_with_ok rd cfg now stamp m a w w' h :
  journal_file w = Some h →
  commit_with rd cfg now stamp m a w = (Ok (), w') →
  cwd w' = cwd w ∧
  journal_file w' =
    Some (h ++ [CommitMeta (strftime_YmdHMS now) (isoformat stamp)
                  (or_default m (default_commit_message cfg))
                  (or_default a (default_author cfg))]).
Proof.
  intros Hj. pose proof (strftime_proper now) as Hn.
  pose proof (plain_commit_dir _ Hn) as Hp.
  unfold commit_with. set (id := strftime_YmdHMS now) in *.
  assert (∀ {A} (m0 : M A) w r w',
            changes_within (region [".icvcs"; "commits"; id]) m0 →
            m0 w = (r, w') → journal_file w = Some h →
            cwd w' = cwd w ∧ journal_file w' = Some h) as Hkeep.
  { intros A m0 w0 r0 w1 Hm. apply (journal_kept _ _ _ _ _ _ Hm).
    intros wd.
    destruct (storage_region_spares "commits" id wd) as (? & ? & ? & _);
      auto. }
  intros E.
  apply bind_ok_inv in E as (u1 & w1 & E1 & E).
  destruct (Hkeep _ _ _ _ _ (cw_makedirs_storage _ _ _ Hp ltac:(auto)) E1 Hj)
    as [C1 Hj1].
  apply bind_ok_inv in E as (u2 & w2 & E2 & E).
  destruct (Hkeep _ _ _ _ _ (cw_copy_tracked_files _ _ _ _ Hp) E2 Hj1)
    as [C2 Hj2].
  apply bind_ok_inv in E as (u3 & w3 & E3 & E).
  destruct (Hkeep _ _ _ _ _
              (cw_copy_tracked_directories _ _ _ _ _ Hp ltac:(auto)) E3 Hj2)
    as [C3 Hj3].
  apply bind_ok_inv in E as ([] & w4 & E4 & E).
  apply (write_file_ok _ _ _ _ _ (plain_commit_metadata id Hn)) in E4
    as (_ & _ & ->).
  assert (Hj4 : journal_file
                  (World (<[cwd w3 ++ [".icvcs"; "commits"; id; "metadata.json"]
                              := File (CommitMetaDoc
                                   (CommitMeta id (isoformat stamp)
                                      (or_default m (default_commit_message cfg))
                                      (or_default a (default_author cfg))))]>
                            (disk w3)) (cwd w3) (stdout w3)
                         (writes w3 ++
                          [cwd w3 ++ [".icvcs"; "commits"; id; "metadata.json"]]))
                = Some h).
  { destruct (journal_file_inv _ _ Hj3) as (J0 & J1 & J2).
    apply journal_file_intro; cbn [disk cwd];
      unfold icvcs_loc, journal_loc in *; by look. }
  revert E. set (w4 := World _ _ _ _) in *.
  destruct (journal_file_inv _ _ Hj4) as (J0 & J1 & J2).
  rewrite bind_run.
  rewrite (read_file_run _ _ (HistoryDoc h) w4 plain_journal)
    by first [by apply dirs_down_2|done].
  intros E. apply bind_ok_inv in E as ([] & w5 & E5 & E).
  apply (write_file_ok _ _ _ _ _ plain_journal) in E5 as (_ & _ & ->).
  rewrite print_run in E. injection E as <-.
  destruct (journal_file_inv _ _ Hj3) as (K0 & K1 & K2).
  unfold w4. cbn [disk cwd].
  split; [congruence|].
  apply journal_file_intro; cbn [disk cwd]; unfold icvcs_loc, journal_loc in *;
    by look.
Qed.

(** A commit that succeeds is the last entry of the journal: it is
    appended under the identifier taken from the clock, with the time of
    its metadata, and with the message and the author typed at the
    prompts or, for an empty answer, the defaults of the configuration;
    [get_last_commit_info] then reports this commit. *)
Theorem commit_is_journalled (now stamp : datetime) (m a : string) (w : world)
    (h : list commit_meta) :
  journal_file w = Some h →
  (commit now stamp m a w).1 = Ok () →
  ∃ cfg, (load_config w).1 = Ok cfg ∧
    let entry :=
      CommitMeta (strftime_YmdHMS now) (isoformat stamp)
        (or_default m (default_commit_message cfg))
        (or_default a (default_author cfg)) in
    history (commit now stamp m a w).2 =
      (Ok (h ++ [entry]), (commit now stamp m a w).2) ∧
    get_last_commit_info (commit now stamp m a w).2 =
      (Ok ("ID: " +:+ commit_id entry +:+ ", Author: " +:+ author entry +:+
           ", Message: " +:+ message entry +:+
           ", Timestamp: " +:+ timestamp entry),
       (commit now stamp m a w).2).
Proof.
  intros Hj.
  destruct (commit now stamp m a w) as [r w'] eqn:E. cbn [fst snd].
  intros ->. unfold commit in E.
  apply bind_ok_inv in E as (rd & w1 & E1 & E).
  apply load_repo_data_ok in E1 as [-> _].
  apply bind_ok_inv in E as (cfg & w2 & E2 & E).
  rewrite load_config_world in E2. injection E2 as Hcfg <-.
  exists cfg. split; [done|]. cbv zeta.
  destruct (commit_with_ok _ _ _ _ _ _ _ _ _ Hj E) as [Hc Hj'].
  pose proof (journal_file_history _ _ Hj') as Hh.
  split; [done|].
  unfold get_last_commit_info. rewrite bind_run.
  unfold os_path_exists. rewrite ask_run.
  destruct (journal_file_inv _ _ Hj') as (J0 & J1 & J2).
  unfold path_exists.
  rewrite (node_of_plain _ _ _ _ plain_journal) by (by apply dirs_down_2).
  unfold journal_loc in J2. rewrite J2, bool_decide_eq_true_2 by (by eexists).
  cbn [negb]. rewrite bind_run, Hh, last_snoc. done.
Qed.

Lemma commit_is_journalled_witness :
  journal_file tracking_a = Some [] ∧
  ∃ cfg, (load_config tracking_a).1 = Ok cfg ∧
    get_last_commit_info (commit t0 t1 "" "" tracking_a).2 =
      (Ok ("ID: " +:+ strftime_YmdHMS t0 +:+
           ", Author: " +:+ or_default "" (default_author cfg) +:+
           ", Message: " +:+ or_default "" (default_commit_message cfg) +:+
           ", Timestamp: " +:+ isoformat t1),
       (commit t0 t1 "" "" tracking_a).2).
Proof.
  assert (Hj : journal_file tracking_a = Some []) by (by vm_compute).
  assert (Hr : (commit t0 t1 "" "" tracking_a).1 = Ok ()) by (by vm_compute).
  destruct (commit_is_journalled t0 t1 "" "" tracking_a [] Hj Hr)
    as (cfg & Hcfg & _ & Hinfo).
  exact (conj Hj (ex_intro _ cfg (conj Hcfg Hinfo))).
Defined.

(** ** Deleting storage *)

Lemma rmtree_at p loc c w :
  resolve (disk w) (cwd w) p = inr loc → disk w !! loc = Some Dir →
  last (split_slash p) = Some c → c ≠ "." → c ≠ ".." →
  shutil_rmtree p w =
    (Ok (), World (delete loc (remove_below loc (disk w))) (cwd w) (stdout w)
                  (writes w ++ [loc; loc])).
Proof.
  intros Hr Hl Hc H1 H2. unfold shutil_rmtree. run_prim.
  rewrite Hr. simpl. rewrite Hl, Hc. simpl.
  destruct (decide (c = "." ∨ c = "..")) as [[?|?]|_]; [done..|].
  cbn [disk cwd stdout writes]. by rewrite <- app_assoc.
Qed.

(** What is left of the disk when the tree at [loc] is gone. *)
Lemma lookup_rmtree (loc : path) (fs : filesystem) (k : path) :
  delete loc (remove_below loc fs) !! k =
    if within loc k then None else fs !! k.
Proof.
  destruct (decide (k = loc)) as [->|Hk].
  - by rewrite lookup_delete_eq, within_refl.
  - rewrite lookup_delete_ne by done. rewrite lookup_remove_below.
    unfold below, within. destruct (strip_prefix loc k) as [[|c q]|] eqn:E;
      try done.
    apply strip_prefix_spec in E. rewrite app_nil_r in E. done.
Qed.

Lemma split_slash_join cs :
  cs ≠ [] → Forall (λ c, has_slash c = false) cs →
  split_slash (join_slash cs) = cs.
Proof.
  induction cs as [|c cs IH]; [done|]. intros _ Hcs.
  apply Forall_cons in Hcs as [Hc Hcs]. destruct cs as [|c' cs].
  - simpl. rewrite ?string_app_nil_r. by apply split_slash_noslash.
  - change (join_slash (c :: c' :: cs))
      with (c +:+ String "/" (join_slash (c' :: cs))).
    rewrite split_slash_app, split_slash_noslash by done.
    by rewrite IH.
Qed.

(** [remove_commit] of a commit that is stored, [latest] included,
    deletes the whole tree of that commit and nothing else: every place
    outside it, the journal and the index among them, is as it was. *)
Theorem remove_commit_deletes (id : string) (w : world) :
  proper_name id →
  disk w !! cwd w = Some Dir →
  disk w !! icvcs_loc (cwd w) = Some Dir →
  disk w !! commits_loc (cwd w) = Some Dir →
  disk w !! (commits_loc (cwd w) ++ [id]) = Some Dir →
  ∃ w', remove_commit id w = (Ok (), w') ∧ cwd w' = cwd w ∧
        stdout w' = stdout w ++ ["Commit '" +:+ id +:+ "' removed successfully."] ∧
        ∀ k, disk w' !! k =
             if within (commits_loc (cwd w) ++ [id]) k then None
             else disk w !! k.
Proof.
  intros Hid H0 H1 H2 H3. pose proof (plain_commit_dir id Hid) as Hp.
  unfold icvcs_loc, commits_loc in *. rewrite <- app_assoc in H3. cbn [app] in H3.
  assert (Hd : dirs_down (disk w) (cwd w) [".icvcs"; "commits"; id] = true)
    by (by apply dirs_down_3).
  unfold remove_commit. rewrite bind_run. unfold os_path_exists.
  rewrite ask_run. unfold path_exists.
  rewrite (node_of_plain _ _ _ _ Hp Hd), H3.
  rewrite bool_decide_eq_true_2 by (by eexists).
  rewrite bind_run.
  rewrite (rmtree_at _ (cwd w ++ [".icvcs"; "commits"; id]) id).
  - rewrite print_run. eexists. split; [reflexivity|]. cbn [disk cwd stdout].
    split; [done|]. split; [done|]. intros k.
    rewrite lookup_rmtree, <- app_assoc. done.
  - by apply resolve_plain_ok.
  - done.
  - destruct Hp as (_ & _ & _ & -> & _). done.
  - by destruct Hid as (_ & ? & _).
  - by destruct Hid as (_ & _ & ? & _).
Qed.

Lemma remove_commit_deletes_witness :
  ∃ w', remove_commit "latest" pushed = (Ok (), w') ∧ cwd w' = cwd pushed ∧
        stdout w' = stdout pushed ++ ["Commit 'latest' removed successfully."] ∧
        ∀ k, disk w' !! k =
             if within (commits_loc (cwd pushed) ++ ["latest"]) k then None
             else disk pushed !! k.
Proof.
  apply (remove_commit_deletes "latest" pushed); by vm_compute.
Defined.

(** An identifier that is an absolute path makes [os.path.join] drop
    [.icvcs/commits]: [remove_commit] then deletes the directory at that
    path, wherever it is on the disk, and says that the commit was
    removed. *)
Theorem remove_commit_absolute (cs : list string) (w : world) :
  cs ≠ [] → Forall proper_name cs →
  dirs_down (disk w) [] cs = true → disk w !! cs = Some Dir →
  remove_commit ("/" +:+ join_slash cs) w =
    (Ok (),
     World (delete cs (remove_below cs (disk w))) (cwd w)
           (stdout w ++ ["Commit '" +:+ ("/" +:+ join_slash cs) +:+
                         "' removed successfully."])
           (writes w ++ [cs; cs])).
Proof.
  intros Hne Hcs Hd Hl.
  assert (Hns : Forall (λ c, has_slash c = false) cs).
  { eapply Forall_impl; [exact Hcs|]. by intros c (_ & _ & _ & ?). }
  assert (Hst : startswith ("/" +:+ join_slash cs) "/" = true).
  { rewrite startswith_slash_app by done. by vm_compute. }
  assert (Hj : os_path_join COMMITS_DIR ("/" +:+ join_slash cs)
               = "/" +:+ join_slash cs).
  { unfold os_path_join. by rewrite Hst. }
  assert (Hs : split_slash ("/" +:+ join_slash cs) = "" :: cs).
  { change ("/" +:+ join_slash cs) with (String "/" (join_slash cs)).
    cbn [split_slash]. change (Ascii.eqb "/" "/") with true. cbv iota.
    by rewrite split_slash_join. }
  assert (Hroot : disk w !! [] = Some Dir).
  { destruct cs as [|c cs]; [done|]. simpl in Hd.
    by destruct (disk w !! []) as [[|]|]. }
  assert (Hr : resolve (disk w) (cwd w) ("/" +:+ join_slash cs) = inr cs).
  { unfold resolve. rewrite decide_False by done. rewrite Hs.
    rewrite Hst. cbn [foldl]. unfold walk_step at 2. rewrite Hroot.
    rewrite decide_True by (by left).
    by rewrite (walk_proper_ok _ _ Hcs [] Hd). }
  unfold remove_commit. rewrite Hj, bind_run. unfold os_path_exists.
  rewrite ask_run. unfold path_exists, node_of. rewrite Hr, Hl.
  rewrite bool_decide_eq_true_2 by (by eexists).
  destruct (last cs) as [c|] eqn:Hlast; [|by apply last_None in Hlast].
  assert (Hc : proper_name c).
  { apply last_Some in Hlast as [l' ->]. apply Forall_app in Hcs as [_ Hcs].
    by apply Forall_cons in Hcs as [? _]. }
  rewrite bind_run, (rmtree_at _ cs c).
  - by rewrite print_run.
  - done.
  - done.
  - rewrite Hs. destruct cs; [done|]. exact Hlast.
  - by destruct Hc as (_ & ? & _).
  - by destruct Hc as (_ & _ & ? & _).
Qed.

Lemma remove_commit_absolute_witness :
  remove_commit "/w/sub" pushed =
    (Ok (),
     World (delete ["w"; "sub"] (remove_below ["w"; "sub"] (disk pushed)))
           (cwd pushed)
           (stdout pushed ++ ["Commit '/w/sub' removed successfully."])
           (writes pushed ++ [["w"; "sub"]; ["w"; "sub"]])).
Proof.
  apply (remove_commit_absolute ["w"; "sub"] pushed).
  - done.
  - repeat constructor; proper_const.
  - by vm_compute.
  - by vm_compute.
Defined.




(** ** The commands that only read *)

Lemma quiet_try {A} (m : M A) : quiet m → quiet (try m).
Proof.
  intros Hm w r w'. unfold try. destruct (m w) as [r1 w1] eqn:E.
  intros [= <- <-]. by apply (Hm _ _ _ E).
Qed.

Lemma quiet_for_each {A} (xs : list A) (body : A → M unit) :
  (∀ x, quiet (body x)) → quiet (for_each xs body).
Proof.
  intros Hb. induction xs as [|x xs IH]; simpl; [apply quiet_ret|].
  apply quiet_bind; [apply Hb|by intros _].
Qed.

Lemma quiet_fold_each {A S} (xs : list A) (s : S) (body : S → A → M S) :
  (∀ s x, quiet (body s x)) → quiet (fold_each xs s body).
Proof.
  intros Hb. revert s. induction xs as [|x xs IH]; intros s; simpl;
    [apply quiet_ret|].
  apply quiet_bind; [apply Hb|apply IH].
Qed.

Lemma quiet_history : quiet history.
Proof. unfold history. repeat quiet_step. Qed.

Lemma quiet_list_commit_history : quiet list_commit_history.
Proof.
  unfold list_commit_history. quiet_step; [quiet_step|].
  quiet_step; [quiet_step|]. quiet_step; [apply quiet_history|].
  quiet_step; [quiet_step|]. quiet_step; [quiet_step|].
  apply quiet_for_each. intros e. repeat quiet_step.
Qed.

Lemma quiet_get_last_commit_info : quiet get_last_commit_info.
Proof.
  unfold get_last_commit_info. quiet_step; [quiet_step|].
  quiet_step; [quiet_step|]. quiet_step; [apply quiet_history|].
  repeat quiet_step.
Qed.

Lemma quiet_print_lines none xs : quiet (print_lines none xs).
Proof.
  unfold print_lines. quiet_step; [quiet_step|].
  apply quiet_for_each. intros x. quiet_step.
Qed.

Lemma quiet_status : quiet status.
Proof.
  unfold status. quiet_step; [apply quiet_load_repo_data|].
  quiet_step; [quiet_step|]. quiet_step.
  { apply quiet_fold_each. intros s x. unfold classify. repeat quiet_step. }
  do 3 (quiet_step; [quiet_step|]).
  quiet_step; [apply quiet_get_last_commit_info|].
  repeat first [ apply quiet_print_lines | quiet_step ].
Qed.

Lemma quiet_load_version_files v : quiet (load_version_files v).
Proof.
  unfold load_version_files. quiet_step; [apply quiet_try, quiet_read_file|].
  repeat quiet_step.
Qed.

Lemma quiet_load_file_content v f : quiet (load_file_content v f).
Proof.
  unfold load_file_content. quiet_step; [apply quiet_try, quiet_read_file|].
  repeat quiet_step.
Qed.

(** [status], [commit history], the line about the last commit and
    [compare] only read: whatever they print and however they end, an
    uncaught exception included, the disk is the one they started on,
    and they wrote to no file. *)
Theorem readers_write_nothing (repr_list : list string → string)
    (unified_diff : text → text → list string) (version1 version2 : string) :
  quiet status ∧ quiet list_commit_history ∧ quiet get_last_commit_info ∧
  quiet (compare_versions repr_list unified_diff version1 version2).
Proof.
  split; [apply quiet_status|]. split; [apply quiet_list_commit_history|].
  split; [apply quiet_get_last_commit_info|].
  unfold compare_versions.
  quiet_step; [apply quiet_load_version_files|].
  quiet_step; [apply quiet_load_version_files|].
  quiet_step; [quiet_step|].
  assert (Hloop : ∀ fs1 fs2,
    quiet (print ("Comparing versions " +:+ version1 +:+ " and " +:+ version2
                  +:+ "...
") ;;
           for_each (all_files fs1 fs2)
             (compare_file unified_diff version1 version2))).
  { intros fs1 fs2. quiet_step; [quiet_step|].
    apply quiet_for_each. intros f. unfold compare_file.
    quiet_step; [apply quiet_load_file_content|].
    quiet_step; [apply quiet_load_file_content|].
    quiet_step.
    - quiet_step; [quiet_step|]. quiet_step; [|quiet_step].
      unfold show_diff. apply quiet_for_each. intros l. quiet_step.
    - quiet_step. }
  destruct a as [fs1|]; [|apply quiet_ret].
  destruct a0 as [fs2|]; [apply Hloop|apply quiet_ret].
Qed.

(** ** [push] without an identifier *)

Lemma str_le_trans a b c : str_le a b → str_le b c → str_le a c.
Proof.
  unfold str_le, String.leb. revert b c.
  induction a as [|x a IH]; intros [|y b] [|z c]; cbn [String.compare];
    try done.
  unfold Ascii.compare.
  destruct (N.compare_spec (N_of_ascii x) (N_of_ascii y)) as [Exy|Lxy|Gxy];
    [|intros _|done];
    (destruct (N.compare_spec (N_of_ascii y) (N_of_ascii z)) as [Eyz|Lyz|Gyz];
     [| |done]).
  - rewrite Exy, Eyz, N.compare_refl. apply IH.
  - intros _ _. rewrite Exy.
    by destruct (N.compare_spec (N_of_ascii y) (N_of_ascii z)); try lia.
  - intros _. rewrite <- Eyz.
    by destruct (N.compare_spec (N_of_ascii x) (N_of_ascii y)); try lia.
  - intros _.
    by destruct (N.compare_spec (N_of_ascii x) (N_of_ascii z)); try lia.
Qed.

Global Instance str_le_transitive : Transitive str_le.
Proof. intros a b c. apply str_le_trans. Qed.

Global Instance str_le_total : Total str_le.
Proof. intros a b. apply String.leb_total. Qed.

Lemma list_remove_split x xs ys :
  list_remove x xs = Some ys →
  ∃ l1 l2, xs = l1 ++ x :: l2 ∧ ys = l1 ++ l2.
Proof.
  revert ys. induction xs as [|y xs IH]; intros ys; simpl; [done|].
  destruct (decide (x = y)) as [->|Hxy].
  - intros [= <-]. by exists [], xs.
  - destruct (list_remove x xs) as [ys'|]; [|done]. intros [= <-].
    destruct (IH _ eq_refl) as (l1 & l2 & -> & ->). by exists (y :: l1), l2.
Qed.

(** The entries [push()] chooses from: the listing sorted, [latest] taken
    out. The last one is the greatest, and it is not [latest]. *)
Lemma sorted_candidates listing c :
  NoDup listing →
  last (if bool_decide ("latest" ∈ sorted listing)
        then default (sorted listing) (list_remove "latest" (sorted listing))
        else sorted listing) = Some c →
  c ∈ listing ∧ c ≠ "latest" ∧
  ∀ x, x ∈ listing → x ≠ "latest" → str_le x c.
Proof.
  intros Hnd. unfold sorted.
  pose proof (StronglySorted_merge_sort str_le listing) as Hs.
  pose proof (merge_sort_Permutation str_le listing) as Hp.
  assert (Hnd' : NoDup (merge_sort str_le listing)) by (by rewrite Hp).
  set (L := merge_sort str_le listing) in *.
  assert (Hrefl : ∀ x, str_le x x).
  { intros x. by destruct (String.leb_total x x). }
  destruct (bool_decide ("latest" ∈ L)) eqn:E.
  - apply bool_decide_eq_true in E.
    destruct (list_remove_elem _ _ E) as [L' HL']. rewrite HL'.
    change (default L (Some L')) with L'.
    destruct (list_remove_split _ _ _ HL') as (l1 & l2 & HL & HL2). subst L'.
    rewrite HL in Hs, Hnd'. intros Hlast.
    apply last_Some in Hlast as [l Hl].
    assert (Hc : c ∈ l1 ++ l2) by (rewrite Hl; apply elem_of_app; right; by left).
    apply NoDup_app in Hnd' as (N1 & N2 & N3).
    apply NoDup_cons in N3 as [N3 N4].
    assert (Hin : ∀ x, x ∈ l1 ++ l2 → x ∈ listing).
    { intros x Hx. rewrite <- Hp. unfold L at 1. fold L. rewrite HL.
      apply elem_of_app in Hx as [?|?]; apply elem_of_app; [by left|].
      right. by right. }
    split; [by apply Hin|]. split.
    { intros ->. apply elem_of_app in Hc as [Hc|Hc]; [|done].
      apply (N2 _ Hc). by left. }
    intros x Hx Hxl. rewrite <- Hp in Hx. fold L in Hx. rewrite HL in Hx.
    assert (Hx' : x ∈ l1 ++ l2).
    { apply elem_of_app in Hx as [?|[?|?]%elem_of_cons]; [|done|];
        apply elem_of_app; auto. }
    assert (Hs' : StronglySorted str_le (l1 ++ l2)).
    { apply StronglySorted_app_2.
      - intros x1 x2 H1 H2.
        apply (StronglySorted_app_1_elem_of _ _ _ _ _ Hs H1). by right.
      - by apply StronglySorted_app_1_l in Hs.
      - apply StronglySorted_app_1_r in Hs.
        by apply StronglySorted_inv in Hs as [? _]. }
    rewrite Hl in Hs', Hx'.
    apply elem_of_app in Hx' as [Hx' | ->%list_elem_of_singleton]; [|done].
    apply (StronglySorted_app_1_elem_of _ _ _ _ _ Hs' Hx'). by left.
  - apply bool_decide_eq_false in E. intros Hlast.
    apply last_Some in Hlast as [l Hl].
    assert (Hc : c ∈ L) by (rewrite Hl; apply elem_of_app; right; by left).
    split; [by rewrite <- Hp|]. split; [by intros ->|].
    intros x Hx _. rewrite <- Hp in Hx. fold L in Hx. rewrite Hl in Hx, Hs.
    apply elem_of_app in Hx as [Hx | ->%list_elem_of_singleton]; [|done].
    apply (StronglySorted_app_1_elem_of _ _ _ _ _ Hs Hx). by left.
Qed.

Lemma os_listdir_inv p cs w l :
  plain p cs → (os_listdir p w).1 = Ok l →
  os_listdir p w = (Ok l, w) ∧
  dirs_down (disk w) (cwd w) cs = true ∧
  disk w !! (cwd w ++ cs) = Some Dir ∧
  l = elements (child_names (disk w) (cwd w ++ cs)).
Proof.
  intros Hp. unfold os_listdir. run_prim.
  destruct (resolve _ _ _) as [[|]|loc] eqn:E; simpl; try done.
  apply (resolve_plain _ _ _ _ _ Hp) in E as [-> Hd].
  destruct (disk w !! (cwd w ++ cs)) as [[|]|]; simpl; try done.
  by intros [= <-].
Qed.

(** [push()] without an identifier is [push(c)] for the entry [c] of
    [.icvcs/commits] that is greatest in the order of strings, [latest]
    left aside: the two calls do the same from the same world. *)
Theorem push_default_is_greatest (w : world) (listing : list string)
    (x : string) :
  (os_listdir COMMITS_DIR w).1 = Ok listing →
  x ∈ listing → x ≠ "latest" →
  ∃ c, c ∈ listing ∧ c ≠ "latest" ∧
       (∀ y, y ∈ listing → y ≠ "latest" → str_le y c) ∧
       push None w = push (Some c) w.
Proof.
  intros Hl Hx Hxl.
  destruct (os_listdir_inv _ _ _ _ plain_commits Hl) as (Hrun & Hd & Hc & Hlist).
  assert (Hnd : NoDup listing) by (rewrite Hlist; apply NoDup_elements).
  set (cands := if bool_decide ("latest" ∈ sorted listing)
                then default (sorted listing)
                       (list_remove "latest" (sorted listing))
                else sorted listing).
  assert (Hne : cands ≠ []).
  { assert (x ∈ cands); [|by intros E; rewrite E in *; apply elem_of_nil in H].
    assert (Hxs : x ∈ sorted listing).
    { unfold sorted. by rewrite merge_sort_Permutation. }
    unfold cands. destruct (bool_decide ("latest" ∈ sorted listing)) eqn:E;
      [|done].
    apply bool_decide_eq_true in E.
    destruct (list_remove_elem _ _ E) as [L' HL']. rewrite HL'.
    change (default (sorted listing) (Some L')) with L'.
    destruct (list_remove_split _ _ _ HL') as (l1 & l2 & HL & ->).
    rewrite HL in Hxs.
    apply elem_of_app in Hxs as [?|[?|?]%elem_of_cons]; [|done|];
      apply elem_of_app; auto. }
  destruct (last cands) as [c|] eqn:Hlast; [|by apply last_None in Hlast].
  destruct (sorted_candidates listing c Hnd Hlast) as (Hcin & Hcl & Hmax).
  exists c. split; [done|]. split; [done|]. split; [done|].
  assert (Hcp : proper_name c ∧
                is_Some (disk w !! ((cwd w ++ [".icvcs"; "commits"]) ++ [c]))).
  { apply elem_of_child_names. rewrite Hlist in Hcin.
    by apply elem_of_elements in Hcin. }
  destruct Hcp as [Hcp Hcs].
  unfold push. rewrite !bind_run, Hrun.
  destruct (bool_decide (listing = [])); [done|]. rewrite !bind_run.
  destruct c as [|a s]; [by destruct Hcp|].
  rewrite Hrun. fold cands. rewrite Hlast. rewrite !bind_run.
  unfold os_path_exists. rewrite !ask_run. unfold path_exists.
  rewrite (node_of_plain _ _ _ _ (plain_commit_dir _ Hcp)).
  - rewrite <- app_assoc in Hcs. cbn [app] in Hcs.
    by rewrite bool_decide_eq_true_2.
  - apply dirs_down_3. by apply dirs_down_2 in Hd as [? ?].
Qed.

Lemma push_default_is_greatest_witness :
  (os_listdir COMMITS_DIR committed).1 = Ok ["20240102030405"; "latest"] ∧
  ∃ c, c ∈ ["20240102030405"; "latest"] ∧ c ≠ "latest" ∧
       (∀ y, y ∈ ["20240102030405"; "latest"] → y ≠ "latest" → str_le y c) ∧
       push None committed = push (Some c) committed.
Proof.
  assert (H : (os_listdir COMMITS_DIR committed).1
              = Ok ["20240102030405"; "latest"]) by (by vm_compute).
  assert (Hin : "20240102030405" ∈ ["20240102030405"; "latest"]) by (by left).
  assert (Hne : "20240102030405" ≠ "latest") by done.
  exact (conj H (push_default_is_greatest committed _ _ H Hin Hne)).
Defined.

(** ** [version create] *)

Lemma string_app_assoc a b c : (a +:+ b) +:+ c = a +:+ (b +:+ c).
Proof.
  induction a as [|x a IH]; [done|].
  change (String x a +:+ b) with (String x (a +:+ b)).
  change (String x (a +:+ b) +:+ c) with (String x ((a +:+ b) +:+ c)).
  change (String x a +:+ (b +:+ c)) with (String x (a +:+ (b +:+ c))).
  by rewrite IH.
Qed.

Lemma plain_version_metadata name :
  proper_name name →
  plain (os_path_join (os_path_join VERSIONS_DIR name) "metadata.json")
        [".icvcs"; "versions"; name; "metadata.json"].
Proof.
  intros Hn. apply (plain_join _ [_; _; _]); [by apply plain_version_dir|].
  proper_const.
Qed.

(** The path that [load_version_files] spells out is the one that
    [version] builds with [os.path.join]. *)
Lemma version_metadata_path name :
  proper_name name →
  ".icvcs/versions/" +:+ name +:+ "/metadata.json" =
  os_path_join (os_path_join VERSIONS_DIR name) "metadata.json".
Proof.
  intros Hn. assert (Hs : has_slash name = false) by (by destruct Hn as (_&_&_&?)).
  rewrite (join_plain_eq _ _ _ (plain_version_dir name Hn)) by done.
  rewrite (join_plain_eq _ _ _ plain_versions) by done.
  change VERSIONS_DIR with ".icvcs/versions".
  change (String "/" name) with ("/" +:+ name).
  change (String "/" "metadata.json") with ("/" +:+ "metadata.json").
  rewrite <- !string_app_assoc. done.
Qed.

Lemma version_with_create_ok rd cfg name force now a d w w' :
  proper_name name →
  path_exists (disk w) (cwd w) (os_path_join VERSIONS_DIR name) = false →
  version_with rd cfg "create" name force now a d w = (Ok (), w') →
  cwd w' = cwd w ∧ disk w' !! cwd w = Some Dir ∧
  disk w' !! icvcs_loc (cwd w) = Some Dir ∧
  disk w' !! versions_loc (cwd w) = Some Dir ∧
  disk w' !! (versions_loc (cwd w) ++ [name]) = Some Dir ∧
  disk w' !! (versions_loc (cwd w) ++ [name; "metadata.json"]) =
    Some (File (VersionMetaDoc
                  (VersionMeta name (isoformat now)
                     (or_default a (default_author cfg))
                     (or_default d (default_version_description cfg))
                     (Some (files rd))))) ∧
  disk w' !! index_loc (cwd w) =
    Some (File (IndexDoc (with_versions rd (versions rd ++ [name])))).
Proof.
  intros Hn Hex. pose proof (plain_version_dir name Hn) as Hp.
  assert (Hne : name ≠ "") by (by destruct Hn).
  unfold version_with. rewrite decide_True by done.
  rewrite decide_False by done. cbv zeta.
  rewrite bind_run. unfold os_path_exists at 1. rewrite ask_run, Hex.
  rewrite bind_run. unfold mret at 1, M_ret at 1. cbv beta iota.
  intros E.
  apply bind_ok_inv in E as (u1 & w1 & E1 & E).
  destruct (cw_makedirs_storage _ _ _ Hp (or_intror eq_refl) _ _ _ E1)
    as [C1 _].
  apply bind_ok_inv in E as (u2 & w2 & E2 & E).
  destruct (cw_copy_tracked_files _ _ _ _ Hp _ _ _ E2) as [C2 _].
  apply bind_ok_inv in E as (u3 & w3 & E3 & E).
  destruct (cw_copy_tracked_directories _ _ _ _ _ Hp (or_intror eq_refl)
              _ _ _ E3) as [C3 _].
  apply bind_ok_inv in E as ([] & w4 & E4 & E).
  apply (write_file_ok _ _ _ _ _ (plain_version_metadata name Hn)) in E4
    as (Hd & _ & ->).
  apply bind_ok_inv in E as ([] & w5 & E5 & E).
  unfold save_repo_data in E5.
  apply bind_ok_inv in E5 as ([] & w6 & E5 & E6).
  apply (write_file_ok _ _ _ _ _ plain_index) in E5 as (_ & _ & ->).
  rewrite print_run in E6. injection E6 as <-.
  rewrite print_run in E. injection E as <-.
  cbn [disk cwd].
  apply (dirs_down_snoc _ _ [".icvcs"; "versions"; name]) in Hd as [Hd Hv].
  apply dirs_down_3 in Hd as (D0 & D1 & D2).
  assert (Hc : cwd w3 = cwd w) by congruence. rewrite Hc in *.
  unfold icvcs_loc, versions_loc, index_loc.
  rewrite <- !app_assoc. cbn [app].
  split; [done|]. split_and!; by look.
Qed.

(** A version that is created is recorded. The name is a single path
    component (not empty, not [.] or [..], without a separator), the
    index loads, and nothing is stored under the name yet. When
    [version create] of that name succeeds, the index lists the name
    last, the metadata of the version holds the tracked files of that
    moment, and [load_version_files], which [compare] starts from,
    returns them. For a name that is a path the two differ:
    [load_version_files] builds its path by formatting and [version] by
    [os.path.join]. *)
Theorem version_create_records (name : string) (force : bool)
    (now : datetime) (a d : string) (w : world) (rd : repo_data) :
  proper_name name →
  index_file w = Some rd →
  path_exists (disk w) (cwd w) (os_path_join VERSIONS_DIR name) = false →
  (version "create" name force now a d w).1 = Ok () →
  load_repo_data (version "create" name force now a d w).2 =
    (Ok (with_versions rd (versions rd ++ [name])),
     (version "create" name force now a d w).2) ∧
  load_version_files name (version "create" name force now a d w).2 =
    (Ok (Some (files rd)), (version "create" name force now a d w).2).
Proof.
  intros Hn Hi Hex.
  destruct (version "create" name force now a d w) as [r w'] eqn:E.
  cbn [fst snd]. intros ->. unfold version in E.
  apply bind_ok_inv in E as (rd0 & w1 & E1 & E).
  apply load_repo_data_ok in E1 as [-> Hi0].
  assert (rd0 = rd) as -> by congruence.
  apply bind_ok_inv in E as (cfg & w2 & E2 & E).
  rewrite load_config_world in E2. injection E2 as Hcfg <-.
  destruct (version_with_create_ok _ _ _ _ _ _ _ _ _ Hn Hex E)
    as (Hc & D0 & D1 & D2 & D3 & Dm & Dx).
  rewrite <- Hc in *. split.
  - pose proof (load_repo_data_spec w') as Hl.
    by rewrite (index_file_intro _ _ D0 D1 Dx) in Hl.
  - unfold load_version_files. rewrite (version_metadata_path name Hn).
    assert (Hread :
      read_file (os_path_join (os_path_join VERSIONS_DIR name) "metadata.json")
        w' =
      (Ok (VersionMetaDoc
             (VersionMeta name (isoformat now)
                (or_default a (default_author cfg))
                (or_default d (default_version_description cfg))
                (Some (files rd)))), w')).
    { apply (read_file_run _ _ _ _ (plain_version_metadata name Hn)).
      - apply (dirs_down_snoc _ _ [".icvcs"; "versions"; name]).
        unfold icvcs_loc, versions_loc in *.
        rewrite <- app_assoc in D3. cbn [app] in D3.
        split; [by apply dirs_down_3|done].
      - unfold versions_loc in Dm. rewrite <- app_assoc in Dm. exact Dm. }
    rewrite bind_run. unfold try. by rewrite Hread.
Qed.

Lemma version_create_records_witness :
  index_file committed = Some (RepoData "demo" ["a.txt"] [] []) ∧
  load_repo_data (version "create" "v1" false t0 "" "" committed).2 =
    (Ok (with_versions (RepoData "demo" ["a.txt"] [] []) ([] ++ ["v1"])),
     (version "create" "v1" false t0 "" "" committed).2) ∧
  load_version_files "v1" (version "create" "v1" false t0 "" "" committed).2 =
    (Ok (Some ["a.txt"]), (version "create" "v1" false t0 "" "" committed).2).
Proof.
  assert (Hi : index_file committed = Some (RepoData "demo" ["a.txt"] [] []))
    by (by vm_compute).
  assert (Hex : path_exists (disk committed) (cwd committed)
                  (os_path_join VERSIONS_DIR "v1") = false) by (by vm_compute).
  assert (Hr : (version "create" "v1" false t0 "" "" committed).1 = Ok ())
    by (by vm_compute).
  exact (conj Hi (version_create_records "v1" false t0 "" "" committed _
                    (proper_name_dec_true "v1" eq_refl) Hi Hex Hr)).
Defined.

Lemma within_false loc k : (∀ q, k ≠ loc ++ q) → within loc k = false.
Proof.
  intros H. destruct (within loc k) eqn:E; [|done].
  apply within_spec in E as [q ->]. by destruct (H q).
Qed.

Lemma not_version_region name wd k :
  within (versions_loc wd ++ [name]) k = false → k ≠ index_loc wd →
  ¬ version_region name wd k.
Proof.
  intros Hw Hk [Hr|Hx]; [|done]. unfold region in Hr.
  unfold versions_loc in Hw. rewrite <- app_assoc in Hw. cbn [app] in Hw.
  congruence.
Qed.

(** [version delete] undoes [version create]. The name is a single path
    component (not empty, not [.] or [..], without a separator) that the
    index does not list and under which nothing is stored; the
    directories [.icvcs/versions] and [.icvcs/commits] are there. If
    [version create] of that name succeeds, then [version delete] of it
    succeeds too and leaves the whole disk, the index included, as it
    was before the create. *)
Theorem version_delete_undoes_create (name : string)
    (now now' : datetime) (a d a' d' : string) (force' : bool) (w : world)
    (rd : repo_data) :
  proper_name name →
  index_file w = Some rd → name ∉ versions rd →
  disk w !! versions_loc (cwd w) = Some Dir →
  disk w !! commits_loc (cwd w) = Some Dir →
  (∀ q, disk w !! (versions_loc (cwd w) ++ name :: q) = None) →
  (version "create" name false now a d w).1 = Ok () →
  (version "delete" name force' now' a' d'
     (version "create" name false now a d w).2).1 = Ok () ∧
  disk (version "delete" name force' now' a' d'
          (version "create" name false now a d w).2).2 = disk w.
Proof.
  intros Hn Hi Hnv Hv Hcm Hnone.
  pose proof (plain_version_dir name Hn) as Hp.
  destruct (index_file_inv _ _ Hi) as [Hr Hx].
  apply (resolve_plain _ _ _ _ _ plain_index) in Hr as [_ Hd2].
  apply dirs_down_2 in Hd2 as [H0 H1].
  assert (Hex : path_exists (disk w) (cwd w) (os_path_join VERSIONS_DIR name)
                = false).
  { unfold path_exists. rewrite (node_of_plain _ _ _ _ Hp).
    - specialize (Hnone []). unfold versions_loc in Hnone.
      rewrite <- app_assoc in Hnone. cbn [app] in Hnone. rewrite Hnone.
      by apply bool_decide_eq_false_2; intros [? ?].
    - by apply dirs_down_3. }
  destruct (version "create" name false now a d w) as [r w1] eqn:E.
  cbn [fst snd]. intros ->.
  pose proof (cw_version "create" name false now a d Hn _ _ _ E) as [_ Hframe].
  unfold version in E.
  apply bind_ok_inv in E as (rd0 & w0 & E1 & E).
  apply load_repo_data_ok in E1 as [-> Hi0].
  assert (rd0 = rd) as -> by congruence.
  apply bind_ok_inv in E as (cfg & w2 & E2 & E).
  rewrite load_config_world in E2. injection E2 as Hcfg <-.
  destruct (version_with_create_ok _ _ _ _ _ _ _ _ _ Hn Hex E)
    as (Hc & D0 & D1 & D2 & D3 & Dm & Dx).
  assert (Hout : ∀ k, within (versions_loc (cwd w) ++ [name]) k = false →
                      k ≠ index_loc (cwd w) → disk w1 !! k = disk w !! k).
  { intros k Hk Hki. destruct (Hframe k) as [?|[Hreg|(Hs & Hnk & _)]]; [done| |].
    - by apply not_version_region in Hreg.
    - unfold icvcs_loc in H1.
      unfold scaffold, icvcs_loc, commits_loc, versions_loc in *.
      destruct Hs as [Hs|[Hs|Hs]]; subst k; congruence. }
  assert (Hi1 : index_file w1 = Some (with_versions rd (versions rd ++ [name]))).
  { apply index_file_intro; by rewrite Hc. }
  assert (Hcfg1 : (load_config w1).1 = Ok cfg).
  { rewrite <- Hcfg.
    apply load_config_ext; [done|congruence|unfold icvcs_loc in *; congruence|].
    apply Hout; [|unfold index_loc; loc_neq].
    unfold versions_loc. rewrite <- app_assoc. cbn [app].
    apply within_false. intros q Eq. rewrite <- app_assoc in Eq.
    by apply app_inv_head in Eq. }
  pose proof (load_repo_data_spec w1) as Hl1. rewrite Hi1 in Hl1.
  unfold version. rewrite bind_run, Hl1, bind_run, load_config_world, Hcfg1.
  unfold version_with. rewrite decide_False by done.
  rewrite decide_True by done.
  rewrite decide_False by (by destruct Hn). cbv zeta.
  unfold versions_loc, icvcs_loc, index_loc in *.
  rewrite <- app_assoc in D3. cbn [app] in D3.
  rewrite bind_run. unfold os_path_exists. rewrite ask_run.
  unfold path_exists. rewrite Hc in *.
  rewrite (node_of_plain _ _ _ _ Hp) by (by apply dirs_down_3).
  rewrite D3, bool_decide_eq_true_2 by (by eexists).
  rewrite bind_run,
    (rmtree_at _ (cwd w1 ++ [".icvcs"; "versions"; name]) name).
  2:{ apply resolve_plain_ok; [done|]. rewrite Hc. by apply dirs_down_3. }
  2:{ by rewrite Hc. }
  2:{ destruct Hp as (_ & _ & _ & -> & _). done. }
  2:{ by destruct Hn as (_ & ? & _). }
  2:{ by destruct Hn as (_ & _ & ? & _). }
  cbn [with_versions versions]. rewrite list_remove_snoc by done.
  rewrite Hc. unfold save_repo_data. rewrite !bind_run.
  rewrite (write_file_run _ _ _ _ plain_index); cbn [disk cwd].
  2:{ apply dirs_down_2. rewrite !lookup_rmtree.
      assert (W0 : within (cwd w ++ [".icvcs"; "versions"; name]) (cwd w)
                   = false).
      { apply within_false. intros q Eq.
        apply (f_equal List.length) in Eq. rewrite !length_app in Eq.
        simpl in Eq. lia. }
      assert (W1 : within (cwd w ++ [".icvcs"; "versions"; name])
                     (cwd w ++ [".icvcs"]) = false).
      { apply within_false. intros q Eq. rewrite <- app_assoc in Eq.
        by apply app_inv_head in Eq. }
      by rewrite W0, W1. }
  2:{ rewrite lookup_rmtree.
      destruct (within _ _); [done|]. by rewrite Dx. }
  rewrite !print_run. cbn [fst snd disk]. split; [done|].
  apply map_eq. intros k.
  destruct (decide (k = cwd w ++ [".icvcs"; "repo_data.json"])) as [->|Hk].
  { rewrite lookup_insert_eq. unfold with_versions. cbn [repo_name files
      directories]. rewrite Hx. by destruct rd. }
  rewrite lookup_insert_ne by done. rewrite lookup_rmtree.
  destruct (within (cwd w ++ [".icvcs"; "versions"; name]) k) eqn:Ew.
  - apply within_spec in Ew as [q ->]. specialize (Hnone q).
    rewrite <- !app_assoc in *. cbn [app] in *. by rewrite Hnone.
  - apply Hout; [|done]. by rewrite <- app_assoc.
Qed.

Lemma committed_no_v1 q :
  disk committed !! (versions_loc (cwd committed) ++ "v1" :: q) = None.
Proof.
  assert (H : forallb (λ kv : path * node,
                         negb (within (versions_loc (cwd committed) ++ ["v1"])
                                      kv.1))
                (map_to_list (disk committed)) = true) by (by vm_compute).
  destruct (disk committed !! (versions_loc (cwd committed) ++ "v1" :: q))
    as [n|] eqn:E; [|done].
  apply elem_of_map_to_list, list_elem_of_In in E.
  apply (proj1 (forallb_forall _ _) H) in E. cbn [fst] in E.
  change ("v1" :: q) with (["v1"] ++ q) in E.
  by rewrite app_assoc, within_app in E.
Qed.

Lemma version_delete_undoes_create_witness :
  index_file committed = Some (RepoData "demo" ["a.txt"] [] []) ∧
  (version "create" "v1" false t0 "" "" committed).1 = Ok () ∧
  (version "delete" "v1" false t1 "" ""
     (version "create" "v1" false t0 "" "" committed).2).1 = Ok () ∧
  disk (version "delete" "v1" false t1 "" ""
          (version "create" "v1" false t0 "" "" committed).2).2
    = disk committed.
Proof.
  assert (Hi : index_file committed = Some (RepoData "demo" ["a.txt"] [] []))
    by (by vm_compute).
  assert (Hr : (version "create" "v1" false t0 "" "" committed).1 = Ok ())
    by (by vm_compute).
  assert (Hv : disk committed !! versions_loc (cwd committed) = Some Dir)
    by (by vm_compute).
  assert (Hc : disk committed !! commits_loc (cwd committed) = Some Dir)
    by (by vm_compute).
  exact (conj Hi (conj Hr
    (version_delete_undoes_create "v1" t0 t1 "" "" "" "" false committed _
       (proper_name_dec_true "v1" eq_refl) Hi (not_elem_of_nil _) Hv Hc
       committed_no_v1 Hr))).
Defined.

(** ** [clear_commits] *)

Lemma within_sibling loc c c' q :
  c ≠ c' → within (loc ++ [c]) (loc ++ c' :: q) = false.
Proof.
  intros Hc. apply within_false. intros q' E. rewrite <- app_assoc in E.
  apply app_inv_head in E. simpl in E. congruence.
Qed.

Lemma within_child_parent loc c : within (loc ++ [c]) loc = false.
Proof.
  apply within_false. intros q E. apply (f_equal List.length) in E.
  rewrite !length_app in E. simpl in E. lia.
Qed.

Lemma within_short loc q k :
  List.length k < List.length (loc ++ q) → within (loc ++ q) k = false.
Proof.
  intros Hlen. apply within_false. intros q' E.
  apply (f_equal List.length) in E. rewrite !length_app in *. lia.
Qed.

Lemma cleared_cons c listing loc k :
  cleared (c :: listing) loc k
  = negb (String.eqb c "latest") && within (loc ++ [c]) k
    || cleared listing loc k.
Proof. done. Qed.

Lemma clear_loop xs : ∀ w,
  Forall proper_name xs → NoDup xs →
  disk w !! cwd w = Some Dir → disk w !! icvcs_loc (cwd w) = Some Dir →
  disk w !! commits_loc (cwd w) = Some Dir →
  (∀ c, c ∈ xs → c ≠ "latest" →
        disk w !! (commits_loc (cwd w) ++ [c]) = Some Dir) →
  ∃ w',
    for_each xs (λ commit_id,
      if decide (commit_id ≠ "latest") then
        e ← os_path_exists (os_path_join COMMITS_DIR commit_id);
        if (e : bool) then shutil_rmtree (os_path_join COMMITS_DIR commit_id)
        else mret ()
      else mret ()) w = (Ok (), w') ∧
    cwd w' = cwd w ∧ stdout w' = stdout w ∧
    ∀ k, disk w' !! k =
         if cleared xs (commits_loc (cwd w)) k then None else disk w !! k.
Proof.
  induction xs as [|x xs IH]; intros w Hpr Hnd H0 H1 H2 Hin.
  { by exists w. }
  cbn [for_each]. apply Forall_cons in Hpr as [Hx Hpr].
  apply NoDup_cons in Hnd as [Hxn Hnd]. rewrite bind_run.
  destruct (decide (x ≠ "latest")) as [Hxl|Hxl].
  - pose proof (plain_commit_dir x Hx) as Hp.
    unfold icvcs_loc, commits_loc in *.
    assert (Hd : dirs_down (disk w) (cwd w) [".icvcs"; "commits"; x] = true)
      by (by apply dirs_down_3).
    pose proof (Hin x ltac:(by left) Hxl) as Hn.
    rewrite <- app_assoc in Hn. cbn [app] in Hn.
    rewrite bind_run. unfold os_path_exists. rewrite ask_run.
    unfold path_exists. rewrite (node_of_plain _ _ _ _ Hp Hd), Hn.
    rewrite bool_decide_eq_true_2 by (by eexists).
    rewrite (rmtree_at _ (cwd w ++ [".icvcs"; "commits"; x]) x);
      [|by apply resolve_plain_ok|done|
       by destruct Hp as (_ & _ & _ & -> & _)|
       by destruct Hx as (_ & ? & _)|by destruct Hx as (_ & _ & ? & _)].
    assert (Hloc : cwd w ++ [".icvcs"; "commits"; x]
                   = (cwd w ++ [".icvcs"; "commits"]) ++ [x])
      by (by rewrite <- app_assoc).
    assert (W0 : within ((cwd w ++ [".icvcs"; "commits"]) ++ [x]) (cwd w)
                 = false).
    { apply within_false. intros q Eq. apply (f_equal List.length) in Eq.
      rewrite !length_app in Eq. simpl in Eq. lia. }
    assert (W1 : within ((cwd w ++ [".icvcs"; "commits"]) ++ [x])
                   (cwd w ++ [".icvcs"]) = false).
    { apply within_false. intros q Eq. rewrite <- !app_assoc in Eq.
      by apply app_inv_head in Eq. }
    edestruct (IH (World (delete (cwd w ++ [".icvcs"; "commits"; x])
                            (remove_below (cwd w ++ [".icvcs"; "commits"; x])
                               (disk w)))
                         (cwd w) (stdout w)
                         (writes w ++ [cwd w ++ [".icvcs"; "commits"; x];
                                       cwd w ++ [".icvcs"; "commits"; x]])))
      as (w' & E & Hc & Ho & Hk); cbn [disk cwd stdout] in *; try done.
    + by rewrite lookup_rmtree, Hloc, W0.
    + by rewrite lookup_rmtree, Hloc, W1.
    + by rewrite lookup_rmtree, Hloc, within_child_parent.
    + intros c Hc Hcl. rewrite lookup_rmtree, Hloc.
      rewrite (within_sibling _ x c []) by (by intros ->).
      by apply Hin; [right|].
    + exists w'. split; [done|]. split; [done|]. split; [done|].
      intros k. rewrite Hk, lookup_rmtree, Hloc, cleared_cons.
      assert (String.eqb x "latest" = false) as -> by (by apply String.eqb_neq).
      cbn [negb andb].
      by destruct (within ((cwd w ++ [".icvcs"; "commits"]) ++ [x]) k),
                  (cleared xs (cwd w ++ [".icvcs"; "commits"]) k).
  - apply dec_stable in Hxl. subst x. unfold mret at 1, M_ret at 1.
    destruct (IH w) as (w' & E & Hc & Ho & Hk); try done.
    { intros c Hc. apply Hin. by right. }
    by exists w'.
Qed.

(** The loop of [clear_commits] on the listing of [.icvcs/commits]. *)
Lemma clear_run (w : world) (listing : list string) :
  (os_listdir COMMITS_DIR w).1 = Ok listing →
  (∀ c, c ∈ listing → c ≠ "latest" →
        disk w !! (commits_loc (cwd w) ++ [c]) = Some Dir) →
  os_listdir COMMITS_DIR w = (Ok listing, w) ∧
  ∃ w1,
    for_each listing (λ commit_id,
      if decide (commit_id ≠ "latest") then
        e ← os_path_exists (os_path_join COMMITS_DIR commit_id);
        if (e : bool) then shutil_rmtree (os_path_join COMMITS_DIR commit_id)
        else mret ()
      else mret ()) w = (Ok (), w1) ∧
    cwd w1 = cwd w ∧ stdout w1 = stdout w ∧
    dirs_down (disk w1) (cwd w) [".icvcs"; "commits"] = true ∧
    disk w1 !! commits_loc (cwd w) = Some Dir ∧
    (∀ k, disk w1 !! k =
          if cleared listing (commits_loc (cwd w)) k then None
          else disk w !! k) ∧
    (∀ c, c ∈ child_names (disk w1) (commits_loc (cwd w)) ↔
          c = "latest" ∧ c ∈ listing).
Proof.
  intros Hl Hdirs.
  apply (os_listdir_inv _ [".icvcs"; "commits"]) in Hl
    as (Hl & Hd & Hc & Hlist); [|exact plain_commits].
  split; [done|].
  apply dirs_down_2 in Hd as [H0 H1].
  assert (Hel : ∀ c, c ∈ listing ↔
            proper_name c ∧ is_Some (disk w !! (commits_loc (cwd w) ++ [c]))).
  { intros c. rewrite Hlist, elem_of_elements. apply elem_of_child_names. }
  destruct (clear_loop listing w) as (w1 & E & Hcw & Ho & Hk); try done.
  { apply Forall_forall. intros c Hin. by apply Hel in Hin as [? _]. }
  { rewrite Hlist. apply NoDup_elements. }
  assert (Hcl : ∀ c q, cleared listing (commits_loc (cwd w))
                         (commits_loc (cwd w) ++ c :: q) = true
                       ↔ c ≠ "latest" ∧ c ∈ listing).
  { intros c q. unfold cleared. rewrite existsb_exists. split.
    - intros (c' & Hin & Hb). apply andb_prop in Hb as [Hb1 Hb2].
      apply negb_true_iff, String.eqb_neq in Hb1.
      destruct (decide (c' = c)) as [<-|Hne].
      + split; [done|]. by apply list_elem_of_In.
      + by rewrite within_sibling in Hb2.
    - intros [Hne Hin]. exists c. split; [by apply list_elem_of_In|].
      apply andb_true_intro. split.
      + by apply negb_true_iff, String.eqb_neq.
      + replace (commits_loc (cwd w) ++ c :: q)
          with ((commits_loc (cwd w) ++ [c]) ++ q)
          by (by rewrite <- app_assoc).
        apply within_app. }
  assert (Hup : ∀ k : path,
            (List.length k ≤ List.length (commits_loc (cwd w)))%nat →
            disk w1 !! k = disk w !! k).
  { intros k Hlen. rewrite Hk. destruct (cleared _ _ _) eqn:Ec; [|done].
    unfold cleared in Ec. apply existsb_exists in Ec as (c & _ & Hb).
    apply andb_prop in Hb as [_ Hb]. rewrite within_short in Hb; [done|].
    rewrite length_app. simpl. lia. }
  exists w1. split; [done|]. split; [done|]. split; [done|]. split.
  { apply dirs_down_2. unfold commits_loc in Hup.
    rewrite !Hup; [done|rewrite !length_app; simpl; lia..]. }
  split; [by rewrite Hup|]. split; [done|].
  intros c. rewrite elem_of_child_names, Hk. split.
  - intros [Hp Hs]. destruct (cleared _ _ _) eqn:Ec.
    { by destruct Hs. }
    assert (Hin : c ∈ listing) by (by apply Hel).
    split; [|done]. destruct (decide (c = "latest")) as [|Hne]; [done|].
    assert (cleared listing (commits_loc (cwd w)) (commits_loc (cwd w) ++ [c])
            = true) by (by apply Hcl).
    congruence.
  - intros [-> Hin]. apply Hel in Hin as [Hp Hs]. split; [done|].
    destruct (cleared _ _ _) eqn:Ec; [|done].
    by apply Hcl in Ec as [? _].
Qed.

(** [clear_commits()] when every entry of [.icvcs/commits] but [latest] is a
    directory: the call succeeds; what lay in one of those directories, and
    the directory itself, is gone; everything else on the disk, the journal
    [commit_history.json] with the commits it lists among it, is as before;
    the directory then lists at most [latest]. *)
Theorem clear_commits_leaves_latest (w : world) (listing : list string) :
  (os_listdir COMMITS_DIR w).1 = Ok listing →
  (∀ c, c ∈ listing → c ≠ "latest" →
        disk w !! (commits_loc (cwd w) ++ [c]) = Some Dir) →
  ∃ w',
    clear_commits w = (Ok (), w') ∧
    (∀ k, disk w' !! k =
          if cleared listing (commits_loc (cwd w)) k then None
          else disk w !! k) ∧
    disk w' !! journal_loc (cwd w) = disk w !! journal_loc (cwd w) ∧
    (∀ c, c ∈ child_names (disk w') (commits_loc (cwd w)) ↔
          c = "latest" ∧ c ∈ listing) ∧
    stdout w' = stdout w ++ ["All commits cleared except the 'latest' commit."].
Proof.
  intros Hl Hdirs.
  destruct (clear_run w listing Hl Hdirs)
    as (Hl' & w1 & E & Hcw & Ho & _ & _ & Hk & Hnames).
  exists (World (disk w1) (cwd w1)
            (stdout w1 ++ ["All commits cleared except the 'latest' commit."])
            (writes w1)).
  split.
  { unfold clear_commits. rewrite bind_run, Hl', bind_run, E. done. }
  cbn [disk cwd stdout]. split; [done|]. split; [|split; [done|by rewrite Ho]].
  rewrite Hk. destruct (cleared _ _ _) eqn:Ec; [|done].
  unfold cleared in Ec. apply existsb_exists in Ec as (c & _ & Hb).
  apply andb_prop in Hb as [_ Hb]. unfold journal_loc, commits_loc in Hb.
  apply within_spec in Hb as [q Eq]. rewrite <- !app_assoc in Eq.
  apply app_inv_head in Eq. done.
Qed.

Lemma clear_commits_leaves_latest_witness :
  (os_listdir COMMITS_DIR committed).1 = Ok ["20240102030405"; "latest"] ∧
  (∀ c, c ∈ ["20240102030405"; "latest"] → c ≠ "latest" →
        disk committed !! (commits_loc (cwd committed) ++ [c]) = Some Dir) ∧
  ∃ w',
    clear_commits committed = (Ok (), w') ∧
    (∀ k, disk w' !! k =
          if cleared ["20240102030405"; "latest"]
               (commits_loc (cwd committed)) k then None
          else disk committed !! k) ∧
    disk w' !! journal_loc (cwd committed)
      = disk committed !! journal_loc (cwd committed) ∧
    (∀ c, c ∈ child_names (disk w') (commits_loc (cwd committed)) ↔
          c = "latest" ∧ c ∈ ["20240102030405"; "latest"]) ∧
    stdout w'
      = stdout committed ++ ["All commits cleared except the 'latest' commit."].
Proof.
  assert (Hd : ∀ c, c ∈ ["20240102030405"; "latest"] → c ≠ "latest" →
             disk committed !! (commits_loc (cwd committed) ++ [c]) = Some Dir).
  { intros c Hc Hne. apply elem_of_cons in Hc as [->|Hc].
    - vm_compute. reflexivity.
    - apply list_elem_of_singleton in Hc. destruct (Hne Hc). }
  assert (H : (os_listdir COMMITS_DIR committed).1
              = Ok ["20240102030405"; "latest"])
    by (vm_compute; reflexivity).
  exact (conj H (conj Hd (clear_commits_leaves_latest committed _ H Hd))).
Defined.

(** ** [push] of a commit *)

Lemma tidy_below_check fs loc : tidy_belowb fs loc = true → tidy_below fs loc.
Proof.
  unfold tidy_belowb. rewrite forallb_forall. intros H c q [n Hn].
  specialize (H (loc ++ c :: q, n)).
  cbn [fst] in H. rewrite strip_prefix_app in H.
  assert (Hin : In (loc ++ c :: q, n) (map_to_list fs)).
  { apply list_elem_of_In. by apply elem_of_map_to_list. }
  apply H in Hin. apply andb_prop in Hin as [Hp Hq].
  split; [by apply proper_name_spec|].
  apply orb_prop in Hq as [Hq|Hq].
  - left. by apply bool_decide_eq_true in Hq.
  - right. by destruct (fs !! (loc ++ [c])) as [[|]|].
Qed.

Lemma os_listdir_run p cs w :
  plain p cs → dirs_down (disk w) (cwd w) cs = true →
  disk w !! (cwd w ++ cs) = Some Dir →
  os_listdir p w = (Ok (elements (child_names (disk w) (cwd w ++ cs))), w).
Proof.
  intros Hp Hd Hl. unfold os_listdir. run_prim.
  by rewrite (resolve_plain_ok _ _ _ _ Hp Hd), Hl.
Qed.

Lemma copytree_run src dst scs pre c w :
  plain src scs → plain dst (pre ++ [c]) →
  dirs_down (disk w) (cwd w) scs = true →
  disk w !! (cwd w ++ scs) = Some Dir →
  dirs_down (disk w) (cwd w) (pre ++ [c]) = true →
  disk w !! (cwd w ++ pre ++ [c]) = None →
  within (cwd w ++ scs) (cwd w ++ pre ++ [c]) = false →
  shutil_copytree src dst w =
    (Ok (), World (graft (disk w) (cwd w ++ scs) (cwd w ++ pre ++ [c])
                     (<[cwd w ++ pre ++ [c] := Dir]> (disk w)))
                  (cwd w) (stdout w)
                  (writes w ++ [cwd w ++ pre ++ [c]; cwd w ++ pre ++ [c]])).
Proof.
  intros Hs Hd Hsd Hsl Hdd Hdl Hw. unfold shutil_copytree.
  rewrite bind_run. unfold locate at 1. rewrite bind_run, ask_run.
  rewrite (resolve_plain_ok _ _ _ _ Hs Hsd). unfold mret at 1, M_ret at 1.
  rewrite bind_run. unfold node_at at 1. rewrite ask_run, Hsl.
  rewrite bind_run, ask_run, bind_run.
  rewrite (makedirs_at_fresh dst pre c w Hd Hdd Hdl).
  rewrite bind_run. unfold change_disk. cbn [disk cwd stdout writes].
  rewrite Hw. unfold mret, M_ret. by rewrite <- app_assoc.
Qed.

Lemma copy_run src dst scs dcs x w :
  plain src scs → plain dst dcs →
  dirs_down (disk w) (cwd w) scs = true →
  disk w !! (cwd w ++ scs) = Some (File x) →
  dirs_down (disk w) (cwd w) dcs = true →
  disk w !! (cwd w ++ dcs) = None →
  shutil_copy src dst w =
    (Ok (), World (<[cwd w ++ dcs := File x]> (disk w)) (cwd w) (stdout w)
                  (writes w ++ [cwd w ++ dcs])).
Proof.
  intros Hs Hd Hsd Hsl Hdd Hdl. unfold shutil_copy.
  rewrite bind_run. unfold os_path_isdir. rewrite ask_run.
  unfold path_isdir. rewrite (node_of_plain _ _ _ _ Hd Hdd), Hdl.
  rewrite bind_run, ask_run. unfold samefile.
  rewrite (resolve_plain_ok _ _ _ _ Hs Hsd), (resolve_plain_ok _ _ _ _ Hd Hdd).
  assert (bool_decide (cwd w ++ scs = cwd w ++ dcs) = false) as ->.
  { apply bool_decide_eq_false. intros E. rewrite E in Hsl. congruence. }
  cbn [andb].
  rewrite bind_run, (read_file_run _ _ _ _ Hs Hsd Hsl).
  apply (write_file_run _ _ _ _ Hd Hdd). by rewrite Hdl.
Qed.

Lemma within_other_entry wd c c' i q :
  c ≠ c' →
  within (wd ++ [".icvcs"; "commits"; c; i])
         (wd ++ ".icvcs" :: "commits" :: c' :: q) = false.
Proof.
  intros Hc. apply within_false. intros q' E. rewrite <- app_assoc in E.
  apply app_inv_head in E. simpl in E. congruence.
Qed.

Lemma copied_ext fs fs' sloc i q :
  (∀ q', fs' !! (sloc ++ i :: q') = fs !! (sloc ++ i :: q')) →
  copied fs' sloc i q = copied fs sloc i q.
Proof.
  intros H. unfold copied.
  replace (sloc ++ [i]) with (sloc ++ i :: []) by done.
  rewrite !H. by destruct q.
Qed.

(** One round of the loop of [push]: the entry [i] of the commit [c] goes
    to [latest], which has nothing of that name yet. *)
Lemma push_item c i w :
  proper_name c → proper_name i → c ≠ "latest" →
  disk w !! cwd w = Some Dir →
  disk w !! (cwd w ++ [".icvcs"]) = Some Dir →
  disk w !! (cwd w ++ [".icvcs"; "commits"]) = Some Dir →
  disk w !! (cwd w ++ [".icvcs"; "commits"; c]) = Some Dir →
  disk w !! (cwd w ++ [".icvcs"; "commits"; "latest"]) = Some Dir →
  is_Some (disk w !! (cwd w ++ [".icvcs"; "commits"; c; i])) →
  (∀ q, disk w !! (cwd w ++ ".icvcs" :: "commits" :: "latest" :: i :: q)
        = None) →
  ∃ w1,
    (d ← os_path_isdir (os_path_join (os_path_join COMMITS_DIR c) i);
     if (d : bool)
     then shutil_copytree (os_path_join (os_path_join COMMITS_DIR c) i)
                          (os_path_join LATEST_DIR i)
     else shutil_copy (os_path_join (os_path_join COMMITS_DIR c) i)
                      (os_path_join LATEST_DIR i)) w = (Ok (), w1) ∧
    cwd w1 = cwd w ∧ stdout w1 = stdout w ∧
    (∀ q, disk w1 !! (cwd w ++ ".icvcs" :: "commits" :: "latest" :: i :: q)
          = copied (disk w) (cwd w ++ [".icvcs"; "commits"; c]) i q) ∧
    (∀ k, within (cwd w ++ [".icvcs"; "commits"; "latest"; i]) k = false →
          disk w1 !! k = disk w !! k).
Proof.
  intros Hc Hi Hcl H0 H1 H2 H3 H4 [n Hn] Hfresh.
  assert (Hs : plain (os_path_join (os_path_join COMMITS_DIR c) i)
                 [".icvcs"; "commits"; c; i])
    by (by apply (plain_join _ [_; _; _]); [apply plain_commit_dir|]).
  assert (Hd : plain (os_path_join LATEST_DIR i)
                 ([".icvcs"; "commits"; "latest"] ++ [i]))
    by (by apply (plain_join _ [_; _; _]); [apply plain_latest|]).
  assert (Hsd : dirs_down (disk w) (cwd w) [".icvcs"; "commits"; c; i] = true).
  { apply (dirs_down_snoc _ _ [_; _; _]). split; [by apply dirs_down_3|done]. }
  assert (Hdd : dirs_down (disk w) (cwd w)
                  ([".icvcs"; "commits"; "latest"] ++ [i]) = true).
  { apply (dirs_down_snoc _ _ [_; _; _]). split; [by apply dirs_down_3|done]. }
  pose proof (Hfresh []) as Hdl.
  assert (Esrc : ∀ q, (cwd w ++ [".icvcs"; "commits"; c]) ++ i :: q
                      = cwd w ++ ".icvcs" :: "commits" :: c :: i :: q)
    by (intros q; by rewrite <- app_assoc).
  rewrite bind_run. unfold os_path_isdir. rewrite ask_run.
  unfold path_isdir. rewrite (node_of_plain _ _ _ _ Hs Hsd), Hn.
  destruct n as [x|].
  - rewrite (copy_run _ _ _ _ x w Hs Hd Hsd Hn Hdd Hdl).
    eexists. split; [done|]. cbn [disk cwd stdout app].
    split; [done|]. split; [done|]. split.
    + intros q. unfold copied. rewrite Esrc, Hn. destruct q as [|a q].
      * by rewrite lookup_insert_eq.
      * rewrite lookup_insert_ne by loc_neq. apply Hfresh.
    + intros k Hk. rewrite lookup_insert_ne; [done|].
      intros <-. by rewrite within_refl in Hk.
  - rewrite (copytree_run _ _ _ _ _ w Hs Hd Hsd Hn Hdd Hdl);
      [|by apply (within_other_entry _ c "latest" i [i])].
    eexists. split; [done|]. cbn [disk cwd stdout app].
    split; [done|]. split; [done|]. split.
    + intros q. rewrite lookup_graft. unfold copied. rewrite Esrc, Hn.
      replace (cwd w ++ ".icvcs" :: "commits" :: "latest" :: i :: q)
        with ((cwd w ++ [".icvcs"; "commits"; "latest"; i]) ++ q)
        by (by rewrite <- app_assoc).
      rewrite strip_prefix_app. destruct q as [|a q].
      * by rewrite app_nil_r, lookup_insert_eq.
      * rewrite <- (app_assoc (cwd w) _ (a :: q)), Esrc. cbn [app].
        destruct (disk w !! (cwd w ++ _ :: _ :: c :: i :: a :: q)) eqn:E;
          [done|].
        rewrite lookup_insert_ne.
        -- rewrite <- app_assoc. apply Hfresh.
        -- intros E'. apply (f_equal List.length) in E'.
           rewrite !length_app in E'. simpl in E'. lia.
    + intros k Hk. rewrite lookup_graft.
      assert (Hne : cwd w ++ [".icvcs"; "commits"; "latest"; i] ≠ k)
        by (intros <-; by rewrite within_refl in Hk).
      unfold within in Hk.
      destruct (strip_prefix _ k) as [?|] eqn:E; [done|].
      by rewrite lookup_insert_ne.
Qed.

Lemma within_entry_sibling wd a b c i j q :
  i ≠ j →
  within (wd ++ [a; b; c; i]) (wd ++ a :: b :: c :: j :: q) = false.
Proof.
  intros Hc. apply within_false. intros q' E. rewrite <- app_assoc in E.
  apply app_inv_head in E. simpl in E. congruence.
Qed.

(** The loop of [push] over entries of the commit [c] that [latest] does
    not have yet. *)
Lemma push_loop c xs : ∀ w,
  proper_name c → c ≠ "latest" → Forall proper_name xs → NoDup xs →
  disk w !! cwd w = Some Dir →
  disk w !! (cwd w ++ [".icvcs"]) = Some Dir →
  disk w !! (cwd w ++ [".icvcs"; "commits"]) = Some Dir →
  disk w !! (cwd w ++ [".icvcs"; "commits"; c]) = Some Dir →
  disk w !! (cwd w ++ [".icvcs"; "commits"; "latest"]) = Some Dir →
  (∀ i, i ∈ xs →
        is_Some (disk w !! (cwd w ++ [".icvcs"; "commits"; c; i]))) →
  (∀ i q, i ∈ xs →
          disk w !! (cwd w ++ ".icvcs" :: "commits" :: "latest" :: i :: q)
          = None) →
  ∃ w',
    for_each xs (λ item,
      let src_path := os_path_join (os_path_join COMMITS_DIR c) item in
      let dest_path := os_path_join LATEST_DIR item in
      d ← os_path_isdir src_path;
      if (d : bool) then shutil_copytree src_path dest_path
      else shutil_copy src_path dest_path) w = (Ok (), w') ∧
    cwd w' = cwd w ∧ stdout w' = stdout w ∧
    (∀ i q, i ∈ xs →
            disk w' !! (cwd w ++ ".icvcs" :: "commits" :: "latest" :: i :: q)
            = copied (disk w) (cwd w ++ [".icvcs"; "commits"; c]) i q) ∧
    (∀ k, (∀ i, i ∈ xs →
            within (cwd w ++ [".icvcs"; "commits"; "latest"; i]) k = false) →
          disk w' !! k = disk w !! k).
Proof.
  induction xs as [|x xs IH]; intros w Hc Hcl Hpr Hnd H0 H1 H2 H3 H4 Hin Hfr.
  { exists w. split; [done|]. split; [done|]. split; [done|].
    split; [|done]. intros i q Hi. by apply elem_of_nil in Hi. }
  apply Forall_cons in Hpr as [Hx Hpr]. apply NoDup_cons in Hnd as [Hxn Hnd].
  destruct (push_item c x w Hc Hx Hcl H0 H1 H2 H3 H4)
    as (w1 & E1 & Hc1 & Ho1 & Ha1 & Hb1).
  { apply Hin. by left. }
  { intros q. apply Hfr. by left. }
  assert (Hx' : ∀ i, i ∈ xs → x ≠ i) by (intros i Hi ->; done).
  destruct (IH w1) as (w' & E & Hc' & Ho' & Ha & Hb); try done;
    rewrite ?Hc1.
  - rewrite Hb1; [done|]. apply (within_short _ [_; _; _; _]).
    rewrite length_app. simpl. lia.
  - rewrite Hb1; [done|]. apply (within_short _ [_; _; _; _]).
    rewrite !length_app. simpl. lia.
  - rewrite Hb1; [done|]. apply (within_short _ [_; _; _; _]).
    rewrite !length_app. simpl. lia.
  - rewrite Hb1; [done|]. apply (within_short _ [_; _; _; _]).
    rewrite !length_app. simpl. lia.
  - rewrite Hb1; [done|]. apply (within_short _ [_; _; _; _]).
    rewrite !length_app. simpl. lia.
  - intros i Hi. rewrite Hb1; [apply Hin; by right|].
    by apply (within_other_entry _ "latest" c x [i]).
  - intros i q Hi. rewrite Hb1; [apply Hfr; by right|].
    apply within_entry_sibling. by apply Hx'.
  - rewrite Hc1 in *. exists w'. cbn [for_each]. rewrite bind_run.
    cbv zeta in E1, E |- *. rewrite E1.
    split; [done|]. split; [done|]. split; [congruence|]. split.
    + intros i q [->|Hi]%elem_of_cons.
      * rewrite Hb; [apply Ha1|]. intros i Hi.
        apply within_entry_sibling. intros ->. by apply (Hx' x).
      * rewrite Ha by done. apply copied_ext. intros q'.
        rewrite <- app_assoc. apply Hb1.
        by apply (within_other_entry _ "latest" c x).
    + intros k Hk. rewrite Hb, Hb1; [done| |].
      * apply Hk. by left.
      * intros i Hi. apply Hk. by right.
Qed.

(** The run of [push(c)] on a stored commit. *)
Lemma push_run (c : string) (w : world) :
  proper_name c → c ≠ "latest" →
  disk w !! cwd w = Some Dir →
  disk w !! icvcs_loc (cwd w) = Some Dir →
  disk w !! commits_loc (cwd w) = Some Dir →
  disk w !! (commits_loc (cwd w) ++ [c]) = Some Dir →
  tidy_below (disk w) (commits_loc (cwd w) ++ [c]) →
  (disk w !! latest_loc (cwd w) = Some Dir ∨
   ∀ q, disk w !! (latest_loc (cwd w) ++ q) = None) →
  ∃ w',
    push (Some c) w = (Ok (), w') ∧ cwd w' = cwd w ∧
    disk w' !! latest_loc (cwd w) = Some Dir ∧
    (∀ i q, disk w' !! (latest_loc (cwd w) ++ i :: q)
            = disk w !! (commits_loc (cwd w) ++ c :: i :: q)) ∧
    (∀ k, within (latest_loc (cwd w)) k = false → disk w' !! k = disk w !! k) ∧
    stdout w' = stdout w ++ ["Commit '" +:+ c +:+ "' pushed to 'latest'."].
Proof.
  intros Hc Hcl H0 H1 H2 H3 Htidy Hlat.
  unfold icvcs_loc, commits_loc, latest_loc in *.
  rewrite <- app_assoc in H3. cbn [app] in H3.
  assert (Htidy' : ∀ i q,
            is_Some (disk w !! (cwd w ++ ".icvcs" :: "commits" :: c :: i :: q)) →
            proper_name i ∧
            (q = [] ∨
             disk w !! (cwd w ++ [".icvcs"; "commits"; c; i]) = Some Dir)).
  { intros i q Hs. specialize (Htidy i q).
    rewrite <- !app_assoc in Htidy. by apply Htidy. }
  clear Htidy.
  assert (Hd2 : dirs_down (disk w) (cwd w) [".icvcs"; "commits"] = true)
    by (by apply dirs_down_2).
  assert (Hd3 : ∀ x, dirs_down (disk w) (cwd w) [".icvcs"; "commits"; x] = true)
    by (intros x; by apply dirs_down_3).
  pose proof (plain_commit_dir c Hc) as Hp.
  (* the reset of [latest] *)
  assert (Hreset : ∃ (e : bool) w0 w1,
    os_path_exists LATEST_DIR w = (Ok e, w) ∧
    (if e then shutil_rmtree LATEST_DIR else mret ()) w = (Ok (), w0) ∧
    os_makedirs LATEST_DIR w0 = (Ok (), w1) ∧
    cwd w1 = cwd w ∧ stdout w1 = stdout w ∧
    disk w1 !! (cwd w ++ [".icvcs"; "commits"; "latest"]) = Some Dir ∧
    (∀ i q, disk w1 !! (cwd w ++ ".icvcs" :: "commits" :: "latest" :: i :: q)
            = None) ∧
    (∀ k, within (cwd w ++ [".icvcs"; "commits"; "latest"]) k = false →
          disk w1 !! k = disk w !! k)).
  { unfold os_path_exists. rewrite ask_run.
    unfold path_exists. rewrite (node_of_plain _ _ _ _ plain_latest (Hd3 _)).
    destruct Hlat as [Hl|Hl].
    - rewrite Hl, bool_decide_eq_true_2 by (by eexists).
      exists true. eexists _, _. split; [done|]. cbv beta iota.
      rewrite (rmtree_at _ (cwd w ++ [".icvcs"; "commits"; "latest"])
                 "latest");
        [|exact (resolve_plain_ok _ _ _ _ plain_latest (Hd3 _))
         |done|by vm_compute|done|done].
      split; [done|].
      rewrite (os_makedirs_fresh LATEST_DIR [".icvcs"; "commits"] "latest");
        cbn [disk cwd stdout writes app].
      + split; [done|]. cbn [disk cwd stdout].
        split; [done|]. split; [done|]. split; [by rewrite lookup_insert_eq|].
        split.
        * intros i q. rewrite lookup_insert_ne by loc_neq.
          rewrite lookup_rmtree.
          replace (cwd w ++ ".icvcs" :: "commits" :: "latest" :: i :: q)
            with ((cwd w ++ [".icvcs"; "commits"; "latest"]) ++ i :: q)
            by (by rewrite <- app_assoc).
          by rewrite within_app.
        * intros k Hk. rewrite lookup_insert_ne
            by (intros <-; by rewrite within_refl in Hk).
          by rewrite lookup_rmtree, Hk.
      + exact plain_latest.
      + apply dirs_down_3. rewrite !lookup_rmtree.
        rewrite (within_short _ [_; _; _]) by (rewrite length_app; simpl; lia).
        rewrite (within_short _ [_; _; _]) by (rewrite !length_app; simpl; lia).
        rewrite (within_short _ [_; _; _]) by (rewrite !length_app; simpl; lia).
        done.
      + by rewrite lookup_rmtree, within_refl.
    - pose proof (Hl []) as Hl0. rewrite app_nil_r in Hl0.
      rewrite Hl0, bool_decide_eq_false_2 by (by intros [? ?]).
      exists false. eexists _, _. split; [done|]. split; [done|].
      rewrite (os_makedirs_fresh LATEST_DIR [".icvcs"; "commits"] "latest");
        [|exact plain_latest|apply Hd3|done].
      split; [done|]. cbn [disk cwd stdout app].
      split; [done|]. split; [done|]. split; [by rewrite lookup_insert_eq|].
      split.
      + intros i q. rewrite lookup_insert_ne by loc_neq.
        specialize (Hl (i :: q)). by rewrite <- app_assoc in Hl.
      + intros k Hk. rewrite lookup_insert_ne; [done|].
        intros <-. by rewrite within_refl in Hk. }
  destruct Hreset as (e & w0 & w1 & Ee & Er & Em & Hc1 & Ho1 & HL1 & Hfr1 & Hb1).
  assert (Hout : ∀ x q, x ≠ "latest" →
            disk w1 !! (cwd w ++ ".icvcs" :: "commits" :: x :: q)
            = disk w !! (cwd w ++ ".icvcs" :: "commits" :: x :: q)).
  { intros x q Hx. apply Hb1.
    replace (cwd w ++ [".icvcs"; "commits"; "latest"])
      with ((cwd w ++ [".icvcs"; "commits"]) ++ ["latest"])
      by (by rewrite <- app_assoc).
    replace (cwd w ++ ".icvcs" :: "commits" :: x :: q)
      with ((cwd w ++ [".icvcs"; "commits"]) ++ x :: q)
      by (by rewrite <- app_assoc).
    apply within_sibling. congruence. }
  assert (Hup : ∀ q, List.length q < 3 →
            disk w1 !! (cwd w ++ q) = disk w !! (cwd w ++ q)).
  { intros q Hq. apply Hb1. apply (within_short _ [_; _; _]).
    rewrite !length_app. simpl. lia. }
  assert (Hup0 : disk w1 !! cwd w = disk w !! cwd w).
  { specialize (Hup []). rewrite app_nil_r in Hup. apply Hup. simpl. lia. }
  (* the entries of the commit *)
  set (items := elements (child_names (disk w1)
                            (cwd w1 ++ [".icvcs"; "commits"; c]))).
  assert (Hitems : ∀ i, i ∈ items ↔
            proper_name i ∧
            is_Some (disk w !! (cwd w ++ [".icvcs"; "commits"; c; i]))).
  { intros i. unfold items. rewrite elem_of_elements, elem_of_child_names.
    rewrite Hc1, <- app_assoc. cbn [app]. by rewrite (Hout c [i]). }
  destruct (push_loop c items w1) as (w2 & E2 & Hc2 & Ho2 & Ha2 & Hb2);
    try done; rewrite ?Hc1.
  { apply Forall_forall. intros i Hi. by apply Hitems in Hi as [? _]. }
  { apply NoDup_elements. }
  { by rewrite <- H0. }
  { rewrite <- H1. apply (Hup [_]); simpl; lia. }
  { rewrite <- H2. apply (Hup [_; _]); simpl; lia. }
  { rewrite <- H3. by apply (Hout c []). }
  { exact HL1. }
  { intros i Hi. rewrite (Hout c [i]) by done. by apply Hitems in Hi as [_ ?]. }
  { intros i q _. apply Hfr1. }
  rewrite Hc1 in *.
  exists (World (disk w2) (cwd w2)
            (stdout w2 ++ ["Commit '" +:+ c +:+ "' pushed to 'latest'."])
            (writes w2)).
  split.
  { unfold push. rewrite bind_run.
    rewrite (os_listdir_run _ _ _ plain_commits Hd2 H2).
    rewrite bool_decide_eq_false_2.
    2:{ intros E. assert (Hin : c ∈ elements (child_names (disk w)
                                   (cwd w ++ [".icvcs"; "commits"]))).
        { apply elem_of_elements, elem_of_child_names. split; [done|].
          rewrite <- app_assoc. cbn [app]. by rewrite H3. }
        rewrite E in Hin. by apply elem_of_nil in Hin. }
    destruct c as [|a s]; [by destruct Hc|].
    rewrite bind_run, bind_run. unfold os_path_exists at 1. rewrite ask_run.
    unfold path_exists at 1.
    rewrite (node_of_plain _ _ _ _ Hp (Hd3 _)), H3.
    rewrite bool_decide_eq_true_2 by (by eexists).
    unfold mret at 1, M_ret at 1.
    rewrite bind_run, Ee, bind_run, Er, bind_run, Em, bind_run.
    rewrite (os_listdir_run _ [".icvcs"; "commits"; String a s]); [|done|..].
    - fold items. rewrite bind_run. cbv zeta in E2 |- *. by rewrite E2.
    - rewrite Hc1. apply dirs_down_3. split_and!.
      + by rewrite <- H0.
      + rewrite <- H1. apply (Hup [_]); simpl; lia.
      + rewrite <- H2. apply (Hup [_; _]); simpl; lia.
    - rewrite Hc1, <- H3. by apply (Hout _ []). }
  cbn [disk cwd stdout]. split; [done|]. split.
  { rewrite Hb2; [done|]. intros i _. apply (within_short _ [_; _; _; _]).
    rewrite !length_app. simpl. lia. }
  split; [|split; [|by rewrite Ho2, Ho1]].
  - intros i q. rewrite <- !app_assoc. cbn [app].
    destruct (decide (i ∈ items)) as [Hi|Hi].
    + rewrite Ha2 by done.
      rewrite (copied_ext (disk w)).
      2:{ intros q'. rewrite <- app_assoc. by apply (Hout c (i :: q')). }
      unfold copied. rewrite <- !app_assoc. cbn [app].
      destruct q as [|b q]; [done|].
      destruct (disk w !! (cwd w ++ [".icvcs"; "commits"; c; i]))
        as [[x|]|] eqn:Ei; [|done|].
      * destruct (disk w !! (cwd w ++ ".icvcs" :: "commits" :: c :: i :: b :: q))
          eqn:Eq; [|done].
        destruct (Htidy' i (b :: q)) as [_ [?|Hdir]]; [|done|].
        { by rewrite Eq. }
        congruence.
      * apply Hitems in Hi as [_ [? ?]]. congruence.
    + rewrite Hb2.
      2:{ intros j Hj. apply within_entry_sibling. by intros ->. }
      rewrite Hfr1.
      destruct (disk w !! (cwd w ++ ".icvcs" :: "commits" :: c :: i :: q))
        eqn:Eq; [|done].
      destruct Hi. apply Hitems.
      destruct (Htidy' i q) as [Hpi Hq].
      { by rewrite Eq. }
      split; [done|]. destruct Hq as [->|Hdir].
      * by rewrite Eq.
      * by rewrite Hdir.
  - intros k Hk. rewrite Hb2, Hb1; [done|done|].
    intros i _.
    destruct (within (cwd w ++ [".icvcs"; "commits"; "latest"; i]) k) eqn:Ew;
      [|done].
    rewrite <- Hk. symmetry.
    apply (within_trans _ (cwd w ++ [".icvcs"; "commits"; "latest"; i]));
      [|done].
    replace (cwd w ++ [".icvcs"; "commits"; "latest"; i])
      with ((cwd w ++ [".icvcs"; "commits"; "latest"]) ++ [i])
      by (by rewrite <- app_assoc).
    apply within_app.
Qed.


(** [push(c)] of a stored commit [c]: [latest] becomes a directory that
    holds exactly what the commit holds, path by path and node by node,
    whatever it held before; nothing outside [latest] changes, the
    commit itself included; one line is printed. *)
Theorem push_copies_commit (c : string) (w : world) :
  proper_name c → c ≠ "latest" →
  disk w !! cwd w = Some Dir →
  disk w !! icvcs_loc (cwd w) = Some Dir →
  disk w !! commits_loc (cwd w) = Some Dir →
  disk w !! (commits_loc (cwd w) ++ [c]) = Some Dir →
  tidy_below (disk w) (commits_loc (cwd w) ++ [c]) →
  (disk w !! latest_loc (cwd w) = Some Dir ∨
   ∀ q, disk w !! (latest_loc (cwd w) ++ q) = None) →
  ∃ w',
    push (Some c) w = (Ok (), w') ∧
    disk w' !! latest_loc (cwd w) = Some Dir ∧
    (∀ i q, disk w' !! (latest_loc (cwd w) ++ i :: q)
            = disk w !! (commits_loc (cwd w) ++ c :: i :: q)) ∧
    (∀ k, within (latest_loc (cwd w)) k = false → disk w' !! k = disk w !! k) ∧
    stdout w' = stdout w ++ ["Commit '" +:+ c +:+ "' pushed to 'latest'."].
Proof.
  intros Hc Hcl H0 H1 H2 H3 Htidy Hlat.
  destruct (push_run c w Hc Hcl H0 H1 H2 H3 Htidy Hlat)
    as (w' & E & _ & Hl & Hcopy & Hframe & Hout).
  exists w'. split; [done|]. split; [done|]. split; [done|]. by split.
Qed.

Lemma push_copies_commit_witness :
  proper_name "20240102030405" ∧ "20240102030405" ≠ "latest" ∧
  disk committed_tree !! cwd committed_tree = Some Dir ∧
  disk committed_tree !! icvcs_loc (cwd committed_tree) = Some Dir ∧
  disk committed_tree !! commits_loc (cwd committed_tree) = Some Dir ∧
  disk committed_tree !! (commits_loc (cwd committed_tree)
                          ++ ["20240102030405"]) = Some Dir ∧
  tidy_below (disk committed_tree)
    (commits_loc (cwd committed_tree) ++ ["20240102030405"]) ∧
  (disk committed_tree !! latest_loc (cwd committed_tree) = Some Dir ∨
   ∀ q, disk committed_tree !! (latest_loc (cwd committed_tree) ++ q) = None) ∧
  ∃ w',
    push (Some "20240102030405") committed_tree = (Ok (), w') ∧
    disk w' !! latest_loc (cwd committed_tree) = Some Dir ∧
    (∀ i q, disk w' !! (latest_loc (cwd committed_tree) ++ i :: q)
            = disk committed_tree
                !! (commits_loc (cwd committed_tree)
                    ++ "20240102030405" :: i :: q)) ∧
    (∀ k, within (latest_loc (cwd committed_tree)) k = false →
          disk w' !! k = disk committed_tree !! k) ∧
    stdout w'
    = stdout committed_tree
      ++ ["Commit '" +:+ "20240102030405" +:+ "' pushed to 'latest'."].
Proof.
  assert (Hc : proper_name "20240102030405") by (by apply proper_name_spec).
  assert (Hcl : "20240102030405" ≠ "latest") by discriminate.
  assert (H0 : disk committed_tree !! cwd committed_tree = Some Dir)
    by (vm_compute; reflexivity).
  assert (H1 : disk committed_tree !! icvcs_loc (cwd committed_tree)
               = Some Dir) by (vm_compute; reflexivity).
  assert (H2 : disk committed_tree !! commits_loc (cwd committed_tree)
               = Some Dir) by (vm_compute; reflexivity).
  assert (H3 : disk committed_tree !! (commits_loc (cwd committed_tree)
                                       ++ ["20240102030405"]) = Some Dir)
    by (vm_compute; reflexivity).
  assert (Ht : tidy_below (disk committed_tree)
                 (commits_loc (cwd committed_tree) ++ ["20240102030405"]))
    by (apply tidy_below_check; vm_compute; reflexivity).
  assert (Hl : disk committed_tree !! latest_loc (cwd committed_tree)
               = Some Dir ∨
               ∀ q, disk committed_tree
                      !! (latest_loc (cwd committed_tree) ++ q) = None)
    by (left; vm_compute; reflexivity).
  exact (conj Hc (conj Hcl (conj H0 (conj H1 (conj H2 (conj H3 (conj Ht
           (conj Hl (push_copies_commit _ _ Hc Hcl H0 H1 H2 H3 Ht Hl))))))))).
Defined.

(** ** [push] when there is nothing to push, and of [latest] itself *)

Lemma list_all_one (x : string) (l : list string) :
  NoDup l → (∀ c, c ∈ l → c = x) → l = [] ∨ l = [x].
Proof.
  intros Hnd Hall. destruct l as [|a l]; [by left|]. right.
  assert (a = x) as -> by (apply Hall; by left).
  destruct l as [|b l]; [done|].
  assert (b = x) as -> by (apply Hall; right; by left).
  apply NoDup_cons in Hnd as [Hnd _]. destruct Hnd. by left.
Qed.

(** [push()] right after [clear_commits()] finds nothing to push. When
    [.icvcs/commits] can be listed and every entry of it other than
    [latest] is a directory, the two calls in a row succeed, the second
    one prints [No commits to push.] and changes nothing, whether
    [latest] is still there or not; the disk is the one that
    [clear_commits()] leaves. *)
Theorem push_after_clear (w : world) (listing : list string) :
  (os_listdir COMMITS_DIR w).1 = Ok listing →
  (∀ c, c ∈ listing → c ≠ "latest" →
        disk w !! (commits_loc (cwd w) ++ [c]) = Some Dir) →
  ∃ w',
    (clear_commits ;; push None) w = (Ok (), w') ∧
    disk w' = disk (clear_commits w).2 ∧
    (∀ k, disk w' !! k =
          if cleared listing (commits_loc (cwd w)) k then None
          else disk w !! k) ∧
    stdout w' = stdout w ++ ["All commits cleared except the 'latest' commit.";
                             "No commits to push."].
Proof.
  intros Hl Hdirs.
  destruct (clear_run w listing Hl Hdirs)
    as (Hl' & w1 & E & Hcw & Ho & Hd & Hc & Hk & Hnames).
  assert (Hclear : clear_commits w =
            (Ok (), World (disk w1) (cwd w1)
                      (stdout w1
                       ++ ["All commits cleared except the 'latest' commit."])
                      (writes w1))).
  { unfold clear_commits. rewrite bind_run, Hl', bind_run, E. done. }
  rewrite bind_run, Hclear. cbn [snd disk].
  assert (Hcases : elements (child_names (disk w1) (cwd w1 ++ [".icvcs"; "commits"]))
                   = [] ∨
                   elements (child_names (disk w1) (cwd w1 ++ [".icvcs"; "commits"]))
                   = ["latest"]).
  { apply list_all_one; [apply NoDup_elements|].
    intros c Hin. apply elem_of_elements in Hin. rewrite Hcw in Hin.
    by apply Hnames in Hin as [-> _]. }
  assert (Hlist : ∀ out,
            os_listdir COMMITS_DIR (World (disk w1) (cwd w1) out (writes w1))
            = (Ok (elements (child_names (disk w1)
                               (cwd w1 ++ [".icvcs"; "commits"]))),
               World (disk w1) (cwd w1) out (writes w1))).
  { intros out. rewrite (os_listdir_run _ _ _ plain_commits);
      cbn [disk cwd]; [done|by rewrite Hcw..]. }
  eexists. split.
  { unfold push. rewrite bind_run, Hlist.
    destruct Hcases as [Hcs|Hcs]; rewrite Hcs in Hlist |- *.
    - rewrite bool_decide_eq_true_2 by done. apply print_run.
    - rewrite bool_decide_eq_false_2 by done.
      rewrite bind_run, bind_run, Hlist. cbv zeta.
      change (sorted ["latest"]) with ["latest"].
      rewrite bool_decide_eq_true_2 by (by left).
      cbn [list_remove]. rewrite decide_True by done.
      cbn [default from_option last]. unfold id. cbn [last].
      rewrite bind_run, print_run. reflexivity. }
  cbn [disk stdout]. split; [done|]. split; [done|].
  by rewrite Ho, <- app_assoc.
Qed.

Lemma push_after_clear_witness :
  (os_listdir COMMITS_DIR committed).1 = Ok ["20240102030405"; "latest"] ∧
  (∀ c, c ∈ ["20240102030405"; "latest"] → c ≠ "latest" →
        disk committed !! (commits_loc (cwd committed) ++ [c]) = Some Dir) ∧
  ∃ w',
    (clear_commits ;; push None) committed = (Ok (), w') ∧
    disk w' = disk (clear_commits committed).2 ∧
    (∀ k, disk w' !! k =
          if cleared ["20240102030405"; "latest"]
               (commits_loc (cwd committed)) k then None
          else disk committed !! k) ∧
    stdout w'
    = stdout committed ++ ["All commits cleared except the 'latest' commit.";
                           "No commits to push."].
Proof.
  assert (Hd : ∀ c, c ∈ ["20240102030405"; "latest"] → c ≠ "latest" →
             disk committed !! (commits_loc (cwd committed) ++ [c]) = Some Dir).
  { intros c Hc Hne. apply elem_of_cons in Hc as [->|Hc].
    - vm_compute. reflexivity.
    - apply list_elem_of_singleton in Hc. destruct (Hne Hc). }
  assert (H : (os_listdir COMMITS_DIR committed).1
              = Ok ["20240102030405"; "latest"])
    by (vm_compute; reflexivity).
  exact (conj H (conj Hd (push_after_clear committed _ H Hd))).
Defined.

(** [push("latest")]: the commit to copy is [latest] itself, which is
    emptied before it is read. When [latest] is a directory the call
    succeeds and prints its line, and afterwards [latest] is an empty
    directory: everything it held is gone and nothing else changed. *)
Theorem push_latest_empties (w : world) :
  disk w !! cwd w = Some Dir →
  disk w !! icvcs_loc (cwd w) = Some Dir →
  disk w !! commits_loc (cwd w) = Some Dir →
  disk w !! latest_loc (cwd w) = Some Dir →
  ∃ w',
    push (Some "latest") w = (Ok (), w') ∧
    (∀ k, disk w' !! k =
          if below (latest_loc (cwd w)) k then None else disk w !! k) ∧
    child_names (disk w') (latest_loc (cwd w)) = ∅ ∧
    stdout w' = stdout w ++ ["Commit 'latest' pushed to 'latest'."].
Proof.
  intros H0 H1 H2 H3. unfold icvcs_loc, commits_loc, latest_loc in *.
  assert (Hd2 : dirs_down (disk w) (cwd w) [".icvcs"; "commits"] = true)
    by (by apply dirs_down_2).
  assert (Hd3 : dirs_down (disk w) (cwd w) [".icvcs"; "commits"; "latest"]
                = true) by (by apply dirs_down_3).
  set (loc := cwd w ++ [".icvcs"; "commits"; "latest"]) in *.
  set (fs1 := <[loc := Dir]> (delete loc (remove_below loc (disk w)))).
  assert (Hfs1 : ∀ k, fs1 !! k = if below loc k then None else disk w !! k).
  { intros k. unfold fs1. destruct (decide (k = loc)) as [->|Hk].
    - rewrite lookup_insert_eq. destruct (below loc loc) eqn:Eb; [|done].
      apply below_spec in Eb as (c & q & Eq).
      apply (f_equal List.length) in Eq. rewrite length_app in Eq.
      simpl in Eq. lia.
    - rewrite lookup_insert_ne by done. rewrite lookup_rmtree.
      unfold within, below.
      destruct (strip_prefix loc k) as [[|c q]|] eqn:Ek; try done.
      apply strip_prefix_spec in Ek. rewrite app_nil_r in Ek. done. }
  assert (Hup : ∀ q, (List.length q < 3)%nat →
            fs1 !! (cwd w ++ q) = disk w !! (cwd w ++ q)).
  { intros q Hq. rewrite Hfs1.
    destruct (below loc (cwd w ++ q)) eqn:Eb; [|done].
    apply below_spec in Eb as (c & q' & Eq).
    apply (f_equal List.length) in Eq. unfold loc in Eq.
    rewrite !length_app in Eq. simpl in Eq. lia. }
  assert (Hempty : child_names fs1 loc = ∅).
  { apply set_eq. intros c. rewrite elem_of_child_names, Hfs1.
    unfold below. rewrite strip_prefix_app. split; [|by intros ?%elem_of_empty].
    by intros [_ [? ?]]. }
  exists (World fs1 (cwd w)
            (stdout w ++ ["Commit 'latest' pushed to 'latest'."])
            (writes w ++ [loc; loc; loc])).
  split; [|done].
  unfold push. rewrite bind_run.
  rewrite (os_listdir_run _ _ _ plain_commits Hd2 H2).
  rewrite bool_decide_eq_false_2.
  2:{ intros E. assert (Hin : "latest" ∈ elements (child_names (disk w)
                                 (cwd w ++ [".icvcs"; "commits"]))).
      { apply elem_of_elements, elem_of_child_names.
        split; [by apply proper_name_spec|].
        rewrite <- app_assoc. cbn [app]. by eexists. }
      rewrite E in Hin. by apply elem_of_nil in Hin. }
  rewrite bind_run, bind_run. unfold os_path_exists at 1. rewrite ask_run.
  unfold path_exists at 1.
  rewrite (node_of_plain _ [".icvcs"; "commits"; "latest"]);
    [|by apply (plain_commit_dir "latest"), proper_name_spec|done].
  fold loc. rewrite H3, bool_decide_eq_true_2 by (by eexists).
  unfold mret at 1, M_ret at 1.
  rewrite bind_run. unfold os_path_exists. rewrite ask_run.
  unfold path_exists. rewrite (node_of_plain _ _ _ _ plain_latest Hd3).
  fold loc. rewrite H3, bool_decide_eq_true_2 by (by eexists).
  rewrite bind_run.
  rewrite (rmtree_at _ loc "latest");
    [|exact (resolve_plain_ok _ _ _ _ plain_latest Hd3)
     |done|by vm_compute|done|done].
  rewrite bind_run.
  rewrite (os_makedirs_fresh LATEST_DIR [".icvcs"; "commits"] "latest");
    cbn [disk cwd stdout writes app]; fold loc.
  - fold fs1. rewrite bind_run.
    rewrite (os_listdir_run _ [".icvcs"; "commits"; "latest"]);
      cbn [disk cwd]; fold loc.
    + rewrite Hempty, elements_empty. cbn [for_each].
      rewrite bind_run. unfold mret at 1, M_ret at 1.
      rewrite print_run. cbn [disk cwd stdout writes].
      by rewrite <- !app_assoc.
    + by apply (plain_commit_dir "latest"), proper_name_spec.
    + apply dirs_down_3. split_and!.
      * rewrite <- H0. specialize (Hup []). rewrite app_nil_r in Hup.
        apply Hup. simpl. lia.
      * rewrite <- H1. apply (Hup [_]). simpl. lia.
      * rewrite <- H2. apply (Hup [_; _]). simpl. lia.
    + unfold fs1. by rewrite lookup_insert_eq.
  - exact plain_latest.
  - apply dirs_down_3. rewrite !lookup_rmtree. unfold loc.
    rewrite (within_short _ [_; _; _]) by (rewrite length_app; simpl; lia).
    rewrite (within_short _ [_; _; _]) by (rewrite !length_app; simpl; lia).
    rewrite (within_short _ [_; _; _]) by (rewrite !length_app; simpl; lia).
    done.
  - by rewrite lookup_rmtree, within_refl.
Qed.

Lemma push_latest_empties_witness :
  disk pushed !! cwd pushed = Some Dir ∧
  disk pushed !! icvcs_loc (cwd pushed) = Some Dir ∧
  disk pushed !! commits_loc (cwd pushed) = Some Dir ∧
  disk pushed !! latest_loc (cwd pushed) = Some Dir ∧
  ∃ w',
    push (Some "latest") pushed = (Ok (), w') ∧
    (∀ k, disk w' !! k =
          if below (latest_loc (cwd pushed)) k then None
          else disk pushed !! k) ∧
    child_names (disk w') (latest_loc (cwd pushed)) = ∅ ∧
    stdout w' = stdout pushed ++ ["Commit 'latest' pushed to 'latest'."].
Proof.
  assert (H0 : disk pushed !! cwd pushed = Some Dir)
    by (vm_compute; reflexivity).
  assert (H1 : disk pushed !! icvcs_loc (cwd pushed) = Some Dir)
    by (vm_compute; reflexivity).
  assert (H2 : disk pushed !! commits_loc (cwd pushed) = Some Dir)
    by (vm_compute; reflexivity).
  assert (H3 : disk pushed !! latest_loc (cwd pushed) = Some Dir)
    by (vm_compute; reflexivity).
  exact (conj H0 (conj H1 (conj H2 (conj H3
           (push_latest_empties pushed H0 H1 H2 H3))))).
Defined.

(** ** [compare_versions] of a version with itself *)

Section CompareSelf.
Variable repr_list : list string → string.
Variable unified_diff : text → text → list string.

Lemma compare_file_self v f w :
  comparable w v f →
  compare_file unified_diff v v f w = print ("No changes in file: " +:+ f) w.
Proof.
  intros Hc. unfold compare_file.
  rewrite bind_run, load_file_content_run.
  assert (∃ o, match stored w v f with
               | Ok c => match decode c with
                         | Some t => Ok (Some t)
                         | None => Raise UnicodeDecodeError
                         end
               | Raise FileNotFoundError => Ok None
               | Raise e => Raise e
               end = Ok o) as [o Ho].
  { destruct Hc as [->|(c & t & -> & ->)]; eauto. }
  rewrite Ho, bind_run, load_file_content_run, Ho.
  by rewrite decide_False by (by intros ?).
Qed.

Lemma compare_files_self v fs : ∀ w,
  Forall (comparable w v) fs →
  for_each fs (compare_file unified_diff v v) w =
    (Ok (), World (disk w) (cwd w)
              (stdout w ++ ((λ f, "No changes in file: " +:+ f) <$> fs))
              (writes w)).
Proof.
  induction fs as [|f fs IH]; intros w Hall.
  { cbn [for_each fmap list_fmap]. rewrite app_nil_r. by destruct w. }
  apply Forall_cons in Hall as [Hf Hall]. cbn [for_each].
  rewrite bind_run, (compare_file_self _ _ _ Hf), print_run, IH.
  - cbn [disk cwd stdout writes]. by rewrite <- app_assoc.
  - eapply Forall_impl; [exact Hall|]. intros g Hg. unfold comparable in *.
    by rewrite !(stored_ext w) by done.
Qed.

(** A version compared with itself shows no change: when its list of
    files loads and each file of the list is missing from the version or
    holds text, [compare_versions(v, v)] prints the list twice on one
    line, as [repr] shows it, then the heading and one line
    [No changes in file: ...] for each file, in sorted order; it never
    asks the differ, whatever it would answer, and writes nothing. *)
Theorem compare_with_itself (v : string) (files : list string) (w : world) :
  (load_version_files v w).1 = Ok (Some files) →
  Forall (comparable w v) (all_files files files) →
  compare_versions repr_list unified_diff v v w =
    (Ok (), World (disk w) (cwd w)
              (stdout w
               ++ [repr_list files +:+ " " +:+ repr_list files;
                   "Comparing versions " +:+ v +:+ " and " +:+ v +:+ "...
"]
               ++ ((λ f, "No changes in file: " +:+ f)
                   <$> all_files files files))
              (writes w)).
Proof.
  intros Hl Hall.
  destruct (load_version_files v w) as [r w0] eqn:E. cbn [fst] in Hl.
  subst r. pose proof (load_version_files_some _ _ _ _ E) as ->.
  unfold compare_versions.
  rewrite bind_run, E, bind_run, E, bind_run, print_run, bind_run, print_run.
  rewrite compare_files_self; cbn [disk cwd stdout writes].
  - by rewrite <- !app_assoc.
  - eapply Forall_impl; [exact Hall|]. intros g Hg. unfold comparable in *.
    by rewrite !(stored_ext w) by done.
Qed.

End CompareSelf.

Lemma compare_with_itself_witness :
  (load_version_files "v1" with_v1).1 = Ok (Some ["a.txt"]) ∧
  Forall (comparable with_v1 "v1") (all_files ["a.txt"] ["a.txt"]) ∧
  compare_versions quoted_list (λ _ _, ["a line of the differ"]) "v1" "v1"
    with_v1 =
    (Ok (), World (disk with_v1) (cwd with_v1)
              (stdout with_v1
               ++ [quoted_list ["a.txt"] +:+ " " +:+ quoted_list ["a.txt"];
                   "Comparing versions " +:+ "v1" +:+ " and " +:+ "v1" +:+ "...
"]
               ++ ((λ f, "No changes in file: " +:+ f)
                   <$> all_files ["a.txt"] ["a.txt"]))
              (writes with_v1)).
Proof.
  assert (L : (load_version_files "v1" with_v1).1 = Ok (Some ["a.txt"]))
    by (vm_compute; reflexivity).
  assert (Hc : Forall (comparable with_v1 "v1")
                 (all_files ["a.txt"] ["a.txt"])).
  { change (all_files ["a.txt"] ["a.txt"]) with ["a.txt"].
    constructor; [|constructor].
    right. exists (Bytes "hello"), (Str "hello").
    split; vm_compute; reflexivity. }
  exact (conj L (conj Hc
           (compare_with_itself quoted_list (λ _ _, ["a line of the differ"])
              "v1" ["a.txt"] with_v1 L Hc))).
Defined.

(** ** What [commit] stores *)

Lemma dirs_down_agree fs fs' cs : ∀ loc,
  (∀ n, fs' !! (loc ++ take n cs) = fs !! (loc ++ take n cs)) →
  dirs_down fs' loc cs = dirs_down fs loc cs.
Proof.
  induction cs as [|c cs IH]; intros loc H; [done|]. cbn [dirs_down].
  pose proof (H 0) as H0. cbn [take] in H0. rewrite app_nil_r in H0.
  rewrite H0. destruct (fs !! loc) as [[|]|]; try done.
  apply IH. intros n. specialize (H (S n)). cbn [take] in H.
  by rewrite <- !app_assoc.
Qed.

Lemma outside_icvcs wd cs n :
  head cs ≠ Some ".icvcs" →
  within (wd ++ [".icvcs"]) (wd ++ take n cs) = false.
Proof.
  intros Hh. apply within_false. intros q E. rewrite <- app_assoc in E.
  apply app_inv_head in E. destruct n, cs; simpl in *; congruence.
Qed.

Lemma tracked_file_there_agree w w' f :
  cwd w' = cwd w →
  (∀ k, within (icvcs_loc (cwd w)) k = false → disk w' !! k = disk w !! k) →
  tracked_file_there w f → tracked_file_there w' f.
Proof.
  intros Hc Hk (cs & x & Hp & Hh & Hd & Hl). exists cs, x.
  split; [done|]. split; [done|]. rewrite Hc. split.
  - rewrite <- Hd. apply dirs_down_agree. intros n. apply Hk.
    by apply outside_icvcs.
  - rewrite <- Hl. pose proof (outside_icvcs (cwd w) cs (List.length cs) Hh)
      as Ho. rewrite firstn_all in Ho. by apply Hk.
Qed.

Lemma plain_basename f cs :
  plain f cs → proper_name (os_path_basename f) ∧
               last cs = Some (os_path_basename f).
Proof.
  intros (_ & _ & _ & Hs & Hf). pose proof (basename_last f) as Hb.
  rewrite Hs in Hb. split; [|done].
  rewrite Forall_forall in Hf. apply Hf.
  apply last_Some in Hb as [l' ->]. apply elem_of_app. right. by left.
Qed.

(** [shutil.copy(src, dir)] of a regular file into a directory that has
    no entry of its name. *)
Lemma copy_into_run src dir scs dcs x w :
  plain src scs → plain dir dcs →
  dirs_down (disk w) (cwd w) scs = true →
  disk w !! (cwd w ++ scs) = Some (File x) →
  dirs_down (disk w) (cwd w) dcs = true →
  disk w !! (cwd w ++ dcs) = Some Dir →
  disk w !! (cwd w ++ dcs ++ [os_path_basename src]) = None →
  shutil_copy src dir w =
    (Ok (), World (<[cwd w ++ dcs ++ [os_path_basename src] := File x]> (disk w))
                  (cwd w) (stdout w)
                  (writes w ++ [cwd w ++ dcs ++ [os_path_basename src]])).
Proof.
  intros Hs Hd Hsd Hsl Hdd Hdl Hfresh. unfold shutil_copy.
  destruct (plain_basename _ _ Hs) as [Hb _].
  pose proof (plain_join _ _ _ Hd Hb) as Hj.
  assert (Hjd : dirs_down (disk w) (cwd w) (dcs ++ [os_path_basename src])
                = true) by (by apply dirs_down_snoc).
  rewrite bind_run. unfold os_path_isdir. rewrite ask_run.
  unfold path_isdir. rewrite (node_of_plain _ _ _ _ Hd Hdd), Hdl.
  rewrite bind_run, ask_run. unfold samefile.
  rewrite (resolve_plain_ok _ _ _ _ Hs Hsd), (resolve_plain_ok _ _ _ _ Hj Hjd).
  rewrite bool_decide_eq_false_2; [|intros E; rewrite E in Hsl; congruence].
  cbn [andb].
  rewrite bind_run, (read_file_run _ _ _ _ Hs Hsd Hsl).
  apply (write_file_run _ _ _ _ Hj Hjd). by rewrite Hfresh.
Qed.

Lemma tracked_node_agree w w' f :
  cwd w' = cwd w →
  (∀ k, within (icvcs_loc (cwd w)) k = false → disk w' !! k = disk w !! k) →
  tracked_file_there w f →
  node_of (disk w') (cwd w') f = node_of (disk w) (cwd w) f.
Proof.
  intros Hc Hk Ht.
  pose proof (tracked_file_there_agree _ _ _ Hc Hk Ht) as (cs' & x' & Hp' & _ & Hd' & _).
  destruct Ht as (cs & x & Hp & Hh & Hd & Hl).
  assert (cs' = cs) as ->.
  { destruct Hp as (_ & _ & _ & <- & _). by destruct Hp' as (_ & _ & _ & <- & _). }
  rewrite (node_of_plain _ _ _ _ Hp Hd'), (node_of_plain _ _ _ _ Hp Hd), Hc.
  pose proof (outside_icvcs (cwd w) cs (List.length cs) Hh) as Ho.
  rewrite firstn_all in Ho. by apply Hk.
Qed.

(** The first loop of [commit] and of [version create] on tracked files
    that are there, with base names that differ, into a directory of the
    storage [X] that has none of them. *)
Lemma copy_files_run X id D warn fs : ∀ w,
  plain D [".icvcs"; X; id] →
  disk w !! cwd w = Some Dir →
  disk w !! (cwd w ++ [".icvcs"]) = Some Dir →
  disk w !! (cwd w ++ [".icvcs"; X]) = Some Dir →
  disk w !! (cwd w ++ [".icvcs"; X; id]) = Some Dir →
  Forall (tracked_file_there w) fs →
  NoDup (os_path_basename <$> fs) →
  (∀ f, f ∈ fs →
        disk w !! (cwd w ++ [".icvcs"; X; id; os_path_basename f])
        = None) →
  ∃ w',
    copy_tracked_files fs D warn w = (Ok (), w') ∧
    cwd w' = cwd w ∧ stdout w' = stdout w ∧
    (∀ f, f ∈ fs →
          disk w' !! (cwd w ++ [".icvcs"; X; id; os_path_basename f])
          = node_of (disk w) (cwd w) f) ∧
    (∀ k, (∀ f, f ∈ fs →
            k ≠ cwd w ++ [".icvcs"; X; id; os_path_basename f]) →
          disk w' !! k = disk w !! k).
Proof.
  induction fs as [|f fs IH]; intros w Hpd H0 H1 H2 H3 Hall Hnd Hfr.
  { exists w. split; [done|]. split; [done|]. split; [done|].
    split; [|done]. intros f Hf. by apply elem_of_nil in Hf. }
  apply Forall_cons in Hall as [Hf Hall].
  rewrite fmap_cons in Hnd. apply NoDup_cons in Hnd as [Hfn Hnd].
  assert (Hne : ∀ f', f' ∈ fs → os_path_basename f ≠ os_path_basename f').
  { intros f' Hf' E. apply Hfn. rewrite E. by apply list_elem_of_fmap_2. }
  pose proof Hf as (cs & x & Hp & Hh & Hd & Hl).
  set (key := cwd w ++ [".icvcs"; X; id; os_path_basename f]).
  assert (Hstep :
    shutil_copy f D w =
      (Ok (), World (<[key := File x]> (disk w)) (cwd w) (stdout w)
                (writes w ++ [key]))).
  { apply (copy_into_run _ _ cs [".icvcs"; X; id]); try done.
    - by apply dirs_down_3.
    - apply Hfr. by left. }
  assert (Hout : ∀ k, within (icvcs_loc (cwd w)) k = false →
            <[key := File x]> (disk w) !! k = disk w !! k).
  { intros k Hk. rewrite lookup_insert_ne; [done|]. intros <-.
    unfold key, icvcs_loc in Hk.
    by rewrite (within_icvcs (cwd w) [_; _; _]) in Hk. }
  destruct (IH (World (<[key := File x]> (disk w)) (cwd w) (stdout w)
                  (writes w ++ [key])))
    as (w' & E & Hc' & Ho' & Ha & Hb); cbn [disk cwd stdout] in *; try done.
  - unfold key. by rewrite lookup_insert_ne by loc_neq.
  - unfold key. by rewrite lookup_insert_ne by loc_neq.
  - unfold key. by rewrite lookup_insert_ne by loc_neq.
  - unfold key. by rewrite lookup_insert_ne by loc_neq.
  - eapply Forall_impl; [exact Hall|]. intros g Hg.
    exact (tracked_file_there_agree w
             (World (<[key := File x]> (disk w)) (cwd w) (stdout w)
                (writes w ++ [key])) g eq_refl Hout Hg).
  - intros g Hg. rewrite lookup_insert_ne.
    + apply Hfr. by right.
    + unfold key. intros E'. apply app_inv_head in E'.
      injection E' as E'. by apply (Hne g).
  - exists w'. split.
    { unfold copy_tracked_files in *. cbn [for_each]. rewrite bind_run, bind_run.
      unfold os_path_exists at 1. rewrite ask_run. unfold path_exists at 1.
      rewrite (node_of_plain _ _ _ _ Hp Hd), Hl.
      rewrite bool_decide_eq_true_2 by (by eexists).
      by rewrite Hstep. }
    split; [done|]. split; [done|]. split.
    + intros g [->|Hg]%elem_of_cons.
      * rewrite Hb.
        -- fold key. by rewrite lookup_insert_eq, (node_of_plain _ _ _ _ Hp Hd).
        -- intros g Hg E'. apply app_inv_head in E'. injection E' as E'.
           by apply (Hne g).
      * rewrite Ha by done.
        rewrite Forall_forall in Hall.
        pose proof (tracked_node_agree w
                      (World (<[key := File x]> (disk w)) (cwd w) (stdout w)
                         (writes w ++ [key])) g eq_refl Hout (Hall g Hg))
          as Hn.
        exact Hn.
    + intros k Hk. rewrite Hb.
      * rewrite lookup_insert_ne; [done|]. intros <-. by apply (Hk f); [left|].
      * intros g Hg. apply Hk. by right.
Qed.

(** The run of [commit] in a repository that tracks only files. *)
Lemma commit_run (now stamp : datetime) (m a : string) (w : world)
    (rd : repo_data) (cfg : config) (h : list commit_meta) :
  index_file w = Some rd →
  (load_config w).1 = Ok cfg →
  journal_file w = Some h →
  directories rd = [] →
  disk w !! commits_loc (cwd w) = Some Dir →
  (∀ q, disk w !! (commits_loc (cwd w) ++ strftime_YmdHMS now :: q) = None) →
  Forall (tracked_file_there w) (files rd) →
  NoDup (os_path_basename <$> files rd) →
  "metadata.json" ∉ os_path_basename <$> files rd →
  ∃ w',
    commit now stamp m a w = (Ok (), w') ∧ cwd w' = cwd w ∧
    (∃ e, disk w' !! journal_loc (cwd w) = Some (File (HistoryDoc (h ++ [e])))) ∧
    disk w' !! (commits_loc (cwd w) ++ [strftime_YmdHMS now]) = Some Dir ∧
    (∀ k, within (commits_loc (cwd w) ++ [strftime_YmdHMS now]) k = false →
          k ≠ journal_loc (cwd w) → disk w' !! k = disk w !! k) ∧
    (∀ c, disk w' !! (commits_loc (cwd w) ++ [strftime_YmdHMS now; c])
          ≠ Some Dir) ∧
    (∀ f, f ∈ files rd →
          disk w' !! (commits_loc (cwd w)
                      ++ [strftime_YmdHMS now; os_path_basename f])
          = node_of (disk w) (cwd w) f) ∧
    (∀ c q, is_Some (disk w' !! (commits_loc (cwd w)
                                 ++ strftime_YmdHMS now :: c :: q)) →
            q = [] ∧
            (c = "metadata.json" ∨ c ∈ os_path_basename <$> files rd)).
Proof.
  intros Hi Hcfg Hj Hdirs H2 Hfresh Hall Hnd Hmeta.
  pose proof (strftime_proper now) as Hid.
  set (id := strftime_YmdHMS now) in *.
  destruct (journal_file_inv _ _ Hj) as (H0 & H1 & HJ).
  unfold icvcs_loc, commits_loc, journal_loc in *.
  assert (Hfresh' : ∀ q, disk w !! (cwd w ++ ".icvcs" :: "commits" :: id :: q)
                         = None).
  { intros q. specialize (Hfresh q). by rewrite <- app_assoc in Hfresh. }
  clear Hfresh.
  set (cdir := cwd w ++ [".icvcs"; "commits"; id]).
  set (fs1 := <[cdir := Dir]> (disk w)).
  set (w1 := World fs1 (cwd w) (stdout w) (writes w ++ [cdir])).
  assert (E1 : os_makedirs (os_path_join COMMITS_DIR id) w = (Ok (), w1)).
  { apply (os_makedirs_fresh _ [".icvcs"; "commits"] id).
    - by apply plain_commit_dir.
    - by apply dirs_down_3.
    - apply (Hfresh' []). }
  assert (Hout1 : ∀ k, within (cwd w ++ [".icvcs"; "commits"; id]) k = false →
            fs1 !! k = disk w !! k).
  { intros k Hk. unfold fs1. rewrite lookup_insert_ne; [done|].
    intros <-. unfold cdir in Hk. by rewrite within_refl in Hk. }
  assert (Hicv : ∀ k, within (cwd w ++ [".icvcs"]) k = false →
            within (cwd w ++ [".icvcs"; "commits"; id]) k = false).
  { intros k Hk. destruct (within (cwd w ++ [_; _; _]) k) eqn:E; [|done].
    rewrite <- Hk. symmetry.
    apply (within_trans _ (cwd w ++ [".icvcs"; "commits"; id])); [|done].
    apply (within_icvcs _ [_; _]). }
  destruct (copy_files_run "commits" id (os_path_join COMMITS_DIR id) true
              (files rd) w1)
    as (w2 & E2 & Hc2 & Ho2 & Ha2 & Hb2); cbn [disk cwd stdout w1] in *;
    try done.
  { by apply plain_commit_dir. }
  { rewrite <- H0. apply Hout1, (within_short _ [_; _; _]).
    rewrite length_app. simpl. lia. }
  { rewrite <- H1. apply Hout1, (within_short _ [_; _; _]).
    rewrite !length_app. simpl. lia. }
  { rewrite <- H2. apply Hout1, (within_short _ [_; _; _]).
    rewrite !length_app. simpl. lia. }
  { unfold fs1, cdir. by rewrite lookup_insert_eq. }
  { eapply Forall_impl; [exact Hall|]. intros g Hg.
    refine (tracked_file_there_agree w w1 g eq_refl _ Hg).
    intros k Hk. apply Hout1. by apply Hicv. }
  { intros f Hf. unfold fs1. rewrite lookup_insert_ne by (unfold cdir; loc_neq).
    apply (Hfresh' [_]). }
  assert (Hkeep : ∀ q, (List.length q < 3)%nat ∨ q = [".icvcs"; "commits"; id] ∨
                       q = [".icvcs"; "commit_history.json"] →
            disk w2 !! (cwd w ++ q) = fs1 !! (cwd w ++ q)).
  { intros q Hq. apply Hb2. intros f _ E. apply app_inv_head in E.
    destruct Hq as [Hq|[->| ->]]; [|done..]. subst q. simpl in Hq. lia. }
  assert (D0 : disk w2 !! cwd w = Some Dir).
  { specialize (Hkeep []). rewrite app_nil_r in Hkeep. rewrite Hkeep.
    - rewrite <- H0. apply Hout1, (within_short _ [_; _; _]).
      rewrite length_app. simpl. lia.
    - left. simpl. lia. }
  assert (D1 : disk w2 !! (cwd w ++ [".icvcs"]) = Some Dir).
  { rewrite Hkeep by (left; simpl; lia). rewrite <- H1.
    apply Hout1, (within_short _ [_; _; _]). rewrite !length_app. simpl. lia. }
  assert (D2 : disk w2 !! (cwd w ++ [".icvcs"; "commits"]) = Some Dir).
  { rewrite Hkeep by (left; simpl; lia). rewrite <- H2.
    apply Hout1, (within_short _ [_; _; _]). rewrite !length_app. simpl. lia. }
  assert (D3 : disk w2 !! (cwd w ++ [".icvcs"; "commits"; id]) = Some Dir).
  { rewrite Hkeep by (right; by left). unfold fs1, cdir.
    by rewrite lookup_insert_eq. }
  assert (DJ : disk w2 !! (cwd w ++ [".icvcs"; "commit_history.json"])
               = Some (File (HistoryDoc h))).
  { rewrite Hkeep by (right; by right). rewrite <- HJ. apply Hout1.
    apply within_false. intros q E. rewrite <- app_assoc in E.
    apply app_inv_head in E. done. }
  assert (DM : disk w2 !! (cwd w ++ [".icvcs"; "commits"; id; "metadata.json"])
               = None).
  { rewrite Hb2.
    - unfold fs1. rewrite lookup_insert_ne by (unfold cdir; loc_neq).
      apply (Hfresh' [_]).
    - intros f Hf E. apply app_inv_head in E. injection E as E.
      apply Hmeta. rewrite E. by apply list_elem_of_fmap_2. }
  set (entry := CommitMeta id (isoformat stamp)
                  (or_default m (default_commit_message cfg))
                  (or_default a (default_author cfg))).
  set (mkey := cwd w ++ [".icvcs"; "commits"; id; "metadata.json"]) in *.
  set (jkey := cwd w ++ [".icvcs"; "commit_history.json"]) in *.
  set (w3 := World (<[mkey := File (CommitMetaDoc entry)]> (disk w2)) (cwd w2)
               (stdout w2) (writes w2 ++ [mkey])).
  assert (E3 : write_file (os_path_join (os_path_join COMMITS_DIR id)
                             "metadata.json") (CommitMetaDoc entry) w2
               = (Ok (), w3)).
  { unfold w3, mkey. rewrite <- Hc2.
    apply (write_file_run _ _ _ _ (plain_commit_metadata id Hid)); rewrite Hc2.
    - apply (dirs_down_snoc _ _ [_; _; _]). split; [by apply dirs_down_3|done].
    - fold mkey. by rewrite DM. }
  assert (E4 : read_file (os_path_join ICVCS_DIR "commit_history.json") w3
               = (Ok (HistoryDoc h), w3)).
  { apply (read_file_run _ _ _ _ plain_journal); unfold w3; cbn [disk cwd];
      rewrite Hc2.
    - apply dirs_down_2. unfold mkey.
      by rewrite !lookup_insert_ne by loc_neq.
    - fold jkey. rewrite lookup_insert_ne; [done|].
      unfold mkey, jkey. intros E. apply app_inv_head in E. done. }
  set (w4 := World (<[jkey := File (HistoryDoc (h ++ [entry]))]> (disk w3))
               (cwd w3) (stdout w3) (writes w3 ++ [jkey])).
  assert (E5 : write_file (os_path_join ICVCS_DIR "commit_history.json")
                 (HistoryDoc (h ++ [entry])) w3 = (Ok (), w4)).
  { unfold w4, jkey. replace (cwd w) with (cwd w3) by (by rewrite <- Hc2).
    apply (write_file_run _ _ _ _ plain_journal); unfold w3; cbn [disk cwd];
      rewrite Hc2.
    - apply dirs_down_2. unfold mkey.
      by rewrite !lookup_insert_ne by loc_neq.
    - fold jkey. rewrite lookup_insert_ne.
      + by rewrite DJ.
      + unfold mkey, jkey. intros E. apply app_inv_head in E. done. }
  exists (World (disk w4) (cwd w4)
            (stdout w4 ++ ["Commit '" +:+ id +:+ "' created successfully."])
            (writes w4)).
  split.
  { unfold commit. rewrite bind_run.
    pose proof (load_repo_data_spec w) as Hr. rewrite Hi in Hr. rewrite Hr.
    rewrite bind_run, (load_config_world w), Hcfg.
    unfold commit_with. cbv zeta. fold id. fold entry.
    rewrite bind_run, E1, bind_run, E2, bind_run, Hdirs.
    unfold copy_tracked_directories. cbn [for_each].
    unfold mret at 1, M_ret at 1.
    rewrite bind_run, E3, bind_run, E4, bind_run, E5.
    apply print_run. }
  cbn [disk cwd]. unfold w4, w3. cbn [disk cwd]. split; [done|]. split.
  { exists entry. by rewrite lookup_insert_eq. }
  split.
  { rewrite <- app_assoc. cbn [app].
    rewrite lookup_insert_ne
      by (unfold jkey; intros E; apply app_inv_head in E; done).
    rewrite lookup_insert_ne by (unfold mkey; loc_neq). done. }
  split.
  { intros k Hk Hkj. rewrite <- app_assoc in Hk. cbn [app] in Hk.
    rewrite lookup_insert_ne by (by fold jkey in Hkj).
    rewrite lookup_insert_ne.
    2:{ intros <-. unfold mkey in Hk.
        replace (cwd w ++ [".icvcs"; "commits"; id; "metadata.json"])
          with ((cwd w ++ [".icvcs"; "commits"; id]) ++ ["metadata.json"])
          in Hk by (by rewrite <- app_assoc).
        by rewrite within_app in Hk. }
    rewrite Hb2; [by apply Hout1|].
    intros f _ ->.
    replace (cwd w ++ [".icvcs"; "commits"; id; os_path_basename f])
      with ((cwd w ++ [".icvcs"; "commits"; id]) ++ [os_path_basename f])
      in Hk by (by rewrite <- app_assoc).
    by rewrite within_app in Hk. }
  split.
  { intros c. rewrite <- app_assoc. cbn [app].
    rewrite lookup_insert_ne
      by (unfold jkey; intros E; apply app_inv_head in E; done).
    destruct (decide (c = "metadata.json")) as [->|Hc].
    { fold mkey. by rewrite lookup_insert_eq. }
    rewrite lookup_insert_ne
      by (unfold mkey; intros E; apply app_inv_head in E; congruence).
    destruct (decide (c ∈ os_path_basename <$> files rd)) as [Hin|Hin].
    - apply list_elem_of_fmap in Hin as (f & -> & Hf).
      rewrite Ha2 by done. rewrite Forall_forall in Hall.
      destruct (Hall f Hf) as (cs & x & Hp & Hh & Hd & Hl).
      assert (Hn : node_of fs1 (cwd w) f = node_of (disk w) (cwd w) f).
      { refine (tracked_node_agree w w1 f eq_refl _ (Hall f Hf)).
        intros k Hk. apply Hout1. by apply Hicv. }
      rewrite Hn, (node_of_plain _ _ _ _ Hp Hd), Hl. done.
    - rewrite Hb2.
      + unfold fs1. rewrite lookup_insert_ne by (unfold cdir; loc_neq).
        by rewrite (Hfresh' [c]).
      + intros f Hf E. apply app_inv_head in E. injection E as ->.
        apply Hin. by apply list_elem_of_fmap_2. }
  split.
  - intros f Hf. rewrite <- app_assoc. cbn [app].
    rewrite lookup_insert_ne
      by (unfold jkey; intros E; apply app_inv_head in E; done).
    rewrite lookup_insert_ne.
    + rewrite Ha2 by done. rewrite Forall_forall in Hall.
      refine (tracked_node_agree w w1 f eq_refl _ (Hall f Hf)).
      intros k Hk. apply Hout1. by apply Hicv.
    + unfold mkey. intros E. apply app_inv_head in E. injection E as E.
      apply Hmeta. rewrite E. by apply list_elem_of_fmap_2.
  - intros c q. rewrite <- app_assoc. cbn [app].
    rewrite lookup_insert_ne
      by (unfold jkey; intros E; apply app_inv_head in E; done).
    destruct (decide (c = "metadata.json" ∧ q = [])) as [[-> ->]|Hnm].
    { intros _. split; [done|by left]. }
    rewrite lookup_insert_ne.
    2:{ unfold mkey. intros E. apply app_inv_head in E. injection E as <- <-.
        by apply Hnm. }
    destruct (decide (c ∈ os_path_basename <$> files rd ∧ q = []))
      as [[Hc ->]|Hnb].
    { intros _. split; [done|by right]. }
    rewrite Hb2.
    + unfold fs1. rewrite lookup_insert_ne by (unfold cdir; loc_neq).
      rewrite (Hfresh' (c :: q)). by intros [? ?].
    + intros f Hf E. apply app_inv_head in E. injection E as -> ->.
      apply Hnb. split; [|done]. by apply list_elem_of_fmap_2.
Qed.



Lemma tracking_nested_fresh q :
  disk tracking_nested
    !! (commits_loc (cwd tracking_nested) ++ strftime_YmdHMS t0 :: q) = None.
Proof.
  assert (H : forallb (λ kv : path * node,
                         negb (within (commits_loc (cwd tracking_nested)
                                       ++ [strftime_YmdHMS t0]) kv.1))
                (map_to_list (disk tracking_nested)) = true)
    by (vm_compute; reflexivity).
  destruct (disk tracking_nested
              !! (commits_loc (cwd tracking_nested) ++ strftime_YmdHMS t0 :: q))
    as [n|] eqn:E; [|done].
  apply elem_of_map_to_list, list_elem_of_In in E.
  apply (proj1 (forallb_forall _ _) H) in E. cbn [fst] in E.
  change (strftime_YmdHMS t0 :: q) with ([strftime_YmdHMS t0] ++ q) in E.
  by rewrite app_assoc, within_app in E.
Qed.

Lemma tracking_nested_files :
  Forall (tracked_file_there tracking_nested) ["a.txt"; "sub/b.txt"].
Proof.
  constructor; [|constructor; [|constructor]].
  - exists ["a.txt"], (Bytes "hello"). split_and!.
    + apply plain_single. proper_const.
    + discriminate.
    + vm_compute. reflexivity.
    + vm_compute. reflexivity.
  - exists ["sub"; "b.txt"], (Bytes "bb"). split_and!.
    + unfold plain. split_and!.
      * discriminate.
      * vm_compute. reflexivity.
      * vm_compute. reflexivity.
      * vm_compute. reflexivity.
      * repeat constructor; proper_const.
    + discriminate.
    + vm_compute. reflexivity.
    + vm_compute. reflexivity.
Qed.

Lemma tracking_nested_names :
  NoDup (os_path_basename <$> ["a.txt"; "sub/b.txt"]) ∧
  "metadata.json" ∉ os_path_basename <$> ["a.txt"; "sub/b.txt"].
Proof.
  assert (Hb : os_path_basename <$> ["a.txt"; "sub/b.txt"] = ["a.txt"; "b.txt"])
    by (vm_compute; reflexivity).
  rewrite Hb. split.
  - apply NoDup_cons. split; [|apply NoDup_singleton].
    intros H%list_elem_of_singleton. discriminate.
  - intros [H|H%list_elem_of_singleton]%elem_of_cons; discriminate.
Qed.


(** ** What [status] calls modified *)

Lemma classify_exact acc file w acc' w' :
  classify (os_path_join (os_path_join ICVCS_DIR "commits") "latest")
    acc file w = (Ok acc', w') →
  (path_exists (disk w) (cwd w) file = false ∧ acc'.1 = acc.1) ∨
  (path_exists (disk w) (cwd w) file = true ∧
   differs_from_latest w file ∧ acc'.1 = acc.1 ++ [file]) ∨
  (path_exists (disk w) (cwd w) file = true ∧
   ¬ differs_from_latest w file ∧ acc'.1 = acc.1).
Proof.
  unfold classify, differs_from_latest. cbv zeta.
  rewrite bind_run. unfold os_path_exists at 1.
  rewrite ask_run. destruct (path_exists _ _ file) eqn:Ex;
    cbv beta iota delta [negb].
  - rewrite bind_run. unfold os_path_exists. rewrite ask_run.
    destruct (path_exists _ _ (os_path_join _ file)) eqn:El;
      cbv beta iota delta [negb].
    + rewrite bind_run, (read_file_world file w).
      destruct (read_file file w).1 as [c1|]; [|done].
      rewrite bind_run, (read_file_world _ w).
      destruct (read_file _ w).1 as [c2|]; [|done].
      destruct (decide (c1 ≠ c2)) as [Hne|Heq]; intros [= <- <-].
      * right. left. split; [done|]. split; [|done]. right. cbn [fst].
        congruence.
      * right. right. split; [done|]. split; [|done].
        intros [?|Hd]; [done|]. cbn [fst] in Hd. apply Hd. f_equal.
        destruct (decide (c1 = c2)); [done|by destruct Heq].
    + intros [= <- <-]. right. left. split; [done|]. split; [by left|done].
  - intros [= <- <-]. by left.
Qed.

Lemma classify_world acc file w acc' w' latest :
  classify latest acc file w = (Ok acc', w') → w' = w.
Proof. intros H. by apply classify_run in H as [-> _]. Qed.

Lemma classify_modified xs : ∀ acc w lists w',
  fold_each xs acc
    (classify (os_path_join (os_path_join ICVCS_DIR "commits") "latest")) w
    = (Ok lists, w') →
  ∀ f, f ∈ lists.1 ↔
       f ∈ acc.1 ∨
       (f ∈ xs ∧ path_exists (disk w) (cwd w) f = true ∧
        differs_from_latest w f).
Proof.
  induction xs as [|x xs IH]; intros acc w lists w' Hrun f.
  { cbn [fold_each] in Hrun. injection Hrun as <- <-. split; [by left|].
    intros [?|[?%elem_of_nil _]]; done. }
  cbn [fold_each] in Hrun.
  apply bind_ok_inv in Hrun as (acc' & w1 & Hstep & Hrun).
  pose proof (classify_world _ _ _ _ _ _ Hstep) as ->.
  apply classify_exact in Hstep. rewrite (IH _ _ _ _ Hrun f).
  destruct Hstep as [[Hx ->]|[(Hx & Hd & ->)|(Hx & Hd & ->)]].
  - split; [intros [?|(? & ? & ?)]; [by left|right; by split; [right|]]|].
    intros [?|([->|?]%elem_of_cons & He & ?)]; [by left|congruence|by right].
  - rewrite elem_of_app, list_elem_of_singleton. split.
    + intros [[?| ->]|(? & ? & ?)]; [by left|right; by split; [left|]|].
      right. by split; [right|].
    + intros [?|([->|?]%elem_of_cons & He & ?)];
        [left; by left|left; by right|by right].
  - split; [intros [?|(? & ? & ?)]; [by left|right; by split; [right|]]|].
    intros [?|([->|?]%elem_of_cons & He & ?)]; [by left|done|by right].
Qed.

(** When [status()] returns, Modified is exactly the set of tracked
    files that exist and for which [latest] has nothing under the path
    as it is tracked or holds other content; Staged is exactly the set
    of tracked files, among those the walk of the working tree yields,
    that exist and that [latest] holds under that path with the same
    content. *)
Theorem status_modified_exactly (w : world) (rep : status_report) :
  (status w).1 = Ok rep →
  ∃ rd, index_file w = Some rd ∧
    (∀ f, f ∈ modified_files rep ↔
          f ∈ files rd ∧ path_exists (disk w) (cwd w) f = true ∧
          differs_from_latest w f) ∧
    (∀ f, f ∈ staged_files rep ↔
          f ∈ files rd ∧ f ∈ working_directory_files (disk w) (cwd w) ∧
          path_exists (disk w) (cwd w) f = true ∧
          ¬ differs_from_latest w f).
Proof.
  destruct (status w) as [r w'] eqn:E. cbn [fst]. intros ->.
  apply status_inv in E as (rd & lists & Hi & Hloop & Hm & Hd & Hs).
  exists rd. split; [done|].
  assert (Hel : ∀ f, f ∈ elements (list_to_set (files rd) : gset string)
                     ↔ f ∈ files rd).
  { intros f. by rewrite elem_of_elements, elem_of_list_to_set. }
  assert (Hmod : ∀ f, f ∈ modified_files rep ↔
            f ∈ files rd ∧ path_exists (disk w) (cwd w) f = true ∧
            differs_from_latest w f).
  { intros f. rewrite Hm, (classify_modified _ _ _ _ _ Hloop f), Hel.
    cbn [fst]. split; [intros [?%elem_of_nil|?]; done|by right]. }
  apply classify_all in Hloop as (_ & _ & _ & _ & Hdel);
    [|apply NoDup_elements].
  split; [done|]. intros f. rewrite Hs.
  rewrite !elem_of_difference, elem_of_intersection, !elem_of_list_to_set.
  rewrite <- Hm, Hmod, Hdel, Hel. split.
  - intros [[[Hf Hw] Hnm] Hnd].
    destruct (path_exists (disk w) (cwd w) f) eqn:Ex; [|by destruct Hnd].
    split; [done|]. split; [done|]. split; [done|]. intros Hdf. by apply Hnm.
  - intros (Hf & Hw & Hx & Hnd). split; [split; [done|]|].
    + by intros (_ & _ & ?).
    + intros [_ ?]. congruence.
Qed.

Lemma status_modified_exactly_witness :
  (status a_modified).1 =
    Ok (StatusReport {[ "sub/b.txt" ]} ["a.txt"] [] ∅) ∧
  ∃ rd, index_file a_modified = Some rd ∧
    (∀ f, f ∈ ["a.txt"] ↔
          f ∈ files rd ∧
          path_exists (disk a_modified) (cwd a_modified) f = true ∧
          differs_from_latest a_modified f) ∧
    (∀ f, f ∈ (∅ : gset string) ↔
          f ∈ files rd ∧
          f ∈ working_directory_files (disk a_modified) (cwd a_modified) ∧
          path_exists (disk a_modified) (cwd a_modified) f = true ∧
          ¬ differs_from_latest a_modified f).
Proof.
  assert (H : (status a_modified).1 =
              Ok (StatusReport {[ "sub/b.txt" ]} ["a.txt"] [] ∅))
    by (vm_compute; reflexivity).
  exact (conj H (status_modified_exactly a_modified _ H)).
Defined.

(** ** A commit, its push, and what [status] sees afterwards *)

Lemma plain_join_path D ds f cs :
  plain D ds → plain f cs → plain (os_path_join D f) (ds ++ cs).
Proof.
  intros (D1 & D2 & D3 & D4 & D5) (F1 & F2 & F3 & F4 & F5).
  assert (E : os_path_join D f = D +:+ String "/" f).
  { unfold os_path_join. rewrite F2.
    destruct (String.eqb_spec D EmptyString) as [->|_]; [done|].
    simpl. by rewrite D3. }
  rewrite E. repeat split.
  - intros [? _]%append_empty_inv. done.
  - by rewrite startswith_slash_app.
  - rewrite endswith_slash_app by done. destruct f; [done|]. exact F3.
  - by rewrite split_slash_app, D4, F4.
  - apply Forall_app. by split.
Qed.

Lemma split_slash_long s :
  has_slash s = true → (2 ≤ List.length (split_slash s))%nat.
Proof.
  induction s as [|c s IH]; simpl; [done|].
  destruct (Ascii.eqb c "/"); simpl.
  - intros _. pose proof (split_slash_ne s).
    destruct (split_slash s); simpl; [done|lia].
  - intros H. specialize (IH H). destruct (split_slash s); simpl in *; lia.
Qed.

Lemma plain_top f cs :
  plain f cs → os_path_basename f = f → cs = [f] ∧ proper_name f.
Proof.
  intros Hp Hb. destruct (plain_basename _ _ Hp) as [Hpr _].
  rewrite Hb in Hpr. split; [|done].
  destruct Hp as (_ & _ & _ & <- & _).
  apply split_slash_noslash. by destruct Hpr as (_ & _ & _ & ?).
Qed.

Lemma plain_nested f cs :
  plain f cs → os_path_basename f ≠ f →
  ∃ c1 c2 rest, cs = c1 :: c2 :: rest.
Proof.
  intros Hp Hb. destruct (has_slash f) eqn:Hs.
  - apply split_slash_long in Hs. destruct Hp as (_ & _ & _ & <- & _).
    destruct (split_slash f) as [|c1 [|c2 rest]]; simpl in Hs; try lia.
    by exists c1, c2, rest.
  - destruct Hb. pose proof (basename_last f) as Hl.
    rewrite (split_slash_noslash f Hs) in Hl. simpl in Hl. congruence.
Qed.

Lemma dirs_down_app_dir fs q1 : ∀ loc q2,
  q2 ≠ [] → dirs_down fs loc (q1 ++ q2) = true → fs !! (loc ++ q1) = Some Dir.
Proof.
  induction q1 as [|a q1 IH]; intros loc q2 Hq2 Hd.
  - rewrite app_nil_r. destruct q2 as [|c q2]; [done|]. simpl in Hd.
    by destruct (fs !! loc) as [[|]|].
  - simpl in Hd. destruct (fs !! loc) as [[|]|]; try done.
    apply IH in Hd; [|done]. by rewrite <- app_assoc in Hd.
Qed.

(** The run of a commit followed by the push of that commit, in a
    repository that tracks only files. *)
Lemma commit_push_run (now stamp : datetime) (m a : string) (w : world)
    (rd : repo_data) (cfg : config) (h : list commit_meta) :
  index_file w = Some rd →
  (load_config w).1 = Ok cfg →
  journal_file w = Some h →
  directories rd = [] →
  disk w !! commits_loc (cwd w) = Some Dir →
  (∀ q, disk w !! (commits_loc (cwd w) ++ strftime_YmdHMS now :: q) = None) →
  Forall (tracked_file_there w) (files rd) →
  NoDup (os_path_basename <$> files rd) →
  "metadata.json" ∉ os_path_basename <$> files rd →
  (disk w !! latest_loc (cwd w) = Some Dir ∨
   ∀ q, disk w !! (latest_loc (cwd w) ++ q) = None) →
  ∃ w1 w',
    commit now stamp m a w = (Ok (), w1) ∧
    push (Some (strftime_YmdHMS now)) w1 = (Ok (), w') ∧
    cwd w' = cwd w ∧
    index_file w' = Some rd ∧
    (∃ e, journal_file w' = Some (h ++ [e])) ∧
    ∀ f, f ∈ files rd →
      ∃ x, node_of (disk w) (cwd w) f = Some (File x) ∧
           node_of (disk w') (cwd w') f = Some (File x) ∧
           path_exists (disk w') (cwd w') f = true ∧
           read_file f w' = (Ok x, w') ∧
           ((os_path_basename f = f ∧
             path_exists (disk w') (cwd w') (os_path_join LATEST_DIR f) = true ∧
             read_file (os_path_join LATEST_DIR f) w' = (Ok x, w')) ∨
            (os_path_basename f ≠ f ∧
             path_exists (disk w') (cwd w') (os_path_join LATEST_DIR f)
             = false)).
Proof.
  intros Hi Hcfg Hj Hdirs H2 Hfresh Hall Hnd Hmeta Hlat.
  destruct (commit_run now stamp m a w rd cfg h Hi Hcfg Hj Hdirs H2 Hfresh
              Hall Hnd Hmeta)
    as (w1 & E1 & Hc1 & [e HJ1] & Dc & Hframe1 & Hnodir & Hfiles1 & Hflat1).
  pose proof (strftime_proper now) as Hid.
  pose proof (strftime_not_latest now) as Hidl.
  set (id := strftime_YmdHMS now) in *.
  destruct (journal_file_inv _ _ Hj) as (H0 & H1 & HJ).
  unfold icvcs_loc, commits_loc, latest_loc, journal_loc in *.
  assert (Hup1 : ∀ q, (List.length q < 3)%nat →
            q ≠ [".icvcs"; "commit_history.json"] →
            disk w1 !! (cwd w ++ q) = disk w !! (cwd w ++ q)).
  { intros q Hq Hqj. apply Hframe1.
    - rewrite <- app_assoc. apply (within_short _ [_; _; _]).
      rewrite !length_app. simpl. lia.
    - intros E. by apply app_inv_head in E. }
  assert (Hlat1 : ∀ q, disk w1 !! (cwd w ++ ".icvcs" :: "commits" :: "latest" :: q)
                       = disk w !! (cwd w ++ ".icvcs" :: "commits" :: "latest" :: q)).
  { intros q. apply Hframe1.
    - rewrite <- app_assoc. cbn [app].
      replace (cwd w ++ [".icvcs"; "commits"; id])
        with ((cwd w ++ [".icvcs"; "commits"]) ++ [id])
        by (by rewrite <- app_assoc).
      replace (cwd w ++ ".icvcs" :: "commits" :: "latest" :: q)
        with ((cwd w ++ [".icvcs"; "commits"]) ++ "latest" :: q)
        by (by rewrite <- app_assoc).
      by apply within_sibling.
    - intros E. apply app_inv_head in E. done. }
  destruct (push_run id w1) as (w2 & E2 & Hc2 & HL2 & Hcopy2 & Hframe2 & _);
    try done; rewrite ?Hc1;
    unfold icvcs_loc, commits_loc, latest_loc in *.
  { specialize (Hup1 []). rewrite app_nil_r in Hup1.
    rewrite Hup1; [done|simpl; lia|done]. }
  { rewrite (Hup1 [_]); [done|simpl; lia|done]. }
  { rewrite (Hup1 [_; _]); [done|simpl; lia|done]. }
  { exact Dc. }
  { intros c q Hs.
    destruct (Hflat1 c q) as [-> Hc].
    { rewrite <- !app_assoc in Hs. rewrite <- !app_assoc.
      cbn [app] in Hs |- *. exact Hs. }
    split; [|by left]. destruct Hc as [->|Hc]; [proper_const|].
    apply list_elem_of_fmap in Hc as (f & -> & Hf).
    rewrite Forall_forall in Hall.
    destruct (Hall f Hf) as (cs & x & Hp & _).
    by destruct (plain_basename _ _ Hp). }
  { destruct Hlat as [Hl|Hl]; [left|right].
    - by rewrite (Hlat1 []).
    - intros q. rewrite <- app_assoc. cbn [app]. rewrite Hlat1.
      specialize (Hl q). by rewrite <- app_assoc in Hl. }
  rewrite Hc1 in *.
  exists w1, w2. split; [done|]. split; [done|]. split; [done|].
  assert (Hup2 : ∀ q, (List.length q < 3)%nat →
            q ≠ [".icvcs"; "commit_history.json"] →
            disk w2 !! (cwd w ++ q) = disk w !! (cwd w ++ q)).
  { intros q Hq Hqj. rewrite Hframe2; [by apply Hup1|].
    apply (within_short _ [_; _; _]). rewrite !length_app. simpl. lia. }
  assert (Hfr : ∀ k, within (cwd w ++ [".icvcs"]) k = false →
            disk w2 !! k = disk w !! k).
  { intros k Hk.
    assert (Hw : ∀ q, within (cwd w ++ ".icvcs" :: q) k = false).
    { intros q. destruct (within (cwd w ++ ".icvcs" :: q) k) eqn:E; [|done].
      rewrite <- Hk. symmetry.
      apply (within_trans _ (cwd w ++ ".icvcs" :: q)); [|done].
      apply within_icvcs. }
    rewrite Hframe2 by apply (Hw [_; _]). apply Hframe1.
    - rewrite <- app_assoc. apply (Hw [_; _]).
    - intros ->. by rewrite within_icvcs in Hk. }
  assert (D0 : disk w2 !! cwd w = Some Dir).
  { specialize (Hup2 []). rewrite app_nil_r in Hup2.
    rewrite Hup2; [done|simpl; lia|done]. }
  assert (D1 : disk w2 !! (cwd w ++ [".icvcs"]) = Some Dir).
  { rewrite (Hup2 [_]); [done|simpl; lia|done]. }
  split.
  { apply index_file_intro; rewrite ?Hc2; [done|done|].
    destruct (index_file_inv _ _ Hi) as [_ HI]. unfold index_loc in *.
    rewrite (Hup2 [_; _]); [done|simpl; lia|done]. }
  split.
  { exists e. apply journal_file_intro; rewrite ?Hc2; [done|done|].
    unfold journal_loc. rewrite Hframe2; [done|].
    apply (within_short _ [_; _; _]). rewrite !length_app. simpl. lia. }
  intros f Hf. rewrite Forall_forall in Hall.
  destruct (Hall f Hf) as (cs & x & Hp & Hh & Hd & Hl).
  exists x. split; [by rewrite (node_of_plain _ _ _ _ Hp Hd)|].
  assert (Hd2 : dirs_down (disk w2) (cwd w) cs = true).
  { rewrite <- Hd. apply dirs_down_agree. intros n. apply Hfr.
    by apply outside_icvcs. }
  assert (Hl2 : disk w2 !! (cwd w ++ cs) = Some (File x)).
  { rewrite <- Hl. pose proof (outside_icvcs (cwd w) cs (List.length cs) Hh)
      as Ho. rewrite firstn_all in Ho. by apply Hfr. }
  split.
  { by rewrite Hc2, (node_of_plain _ _ _ _ Hp Hd2). }
  split.
  { unfold path_exists. rewrite Hc2, (node_of_plain _ _ _ _ Hp Hd2), Hl2.
    by apply bool_decide_eq_true_2. }
  split.
  { apply (read_file_run f cs x w2 Hp); by rewrite Hc2. }
  assert (Hd3 : dirs_down (disk w2) (cwd w) [".icvcs"; "commits"; "latest"]
                = true).
  { apply dirs_down_3. split_and!; [done|done|].
    rewrite (Hup2 [_; _]); [done|simpl; lia|done]. }
  destruct (decide (os_path_basename f = f)) as [Hb|Hb]; [left|right].
  - destruct (plain_top _ _ Hp Hb) as [-> Hpf].
    pose proof (plain_join _ _ _ plain_latest Hpf) as Hpl.
    assert (Hdl : dirs_down (disk w2) (cwd w)
                    ([".icvcs"; "commits"; "latest"] ++ [f]) = true)
      by (by apply dirs_down_snoc).
    assert (Hll : disk w2 !! (cwd w ++ [".icvcs"; "commits"; "latest"] ++ [f])
                  = Some (File x)).
    { specialize (Hcopy2 f []). rewrite <- !app_assoc in Hcopy2.
      cbn [app] in *. rewrite Hcopy2.
      specialize (Hfiles1 f Hf). rewrite Hb, <- app_assoc in Hfiles1.
      cbn [app] in Hfiles1.
      by rewrite Hfiles1, (node_of_plain _ _ _ _ Hp Hd), Hl. }
    split; [done|]. split.
    + unfold path_exists.
      rewrite Hc2, (node_of_plain _ _ _ _ Hpl Hdl), Hll.
      by apply bool_decide_eq_true_2.
    + apply (read_file_run _ _ x w2 Hpl); by rewrite Hc2.
  - split; [done|].
    destruct (plain_nested _ _ Hp Hb) as (c1 & c2 & rest & ->).
    pose proof (plain_join_path _ _ _ _ plain_latest Hp) as Hpl.
    unfold path_exists, node_of.
    destruct (resolve (disk w2) (cwd w2) (os_path_join LATEST_DIR f))
      as [e'|l] eqn:Er; [by apply bool_decide_eq_false_2; intros [? ?]|].
    apply (resolve_plain _ _ _ _ _ Hpl) in Er as [_ Hdd]. rewrite Hc2 in Hdd.
    change ([".icvcs"; "commits"; "latest"] ++ c1 :: c2 :: rest)
      with ([".icvcs"; "commits"; "latest"; c1] ++ c2 :: rest) in Hdd.
    apply dirs_down_app_dir in Hdd; [|done].
    specialize (Hcopy2 c1 []). rewrite <- !app_assoc in Hcopy2.
    cbn [app] in Hcopy2. rewrite Hcopy2 in Hdd.
    specialize (Hnodir c1). rewrite <- app_assoc in Hnodir. by cbn [app] in *.
Qed.

(** A commit followed by the push of that commit. The index, the
    configuration and the journal load; the index tracks no directory;
    every tracked path is a relative path of proper names (so without
    [.] or [..]) that does not start in [.icvcs] and leads to a regular
    file; the base names of the tracked paths differ from one another
    and from [metadata.json]; nothing is stored under the identifier of
    the commit; [latest] is a directory or is not there. Then the two
    calls succeed and every tracked file is still there; a tracked file
    then differs from [latest], as [status] looks at it, exactly when it
    is tracked under a path with a directory part: the commit stores it
    under its base name, and [status] looks for it under its path. *)
Theorem commit_push_status (now stamp : datetime) (m a : string) (w : world)
    (rd : repo_data) (cfg : config) (h : list commit_meta) :
  index_file w = Some rd →
  (load_config w).1 = Ok cfg →
  journal_file w = Some h →
  directories rd = [] →
  disk w !! commits_loc (cwd w) = Some Dir →
  (∀ q, disk w !! (commits_loc (cwd w) ++ strftime_YmdHMS now :: q) = None) →
  Forall (tracked_file_there w) (files rd) →
  NoDup (os_path_basename <$> files rd) →
  "metadata.json" ∉ os_path_basename <$> files rd →
  (disk w !! latest_loc (cwd w) = Some Dir ∨
   ∀ q, disk w !! (latest_loc (cwd w) ++ q) = None) →
  ∃ w',
    (commit now stamp m a ;; push (Some (strftime_YmdHMS now))) w
      = (Ok (), w') ∧
    ∀ f, f ∈ files rd →
         path_exists (disk w') (cwd w') f = true ∧
         (differs_from_latest w' f ↔ os_path_basename f ≠ f).
Proof.
  intros Hi Hcfg Hj Hdirs H2 Hfresh Hall Hnd Hmeta Hlat.
  destruct (commit_push_run now stamp m a w rd cfg h Hi Hcfg Hj Hdirs H2
              Hfresh Hall Hnd Hmeta Hlat)
    as (w1 & w2 & E1 & E2 & Hc2 & _ & _ & Hfiles).
  exists w2. split; [by rewrite bind_run, E1|].
  intros f Hf. destruct (Hfiles f Hf) as (x & _ & _ & Hex & Hrd & Hcase).
  split; [done|]. unfold differs_from_latest. cbv zeta.
  change (os_path_join (os_path_join ICVCS_DIR "commits") "latest")
    with LATEST_DIR.
  destruct Hcase as [(Hb & Hel & Hrl)|(Hb & Hel)].
  - split; [|done]. intros [Hn|Hn]; [congruence|].
    rewrite Hrd, Hrl in Hn. by destruct Hn.
  - split; [done|]. intros _. by left.
Qed.

Lemma commit_push_status_witness :
  index_file tracking_nested
    = Some (RepoData "demo" ["a.txt"; "sub/b.txt"] [] []) ∧
  Forall (tracked_file_there tracking_nested) ["a.txt"; "sub/b.txt"] ∧
  ∃ w',
    (commit t0 t1 "" "" ;; push (Some (strftime_YmdHMS t0))) tracking_nested
      = (Ok (), w') ∧
    ∀ f, f ∈ ["a.txt"; "sub/b.txt"] →
         path_exists (disk w') (cwd w') f = true ∧
         (differs_from_latest w' f ↔ os_path_basename f ≠ f).
Proof.
  assert (Hi : index_file tracking_nested
               = Some (RepoData "demo" ["a.txt"; "sub/b.txt"] [] []))
    by (vm_compute; reflexivity).
  assert (Hcfg : (load_config tracking_nested).1
                 = Ok (Config "me" "No description provided" ""))
    by (vm_compute; reflexivity).
  assert (Hj : journal_file tracking_nested = Some [])
    by (vm_compute; reflexivity).
  assert (H2 : disk tracking_nested !! commits_loc (cwd tracking_nested)
               = Some Dir) by (vm_compute; reflexivity).
  assert (Hl : disk tracking_nested !! latest_loc (cwd tracking_nested)
               = Some Dir ∨
               ∀ q, disk tracking_nested
                      !! (latest_loc (cwd tracking_nested) ++ q) = None)
    by (left; vm_compute; reflexivity).
  pose proof tracking_nested_files as Hall.
  destruct tracking_nested_names as [Hnd Hm].
  exact (conj Hi (conj Hall
           (commit_push_status t0 t1 "" "" tracking_nested
              (RepoData "demo" ["a.txt"; "sub/b.txt"] [] [])
              (Config "me" "No description provided" "") []
              Hi Hcfg Hj eq_refl H2 tracking_nested_fresh Hall Hnd Hm Hl))).
Defined.

(** ** C3: one push after another *)

(** C3: [push(idA)] followed by [push(idB)], for two stored commits in a
    repository whose [latest] is a directory or is not there. Both calls
    succeed, and afterwards [latest] is a directory that holds, path by
    path, exactly what the directory of commit [idB] holds: whatever the
    first push brought from [idA] and [idB] does not have is gone.
    Nothing outside [latest] has changed. *)
Theorem push_replaces_wholesale (idA idB : string) (w : world) :
  proper_name idA → proper_name idB → idA ≠ "latest" → idB ≠ "latest" →
  disk w !! cwd w = Some Dir →
  disk w !! icvcs_loc (cwd w) = Some Dir →
  disk w !! commits_loc (cwd w) = Some Dir →
  disk w !! (commits_loc (cwd w) ++ [idA]) = Some Dir →
  disk w !! (commits_loc (cwd w) ++ [idB]) = Some Dir →
  tidy_below (disk w) (commits_loc (cwd w) ++ [idA]) →
  tidy_below (disk w) (commits_loc (cwd w) ++ [idB]) →
  (disk w !! latest_loc (cwd w) = Some Dir ∨
   ∀ q, disk w !! (latest_loc (cwd w) ++ q) = None) →
  ∃ w',
    (push (Some idA) ;; push (Some idB)) w = (Ok (), w') ∧
    disk w' !! latest_loc (cwd w) = Some Dir ∧
    (∀ i q, disk w' !! (latest_loc (cwd w) ++ i :: q)
            = disk w !! (commits_loc (cwd w) ++ idB :: i :: q)) ∧
    (∀ k, within (latest_loc (cwd w)) k = false → disk w' !! k = disk w !! k).
Proof.
  intros HA HB HAl HBl H0 H1 H2 H3A H3B HtA HtB Hlat.
  destruct (push_run idA w HA HAl H0 H1 H2 H3A HtA Hlat)
    as (w1 & E1 & Hc1 & HL1 & _ & Hframe1 & _).
  assert (Hout : ∀ q, disk w1 !! (commits_loc (cwd w) ++ idB :: q)
                      = disk w !! (commits_loc (cwd w) ++ idB :: q)).
  { intros q. apply Hframe1. unfold latest_loc, commits_loc.
    replace (cwd w ++ [".icvcs"; "commits"; "latest"])
      with ((cwd w ++ [".icvcs"; "commits"]) ++ ["latest"])
      by (by rewrite <- app_assoc).
    apply within_sibling. congruence. }
  assert (Hup : ∀ q, (List.length q < 3)%nat →
            disk w1 !! (cwd w ++ q) = disk w !! (cwd w ++ q)).
  { intros q Hq. apply Hframe1. unfold latest_loc.
    apply (within_short _ [_; _; _]). rewrite !length_app. simpl. lia. }
  destruct (push_run idB w1) as (w2 & E2 & Hc2 & HL2 & Hcopy2 & Hframe2 & _);
    try done; rewrite ?Hc1.
  { specialize (Hup []). rewrite app_nil_r in Hup. rewrite Hup; [done|].
    simpl. lia. }
  { unfold icvcs_loc in *. rewrite (Hup [_]); [done|simpl; lia]. }
  { unfold commits_loc in *. rewrite (Hup [_; _]); [done|simpl; lia]. }
  { by rewrite (Hout []). }
  { intros c q Hs. rewrite <- app_assoc in Hs. cbn [app] in Hs.
    rewrite Hout in Hs. destruct (HtB c q) as [Hp Hq].
    { by rewrite <- app_assoc. }
    split; [done|]. destruct Hq as [->|Hq]; [by left|right].
    rewrite <- app_assoc in Hq |- *. cbn [app] in Hq |- *.
    by rewrite (Hout [c]). }
  { by left. }
  rewrite Hc1 in *. exists w2. split; [by rewrite bind_run, E1|].
  split; [done|]. split.
  - intros i q. rewrite Hcopy2. apply (Hout (i :: q)).
  - intros k Hk. by rewrite Hframe2, Hframe1.
Qed.

Lemma push_replaces_wholesale_witness :
  disk two_commits !! (commits_loc (cwd two_commits)
                       ++ ["20240102030406"; "sub"; "b.txt"])
    = Some (File (Bytes "bb")) ∧
  disk two_commits !! (commits_loc (cwd two_commits)
                       ++ ["20240102030405"; "sub"; "b.txt"]) = None ∧
  tidy_below (disk two_commits)
    (commits_loc (cwd two_commits) ++ ["20240102030406"]) ∧
  tidy_below (disk two_commits)
    (commits_loc (cwd two_commits) ++ ["20240102030405"]) ∧
  ∃ w',
    (push (Some "20240102030406") ;; push (Some "20240102030405")) two_commits
      = (Ok (), w') ∧
    disk w' !! latest_loc (cwd two_commits) = Some Dir ∧
    (∀ i q, disk w' !! (latest_loc (cwd two_commits) ++ i :: q)
            = disk two_commits
                !! (commits_loc (cwd two_commits)
                    ++ "20240102030405" :: i :: q)) ∧
    (∀ k, within (latest_loc (cwd two_commits)) k = false →
          disk w' !! k = disk two_commits !! k).
Proof.
  assert (Ha : disk two_commits !! (commits_loc (cwd two_commits)
                                    ++ ["20240102030406"; "sub"; "b.txt"])
               = Some (File (Bytes "bb"))) by (vm_compute; reflexivity).
  assert (Hb : disk two_commits !! (commits_loc (cwd two_commits)
                                    ++ ["20240102030405"; "sub"; "b.txt"])
               = None) by (vm_compute; reflexivity).
  assert (HA : proper_name "20240102030406") by (by apply proper_name_spec).
  assert (HB : proper_name "20240102030405") by (by apply proper_name_spec).
  assert (HAl : "20240102030406" ≠ "latest") by discriminate.
  assert (HBl : "20240102030405" ≠ "latest") by discriminate.
  assert (H0 : disk two_commits !! cwd two_commits = Some Dir)
    by (vm_compute; reflexivity).
  assert (H1 : disk two_commits !! icvcs_loc (cwd two_commits) = Some Dir)
    by (vm_compute; reflexivity).
  assert (H2 : disk two_commits !! commits_loc (cwd two_commits) = Some Dir)
    by (vm_compute; reflexivity).
  assert (H3A : disk two_commits !! (commits_loc (cwd two_commits)
                                     ++ ["20240102030406"]) = Some Dir)
    by (vm_compute; reflexivity).
  assert (H3B : disk two_commits !! (commits_loc (cwd two_commits)
                                     ++ ["20240102030405"]) = Some Dir)
    by (vm_compute; reflexivity).
  assert (HtA : tidy_below (disk two_commits)
                  (commits_loc (cwd two_commits) ++ ["20240102030406"]))
    by (apply tidy_below_check; vm_compute; reflexivity).
  assert (HtB : tidy_below (disk two_commits)
                  (commits_loc (cwd two_commits) ++ ["20240102030405"]))
    by (apply tidy_below_check; vm_compute; reflexivity).
  assert (Hl : disk two_commits !! latest_loc (cwd two_commits) = Some Dir ∨
               ∀ q, disk two_commits
                      !! (latest_loc (cwd two_commits) ++ q) = None)
    by (left; vm_compute; reflexivity).
  exact (conj Ha (conj Hb (conj HtA (conj HtB
           (push_replaces_wholesale _ _ two_commits HA HB HAl HBl H0 H1 H2
              H3A H3B HtA HtB Hl))))).
Defined.

(** ** C9: snapshots are flat *)









